(** * zod-factory: the schema-driven mock synthesis engine

    A shallow embedding of [zod-mock/mod.ts] (the recursive entry point
    [generateMock], the depth guard [depthControlled], the per-type
    synthesizers and the dispatch registry [workerMap]), of the default
    mapper of [zod-mockery-map.ts] and of [factory/mod.ts] (the LRU cache and
    the factory), together with the properties that the specification states
    about them and further properties that the code shows.

    Conventions of the embedding.
    - JavaScript numbers that the engine handles (lengths, depths, counts,
      time values in milliseconds) are integers, modelled as [Z].  A Date is
      given by its time value, at most 8.64e15 milliseconds either side of
      the epoch; beyond that range it is the Invalid Date.  The bounds of a
      bigint node are BigInts, which Faker's [number.int] does not accept.
    - An optional property of an options object is an [option]: [None] is an
      absent key.
    - The engine is effectful: it draws from Faker instances (shared, mutable
      objects passed by reference), reads the clock, writes to the console and
      may throw.  All of this is explicit state passing in the monad [M].
    - Recursion through [lazy] schemas and the [while] loops of the set and map
      synthesizers need not terminate; the embedding is indexed by fuel and
      running out of fuel is the outcome [Diverge].
    - The Faker library, RandExp and the date formatting of the host are not
      part of the repository; they are the operations of the class [Env].
      Zod's validation is the operation of the class [Validator].
    - Functions supplied by the caller (backup mocks, string generators,
      transforms, default thunks, lazy getters, a custom mockery mapper) are
      named by handles and interpreted by the record [Callbacks].
    - Objects are lists of properties in insertion order; sets and maps are
      lists of distinct members.  (JavaScript lists the integer-like keys of
      an object first, in ascending order: no property below depends on the
      place of such a key.)  The objects that the engine builds are new
      references, and as keys of a set or a map they are pairwise distinct.

    Layout: schema nodes, options and values; the state monad; the Faker
    interface; the engine; a concrete environment [Sample]; the cache and
    the factory; then the properties, each with the claim of the
    specification it settles, and concrete runs; then the further
    properties and their concrete runs. *)

From Stdlib Require Import ZArith String Ascii List Bool Lia.
From stdpp Require Import base option list strings gmap pretty.

Local Open Scope Z_scope.
Set Warnings "-register-all".

(** ** JavaScript string helpers *)

Module Js.

Definition lower_ascii (c : ascii) : ascii :=
  let n := nat_of_ascii c in
  if ((65 <=? n) && (n <=? 90))%nat then ascii_of_nat (n + 32) else c.

Definition upper_ascii (c : ascii) : ascii :=
  let n := nat_of_ascii c in
  if ((97 <=? n) && (n <=? 122))%nat then ascii_of_nat (n - 32) else c.

Fixpoint map_string (f : ascii -> ascii) (s : string) : string :=
  match s with
  | EmptyString => EmptyString
  | String c s' => String (f c) (map_string f s')
  end.

(** [String.prototype.toLowerCase] and [toUpperCase] on ASCII text. *)
Definition toLowerCase : string -> string := map_string lower_ascii.
Definition toUpperCase : string -> string := map_string upper_ascii.

(** [s.replace(/_|-/g, '')]. *)
Fixpoint strip_dashes_underscores (s : string) : string :=
  match s with
  | EmptyString => EmptyString
  | String c s' =>
      if (Ascii.eqb c "_" || Ascii.eqb c "-")%bool
      then strip_dashes_underscores s'
      else String c (strip_dashes_underscores s')
  end.

(** The first [n] characters of [s]. *)
Fixpoint take (n : nat) (s : string) : string :=
  match n, s with
  | O, _ => EmptyString
  | S n', String c s' => String c (take n' s')
  | S _, EmptyString => EmptyString
  end.

(** [s.slice(0, end)]: [end] absent keeps the whole string, a negative
    [end] counts from the end of the string. *)
Definition slice0 (s : string) (e : option Z) : string :=
  match e with
  | None => s
  | Some e =>
      if e <? 0
      then take (Z.to_nat (Z.of_nat (String.length s) + e)) s
      else take (Z.to_nat e) s
  end.

End Js.

(** ** Schema nodes *)

(** Handles of caller-supplied functions. *)
Definition fnid := nat.

(** Primitive values carried by [literal] and [nativeEnum] nodes. *)
Inductive literal :=
| LStr (s : string)
| LNum (n : Z)
| LBool (b : bool)
| LNull
| LUndefined.

(** One entry of [_def.checks]: [{ kind, value, regex }]. *)
Record check (V : Type) := Check {
  kind : string;
  value : V;
  regex : option string;
}.
Arguments Check {V} _ _ _.
Arguments kind {V} _.
Arguments value {V} _.
Arguments regex {V} _.

(** What the [value] of a date check can hold. *)
Inductive date_value :=
| DateObj (t : Z)          (* a Date instance, by its time value; a time
                              value that no Date has: the Invalid Date *)
| DateNum (n : Z)          (* a number *)
| DateNaN                  (* the number NaN *)
| DateOther.               (* anything else *)

(** [_def.effect] of a [ZodEffects] node. *)
Inductive effect :=
| Refinement
| Preprocess
| Transform (f : fnid).

Inductive schema :=
| ZodObject (shape : list (string * schema))
| ZodRecord (keySchema valueSchema : schema)
| ZodArray (element : schema) (minLength maxLength exactLength : option Z)
| ZodSet (valueType : schema) (minSize maxSize : option Z)
| ZodMap (keyType valueType : schema)
| ZodLazy (getter : fnid)
| ZodUnion (alternatives : list schema)
| ZodIntersection (left right : schema)
| ZodDiscriminatedUnion (alternatives : list schema)
| ZodOptional (innerType : schema)
| ZodNullable (innerType : schema)
| ZodEffects (inner : schema) (eff : effect)
| ZodFunction (returns : schema)
| ZodPromise (inner : schema)
| ZodTuple (items : list schema) (rest : option schema)
| ZodString (checks : list (check (option Z)))
| ZodNumber (checks : list (check (option Z)))
| ZodBigInt (checks : list (check (option Z)))   (* the values are BigInts *)
| ZodBoolean
| ZodDate (checks : list (check date_value))
| ZodEnum (values : list string)
| ZodNativeEnum (values : list literal)
| ZodLiteral (lit : literal)
| ZodBranded (inner : schema)
| ZodNull
| ZodNaN
| ZodDefault (innerType : schema) (defaultValue : fnid)
| ZodVoid
| ZodUndefined
| ZodUuid
| ZodOther (tag : string).

(** [schema._def.typeName].  [ZodOther] stands for every node whose tag is
    not one of the tags above ([ZodAny], [ZodUnknown], [ZodNever], ...). *)
Definition typeName (s : schema) : string :=
  match s with
  | ZodObject _ => "ZodObject"
  | ZodRecord _ _ => "ZodRecord"
  | ZodArray _ _ _ _ => "ZodArray"
  | ZodSet _ _ _ => "ZodSet"
  | ZodMap _ _ => "ZodMap"
  | ZodLazy _ => "ZodLazy"
  | ZodUnion _ => "ZodUnion"
  | ZodIntersection _ _ => "ZodIntersection"
  | ZodDiscriminatedUnion _ => "ZodDiscriminatedUnion"
  | ZodOptional _ => "ZodOptional"
  | ZodNullable _ => "ZodNullable"
  | ZodEffects _ _ => "ZodEffects"
  | ZodFunction _ => "ZodFunction"
  | ZodPromise _ => "ZodPromise"
  | ZodTuple _ _ => "ZodTuple"
  | ZodString _ => "ZodString"
  | ZodNumber _ => "ZodNumber"
  | ZodBigInt _ => "ZodBigInt"
  | ZodBoolean => "ZodBoolean"
  | ZodDate _ => "ZodDate"
  | ZodEnum _ => "ZodEnum"
  | ZodNativeEnum _ => "ZodNativeEnum"
  | ZodLiteral _ => "ZodLiteral"
  | ZodBranded _ => "ZodBranded"
  | ZodNull => "ZodNull"
  | ZodNaN => "ZodNaN"
  | ZodDefault _ _ => "ZodDefault"
  | ZodVoid => "ZodVoid"
  | ZodUndefined => "ZodUndefined"
  | ZodUuid => "ZodUuid"
  | ZodOther t => t
  end.

(** ** Options and generated values *)

(** The [seed] option: a number or a sequence of numbers. *)
Inductive seed_value :=
| SeedNumber (n : Z)
| SeedArray (ns : list Z).

(** [GenerateMockOptions].  [faker] is a reference into the store of Faker
    instances; reference [0] is the module-level [faker] singleton. *)
Record GenerateMockOptions := {
  keyName : option string;
  stringMap : option (gmap string fnid);
  mockeryMapper : option fnid;
  backupMocks : option (gmap string fnid);
  recordKeysLength : option Z;
  mapEntriesLength : option Z;
  throwOnUnknownType : option bool;
  seed : option seed_value;
  faker : option nat;
  currentDepth : option Z;
  maxDepth : option Z;
}.

(** [options = {}]. *)
Definition no_options : GenerateMockOptions :=
  {| keyName := None; stringMap := None; mockeryMapper := None;
     backupMocks := None; recordKeysLength := None; mapEntriesLength := None;
     throwOnUnknownType := None; seed := None; faker := None;
     currentDepth := None; maxDepth := None |}.

Definition set_keyName (k : string) (o : GenerateMockOptions) :=
  {| keyName := Some k; stringMap := stringMap o;
     mockeryMapper := mockeryMapper o; backupMocks := backupMocks o;
     recordKeysLength := recordKeysLength o;
     mapEntriesLength := mapEntriesLength o;
     throwOnUnknownType := throwOnUnknownType o; seed := seed o;
     faker := faker o; currentDepth := currentDepth o;
     maxDepth := maxDepth o |}.

Definition set_faker (r : nat) (o : GenerateMockOptions) :=
  {| keyName := keyName o; stringMap := stringMap o;
     mockeryMapper := mockeryMapper o; backupMocks := backupMocks o;
     recordKeysLength := recordKeysLength o;
     mapEntriesLength := mapEntriesLength o;
     throwOnUnknownType := throwOnUnknownType o; seed := seed o;
     faker := Some r; currentDepth := currentDepth o;
     maxDepth := maxDepth o |}.

Definition set_depths (cur mx : Z) (o : GenerateMockOptions) :=
  {| keyName := keyName o; stringMap := stringMap o;
     mockeryMapper := mockeryMapper o; backupMocks := backupMocks o;
     recordKeysLength := recordKeysLength o;
     mapEntriesLength := mapEntriesLength o;
     throwOnUnknownType := throwOnUnknownType o; seed := seed o;
     faker := faker o; currentDepth := Some cur;
     maxDepth := Some mx |}.

(** Generated values.  A function value is the closure built by
    [parseZodFunction]: it captures the return schema and the options.  A
    Date is [VDate t], with its time value [t], or the Invalid Date. *)
Inductive val :=
| VUndefined
| VNull
| VNaN
| VNum (n : Z)
| VBool (b : bool)
| VStr (s : string)
| VDate (t : Z)
| VInvalidDate
| VArr (elems : list val)
| VObj (props : list (string * val))
| VSet (elems : list val)
| VMap (entries : list (val * val))
| VFun (returns : schema) (opts : GenerateMockOptions)
| VPromise (v : val)
| VAssigned (target source : val).

Definition val_of_literal (l : literal) : val :=
  match l with
  | LStr s => VStr s
  | LNum n => VNum n
  | LBool b => VBool b
  | LNull => VNull
  | LUndefined => VUndefined
  end.

(** ** Errors, outcomes and the external libraries *)

(** What a [throw] carries: the engine's own [ZodMockError] (by its message)
    or any other fault (a [FakerError], a [TypeError], a [RangeError], whatever
    a caller's function throws). *)
Inductive error :=
| ZodMockError (message : string)
| Fault (description : string).

Definition is_ZodMockError (e : error) : bool :=
  match e with ZodMockError _ => true | Fault _ => false end.

Inductive outcome (A : Type) :=
| Ret (a : A)
| Throw (e : error)
| Diverge.
Arguments Ret {A} _.
Arguments Throw {A} _.
Arguments Diverge {A}.

(** A member of a Faker module, as [findMatchingFaker] sees it through
    reflection: not a function, or a function that, called without arguments,
    reads the clock, draws from the generator state and returns a value or
    throws. *)
Inductive member (rng : Type) :=
| NotAFunction
| Fn (call : Z -> rng -> outcome val * rng).
Arguments NotAFunction {rng}.
Arguments Fn {rng} _.

(** The named string generators that [parseString] reads off the Faker
    instance. *)
Inductive text_kind :=
| InternetEmail
| StringUuid
| InternetUrl
| PersonFullName
| InternetColor
| PhoneNumber.

(** The operations of the libraries the engine is built on.  [rng] is the
    state of one Faker instance; every generator is a function of that state.
    The laws are the documented contract of [number.int] (the result lies
    within the requested bounds) and what is known of [string.alpha]: the
    string it returns has the requested length; it returns one for every
    length up to [alpha_limit], the longest string the host is known to
    build; and it throws a [RangeError] for a length of [2^32] or more,
    since Faker fills an array of that length first. *)
Class Env := {
  rng : Type;
  (** the state [faker.seed(s)] installs *)
  seed_rng : seed_value -> rng;
  (** a uniform integer in [lo, hi], for [lo <= hi] *)
  rand_int : Z -> Z -> rng -> Z * rng;
  rand_int_range : forall lo hi r,
    lo <= hi -> lo <= fst (rand_int lo hi r) <= hi;
  (** [datatype.boolean()] *)
  rand_bool : rng -> bool * rng;
  (** [string.alpha({ length })]: the string, or [None] for a [RangeError] *)
  rand_alpha : Z -> rng -> option string * rng;
  rand_alpha_length : forall n r s,
    fst (rand_alpha n r) = Some s -> String.length s = Z.to_nat n;
  alpha_limit : Z;
  rand_alpha_returns : forall n r,
    n <= alpha_limit -> fst (rand_alpha n r) <> None;
  rand_alpha_range : forall n r,
    4294967296 <= n -> fst (rand_alpha n r) = None;
  (** [lorem.word()] and [lorem.word({ length })] *)
  rand_word : option Z -> rng -> string * rng;
  (** [internet.email()], [string.uuid()], ... *)
  rand_text : text_kind -> rng -> string * rng;
  (** [new RandExp(regex)] with [randInt] drawing from the instance and
      [max] set when given, then [gen()] *)
  randexp_gen : string -> option Z -> rng -> string * rng;
  (** [Object.keys(fakerInstance)] with, for each module, its own members in
      key order *)
  catalog : list (string * list (string * member rng));
  (** [Date.prototype.toISOString] and [Date.prototype.toString] *)
  toISOString : Z -> string;
  date_toString : Z -> string;
}.

(** Functions supplied by the caller, by handle.  They run on the
    caller-visible part of the state and may throw or diverge. *)
Record Callbacks (H : Type) := {
  (** [backupMocks[tag](schema, options)] *)
  backup_fn : fnid -> schema -> GenerateMockOptions -> H -> outcome val * H;
  (** [stringMap[keyName]()] *)
  string_fn : fnid -> H -> outcome val * H;
  (** [mockeryMapper(keyName, fakerInstance)]: the generator it returns,
      if any *)
  mapper_fn : fnid -> string -> nat -> H -> outcome (option fnid) * H;
  (** a generator returned by the caller's mockery mapper *)
  mapped_fn : fnid -> H -> outcome val * H;
  (** [effect.transform(input, ctx)] *)
  transform_fn : fnid -> val -> H -> outcome val * H;
  (** [_def.defaultValue()] *)
  default_fn : fnid -> H -> outcome val * H;
  (** [_def.getter()] *)
  getter_fn : fnid -> schema;
}.
Arguments backup_fn {H} _ _ _ _ _.
Arguments string_fn {H} _ _ _.
Arguments mapper_fn {H} _ _ _ _ _.
Arguments mapped_fn {H} _ _ _.
Arguments transform_fn {H} _ _ _.
Arguments default_fn {H} _ _.
Arguments getter_fn {H} _ _.

(** ** State *)

Inductive log_entry :=
| LogError (e : error)             (* console.error(err) *)
| LogDateError (e : error)         (* console.error('Error generating date:', error) *)
| LogInvalidDate (k : string).     (* console.warn(`Invalid ${kind} date value: ...`) *)

Section State.
Context {E : Env}.

(** The state a caller can observe: the store of Faker instances
    ([fakers 0] is the module-level singleton), the allocation counter, the
    initial states of instances still to be created, the clock and the
    console. *)
Record heap := {
  fakers : nat -> rng;
  next_faker : nat;
  entropy : nat -> rng;
  now : Z;
  console : list log_entry;
}.

(** The state of a run: the heap and a ghost trace of the registry keys
    under which the engine invoked a backup mock. *)
Record world := {
  user : heap;
  backup_calls : list string;
}.

Definition M (A : Type) : Type := world -> outcome A * world.

Definition ret {A} (a : A) : M A := fun w => (Ret a, w).
Definition throw {A} (e : error) : M A := fun w => (Throw e, w).
Definition diverge {A} : M A := fun w => (Diverge, w).

Definition bind {A B} (m : M A) (k : A -> M B) : M B :=
  fun w =>
    match m w with
    | (Ret a, w') => k a w'
    | (Throw e, w') => (Throw e, w')
    | (Diverge, w') => (Diverge, w')
    end.

(** [try { m } catch (err) { h(err) }]. *)
Definition try_catch {A} (m : M A) (h : error -> M A) : M A :=
  fun w =>
    match m w with
    | (Throw e, w') => h e w'
    | r => r
    end.

Definition set_user (h : heap) (w : world) : world :=
  {| user := h; backup_calls := backup_calls w |}.

Definition update_faker (r : nat) (s : rng) (h : heap) : heap :=
  {| fakers := fun r' => if Nat.eqb r' r then s else fakers h r';
     next_faker := next_faker h; entropy := entropy h; now := now h;
     console := console h |}.

(** One draw from the Faker instance [r]. *)
Definition draw {A} (r : nat) (f : rng -> A * rng) : M A :=
  fun w =>
    let (a, s) := f (fakers (user w) r) in
    (Ret a, set_user (update_faker r s (user w)) w).

(** A call of a member of the Faker instance [r]: it may throw. *)
Definition call_member {A} (r : nat) (f : Z -> rng -> outcome A * rng)
  : M A :=
  fun w =>
    let (a, s) := f (now (user w)) (fakers (user w) r) in
    (a, set_user (update_faker r s (user w)) w).

(** [new Faker({ locale: [en] })]. *)
Definition new_Faker : M nat :=
  fun w =>
    let h := user w in
    let r := next_faker h in
    (Ret r,
     set_user {| fakers := fun r' => if Nat.eqb r' r then entropy h r
                                     else fakers h r';
                 next_faker := S r; entropy := entropy h; now := now h;
                 console := console h |} w).

(** [fakerInstance.seed(s)]. *)
Definition faker_seed (r : nat) (s : seed_value) : M unit :=
  fun w => (Ret tt, set_user (update_faker r (seed_rng s) (user w)) w).

Definition get_now : M Z := fun w => (Ret (now (user w)), w).

(** A step without effect on the state that returns or throws. *)
Definition lift_outcome {A} (r : outcome A) : M A := fun w => (r, w).

Definition console_log (l : log_entry) : M unit :=
  fun w =>
    let h := user w in
    (Ret tt,
     set_user {| fakers := fakers h; next_faker := next_faker h;
                 entropy := entropy h; now := now h;
                 console := console h ++ [l] |} w).

(** Ghost step: the engine is about to invoke [backupMocks[key]]. *)
Definition record_backup_call (key : string) : M unit :=
  fun w => (Ret tt, {| user := user w;
                       backup_calls := backup_calls w ++ [key] |}).

(** A caller's function runs on the heap. *)
Definition call_user {A} (f : heap -> outcome A * heap) : M A :=
  fun w => let (a, h) := f (user w) in (a, set_user h w).

End State.

Notation "'let*' x := c1 'in' c2" := (bind c1 (fun x => c2))
  (at level 10, x name, c1 at level 100, c2 at level 200).

(** ** JavaScript value helpers *)

Fixpoint assoc {A} (k : string) (l : list (string * A)) : option A :=
  match l with
  | [] => None
  | (k', a) :: l' => if String.eqb k' k then Some a else assoc k l'
  end.

(** [{ ...props, [k]: v }]: an existing property keeps its place. *)
Fixpoint obj_set (k : string) (v : val) (props : list (string * val))
  : list (string * val) :=
  match props with
  | [] => [(k, v)]
  | (k', v') :: ps =>
      if String.eqb k' k then (k, v) :: ps else (k', v') :: obj_set k v ps
  end.

(** The key comparison of [Set] and [Map].  Primitives compare by value.
    Every object the engine builds is a new reference, so two generated
    objects are never the same key. *)
Definition sameValueZero (a b : val) : bool :=
  match a, b with
  | VUndefined, VUndefined => true
  | VNull, VNull => true
  | VNaN, VNaN => true
  | VNum x, VNum y => x =? y
  | VBool x, VBool y => Bool.eqb x y
  | VStr x, VStr y => String.eqb x y
  | _, _ => false
  end.

(** [set.add(v)]. *)
Definition set_add (v : val) (elems : list val) : list val :=
  if existsb (sameValueZero v) elems then elems else elems ++ [v].

(** [map.set(k, v)]. *)
Fixpoint map_set (k v : val) (entries : list (val * val))
  : list (val * val) :=
  match entries with
  | [] => [(k, v)]
  | (k', v') :: es =>
      if sameValueZero k' k then (k', v) :: es else (k', v') :: map_set k v es
  end.

Section Values.
Context {E : Env}.

Definition join_with (sep : string) (l : list string) : string :=
  match l with
  | [] => ""
  | x :: xs => fold_left (fun acc y => acc +:+ sep +:+ y) xs x
  end.

(** The abstract operation [ToString]. *)
Fixpoint js_string_of (v : val) : string :=
  match v with
  | VUndefined => "undefined"
  | VNull => "null"
  | VNaN => "NaN"
  | VNum n => pretty n
  | VBool true => "true"
  | VBool false => "false"
  | VStr s => s
  | VDate t => date_toString t
  | VInvalidDate => "Invalid Date"
  | VArr l =>
      join_with ","
        (map (fun x => match x with
                       | VUndefined | VNull => ""
                       | _ => js_string_of x
                       end) l)
  | VObj _ => "[object Object]"
  | VSet _ => "[object Set]"
  | VMap _ => "[object Map]"
  | VFun _ _ => "function zodMockFunction() { ... }"
  | VPromise _ => "[object Promise]"
  | VAssigned t _ => js_string_of t
  end.

(** [typeof mock === 'string' || typeof mock === 'number' ||
    typeof mock === 'boolean' || mock instanceof Date]. *)
Definition is_primitive_mock (v : val) : bool :=
  match v with
  | VStr _ | VNum _ | VNaN | VBool _ | VDate _ | VInvalidDate => true
  | _ => false
  end.

(** [Object.assign(target, source)], returning the target. *)
Definition object_assign (target source : val) : outcome val :=
  match target with
  | VUndefined | VNull =>
      Throw (Fault "TypeError: Cannot convert undefined or null to object")
  | _ =>
      match source with
      | VUndefined | VNull | VNaN | VNum _ | VBool _ | VDate _
      | VInvalidDate | VSet _ | VMap _ | VFun _ _ | VPromise _ =>
          match target with
          | VNaN | VNum _ | VBool _ | VStr _ => Ret (VAssigned target source)
          | _ => Ret target
          end
      | VObj sp =>
          match target with
          | VObj tp =>
              Ret (VObj (fold_left (fun acc kv => obj_set (fst kv) (snd kv) acc)
                           sp tp))
          | _ => Ret (VAssigned target source)
          end
      | _ => Ret (VAssigned target source)
      end
  end.

End Values.

(** ** The Faker interface, as the engine calls it

    The calls of the Faker library that the engine makes, following the
    documented behaviour of the library, on top of the primitive draws of
    [Env]. *)

Definition MAX_SAFE_INTEGER : Z := 9007199254740991.

(** A value of type [FakerFunction], a generator bound to a Faker instance. *)
Inductive FakerFunction :=
| DefaultGenerator (targetStringLength : Z)
| DateGenerator
| TextGenerator (k : text_kind)
| MemberGenerator (section name : string)
| MappedGenerator (f : fnid)
| ObjectConstructor        (* the function [Object] *)
| ObjectPrototype.         (* the object [Object.prototype], not a function *)

Section FakerApi.
Context {E : Env}.

(** [fakerInstance.number.int({ min, max })]. *)
Definition number_int (r : nat) (mn mx : option Z) : M Z :=
  let lo := default 0 mn in
  let hi := default MAX_SAFE_INTEGER mx in
  if hi <? lo
  then throw (Fault "FakerError: Max should be greater than min")
  else draw r (rand_int lo hi).

(** [fakerInstance.helpers.arrayElement(array)]. *)
Definition helpers_arrayElement {A} (r : nat) (l : list A) : M A :=
  match l with
  | [] => throw (Fault "FakerError: Cannot get value from empty dataset")
  | [x] => ret x
  | x :: _ =>
      let* i := number_int r None (Some (Z.of_nat (length l) - 1)) in
      ret (nth (Z.to_nat i) l x)
  end.

Definition day_ms : Z := 86400000.

(** [fakerInstance.string.alpha({ length })]. *)
Definition string_alpha (r : nat) (length : Z) : M string :=
  fun w =>
    let (a, s) := rand_alpha length (fakers (user w) r) in
    (match a with
     | Some str => Ret str
     | None => Throw (Fault "RangeError: Invalid array length")
     end,
     set_user (update_faker r s (user w)) w).

(** A Date holds a time value of at most 8.64e15 milliseconds either side
    of the epoch.  Below, a Date is given by its time value, [None] for the
    Invalid Date. *)
Definition MAX_TIME : Z := 8640000000000000.

(** [TimeClip]: the time value of [new Date(t)] and of [date.setTime(t)]. *)
Definition time_clip (t : Z) : option Z :=
  if (- MAX_TIME <=? t) && (t <=? MAX_TIME) then Some t else None.

(** The Date with the time value [d], as a generated value. *)
Definition date_object (d : option Z) : val :=
  match d with
  | Some t => VDate t
  | None => VInvalidDate
  end.

(** Faker's [toDate(date, fallback)]: the time value of [date], and the
    current time when [date] is absent or the Invalid Date. *)
Definition toDate (date : option Z) : M Z :=
  match date with
  | Some t => ret t
  | None => get_now
  end.

(** [fakerInstance.date.between({ from, to })]. *)
Definition date_between (r : nat) (from to : option Z) : M (option Z) :=
  let* fromMs := toDate from in
  let* toMs := toDate to in
  let* dateOffset := number_int r None (Some (toMs - fromMs)) in
  ret (time_clip (fromMs + dateOffset)).

(** [fakerInstance.date.soon({ days, refDate })]. *)
Definition date_soon (r : nat) (days : Z) (refDate : option Z)
  : M (option Z) :=
  let* ref := toDate refDate in
  let* off := number_int r (Some 1000) (Some (days * day_ms)) in
  ret (time_clip (ref + off)).

(** [fakerInstance.date.recent({ days, refDate })]. *)
Definition date_recent (r : nat) (days : Z) (refDate : option Z)
  : M (option Z) :=
  let* ref := toDate refDate in
  let* off := number_int r (Some 1000) (Some (days * day_ms)) in
  ret (time_clip (ref - off)).

End FakerApi.

(** ** The engine *)

Section Engine.
Context {E : Env} (C : Callbacks heap).

(** *** Monadic iteration *)

Fixpoint mapM {A B} (f : A -> M B) (l : list A) : M (list B) :=
  match l with
  | [] => ret []
  | x :: xs =>
      let* y := f x in
      let* ys := mapM f xs in
      ret (y :: ys)
  end.

Fixpoint foldM {A B} (f : B -> A -> M B) (l : list A) (b : B) : M B :=
  match l with
  | [] => ret b
  | x :: xs => let* b' := f b x in foldM f xs b'
  end.

(** [array.find(p)] for a callback with effects. *)
Fixpoint findM {A} (p : A -> M bool) (l : list A) : M (option A) :=
  match l with
  | [] => ret None
  | x :: xs =>
      let* b := p x in
      if b then ret (Some x) else findM p xs
  end.

(** *** Small readers of the options *)

(** [options?.faker || faker]. *)
Definition fakerInstance (o : GenerateMockOptions) : nat :=
  default 0%nat (faker o).

(** [options.backupMocks?.[tag]]. *)
Definition backup_lookup (o : GenerateMockOptions) (tag : string)
  : option fnid :=
  match backupMocks o with
  | Some m => m !! tag
  | None => None
  end.

(** [options.backupMocks[key](schema, options)]. *)
Definition invoke_backup (key : string) (f : fnid) (s : schema)
    (o : GenerateMockOptions) : M val :=
  let* _ := record_backup_call key in
  call_user (backup_fn C f s o).

Definition truthy_string (s : string) : bool := negb (String.eqb s "").

Definition truthy_number (n : option Z) : bool :=
  match n with
  | Some n => negb (n =? 0)
  | None => false
  end.

(** [value.toString()]. *)
Definition toString_method (v : val) : M string :=
  match v with
  | VUndefined | VNull =>
      throw (Fault "TypeError: Cannot read properties of undefined")
  | _ => ret (js_string_of v)
  end.

(** *** depthControlled *)

Definition depthControlled
    (parseFunction : schema -> GenerateMockOptions -> M val)
    (zodRef : schema) (options : GenerateMockOptions) : M val :=
  let current := default 0 (currentDepth options) in
  let limit := default 10 (maxDepth options) in
  if limit <=? current
  then
    ret (match zodRef with
         | ZodObject _ => VObj []
         | ZodArray _ _ _ _ => VArr []
         | ZodSet _ _ _ => VSet []
         | ZodMap _ _ => VMap []
         | ZodLazy _ => VUndefined
         | _ => VUndefined
         end)
  else parseFunction zodRef (set_depths (current + 1) limit options).

(** *** findMatchingFaker *)

(** [mockeryMapper] of [zod-mockery-map.ts]. *)
Definition keyToFnMap : list (string * FakerFunction) :=
  [ ("image", MemberGenerator "image" "url");
    ("imageurl", MemberGenerator "image" "url");
    ("number", MemberGenerator "number" "int");
    ("float", MemberGenerator "number" "float");
    ("hexadecimal", MemberGenerator "number" "hex");
    ("uuid", MemberGenerator "string" "uuid");
    ("boolean", MemberGenerator "datatype" "boolean");
    ("city", MemberGenerator "location" "city") ].

(** The members that [keyToFnMap], an object literal, inherits from
    [Object.prototype] under a name that is its own lower-case form: the
    [in] operator finds them too. *)
Definition inherited (k : string) : option FakerFunction :=
  if String.eqb k "constructor" then Some ObjectConstructor
  else if String.eqb k "__proto__" then Some ObjectPrototype
  else None.

Definition defaultMapper (keyName : string) : option FakerFunction :=
  if truthy_string keyName
  then
    match assoc (Js.toLowerCase keyName) keyToFnMap with
    | Some g => Some g
    | None => inherited (Js.toLowerCase keyName)
    end
  else None.

(** The callback of the inner [find]: does the member [fnKey] of the
    module match the key name, and does calling
    [fakerInstance[sectionKey][keyName]] yield a primitive? *)
Definition probe (r : nat) (keyName : string)
    (members : list (string * member rng)) (fnKey : string) : M bool :=
  let lowerCaseKeyName := Js.toLowerCase keyName in
  let withoutDashesUnderscores :=
    Js.strip_dashes_underscores lowerCaseKeyName in
  let lower := Js.toLowerCase fnKey in
  if (String.eqb lower lowerCaseKeyName
      || String.eqb lower withoutDashesUnderscores)%bool
  then
    match assoc keyName members with
    | Some (Fn fn) =>
        try_catch
          (let* mock := call_member r fn in ret (is_primitive_mock mock))
          (fun _ => ret false)
    | _ => ret false
    end
  else ret false.

Definition findMatchingFaker (keyName : string) (fakerOption : option nat)
    (mapper : option fnid) : M (option FakerFunction) :=
  let r := default 0%nat fakerOption in
  let* mapped :=
    match mapper with
    | None => ret (defaultMapper keyName)
    | Some f =>
        let* g := call_user (mapper_fn C f keyName r) in
        ret (option_map MappedGenerator g)
    end in
  match mapped with
  | Some g => ret (Some g)
  | None =>
      let* sectionName :=
        findM (fun sec : string * list (string * member rng) =>
                 let* fnKey :=
                   findM (probe r keyName (snd sec)) (map fst (snd sec)) in
                 ret (match fnKey with
                      | Some k => truthy_string k
                      | None => false
                      end))
              catalog in
      match sectionName with
      | Some sec =>
          if truthy_string (fst sec)
          then ret (Some (MemberGenerator (fst sec) keyName))
          else ret None
      | None => ret None
      end
  end.

(** Calling a generator bound to the instance [r]. *)
Definition call_generator (r : nat) (g : FakerFunction) : M val :=
  match g with
  | DefaultGenerator targetStringLength =>
      let* w :=
        draw r (rand_word (if 10 <? targetStringLength then None
                           else Some targetStringLength)) in
      ret (VStr w)
  | DateGenerator =>
      let* d := date_recent r 1 None in
      match d with
      | Some t => ret (VStr (toISOString t))
      | None => throw (Fault "RangeError: Invalid time value")
      end
  | TextGenerator k =>
      let* s := draw r (rand_text k) in
      ret (VStr s)
  | MemberGenerator sec name =>
      match assoc sec catalog with
      | Some members =>
          match assoc name members with
          | Some (Fn fn) => call_member r fn
          | _ => throw (Fault "TypeError: generator is not a function")
          end
      | None => throw (Fault "TypeError: generator is not a function")
      end
  | MappedGenerator f => call_user (mapped_fn C f)
  | ObjectConstructor => ret (VObj [])
  | ObjectPrototype => throw (Fault "TypeError: generator is not a function")
  end.

(** *** parseString *)

(** The [checks.forEach] of [parseString] and [parseNumber]: the last
    [min], [max] (and, for strings, [length]) check wins. *)
Definition stringOptions (checks : list (check (option Z)))
  : option Z * option Z :=
  fold_left
    (fun (acc : option Z * option Z) item =>
       if String.eqb (kind item) "min" then (value item, snd acc)
       else if String.eqb (kind item) "max" then (fst acc, value item)
       else if String.eqb (kind item) "length" then (value item, value item)
       else acc)
    checks (None, None).

(** The swap that avoids Faker's "max should be greater than min". *)
Definition sortedStringOptions (so : option Z * option Z)
  : option Z * option Z :=
  match so with
  | (Some mn, Some mx) =>
      if (truthy_number (Some mn) && truthy_number (Some mx) && (mx <? mn))%bool
      then (Some mx, Some mn)
      else so
  | _ => so
  end.

Definition stringGenerators (targetStringLength : Z)
  : list (string * FakerFunction) :=
  [ ("default", DefaultGenerator targetStringLength);
    ("email", TextGenerator InternetEmail);
    ("uuid", TextGenerator StringUuid);
    ("uid", TextGenerator StringUuid);
    ("url", TextGenerator InternetUrl);
    ("name", TextGenerator PersonFullName);
    ("date", DateGenerator);
    ("dateTime", DateGenerator);
    ("colorHex", TextGenerator InternetColor);
    ("color", TextGenerator InternetColor);
    ("backgroundColor", TextGenerator InternetColor);
    ("textShadow", TextGenerator InternetColor);
    ("textColor", TextGenerator InternetColor);
    ("textDecorationColor", TextGenerator InternetColor);
    ("borderColor", TextGenerator InternetColor);
    ("borderTopColor", TextGenerator InternetColor);
    ("borderRightColor", TextGenerator InternetColor);
    ("borderBottomColor", TextGenerator InternetColor);
    ("borderLeftColor", TextGenerator InternetColor);
    ("borderBlockStartColor", TextGenerator InternetColor);
    ("borderBlockEndColor", TextGenerator InternetColor);
    ("borderInlineStartColor", TextGenerator InternetColor);
    ("borderInlineEndColor", TextGenerator InternetColor);
    ("columnRuleColor", TextGenerator InternetColor);
    ("outlineColor", TextGenerator InternetColor);
    ("phoneNumber", TextGenerator PhoneNumber) ].

(** The key of [stringGenerators] selected by the field name or by the
    kind of a check. *)
Definition stringType (keyName : option string)
    (checks : list (check (option Z))) (targetStringLength : Z)
  : option (string * FakerFunction) :=
  find (fun g : string * FakerFunction =>
          (match keyName with
           | Some k => String.eqb (Js.toLowerCase (fst g)) (Js.toLowerCase k)
           | None => false
           end
           || existsb (fun item : check (option Z) =>
                         String.eqb (Js.toUpperCase (kind item))
                                    (Js.toUpperCase (fst g)))
                      checks)%bool)
       (stringGenerators targetStringLength).

(** The part of [parseString] after the regex and [stringMap] branches. *)
Definition parseString_sized (checks : list (check (option Z)))
    (options : GenerateMockOptions) : M val :=
  let r := fakerInstance options in
  let so := stringOptions checks in
  let sorted := sortedStringOptions so in
  let* targetStringLength := number_int r (fst sorted) (snd sorted) in
  let* generator :=
    match stringType (keyName options) checks targetStringLength with
    | Some g => ret (snd g)
    | None =>
        let* foundFaker :=
          match keyName options with
          | Some k =>
              if truthy_string k
              then findMatchingFaker k (faker options) (mockeryMapper options)
              else ret None
          | None => ret None
          end in
        ret (default (DefaultGenerator targetStringLength) foundFaker)
    end in
  let* mock := call_generator r generator in
  let* v := toString_method mock in
  let delta := targetStringLength - Z.of_nat (String.length v) in
  let* v' :=
    match fst so with
    | Some mn =>
        if Z.of_nat (String.length v) <? mn
        then
          let* pad := string_alpha r delta in
          ret (v +:+ pad)
        else ret v
    | None => ret v
    end in
  ret (VStr (Js.slice0 v' (snd so))).

(** [options.stringMap[options.keyName]], when there is a field name. *)
Definition stringMap_generator (options : GenerateMockOptions)
  : option fnid :=
  match keyName options, stringMap options with
  | Some k, Some m => if truthy_string k then m !! k else None
  | _, _ => None
  end.

Definition parseString (zodRef : schema) (options : GenerateMockOptions)
  : M val :=
  let r := fakerInstance options in
  let checks := match zodRef with ZodString cs => cs | _ => [] end in
  let regexCheck :=
    find (fun c : check (option Z) => String.eqb (kind c) "regex") checks in
  match regexCheck with
  | Some {| regex := Some re |} =>
      let mx :=
        match find (fun c : check (option Z) => String.eqb (kind c) "max")
                   checks with
        | Some c => value c
        | None => None
        end in
      let* genRegString := draw r (randexp_gen re mx) in
      ret (VStr genRegString)
  | _ =>
      match stringMap_generator options with
      | Some g => call_user (string_fn C g)
      | None => parseString_sized checks options
      end
  end.

(** *** Primitive synthesizers *)

Definition parseBoolean (zodRef : schema) (options : GenerateMockOptions)
  : M val :=
  let* b := draw (fakerInstance options) rand_bool in
  ret (VBool b).

(** The [checks.forEach] of [parseDate]: a bound is taken from a Date or
    from a number that is not NaN; anything else is reported and skipped.
    A bound is absent ([None]) or a Date, which may be the Invalid Date. *)
Definition date_bounds (checks : list (check date_value))
  : M (option (option Z) * option (option Z)) :=
  foldM
    (fun (acc : option (option Z) * option (option Z))
         (item : check date_value) =>
       if (String.eqb (kind item) "min" || String.eqb (kind item) "max")%bool
       then
         match value item with
         | DateObj t | DateNum t =>
             if String.eqb (kind item) "min"
             then ret (Some (time_clip t), snd acc)
             else ret (fst acc, Some (time_clip t))
         | DateNaN | DateOther =>
             let* _ := console_log (LogInvalidDate (kind item)) in
             ret acc
         end
       else ret acc)
    checks (None, None).

(** [min > max] on two Dates: false when one is the Invalid Date. *)
Definition date_gt (a b : option Z) : bool :=
  match a, b with
  | Some x, Some y => y <? x
  | _, _ => false
  end.

Definition parseDate (zodRef : schema) (options : GenerateMockOptions)
  : M val :=
  let r := fakerInstance options in
  let checks := match zodRef with ZodDate cs => cs | _ => [] end in
  let* bounds := date_bounds checks in
  try_catch
    (match bounds with
     | (Some mn, Some mx) =>
         if date_gt mn mx
         then ret VUndefined
         else let* d := date_between r mn mx in ret (date_object d)
     | (Some mn, None) =>
         let* d := date_soon r 1 mn in ret (date_object d)
     | (None, Some mx) =>
         let* d := date_recent r 1 mx in ret (date_object d)
     | (None, None) =>
         let* d := date_recent r 30 None in ret (date_object d)
     end)
    (fun error =>
       let* _ := console_log (LogDateError error) in
       ret VUndefined).

(** The [checks.forEach] of [parseNumber]. *)
Definition fakerOptions (checks : list (check (option Z)))
  : option Z * option Z :=
  fold_left
    (fun (acc : option Z * option Z) item =>
       if String.eqb (kind item) "min" then (value item, snd acc)
       else if String.eqb (kind item) "max" then (fst acc, value item)
       else acc)
    checks (None, None).

(** [number.int] rounds its bounds with [Math.ceil] and [Math.floor], which
    throw a [TypeError] on a BigInt: the bounds of a bigint node. *)
Definition parseNumber (zodRef : schema) (options : GenerateMockOptions)
  : M val :=
  let checks :=
    match zodRef with
    | ZodNumber cs | ZodBigInt cs => cs
    | _ => []
    end in
  let fo := fakerOptions checks in
  let bigint_bound :=
    match zodRef, fo with
    | ZodBigInt _, (Some _, _) | ZodBigInt _, (_, Some _) => true
    | _, _ => false
    end in
  if bigint_bound
  then throw (Fault "TypeError: Cannot convert a BigInt value to a number")
  else
    let* n := number_int (fakerInstance options) (fst fo) (snd fo) in
    ret (VNum n).

Definition parseEnum (zodRef : schema) (options : GenerateMockOptions)
  : M val :=
  match zodRef with
  | ZodEnum values =>
      let* v := helpers_arrayElement (fakerInstance options) values in
      ret (VStr v)
  | _ => throw (Fault "TypeError: not an enum node")
  end.

(** [values] of a native enum node is [util.getValidEnumValues(enum)]. *)
Definition parseNativeEnum (zodRef : schema) (options : GenerateMockOptions)
  : M val :=
  match zodRef with
  | ZodNativeEnum values =>
      let* v := helpers_arrayElement (fakerInstance options) values in
      ret (val_of_literal v)
  | _ => throw (Fault "TypeError: not a native enum node")
  end.

Definition parseLiteral (zodRef : schema) (options : GenerateMockOptions)
  : M val :=
  match zodRef with
  | ZodLiteral v => ret (val_of_literal v)
  | _ => ret VUndefined
  end.

(** [parseUuid] reads the module-level [faker], not [options.faker]. *)
Definition parseUuid (zodRef : schema) (options : GenerateMockOptions)
  : M val :=
  let* s := draw 0%nat (rand_text StringUuid) in
  ret (VStr s).

(** *** Composite synthesizers, over the recursive entry point [gen]
    and the fuel [n] of their [while] loops *)

Section Workers.
Variable gen : schema -> GenerateMockOptions -> M val.

Definition parseObject_inner (zodRef : schema)
    (options : GenerateMockOptions) : M val :=
  match zodRef with
  | ZodObject shape =>
      let* props :=
        foldM
          (fun (carry : list (string * val)) (field : string * schema) =>
             let* v := gen (snd field) (set_keyName (fst field) options) in
             ret (obj_set (fst field) v carry))
          shape [] in
      ret (VObj props)
  | _ => throw (Fault "TypeError: not an object node")
  end.

Definition parseObject := depthControlled parseObject_inner.

(** [new Array(n)] accepts an integer in [0, 2^32 - 1]. *)
Definition valid_array_length (n : Z) : bool :=
  (0 <=? n) && (n <? 4294967296).

(** The property key of a computed member [[v]: ...]. *)
Definition to_property_key (v : val) : string := js_string_of v.

Definition parseRecord (zodRef : schema) (options : GenerateMockOptions)
  : M val :=
  let recordKeysLength :=
    if truthy_number (recordKeysLength options)
    then default 1 (recordKeysLength options)
    else 1 in
  if valid_array_length recordKeysLength
  then
    match zodRef with
    | ZodRecord keySchema valueSchema =>
        let* props :=
          foldM
            (fun (prev : list (string * val)) (_ : unit) =>
               let* k := gen keySchema options in
               let* v := gen valueSchema options in
               ret (obj_set (to_property_key k) v prev))
            (repeat tt (Z.to_nat recordKeysLength)) [] in
        ret (VObj props)
    | _ => throw (Fault "TypeError: not a record node")
    end
  else throw (Fault "RangeError: Invalid array length").

Definition parseOptional (zodRef : schema) (options : GenerateMockOptions)
  : M val :=
  match zodRef with
  | ZodOptional inner | ZodNullable inner => gen inner options
  | _ => throw (Fault "TypeError: unwrap is not a function")
  end.

(** The body of the [for] loop of [parseArray]. *)
Definition array_element (element : schema)
    (options : GenerateMockOptions) : M val :=
  match (if String.eqb (typeName element) "ZodUndefined"
         then backup_lookup options "ZodUndefined" else None) with
  | Some f => invoke_backup "ZodUndefined" f element options
  | None => gen element options
  end.

Fixpoint repeatM {A} (n : nat) (m : M A) : M (list A) :=
  match n with
  | O => ret []
  | S n' =>
      let* x := m in
      let* xs := repeatM n' m in
      ret (x :: xs)
  end.

Definition parseArray_inner (zodRef : schema)
    (options : GenerateMockOptions) : M val :=
  match zodRef with
  | ZodArray element minLength maxLength exactLength =>
      let mn :=
        match minLength, exactLength with
        | Some v, _ => v
        | None, Some v => v
        | None, None => 0
        end in
      let mx :=
        match maxLength, exactLength with
        | Some v, _ => v
        | None, Some v => v
        | None, None => 10
        end in
      let mn := if mx <? mn then mx else mn in
      let* targetLength :=
        number_int (fakerInstance options) (Some mn) (Some mx) in
      let* results :=
        repeatM (Z.to_nat targetLength) (array_element element options) in
      ret (VArr results)
  | _ => throw (Fault "TypeError: not an array node")
  end.

Definition parseArray := depthControlled parseArray_inner.

(** [while (results.size < targetLength) results.add(...)]. *)
Fixpoint set_loop (n : nat) (targetLength : Z) (valueType : schema)
    (options : GenerateMockOptions) (results : list val)
  : M (list val) :=
  if Z.of_nat (length results) <? targetLength
  then
    match n with
    | O => diverge
    | S n' =>
        let* v := gen valueType options in
        set_loop n' targetLength valueType options (set_add v results)
    end
  else ret results.

Definition parseSet_inner (n : nat) (zodRef : schema)
    (options : GenerateMockOptions) : M val :=
  match zodRef with
  | ZodSet valueType minSize maxSize =>
      let mn := default 1 minSize in
      let mx := default 5 maxSize in
      let mn := if mx <? mn then mx else mn in
      let* targetLength :=
        number_int (fakerInstance options) (Some mn) (Some mx) in
      let* results := set_loop n targetLength valueType options [] in
      ret (VSet results)
  | _ => throw (Fault "TypeError: not a set node")
  end.

Definition parseSet (n : nat) := depthControlled (parseSet_inner n).

(** [while (results.size < targetLength) results.set(key, value)]. *)
Fixpoint map_loop (n : nat) (targetLength : Z) (keyType valueType : schema)
    (options : GenerateMockOptions) (results : list (val * val))
  : M (list (val * val)) :=
  if Z.of_nat (length results) <? targetLength
  then
    match n with
    | O => diverge
    | S n' =>
        let* k := gen keyType options in
        let* v := gen valueType options in
        map_loop n' targetLength keyType valueType options
          (map_set k v results)
    end
  else ret results.

Definition parseMap_inner (n : nat) (zodRef : schema)
    (options : GenerateMockOptions) : M val :=
  match zodRef with
  | ZodMap keyType valueType =>
      let targetLength := default 1 (mapEntriesLength options) in
      let* results :=
        map_loop n targetLength keyType valueType options [] in
      ret (VMap results)
  | _ => throw (Fault "TypeError: not a map node")
  end.

Definition parseMap (n : nat) := depthControlled (parseMap_inner n).

Definition parseUnion (zodRef : schema) (options : GenerateMockOptions)
  : M val :=
  match zodRef with
  | ZodUnion potentialCases | ZodDiscriminatedUnion potentialCases =>
      let* mocked :=
        helpers_arrayElement (fakerInstance options) potentialCases in
      gen mocked options
  | _ => throw (Fault "TypeError: not a union node")
  end.

Definition parseDiscriminatedUnion := parseUnion.

Definition parseTransform (zodRef : schema)
    (options : GenerateMockOptions) : M val :=
  match zodRef with
  | ZodEffects inner eff =>
      let* input := gen inner options in
      match eff with
      | Transform f => call_user (transform_fn C f input)
      | Refinement | Preprocess => ret input
      end
  | _ => throw (Fault "TypeError: not an effects node")
  end.

Definition parseZodIntersection (zodRef : schema)
    (options : GenerateMockOptions) : M val :=
  match zodRef with
  | ZodIntersection l r =>
      let* left := gen l options in
      let* right := gen r options in
      lift_outcome (object_assign left right)
  | _ => throw (Fault "TypeError: not an intersection node")
  end.

Definition parseZodTuple (zodRef : schema)
    (options : GenerateMockOptions) : M val :=
  match zodRef with
  | ZodTuple items rest =>
      let* results := mapM (fun def => gen def options) items in
      match rest with
      | Some restSchema =>
          let* next :=
            parseArray (ZodArray restSchema None None None) options in
          match next with
          | VArr more => ret (VArr (results ++ more))
          | VUndefined | VNull => ret (VArr results)
          | _ => throw (Fault "TypeError: next is not iterable")
          end
      | None => ret (VArr results)
      end
  | _ => throw (Fault "TypeError: not a tuple node")
  end.

Definition parseZodFunction (zodRef : schema)
    (options : GenerateMockOptions) : M val :=
  match zodRef with
  | ZodFunction returns => ret (VFun returns options)
  | _ => throw (Fault "TypeError: not a function node")
  end.

Definition parseZodDefault (zodRef : schema)
    (options : GenerateMockOptions) : M val :=
  match zodRef with
  | ZodDefault innerType defaultValue =>
      let* b := draw (fakerInstance options) rand_bool in
      if b then call_user (default_fn C defaultValue)
      else gen innerType options
  | _ => throw (Fault "TypeError: not a default node")
  end.

Definition parseZodPromise (zodRef : schema)
    (options : GenerateMockOptions) : M val :=
  match zodRef with
  | ZodPromise inner =>
      let* v := gen inner options in
      ret (VPromise v)
  | _ => throw (Fault "TypeError: not a promise node")
  end.

Definition parseBranded (zodRef : schema) (options : GenerateMockOptions)
  : M val :=
  match zodRef with
  | ZodBranded inner => gen inner options
  | _ => throw (Fault "TypeError: unwrap is not a function")
  end.

Definition parseLazy (zodRef : schema) (options : GenerateMockOptions)
  : M val :=
  match zodRef with
  | ZodLazy getter => gen (getter_fn C getter) options
  | _ => throw (Fault "TypeError: getter is not a function")
  end.

(** *** The dispatch registry *)

Definition workerMap (n : nat)
  : list (string * (schema -> GenerateMockOptions -> M val)) :=
  [ ("ZodObject", parseObject);
    ("ZodRecord", depthControlled parseRecord);
    ("ZodArray", parseArray);
    ("ZodSet", parseSet n);
    ("ZodMap", parseMap n);
    ("ZodLazy", depthControlled parseLazy);
    ("ZodUnion", parseUnion);
    ("ZodIntersection", parseZodIntersection);
    ("ZodDiscriminatedUnion", parseDiscriminatedUnion);
    ("ZodOptional", parseOptional);
    ("ZodNullable", parseOptional);
    ("ZodTransformer", parseTransform);
    ("ZodEffects", parseTransform);
    ("ZodFunction", parseZodFunction);
    ("ZodPromise", parseZodPromise);
    ("ZodTuple", parseZodTuple);
    ("ZodString", parseString);
    ("ZodNumber", parseNumber);
    ("ZodBigInt", parseNumber);
    ("ZodBoolean", parseBoolean);
    ("ZodDate", parseDate);
    ("ZodEnum", parseEnum);
    ("ZodNativeEnum", parseNativeEnum);
    ("ZodLiteral", parseLiteral);
    ("ZodBranded", parseBranded);
    ("ZodNull", fun _ _ => ret VNull);
    ("ZodNaN", fun _ _ => ret VUndefined);
    ("ZodDefault", parseZodDefault);
    ("ZodVoid", fun _ _ => ret VUndefined);
    ("ZodUndefined", fun _ _ => ret VUndefined);
    ("ZodUuid", parseUuid) ].

End Workers.

(** *** generateMock *)

(** [{ maxDepth: 10, currentDepth: 0, faker: new Faker(...), ...options }]. *)
Definition defaultOptions (fresh : nat) (options : GenerateMockOptions)
  : GenerateMockOptions :=
  set_faker (default fresh (faker options))
    (set_depths (default 0 (currentDepth options))
                (default 10 (maxDepth options)) options).

(** The [catch] clause of [generateMock]. *)
Definition contain (err : error) : M val :=
  if is_ZodMockError err
  then throw err
  else
    let* _ := console_log (LogError err) in
    ret VUndefined.

(** The [try] block of [generateMock], over the registry [workers]. *)
Definition dispatch
    (workers : list (string * (schema -> GenerateMockOptions -> M val)))
    (schema_ : schema) (d : GenerateMockOptions) : M val :=
  match (if String.eqb (typeName schema_) "ZodUndefined"
         then backup_lookup d "ZodUndefined" else None) with
  | Some f => invoke_backup "ZodUndefined" f schema_ d
  | None =>
      match assoc (typeName schema_) workers with
      | Some mockFunction => mockFunction schema_ d
      | None =>
          match backup_lookup d (typeName schema_) with
          | Some f => invoke_backup (typeName schema_) f schema_ d
          | None =>
              if default false (throwOnUnknownType d)
              then throw (ZodMockError (typeName schema_))
              else ret VUndefined
          end
      end
  end.

(** What [generateMock] does before its [try] block: build the options
    and seed the Faker instance when a seed is given. *)
Definition prepare (options : GenerateMockOptions)
  : M GenerateMockOptions :=
  let* fresh := new_Faker in
  let d := defaultOptions fresh options in
  let* _ :=
    match seed d with
    | Some s => faker_seed (fakerInstance d) s
    | None => ret tt
    end in
  ret d.

Fixpoint generateMock (fuel : nat) (schema_ : schema)
    (options : GenerateMockOptions) : M val :=
  match fuel with
  | O => diverge
  | S n =>
      let* d := prepare options in
      try_catch (dispatch (workerMap (generateMock n) n) schema_ d) contain
  end.

End Engine.

(** ** A concrete environment

    A small linear congruential generator behind the [Env] interface, used to
    run the engine on concrete inputs. *)

Module Sample.

Definition step (r : Z) : Z := (r * 1103515245 + 12345) mod 2147483648.

Definition int_between (lo hi r : Z) : Z * Z :=
  (if hi <? lo then lo else lo + r mod (hi - lo + 1), step r).

Fixpoint letters (n : nat) (r : Z) : string :=
  match n with
  | O => ""
  | S n' =>
      String (ascii_of_nat (97 + Z.to_nat (r mod 26))) (letters n' (step r))
  end.

Lemma letters_length n r : String.length (letters n r) = n.
Proof. revert r; induction n as [|n IH]; intros r; simpl; auto. Qed.

Definition word (len : option Z) (r : Z) : string * Z :=
  match len with
  | Some n => if (1 <=? n) && (n <=? 10)
              then (letters (Z.to_nat n) r, step r)
              else ("lorem", step r)
  | None => ("lorem", step r)
  end.

Definition text (k : text_kind) (r : Z) : string * Z :=
  (match k with
   | InternetEmail => "user" +:+ pretty (r mod 1000) +:+ "@example.com"
   | StringUuid => "uuid-" +:+ pretty r
   | InternetUrl => "https://example.com/" +:+ pretty (r mod 1000)
   | PersonFullName => "Ada " +:+ letters 5 r
   | InternetColor => "#" +:+ pretty (r mod 1000000)
   | PhoneNumber => "555-" +:+ pretty (r mod 10000)
   end, step r).

Definition seed_state (s : seed_value) : Z :=
  match s with
  | SeedNumber n => n mod 2147483648
  | SeedArray ns => fold_left (fun acc n => step (acc + n)) ns 0
  end.

#[export] Program Instance env : Env := {|
  rng := Z;
  seed_rng := seed_state;
  rand_int := int_between;
  rand_bool := fun r => (Z.even (r / 65536), step r);
  rand_alpha := fun n r =>
    if n <=? 536870888 then (Some (letters (Z.to_nat n) r), step r)
    else (None, r);
  alpha_limit := 536870888;
  rand_word := word;
  rand_text := text;
  randexp_gen := fun re mx r => (re, step r);
  catalog :=
    [ ("number", [("int", Fn (fun _ r => (Ret (VNum (r mod 100)), step r)))]);
      ("person", [("firstName", Fn (fun _ r => (Ret (VStr "Grace"), step r)));
                  ("sex", Fn (fun _ r => (Ret (VStr "female"), step r)))]);
      ("date", [("past", Fn (fun t r => (Ret (VDate (t - r mod 1000)), step r)))]);
      ("mersenne", [("seed", Fn (fun _ r => (Throw (Fault "FakerError"), r)))]);
      ("rawDefinitions", []) ];
  toISOString := fun t => "iso:" +:+ pretty t;
  date_toString := fun t => "date:" +:+ pretty t;
|}.
Next Obligation.
  intros lo hi r Hle. unfold int_between. simpl.
  destruct (Z.ltb_spec hi lo) as [Hlt|_]; [lia|].
  pose proof (Z.mod_pos_bound r (hi - lo + 1) ltac:(lia)). lia.
Qed.
Next Obligation.
  intros n r s. simpl. destruct (n <=? 536870888); simpl; [|discriminate].
  intros H. injection H as <-. apply letters_length.
Qed.
Next Obligation.
  intros n r Hn. simpl. destruct (Z.leb_spec n 536870888); [|lia].
  discriminate.
Qed.
Next Obligation.
  intros n r Hn. simpl. destruct (Z.leb_spec n 536870888); [lia|].
  reflexivity.
Qed.

(** Callbacks: backup mock [0] returns a fixed string, [1] throws a fault;
    string generator [0] returns a fixed string; transforms and defaults
    are the identity and [undefined]; lazy getter [n] is a string node. *)
Definition callbacks : Callbacks heap := {|
  backup_fn := fun f _ _ h =>
    match f with
    | O => (Ret (VStr "not undefined"), h)
    | _ => (Throw (Fault "Error: backup mock failed"), h)
    end;
  string_fn := fun _ h => (Ret (VStr "value set"), h);
  mapper_fn := fun _ _ _ h => (Ret None, h);
  mapped_fn := fun _ h => (Ret VUndefined, h);
  transform_fn := fun _ v h => (Ret v, h);
  default_fn := fun _ h => (Ret VUndefined, h);
  getter_fn := fun _ => ZodString [];
|}.

(** A state: every Faker instance starts from [g]; the clock reads [t]. *)
Definition world0 (g t : Z) : world :=
  {| user := {| fakers := fun _ => g; next_faker := 1;
                entropy := fun n => g + Z.of_nat n; now := t;
                console := [] |};
     backup_calls := [] |}.

Definition run (s : schema) (o : GenerateMockOptions) (g t : Z)
  : outcome val :=
  fst (generateMock callbacks 50 s o (world0 g t)).

(** A second call, made in the state that a first call leaves behind. *)
Definition run_again (s : schema) (o : GenerateMockOptions) (g t : Z)
  : outcome val :=
  fst (generateMock callbacks 50 s o
         (snd (generateMock callbacks 50 s o (world0 g t)))).

(** Options and nodes of the examples. *)

Definition seeded (n : Z) : GenerateMockOptions :=
  {| keyName := None; stringMap := None; mockeryMapper := None;
     backupMocks := None; recordKeysLength := None;
     mapEntriesLength := None; throwOnUnknownType := None;
     seed := Some (SeedNumber n); faker := None;
     currentDepth := None; maxDepth := None |}.

Definition at_depth (cur mx : Z) : GenerateMockOptions :=
  set_depths cur mx no_options.

Definition strict : GenerateMockOptions :=
  {| keyName := None; stringMap := None; mockeryMapper := None;
     backupMocks := None; recordKeysLength := None;
     mapEntriesLength := None; throwOnUnknownType := Some true;
     seed := None; faker := None; currentDepth := None; maxDepth := None |}.

Definition with_backup (tag : string) (f : fnid) : GenerateMockOptions :=
  {| keyName := None; stringMap := None; mockeryMapper := None;
     backupMocks := Some {[ tag := f ]}; recordKeysLength := None;
     mapEntriesLength := None; throwOnUnknownType := None;
     seed := None; faker := None; currentDepth := None; maxDepth := None |}.

Definition with_stringMap (key : string) (f : fnid) : GenerateMockOptions :=
  {| keyName := None; stringMap := Some {[ key := f ]};
     mockeryMapper := None; backupMocks := None; recordKeysLength := None;
     mapEntriesLength := None; throwOnUnknownType := None;
     seed := None; faker := None; currentDepth := None; maxDepth := None |}.

Definition with_counts (recordKeys mapEntries : option Z)
  : GenerateMockOptions :=
  {| keyName := None; stringMap := None; mockeryMapper := None;
     backupMocks := None; recordKeysLength := recordKeys;
     mapEntriesLength := mapEntries; throwOnUnknownType := None;
     seed := None; faker := None; currentDepth := None; maxDepth := None |}.

Definition bound (k : string) (v : Z) : check (option Z) :=
  Check k (Some v) None.

(** [string().min(a).max(b)]. *)
Definition string_between (a b : Z) : schema :=
  ZodString [bound "min" a; bound "max" b].

(** [{ uid: string().min(1), age: number().min(18).max(120) }]. *)
Definition user_node : schema :=
  ZodObject [ ("uid", ZodString [bound "min" 1]);
              ("age", ZodNumber [bound "min" 18; bound "max" 120]) ].

(** [tuple([number(), boolean()]).rest(string())]. *)
Definition tuple_node : schema :=
  ZodTuple [ZodNumber []; ZodBoolean] (Some (ZodString [])).

End Sample.

(** * The cache and the factory of [factory/mod.ts], and the nodes named
    in the further properties *)

(** ** The LRU cache of [factory/mod.ts]

    [LRUCache<K, V>] keeps its entries in a [Map], whose iteration order is
    the insertion order.  The entries are a list, oldest first; keys are
    compared with a decidable equality (the keys of the module-level cache
    are strings). *)

Module LRUCache.
Section Cache.
Context {K V : Type} `{EqDecision K}.

(** [Map.prototype.has]. *)
Definition map_has (key : K) (m : list (K * V)) : bool :=
  existsb (fun e => bool_decide (fst e = key)) m.

(** [Map.prototype.get]. *)
Fixpoint map_get (key : K) (m : list (K * V)) : option V :=
  match m with
  | [] => None
  | (k, v) :: m' => if decide (k = key) then Some v else map_get key m'
  end.

(** [Map.prototype.delete]. *)
Fixpoint map_delete (key : K) (m : list (K * V)) : list (K * V) :=
  match m with
  | [] => []
  | (k, v) :: m' =>
      if decide (k = key) then map_delete key m'
      else (k, v) :: map_delete key m'
  end.

(** [Map.prototype.set]: an existing key keeps its place, a new key goes
    to the end. *)
Fixpoint map_put (key : K) (value : V) (m : list (K * V)) : list (K * V) :=
  match m with
  | [] => [(key, value)]
  | (k, v) :: m' =>
      if decide (k = key) then (k, value) :: m'
      else (k, v) :: map_put key value m'
  end.

Record t := {
  maxSize : Z;
  cache : list (K * V);
}.

(** [new LRUCache(maxSize)]. *)
Definition new (maxSize : Z) : t := {| maxSize := maxSize; cache := [] |}.

(** [get(key)]: the value, if any, and the cache afterwards.  A key that
    the map does not have ([!this.cache.has(key)]) is a miss; a hit moves the
    entry to the end. *)
Definition get (key : K) (c : t) : option V * t :=
  match map_get key (cache c) with
  | None => (None, c)
  | Some value =>
      (Some value,
       {| maxSize := maxSize c;
          cache := map_put key value (map_delete key (cache c)) |})
  end.

(** [set(key, value)].  [this.cache.keys().next().value] is [undefined] for
    an empty map, and deleting it removes nothing. *)
Definition set (key : K) (value : V) (c : t) : t :=
  let m := cache c in
  let m1 :=
    if map_has key m then map_delete key m
    else if maxSize c <=? Z.of_nat (length m)
         then match m with
              | [] => m
              | (firstKey, _) :: _ => map_delete firstKey m
              end
         else m in
  {| maxSize := maxSize c; cache := map_put key value m1 |}.

(** [clear()]. *)
Definition clear (c : t) : t := {| maxSize := maxSize c; cache := [] |}.

(** A use of the cache, and a sequence of uses. *)
Inductive op :=
| Get (key : K)
| Put (key : K) (value : V)
| Clear.

Definition step (c : t) (o : op) : t :=
  match o with
  | Get key => snd (get key c)
  | Put key value => set key value c
  | Clear => clear c
  end.

Definition run (ops : list op) (c : t) : t := fold_left step ops c.

End Cache.
Arguments t : clear implicits.
Arguments op : clear implicits.
End LRUCache.

(** ** Nodes and bounds named in the properties *)

(** The bounds that [parseArray] and [parseSet] hand to [number.int]. *)
Definition array_max (maxLength exactLength : option Z) : Z :=
  match maxLength, exactLength with
  | Some v, _ => v
  | None, Some v => v
  | None, None => 10
  end.

Definition array_min (minLength maxLength exactLength : option Z) : Z :=
  Z.min (match minLength, exactLength with
         | Some v, _ => v
         | None, Some v => v
         | None, None => 0
         end)
        (array_max maxLength exactLength).

Definition set_max (maxSize : option Z) : Z := default 5 maxSize.

Definition set_min (minSize maxSize : option Z) : Z :=
  Z.min (default 1 minSize) (set_max maxSize).

(** The options a depth-guarded synthesizer receives from the entry point
    called with [o] in a state whose next Faker reference is [fresh]. *)
Definition nested_options (fresh : nat) (o : GenerateMockOptions)
  : GenerateMockOptions :=
  set_depths (default 0 (currentDepth o) + 1) (default 10 (maxDepth o))
    (defaultOptions fresh o).

(** [union(alternatives)] or [discriminatedUnion(key, alternatives)]. *)
Definition union_node (discriminated : bool) (alternatives : list schema)
  : schema :=
  if discriminated then ZodDiscriminatedUnion alternatives
  else ZodUnion alternatives.

(** A bound of a date check that [parseDate] does not accept: the number
    [NaN], or a value that is neither a Date nor a number. *)
Definition invalid_date_bound (nan : bool) : date_value :=
  if nan then DateNaN else DateOther.

(** *** Termination *)

(** The levels left before the depth guard stops the recursion:
    [maxDepth - currentDepth]. *)
Definition depth_budget (o : GenerateMockOptions) : nat :=
  Z.to_nat (default 10 (maxDepth o) - default 0 (currentDepth o)).

(** Nodes without a set or a map node at any depth: the two synthesizers
    that fill their result in a [while] loop. *)
Fixpoint loop_free (s : schema) : bool :=
  match s with
  | ZodSet _ _ _ | ZodMap _ _ => false
  | ZodObject shape => forallb (fun f => loop_free (snd f)) shape
  | ZodRecord k v => loop_free k && loop_free v
  | ZodArray e _ _ _ => loop_free e
  | ZodUnion alts | ZodDiscriminatedUnion alts => forallb loop_free alts
  | ZodIntersection l r => loop_free l && loop_free r
  | ZodOptional i | ZodNullable i | ZodPromise i | ZodBranded i => loop_free i
  | ZodEffects i _ => loop_free i
  | ZodDefault i _ => loop_free i
  | ZodTuple items rest =>
      forallb loop_free items
      && match rest with Some r => loop_free r | None => true end
  | _ => true
  end.

(** The nodes a synthesizer recurses into, apart from the node behind a
    lazy getter. *)
Definition children (s : schema) : list schema :=
  match s with
  | ZodObject shape => map snd shape
  | ZodRecord k v => [k; v]
  | ZodArray e _ _ _ => [e]
  | ZodSet e _ _ => [e]
  | ZodMap k v => [k; v]
  | ZodUnion alts | ZodDiscriminatedUnion alts => alts
  | ZodIntersection l r => [l; r]
  | ZodOptional i | ZodNullable i | ZodPromise i | ZodBranded i => [i]
  | ZodEffects i _ => [i]
  | ZodDefault i _ => [i]
  | ZodTuple items rest =>
      items ++ match rest with Some r => [r] | None => [] end
  | _ => []
  end.

Fixpoint height (s : schema) : nat :=
  match s with
  | ZodObject shape => S (list_max (map (fun f => height (snd f)) shape))
  | ZodRecord k v => S (Nat.max (height k) (height v))
  | ZodArray e _ _ _ => S (height e)
  | ZodSet e _ _ => S (height e)
  | ZodMap k v => S (Nat.max (height k) (height v))
  | ZodUnion alts | ZodDiscriminatedUnion alts =>
      S (list_max (map height alts))
  | ZodIntersection l r => S (Nat.max (height l) (height r))
  | ZodOptional i | ZodNullable i | ZodPromise i | ZodBranded i =>
      S (height i)
  | ZodEffects i _ => S (height i)
  | ZodDefault i _ => S (height i)
  | ZodTuple items rest =>
      S (Nat.max (list_max (map height items))
           match rest with Some r => height r | None => O end)
  | _ => 1%nat
  end.

Section Terminating.
Context {E : Env}.

(** The caller's functions return or throw. *)
Definition terminating_callbacks (C : Callbacks heap) : Prop :=
  (forall f s o h, fst (backup_fn C f s o h) <> Diverge) /\
  (forall f h, fst (string_fn C f h) <> Diverge) /\
  (forall f k r h, fst (mapper_fn C f k r h) <> Diverge) /\
  (forall f h, fst (mapped_fn C f h) <> Diverge) /\
  (forall f v h, fst (transform_fn C f v h) <> Diverge) /\
  (forall f h, fst (default_fn C f h) <> Diverge).

(** The functions of the Faker modules return or throw. *)
Definition terminating_catalog : Prop :=
  forall section members name fn t r,
    In (section, members) catalog -> In (name, Fn fn) members ->
    fst (fn t r) <> Diverge.

End Terminating.

(** *** Leniency *)

(** Options under which an unknown node is not an error:
    [throwOnUnknownType] is absent or [false]. *)
Definition lenient (o : GenerateMockOptions) : Prop :=
  default false (throwOnUnknownType o) = false.

Definition is_mock_error {A} (r : outcome A) : Prop :=
  exists message, r = Throw (ZodMockError message).

Section Polite.
Context {E : Env}.

(** The caller's functions do not throw a [ZodMockError] of their own. *)
Definition polite_callbacks (C : Callbacks heap) : Prop :=
  (forall f s o h, ~ is_mock_error (fst (backup_fn C f s o h))) /\
  (forall f h, ~ is_mock_error (fst (string_fn C f h))) /\
  (forall f k r h, ~ is_mock_error (fst (mapper_fn C f k r h))) /\
  (forall f h, ~ is_mock_error (fst (mapped_fn C f h))) /\
  (forall f v h, ~ is_mock_error (fst (transform_fn C f v h))) /\
  (forall f h, ~ is_mock_error (fst (default_fn C f h))).

(** Nor do the functions of the Faker modules. *)
Definition polite_catalog : Prop :=
  forall section members name fn t r,
    In (section, members) catalog -> In (name, Fn fn) members ->
    ~ is_mock_error (fst (fn t r)).

End Polite.

(** ** The factory of [factory/mod.ts]

    The factory validates with Zod's [parse] and [safeParse], which are not
    part of the repository: validation is the operation of the class
    [Validator].  A [FakerCallback] is a caller's function of the Faker
    instance; it runs in the monad of the engine. *)

(** [schema.safeParse(data)]: the parsed data, or the error. *)
Class Validator := {
  safeParse : schema -> val -> val + string;
}.

(** *** Object spread *)

Fixpoint index_props (i : Z) (xs : list val) : list (string * val) :=
  match xs with
  | [] => []
  | x :: xs' => (pretty i, x) :: index_props (i + 1) xs'
  end.

Fixpoint characters (s : string) : list val :=
  match s with
  | EmptyString => []
  | String c s' => VStr (String c EmptyString) :: characters s'
  end.

(** [Object.assign]'s copy of the properties [source] into [target]. *)
Definition assign_props (target source : list (string * val))
  : list (string * val) :=
  fold_left (fun acc kv => obj_set (fst kv) (snd kv) acc) source target.

(** The own enumerable properties of a value: the properties of an object,
    the elements of an array and the characters of a string by index, and
    what [Object.assign] added to a target. *)
Fixpoint own_props (v : val) : list (string * val) :=
  match v with
  | VObj props => props
  | VArr xs => index_props 0 xs
  | VStr s => index_props 0 (characters s)
  | VAssigned target source =>
      assign_props (own_props target) (own_props source)
  | _ => []
  end.

(** [{ ...a, ...b, ... }]. *)
Definition spread (sources : list val) : val :=
  VObj (fold_left (fun acc v => assign_props acc (own_props v)) sources []).

(** [({ [key]: _, ...rest }) => rest]. *)
Definition rest_without (key : string) (v : val) : outcome val :=
  match v with
  | VUndefined | VNull =>
      Throw (Fault "TypeError: Cannot destructure undefined or null")
  | _ =>
      Ret (VObj (List.filter (fun p => negb (String.eqb (fst p) key))
                   (own_props v)))
  end.

(** [typeof v === 'function']: the closure of a function node, also after
    [Object.assign] added properties to it. *)
Fixpoint as_function (v : val) : option (schema * GenerateMockOptions) :=
  match v with
  | VFun returns opts => Some (returns, opts)
  | VAssigned target _ => as_function target
  | _ => None
  end.

Section Factory.
Context {E : Env} {Z_ : Validator} (C : Callbacks heap).

(** [type FakerCallback<T> = (faker: Faker) => Partial<T>]. *)
Definition FakerCallback : Type := nat -> M val.

(** [schema.parse(data)]. *)
Definition parse (schema_ : schema) (data : val) : M val :=
  match safeParse schema_ data with
  | inl parsed => ret parsed
  | inr error => throw (Fault ("ZodError: " +:+ error))
  end.

(** The function that [createMockFactory(schema, fakerCallback)] returns. *)
Definition createMockFactory (fuel : nat) (schema_ : schema)
    (fakerCallback : option FakerCallback) : M val :=
  let* localFaker := new_Faker in
  let* t := get_now in
  let* _ := faker_seed localFaker (SeedNumber t) in
  let* mockData :=
    generateMock C fuel schema_ (set_faker localFaker no_options) in
  let* fakerData :=
    match fakerCallback with
    | Some cb => cb localFaker
    | None => ret (VObj [])
    end in
  let mergedData := spread [mockData; fakerData] in
  parse schema_ mergedData.

(** [factory(schema, fakerCallback)]: the object it returns is given by
    the two values its methods close over. *)
Record Factory := {
  factory_schema : schema;
  factory_callback : option FakerCallback;
}.

Definition factory (schema_ : schema) (fakerCallback : option FakerCallback)
  : Factory :=
  {| factory_schema := schema_; factory_callback := fakerCallback |}.

Definition mockFactory (fuel : nat) (f : Factory) : M val :=
  createMockFactory fuel (factory_schema f) (factory_callback f).

(** [create(attributes)]. *)
Definition create (fuel : nat) (f : Factory) (attributes : val) : M val :=
  let* mock := mockFactory fuel f in
  let mergedData := spread [mock; attributes] in
  match safeParse (factory_schema f) mergedData with
  | inl data => ret data
  | inr error => throw (Fault ("Error: Invalid input: " +:+ error))
  end.

(** [Array.from({ length: count }, fn)] calls [fn] for the indices
    [0 .. count - 1]; a length of [2^32] or more is a [RangeError]. *)
Definition indices (count : Z) : list Z :=
  map Z.of_nat (seq 0 (Z.to_nat count)).

(** [createMany(count, attributes)]. *)
Definition createMany (fuel : nat) (f : Factory) (count : Z)
    (attributes : val) : M val :=
  if 4294967296 <=? count
  then throw (Fault "RangeError: Invalid array length")
  else
    let* items :=
      mapM (fun index =>
              let* mockData := mockFactory fuel f in
              create fuel f
                (spread [mockData; attributes;
                         VObj [("_index", VNum index)]]))
           (indices count) in
    let* rests :=
      mapM (fun item => lift_outcome (rest_without "_index" item)) items in
    ret (VArr rests).

(** The argument of [state]: attributes, or a callback. *)
Inductive state_argument :=
| Attributes (attributes : val)
| Callback (callback : FakerCallback).

(** [typeof attributes === 'function' ? attributes(f) : attributes]. *)
Definition state_attributes (fuel : nat) (a : state_argument) (f : nat)
  : M val :=
  match a with
  | Callback cb => cb f
  | Attributes v =>
      match as_function v with
      | Some (returns, opts) => generateMock C fuel returns opts
      | None => ret v
      end
  end.

(** [state(attributes)]. *)
Definition state (fuel : nat) (f : Factory) (a : state_argument) : Factory :=
  let newFakerCallback : FakerCallback :=
    fun faker_ =>
      let* base :=
        match factory_callback f with
        | Some cb => cb faker_
        | None => ret VUndefined
        end in
      let* extra := state_attributes fuel a faker_ in
      ret (spread [base; extra]) in
  factory (factory_schema f) (Some newFakerCallback).

(** [raw(attributes)]. *)
Definition raw (fuel : nat) (f : Factory) (attributes : val) : M val :=
  let* mock := mockFactory fuel f in
  ret (spread [mock; attributes]).

End Factory.

(** *** A validator and a recursive schema for the examples *)

Module Examples.

(** A validator that accepts every object as it is and nothing else. *)
Definition validator : Validator :=
  {| safeParse := fun _ v =>
       match v with
       | VObj _ => inl v
       | _ => inr "Expected object"
       end |}.

(** The callbacks of [Sample], with a getter that closes a cycle:
    [Node = object({ value: number(), next: lazy(() => Node) })]. *)
Definition list_node (g : fnid) : schema :=
  ZodObject [("value", ZodNumber []); ("next", ZodLazy g)].

Definition callbacks : Callbacks heap :=
  {| backup_fn := backup_fn Sample.callbacks;
     string_fn := string_fn Sample.callbacks;
     mapper_fn := mapper_fn Sample.callbacks;
     mapped_fn := mapped_fn Sample.callbacks;
     transform_fn := transform_fn Sample.callbacks;
     default_fn := default_fn Sample.callbacks;
     getter_fn := list_node |}.

(** A cache of strings to integers with room for three entries, filled
    with [a], [b] and [c]. *)
Definition abc : LRUCache.t string Z :=
  LRUCache.run [LRUCache.Put "a" 1; LRUCache.Put "b" 2; LRUCache.Put "c" 3]
    (LRUCache.new 3).

End Examples.

(** *** The module-level Faker instance *)

(** Nodes that do not reach [parseUuid], the one synthesizer that reads
    the module-level [faker] whatever the options say: no node has the tag
    [ZodUuid].  The return type of a function node does not count: the
    function it yields is not called by the engine. *)
Fixpoint uuid_free (s : schema) : bool :=
  match s with
  | ZodUuid => false
  | ZodOther t => negb (String.eqb t "ZodUuid")
  | ZodObject shape => forallb (fun f => uuid_free (snd f)) shape
  | ZodRecord k v => uuid_free k && uuid_free v
  | ZodArray e _ _ _ => uuid_free e
  | ZodSet e _ _ => uuid_free e
  | ZodMap k v => uuid_free k && uuid_free v
  | ZodUnion alts | ZodDiscriminatedUnion alts => forallb uuid_free alts
  | ZodIntersection l r => uuid_free l && uuid_free r
  | ZodOptional i | ZodNullable i | ZodPromise i | ZodBranded i => uuid_free i
  | ZodEffects i _ => uuid_free i
  | ZodDefault i _ => uuid_free i
  | ZodTuple items rest =>
      forallb uuid_free items
      && match rest with Some r => uuid_free r | None => true end
  | _ => true
  end.

Section Discreet.
Context {E : Env}.

(** A state in which the module-level instance exists. *)
Definition loaded (h : heap) : Prop := (0 < next_faker h)%nat.

(** A caller's function that leaves the module-level instance alone. *)
Definition leaves_module_faker {A} (f : heap -> outcome A * heap) : Prop :=
  forall h, loaded h ->
    fakers (snd (f h)) 0%nat = fakers h 0%nat /\ loaded (snd (f h)).

Definition discreet_callbacks (C : Callbacks heap) : Prop :=
  (forall f s o, leaves_module_faker (backup_fn C f s o)) /\
  (forall f, leaves_module_faker (string_fn C f)) /\
  (forall f k r, leaves_module_faker (mapper_fn C f k r)) /\
  (forall f, leaves_module_faker (mapped_fn C f)) /\
  (forall f v, leaves_module_faker (transform_fn C f v)) /\
  (forall f, leaves_module_faker (default_fn C f)).

End Discreet.

(** * Properties *)

(** ** Strings *)

Lemma take_length n s :
  String.length (Js.take n s) = Nat.min n (String.length s).
Proof.
  revert s; induction n as [|n IH]; intros [|c s]; simpl; auto.
Qed.

Lemma append_length s t :
  String.length (s +:+ t) = (String.length s + String.length t)%nat.
Proof. induction s as [|c s IH]; simpl; auto. Qed.

(** ** The registry *)

(** The tags with a built-in synthesizer. *)
Definition builtin_tags : list string :=
  [ "ZodObject"; "ZodRecord"; "ZodArray"; "ZodSet"; "ZodMap"; "ZodLazy";
    "ZodUnion"; "ZodIntersection"; "ZodDiscriminatedUnion"; "ZodOptional";
    "ZodNullable"; "ZodTransformer"; "ZodEffects"; "ZodFunction";
    "ZodPromise"; "ZodTuple"; "ZodString"; "ZodNumber"; "ZodBigInt";
    "ZodBoolean"; "ZodDate"; "ZodEnum"; "ZodNativeEnum"; "ZodLiteral";
    "ZodBranded"; "ZodNull"; "ZodNaN"; "ZodDefault"; "ZodVoid";
    "ZodUndefined"; "ZodUuid" ].

Definition builtin (tag : string) : bool :=
  existsb (String.eqb tag) builtin_tags.

Section Registry.
Context {E : Env} (C : Callbacks heap).

Lemma workerMap_keys gen n : map fst (workerMap C gen n) = builtin_tags.
Proof. reflexivity. Qed.

Lemma assoc_None_iff {A} k (l : list (string * A)) :
  assoc k l = None <-> existsb (String.eqb k) (map fst l) = false.
Proof.
  induction l as [|[k' a] l IH]; simpl; [tauto|].
  rewrite (String.eqb_sym k k').
  destruct (String.eqb k' k); simpl; [split; discriminate | exact IH].
Qed.

Lemma assoc_In {A} k (l : list (string * A)) a :
  assoc k l = Some a -> In (k, a) l.
Proof.
  induction l as [|[k0 a0] l IH]; simpl; [discriminate|].
  destruct (String.eqb_spec k0 k) as [->|_].
  - intros H. injection H as ->. left. reflexivity.
  - intros H. right. apply IH, H.
Qed.

Lemma assoc_Forall {A} (P : A -> Prop) k (l : list (string * A)) a :
  Forall (fun p => P (snd p)) l -> assoc k l = Some a -> P a.
Proof.
  induction 1 as [|[k' a'] l Hp _ IH]; simpl; [discriminate|].
  destruct (String.eqb k' k); [intros H; injection H as <-; exact Hp | exact IH].
Qed.

Lemma workerMap_unknown gen n tag :
  builtin tag = false -> assoc tag (workerMap C gen n) = None.
Proof.
  intros H. apply assoc_None_iff. rewrite workerMap_keys. exact H.
Qed.

Lemma workerMap_known gen n tag :
  builtin tag = true -> exists worker, assoc tag (workerMap C gen n) = Some worker.
Proof.
  intros H. destruct (assoc tag (workerMap C gen n)) as [wk|] eqn:Hw; [eauto|].
  apply assoc_None_iff in Hw. rewrite workerMap_keys in Hw.
  unfold builtin in H. congruence.
Qed.

(** The tag of a node built from one of the typed constructors is in the
    registry, so an unregistered tag is the tag of a [ZodOther] node. *)
Lemma unknown_is_other s :
  builtin (typeName s) = false -> s = ZodOther (typeName s).
Proof. destruct s; simpl; try discriminate; reflexivity. Qed.

End Registry.

(** ** Runs of the entry point *)

Section EntryPoint.
Context {E : Env} (C : Callbacks heap).

Lemma generateMock_unfold n s o :
  generateMock C (S n) s o =
  (let* d := prepare o in
   try_catch (dispatch C (workerMap C (generateMock C n) n) s d) contain).
Proof. reflexivity. Qed.

(** [prepare] always returns, with the options completed by the defaults. *)
Lemma prepare_run o w :
  prepare o w =
  (Ret (defaultOptions (next_faker (user w)) o), snd (prepare o w)).
Proof.
  unfold prepare, bind, new_Faker, ret. simpl.
  destruct (seed o); reflexivity.
Qed.

Lemma backup_lookup_defaultOptions fresh o tag :
  backup_lookup (defaultOptions fresh o) tag = backup_lookup o tag.
Proof. reflexivity. Qed.

(** A run of the entry point is a run of the [try] block, passed through
    the [catch] clause. *)
Lemma generateMock_run n s o w :
  generateMock C (S n) s o w =
  try_catch
    (dispatch C (workerMap C (generateMock C n) n) s
       (defaultOptions (next_faker (user w)) o))
    contain (snd (prepare o w)).
Proof.
  rewrite generateMock_unfold. unfold bind at 1.
  rewrite prepare_run. reflexivity.
Qed.

(** A node whose tag is registered and is not [ZodUndefined] goes to its
    built-in synthesizer, whatever [backupMocks] holds. *)
Lemma dispatch_builtin workers s d worker :
  String.eqb (typeName s) "ZodUndefined" = false ->
  assoc (typeName s) workers = Some worker ->
  dispatch C workers s d = worker s d.
Proof.
  intros Hu Hw. unfold dispatch. rewrite Hu, Hw. reflexivity.
Qed.

End EntryPoint.

(** ** Inversion of runs *)

Section Runs.
Context {E : Env}.

Lemma bind_Ret_inv {A B} (m : M A) (k : A -> M B) w b w' :
  bind m k w = (Ret b, w') ->
  exists a w1, m w = (Ret a, w1) /\ k a w1 = (Ret b, w').
Proof.
  unfold bind. destruct (m w) as [[a|e|] w1]; intros H; try discriminate.
  eauto.
Qed.

Lemma fst_Ret_inv {A} (m : M A) w a :
  fst (m w) = Ret a -> exists w', m w = (Ret a, w').
Proof. destruct (m w) as [x w']. simpl. intros ->. eauto. Qed.

Lemma bind_Ret {A B} (m : M A) (k : A -> M B) w a w1 :
  m w = (Ret a, w1) -> bind m k w = k a w1.
Proof. unfold bind. intros ->. reflexivity. Qed.

Lemma number_int_Ret_inv r mn mx w t w' :
  number_int r mn mx w = (Ret t, w') ->
  default 0 mn <= t <= default MAX_SAFE_INTEGER mx.
Proof.
  unfold number_int.
  destruct (Z.ltb_spec (default MAX_SAFE_INTEGER mx) (default 0 mn)) as [|Hle];
    [discriminate|].
  unfold draw.
  pose proof (rand_int_range _ _ (fakers (user w) r) Hle) as Hr.
  destruct (rand_int _ _ _) as [t' r']. simpl in Hr.
  intros H. injection H as <- _. exact Hr.
Qed.

Lemma number_int_total r mn mx w :
  default 0 mn <= default MAX_SAFE_INTEGER mx ->
  exists t w', number_int r mn mx w = (Ret t, w').
Proof.
  intros Hle. unfold number_int.
  destruct (Z.ltb_spec (default MAX_SAFE_INTEGER mx) (default 0 mn)); [lia|].
  unfold draw. destruct (rand_int _ _ _). eauto.
Qed.

Lemma draw_total {A} r (f : rng -> A * rng) w :
  exists a w', draw r f w = (Ret a, w').
Proof. unfold draw. destruct (f _). eauto. Qed.

(** [string.alpha] returns a string of the requested length, when it
    returns; it does for the lengths up to [alpha_limit], and throws for a
    length of [2^32] or more. *)
Lemma string_alpha_Ret_inv r n w s w' :
  string_alpha r n w = (Ret s, w') -> String.length s = Z.to_nat n.
Proof.
  unfold string_alpha.
  pose proof (rand_alpha_length n (fakers (user w) r)) as Hlen.
  destruct (rand_alpha n (fakers (user w) r)) as [[str|] g]; [|discriminate].
  intros H. injection H as <- _. apply Hlen. reflexivity.
Qed.

Lemma string_alpha_total r n w :
  n <= alpha_limit -> exists s w', string_alpha r n w = (Ret s, w').
Proof.
  intros Hn. unfold string_alpha.
  pose proof (rand_alpha_returns n (fakers (user w) r) Hn) as Hsome.
  destruct (rand_alpha n (fakers (user w) r)) as [[str|] g];
    [eauto | contradiction].
Qed.

Lemma string_alpha_RangeError r n w :
  4294967296 <= n -> exists e, fst (string_alpha r n w) = Throw (Fault e).
Proof.
  intros Hn. unfold string_alpha.
  pose proof (rand_alpha_range n (fakers (user w) r) Hn) as Hnone.
  destruct (rand_alpha n (fakers (user w) r)) as [a g]. simpl in Hnone.
  subst a. eexists. reflexivity.
Qed.

End Runs.

(** ** The depth guard *)

Section DepthGuard.
Context {E : Env} (C : Callbacks heap).
Variable gen : schema -> GenerateMockOptions -> M val.
Variable n : nat.

(** The synthesizer that the registry wraps in [depthControlled], for the
    six kinds of node that are guarded. *)
Definition guarded_synthesizer (zodRef : schema)
  : option (schema -> GenerateMockOptions -> M val) :=
  match zodRef with
  | ZodObject _ => Some (parseObject_inner gen)
  | ZodRecord _ _ => Some (parseRecord gen)
  | ZodArray _ _ _ _ => Some (parseArray_inner C gen)
  | ZodSet _ _ _ => Some (parseSet_inner gen n)
  | ZodMap _ _ => Some (parseMap_inner gen n)
  | ZodLazy _ => Some (parseLazy C gen)
  | _ => None
  end.

(** What a guarded node yields once the depth limit is reached. *)
Definition empty_default (zodRef : schema) : val :=
  match zodRef with
  | ZodObject _ => VObj []
  | ZodArray _ _ _ _ => VArr []
  | ZodSet _ _ _ => VSet []
  | ZodMap _ _ => VMap []
  | _ => VUndefined
  end.


End DepthGuard.

(** ** Constant nodes, unknown tags and fault containment *)

Section Containment.
Context {E : Env} (C : Callbacks heap).

(** Void and null nodes, and an undefined node without a [ZodUndefined]
    backup mock, yield [undefined], [null] and [undefined]; no Faker
    instance is drawn from. *)
Lemma constant_nodes n o w :
  generateMock C (S n) ZodVoid o w = (Ret VUndefined, snd (prepare o w)) /\
  generateMock C (S n) ZodNull o w = (Ret VNull, snd (prepare o w)) /\
  (backup_lookup o "ZodUndefined" = None ->
   generateMock C (S n) ZodUndefined o w
   = (Ret VUndefined, snd (prepare o w))).
Proof.
  repeat split; try intros Hb; rewrite generateMock_run;
    unfold try_catch, dispatch; simpl;
    rewrite ?backup_lookup_defaultOptions, ?Hb; reflexivity.
Qed.

(** C9.  The registry entry of [ZodNaN] is [() => undefined]: a NaN node
    yields [undefined], not the not-a-number value. *)
Theorem ZodNaN_yields_undefined n o w :
  generateMock C (S n) ZodNaN o w = (Ret VUndefined, snd (prepare o w)) /\
  fst (generateMock C (S n) ZodNaN o w) <> Ret VNaN.
Proof.
  assert (H : generateMock C (S n) ZodNaN o w
              = (Ret VUndefined, snd (prepare o w))).
  { rewrite generateMock_run. reflexivity. }
  split; [exact H|]. rewrite H. simpl. discriminate.
Qed.

(** C5.  A node whose tag has neither a built-in synthesizer nor a backup
    mock: with [throwOnUnknownType] set to [true] the entry point throws a
    [ZodMockError] carrying the tag; with the flag absent or [false] it
    returns [undefined]. *)
Theorem unknown_type n s o w :
  builtin (typeName s) = false ->
  backup_lookup o (typeName s) = None ->
  (throwOnUnknownType o = Some true ->
   fst (generateMock C (S n) s o w) = Throw (ZodMockError (typeName s))) /\
  (throwOnUnknownType o = None \/ throwOnUnknownType o = Some false ->
   fst (generateMock C (S n) s o w) = Ret VUndefined).
Proof.
  intros Hb Hbk.
  assert (Hu : String.eqb (typeName s) "ZodUndefined" = false).
  { destruct (String.eqb_spec (typeName s) "ZodUndefined") as [Heq|]; [|reflexivity].
    rewrite Heq in Hb. discriminate. }
  rewrite generateMock_run. unfold try_catch, dispatch.
  rewrite Hu, (workerMap_unknown C _ _ _ Hb), backup_lookup_defaultOptions, Hbk.
  change (throwOnUnknownType (defaultOptions (next_faker (user w)) o))
    with (throwOnUnknownType o).
  split.
  - intros ->. reflexivity.
  - intros [-> | ->]; reflexivity.
Qed.

(** The [catch] clause turns every fault into [undefined] and rethrows a
    [ZodMockError]. *)
Lemma contain_Fault e w :
  contain (Fault e) w
  = (Ret VUndefined, snd (console_log (LogError (Fault e)) w)).
Proof. reflexivity. Qed.

Lemma try_contain_no_Fault (m : M val) w e :
  fst (try_catch m contain w) <> Throw (Fault e).
Proof.
  unfold try_catch. destruct (m w) as [[v|[msg|d]|] w']; simpl; discriminate.
Qed.

(** C6.  A fault raised anywhere in the [try] block of the entry point
    (by a built-in synthesizer or by a caller's function) is logged with
    [console.error] and the call returns [undefined]; a [ZodMockError] is
    rethrown.  Hence no call of the entry point ever ends in a fault other
    than [ZodMockError]. *)
Theorem fault_containment s o w :
  (forall n e w2,
     dispatch C (workerMap C (generateMock C n) n) s
       (defaultOptions (next_faker (user w)) o) (snd (prepare o w))
     = (Throw (Fault e), w2) ->
     exists w3,
       generateMock C (S n) s o w = (Ret VUndefined, w3) /\
       console (user w3) = console (user w2) ++ [LogError (Fault e)] /\
       fakers (user w3) = fakers (user w2)) /\
  (forall n m w2,
     dispatch C (workerMap C (generateMock C n) n) s
       (defaultOptions (next_faker (user w)) o) (snd (prepare o w))
     = (Throw (ZodMockError m), w2) ->
     generateMock C (S n) s o w = (Throw (ZodMockError m), w2)) /\
  (forall fuel e, fst (generateMock C fuel s o w) <> Throw (Fault e)).
Proof.
  split; [|split].
  - intros n e w2 Hd. rewrite generateMock_run. unfold try_catch.
    rewrite Hd, contain_Fault. eexists; split; [reflexivity|]. split; reflexivity.
  - intros n m w2 Hd. rewrite generateMock_run. unfold try_catch.
    rewrite Hd. reflexivity.
  - intros [|n] e; [simpl; discriminate|].
    rewrite generateMock_run. apply try_contain_no_Fault.
Qed.

End Containment.

(** ** Dates *)

(** What the checks of a date node declare under the kind [k]: the time
    value of the last check of that kind that holds a Date or a number other
    than NaN. *)
Definition declared_date (k : string) (checks : list (check date_value))
  : option Z :=
  fold_left
    (fun (acc : option Z) (c : check date_value) =>
       if String.eqb (kind c) k
       then match value c with
            | DateObj t | DateNum t => Some t
            | DateNaN | DateOther => acc
            end
       else acc)
    checks None.

(** The node has a check of the kind [k] that holds the date [t]. *)
Definition checked_date (k : string) (checks : list (check date_value))
    (t : Z) : Prop :=
  exists c, In c checks /\ kind c = k /\
            (value c = DateObj t \/ value c = DateNum t).

(** The time values of the valid Dates. *)
Definition valid_time (t : Z) : Prop := - MAX_TIME <= t <= MAX_TIME.

Lemma time_clip_valid t : valid_time t -> time_clip t = Some t.
Proof.
  unfold valid_time, time_clip. intros [Hlo Hhi].
  destruct (Z.leb_spec (- MAX_TIME) t); [|lia].
  destruct (Z.leb_spec t MAX_TIME); [reflexivity | lia].
Qed.

Lemma time_clip_invalid t : ~ valid_time t -> time_clip t = None.
Proof.
  unfold valid_time, time_clip. intros H.
  destruct (Z.leb_spec (- MAX_TIME) t); [|reflexivity].
  destruct (Z.leb_spec t MAX_TIME); [lia | reflexivity].
Qed.

Lemma time_clip_Some t t' : time_clip t = Some t' -> t' = t /\ valid_time t.
Proof.
  unfold valid_time, time_clip.
  destruct (Z.leb_spec (- MAX_TIME) t); [|discriminate].
  destruct (Z.leb_spec t MAX_TIME); [|discriminate].
  intros Heq. injection Heq as <-. split; [reflexivity | lia].
Qed.

Section Dates.
Context {E : Env} (C : Callbacks heap).

(** A bound of a date check: a Date instance or its time value. *)
Definition date_bound (as_date : bool) (t : Z) : date_value :=
  if as_date then DateObj t else DateNum t.

(** [date_bounds] returns, and reads the checks by their kind: the bounds
    are the declared ones, as Dates. *)
Lemma date_bounds_run checks w :
  exists w',
    date_bounds checks w
    = (Ret (option_map time_clip (declared_date "min" checks),
            option_map time_clip (declared_date "max" checks)), w').
Proof.
  unfold date_bounds, declared_date.
  change (@None (option Z), @None (option Z))
    with (option_map time_clip (@None Z), option_map time_clip (@None Z)).
  generalize (@None Z) at 1 3 as a. generalize (@None Z) as b.
  revert w. induction checks as [|c checks IH]; intros w b a.
  - exists w. reflexivity.
  - cbn [foldM fold_left].
    destruct (String.eqb_spec (kind c) "min") as [Hmin|Hmin].
    + rewrite Hmin. cbn [orb String.eqb Ascii.eqb Bool.eqb].
      destruct (value c) as [t|t| |]; unfold bind; simpl.
      * apply (IH w b (Some t)).
      * apply (IH w b (Some t)).
      * apply IH.
      * apply IH.
    + destruct (String.eqb_spec (kind c) "max") as [Hmax|Hmax].
      * cbn [orb].
        destruct (value c) as [t|t| |]; unfold bind; simpl.
        -- apply (IH w (Some t) a).
        -- apply (IH w (Some t) a).
        -- apply IH.
        -- apply IH.
      * cbn [orb]. unfold bind, ret. apply IH.
Qed.

(** Between two valid dates in order, [date.between] returns a date. *)
Lemma date_between_run r A B w :
  valid_time A -> valid_time B -> A <= B ->
  exists t w',
    date_between r (Some A) (Some B) w = (Ret (Some t), w') /\ A <= t <= B.
Proof.
  intros HA HB Hle. unfold date_between, toDate.
  destruct (number_int_total r None (Some (B - A)) w ltac:(simpl; lia))
    as (off & w2 & Hoff).
  pose proof (number_int_Ret_inv _ _ _ _ _ _ Hoff) as Hr. simpl in Hr.
  exists (A + off), w2.
  unfold bind at 1. unfold ret at 1. unfold bind at 1. unfold ret at 1.
  rewrite (bind_Ret _ _ _ _ _ Hoff). unfold ret.
  assert (Hv : valid_time (A + off)) by (unfold valid_time in *; lia).
  rewrite (time_clip_valid _ Hv). split; [reflexivity | lia].
Qed.

Lemma generateMock_ZodDate n checks o w :
  generateMock C (S n) (ZodDate checks) o w
  = try_catch
      (parseDate (ZodDate checks) (defaultOptions (next_faker (user w)) o))
      contain (snd (prepare o w)).
Proof.
  rewrite generateMock_run.
  rewrite (dispatch_builtin C _ _ _ parseDate) by reflexivity.
  reflexivity.
Qed.

(** C4, as amended.  Take a date node with a [min] and a [max] constraint,
    its checks in any order and number: [A] is the date of its last valid
    [min] check and the latest of the dates of its [min] checks, [B] the
    date of its last valid [max] check and the earliest of the dates of its
    [max] checks.  When [A <= B] the entry point yields a date within
    [[A, B]], which meets every [min] and [max] check of the node; when
    [A > B] it yields [undefined]. *)
Theorem date_range n checks A B o w :
  declared_date "min" checks = Some A ->
  declared_date "max" checks = Some B ->
  (forall m, checked_date "min" checks m -> m <= A) ->
  (forall m, checked_date "max" checks m -> B <= m) ->
  valid_time A -> valid_time B ->
  (A <= B ->
   exists t, fst (generateMock C (S n) (ZodDate checks) o w) = Ret (VDate t)
             /\ A <= t <= B
             /\ (forall m, checked_date "min" checks m -> m <= t)
             /\ (forall m, checked_date "max" checks m -> t <= m)) /\
  (B < A ->
   fst (generateMock C (S n) (ZodDate checks) o w) = Ret VUndefined).
Proof.
  intros Hmin Hmax Hlo Hhi HA HB.
  rewrite generateMock_ZodDate. unfold try_catch, parseDate.
  destruct (date_bounds_run checks (snd (prepare o w))) as (w1 & Hb).
  rewrite Hmin, Hmax in Hb. cbn [option_map] in Hb.
  rewrite (time_clip_valid A HA), (time_clip_valid B HB) in Hb.
  rewrite (bind_Ret _ _ _ _ _ Hb). cbv beta iota. unfold try_catch, date_gt.
  split; intros H.
  - destruct (Z.ltb_spec B A) as [|_]; [lia|].
    destruct (date_between_run
                (fakerInstance (defaultOptions (next_faker (user w)) o))
                A B w1 HA HB H) as (t & w2 & Ht & Hr).
    rewrite (bind_Ret _ _ _ _ _ Ht). exists t.
    split; [reflexivity|]. split; [exact Hr|].
    split; intros m Hm; [specialize (Hlo m Hm) | specialize (Hhi m Hm)]; lia.
  - destruct (Z.ltb_spec B A) as [_|]; [reflexivity | lia].
Qed.

End Dates.

(** ** String lengths *)

Section Strings.
Context {E : Env} (C : Callbacks heap).

Lemma slice0_length s b :
  0 <= b ->
  Z.of_nat (String.length (Js.slice0 s (Some b)))
  = Z.min b (Z.of_nat (String.length s)).
Proof.
  intros Hb. unfold Js.slice0.
  destruct (Z.ltb_spec b 0); [lia|].
  rewrite take_length. lia.
Qed.

(** The length-driven part of [parseString]: whatever the generator
    returned, padding and the final [slice] enforce the bounds. *)
Lemma parseString_sized_bounds checks o a b w v w' :
  stringOptions checks = (Some a, Some b) ->
  0 <= b ->
  parseString_sized C checks o w = (Ret v, w') ->
  exists s, v = VStr s /\
    Z.of_nat (String.length s) <= b /\
    (a <= b -> a <= Z.of_nat (String.length s)).
Proof.
  intros Hso Hb. unfold parseString_sized. rewrite Hso. cbn [fst snd].
  intros H.
  apply bind_Ret_inv in H as (target & w1 & Htarget & H).
  apply bind_Ret_inv in H as (g & w2 & _ & H).
  apply bind_Ret_inv in H as (mock & w3 & _ & H).
  apply bind_Ret_inv in H as (str & w4 & _ & H).
  apply bind_Ret_inv in H as (str' & w5 & Hpad & H).
  injection H as <- _.
  eexists; split; [reflexivity|].
  pose proof (slice0_length str' b Hb) as Hs. unfold Js.slice0 in Hs.
  rewrite Hs. clear Hs.
  split; [lia|]. intros Hab.
  apply number_int_Ret_inv in Htarget.
  assert (Hsorted : sortedStringOptions (Some a, Some b) = (Some a, Some b)).
  { unfold sortedStringOptions.
    destruct (Z.ltb_spec b a); [lia|]. rewrite andb_false_r. reflexivity. }
  rewrite Hsorted in Htarget. cbn in Htarget.
  destruct (Z.ltb_spec (Z.of_nat (String.length str)) a) as [Hshort|Hlong].
  - apply bind_Ret_inv in Hpad as (pad & w6 & Hdraw & Hret).
    injection Hret as <- _.
    apply string_alpha_Ret_inv in Hdraw.
    rewrite append_length, Hdraw. lia.
  - injection Hpad as <- _. lia.
Qed.

(** The generators of the table [stringGenerators]. *)
Definition table_generator (g : FakerFunction) : Prop :=
  match g with
  | DefaultGenerator _ | DateGenerator | TextGenerator _ => True
  | _ => False
  end.

Lemma stringGenerators_table target g :
  In g (stringGenerators target) -> table_generator (snd g).
Proof.
  unfold stringGenerators. simpl.
  intros H. repeat (destruct H as [<- | H]; [exact I|]). destruct H.
Qed.

(** The selection in the table looks at the names only: it does not depend
    on the target length. *)
Lemma stringType_target k checks t t' :
  match stringType k checks t, stringType k checks t' with
  | Some g, Some g' =>
      table_generator (snd g) /\
      (snd g = DateGenerator <-> snd g' = DateGenerator)
  | None, None => True
  | _, _ => False
  end.
Proof.
  unfold stringType, stringGenerators. cbn [find fst].
  destruct (_ || _)%bool;
    [split; [exact I | split; discriminate]|].
  repeat (destruct (_ || _)%bool;
          [split; [exact I | split; intros H; first [exact H | discriminate]]|]).
  exact I.
Qed.

(** The generators of the table that draw a word or a text always return a
    string; the date generator does when the clock shows a valid date more
    than a day after the earliest one. *)
Lemma call_generator_table r g w :
  table_generator g ->
  (g = DateGenerator -> - MAX_TIME + day_ms <= now (user w) <= MAX_TIME) ->
  exists s w', call_generator C r g w = (Ret (VStr s), w').
Proof.
  destruct g as [t| |k|sec name|f| |]; simpl; intros Hg Hclock;
    try destruct Hg.
  - destruct (draw_total r (rand_word (if 10 <? t then None else Some t)) w)
      as (s & w' & Hd).
    rewrite (bind_Ret _ _ _ _ _ Hd). unfold ret. eauto.
  - specialize (Hclock eq_refl).
    unfold date_recent, toDate. unfold bind at 1. unfold bind at 1.
    unfold get_now.
    destruct (number_int_total r (Some 1000) (Some (1 * day_ms)) w)
      as (off & w' & Hn); [vm_compute; discriminate|].
    pose proof (number_int_Ret_inv _ _ _ _ _ _ Hn) as Hoff. simpl in Hoff.
    rewrite (bind_Ret _ _ _ _ _ Hn). unfold ret.
    assert (Hv : valid_time (now (user w) - off)).
    { unfold valid_time, day_ms, MAX_TIME in *. lia. }
    rewrite (time_clip_valid _ Hv). eauto.
  - destruct (draw_total r (rand_text k) w) as (s & w' & Hd).
    rewrite (bind_Ret _ _ _ _ _ Hd). unfold ret. eauto.
Qed.

(** *** Fields without a Faker function of their name *)

Lemma findM_none {A} (p : A -> M bool) l w :
  (forall x, In x l -> p x w = (Ret false, w)) ->
  findM p l w = (Ret None, w).
Proof.
  induction l as [|x l IH]; intros Hp; [reflexivity|].
  cbn [findM]. unfold bind. rewrite (Hp x (or_introl eq_refl)).
  apply IH. intros y Hy. apply Hp. right. exact Hy.
Qed.

(** No module of Faker has a function called [k]. *)
Definition no_member (k : string) : Prop :=
  forall section members fn,
    In (section, members) catalog -> assoc k members <> Some (Fn fn).

Lemma findMatchingFaker_none k fakerOption w :
  defaultMapper k = None -> no_member k ->
  findMatchingFaker C k fakerOption None w = (Ret None, w).
Proof.
  intros Hmap Hno. unfold findMatchingFaker.
  unfold bind at 1. unfold ret at 1. rewrite Hmap.
  rewrite (bind_Ret _ _ w None w); [reflexivity|].
  apply findM_none. intros [section members] Hin.
  cbn [snd]. rewrite (bind_Ret _ _ w None w); [reflexivity|].
  apply findM_none. intros fnKey _. unfold probe.
  destruct (_ || _)%bool; [|reflexivity].
  destruct (assoc k members) as [[|fn]|] eqn:Hk; try reflexivity.
  exfalso. exact (Hno section members fn Hin Hk).
Qed.

(** Fields for which [parseString] is sure to have a generator that yields
    a string.  The table [stringGenerators] has an entry for the field name
    or for the kind of a check (the date generator needs a clock that shows
    a valid date more than a day after the earliest one); or there is no
    field name; or there is one, no mockery mapper of the caller, and
    neither the default mapper nor a module of Faker has a member under that
    name. *)
Definition sure_field (checks : list (check (option Z)))
    (o : GenerateMockOptions) (clock : Z) : Prop :=
  match stringType (keyName o) checks 0 with
  | Some g =>
      snd g = DateGenerator -> - MAX_TIME + day_ms <= clock <= MAX_TIME
  | None =>
      match keyName o with
      | None => True
      | Some k =>
          truthy_string k = true ->
          mockeryMapper o = None /\ defaultMapper k = None /\ no_member k
      end
  end.

Lemma number_int_now r mn mx w x w' :
  number_int r mn mx w = (x, w') -> now (user w') = now (user w).
Proof.
  unfold number_int. destruct (_ <? _).
  - intros H. injection H as _ <-. reflexivity.
  - unfold draw. destruct (rand_int _ _ _). intros H. injection H as _ <-.
    reflexivity.
Qed.

(** For such a field every step of the length-driven part returns, once
    Faker accepts the bounds of the target length and the host can build the
    padding. *)
Lemma parseString_sized_returns checks o w :
  sure_field checks o (now (user w)) ->
  default 0 (fst (sortedStringOptions (stringOptions checks)))
  <= default MAX_SAFE_INTEGER (snd (sortedStringOptions (stringOptions checks))) ->
  (fst (stringOptions checks) = None \/
   default MAX_SAFE_INTEGER (snd (sortedStringOptions (stringOptions checks)))
   <= alpha_limit) ->
  exists s w', parseString_sized C checks o w = (Ret (VStr s), w').
Proof.
  intros Hsure Hord Hpad. unfold parseString_sized.
  destruct (number_int_total (fakerInstance o) _ _ w Hord)
    as (target & w1 & Htarget).
  pose proof (number_int_Ret_inv _ _ _ _ _ _ Htarget) as [_ Hup].
  pose proof (number_int_now _ _ _ _ _ _ Htarget) as Hnow.
  rewrite (bind_Ret _ _ _ _ _ Htarget).
  assert (Hgen : exists g,
    (match stringType (keyName o) checks target with
     | Some g => ret (snd g)
     | None =>
         let* foundFaker :=
           match keyName o with
           | Some k =>
               if truthy_string k
               then findMatchingFaker C k (faker o) (mockeryMapper o)
               else ret None
           | None => ret None
           end in
         ret (default (DefaultGenerator target) foundFaker)
     end) w1 = (Ret g, w1) /\ table_generator g /\
    (g = DateGenerator -> - MAX_TIME + day_ms <= now (user w1) <= MAX_TIME)).
  { unfold sure_field in Hsure.
    pose proof (stringType_target (keyName o) checks 0 target) as Hst.
    pose proof (stringType_target (keyName o) checks target target) as Ht.
    destruct (stringType (keyName o) checks 0) as [g0|],
             (stringType (keyName o) checks target) as [g|];
      try contradiction.
    - exists (snd g). split; [reflexivity|].
      destruct Hst as [_ Hdate]. destruct Ht as [Htable _].
      split; [exact Htable|].
      intros Hg. rewrite Hnow. apply Hsure, Hdate, Hg.
    - destruct (keyName o) as [k|]; [destruct (truthy_string k) eqn:Hk|].
      + destruct (Hsure eq_refl) as (Hm & Hd & Hno). rewrite Hm.
        rewrite (bind_Ret _ _ _ _ _ (findMatchingFaker_none k _ w1 Hd Hno)).
        exists (DefaultGenerator target).
        split; [reflexivity | split; [exact I | discriminate]].
      + exists (DefaultGenerator target).
        split; [reflexivity | split; [exact I | discriminate]].
      + exists (DefaultGenerator target).
        split; [reflexivity | split; [exact I | discriminate]]. }
  destruct Hgen as (g & Hg & Htable & Hclock).
  rewrite (bind_Ret _ _ _ _ _ Hg).
  destruct (call_generator_table (fakerInstance o) g w1 Htable Hclock)
    as (str & w2 & Hcall).
  rewrite (bind_Ret _ _ _ _ _ Hcall).
  unfold toString_method. unfold bind at 1. unfold ret at 1.
  cbn [js_string_of].
  destruct (fst (stringOptions checks)) as [mn|] eqn:Hmin;
    [destruct (Z.of_nat (String.length str) <? mn)|].
  - destruct Hpad as [Hnone|Hlim]; [discriminate|].
    assert (Hdelta : target - Z.of_nat (String.length str) <= alpha_limit).
    { pose proof (Z.le_trans _ _ _ Hup Hlim). lia. }
    destruct (string_alpha_total (fakerInstance o)
                (target - Z.of_nat (String.length str)) w2 Hdelta)
      as (pad & w3 & Hd).
    unfold bind at 1. rewrite (bind_Ret _ _ _ _ _ Hd).
    unfold ret. eauto.
  - unfold bind, ret. eauto.
  - unfold bind, ret. eauto.
Qed.

Lemma sorted_bounds_ordered a b :
  0 <= b -> a <= b \/ b <> 0 ->
  default 0 (fst (sortedStringOptions (Some a, Some b)))
  <= default MAX_SAFE_INTEGER (snd (sortedStringOptions (Some a, Some b))).
Proof.
  intros Hb Hab. unfold sortedStringOptions, truthy_number.
  destruct (Z.ltb_spec b a); simpl.
  - destruct (Z.eqb_spec a 0); simpl; [lia|].
    destruct (Z.eqb_spec b 0); simpl; lia.
  - rewrite andb_false_r. simpl. lia.
Qed.

Lemma sorted_bounds_upper a b :
  0 <= b ->
  default MAX_SAFE_INTEGER (snd (sortedStringOptions (Some a, Some b)))
  <= Z.max a b.
Proof.
  intros Hb. unfold sortedStringOptions, truthy_number.
  destruct (Z.ltb_spec b a); simpl.
  - destruct (Z.eqb_spec a 0); simpl; [lia|].
    destruct (Z.eqb_spec b 0); simpl; lia.
  - rewrite andb_false_r. simpl. lia.
Qed.

Lemma parseString_sized_total checks o a b w :
  stringOptions checks = (Some a, Some b) ->
  0 <= b ->
  sure_field checks o (now (user w)) ->
  a <= b \/ b <> 0 ->
  Z.max a b <= alpha_limit ->
  exists s w', parseString_sized C checks o w = (Ret (VStr s), w').
Proof.
  intros Hso Hb Hk Hab Hlim. apply parseString_sized_returns; [exact Hk| |].
  - rewrite Hso. apply sorted_bounds_ordered; assumption.
  - right. rewrite Hso. pose proof (sorted_bounds_upper a b Hb). lia.
Qed.

Lemma parseString_unsized checks o :
  find (fun c : check (option Z) => String.eqb (kind c) "regex") checks = None ->
  stringMap_generator o = None ->
  parseString C (ZodString checks) o = parseString_sized C checks o.
Proof. intros Hre Hsm. unfold parseString. rewrite Hre, Hsm. reflexivity. Qed.

Lemma generateMock_ZodString n checks o w :
  generateMock C (S n) (ZodString checks) o w =
  try_catch
    (parseString C (ZodString checks) (defaultOptions (next_faker (user w)) o))
    contain (snd (prepare o w)).
Proof.
  rewrite generateMock_run.
  rewrite (dispatch_builtin C _ _ _ (parseString C)); reflexivity.
Qed.

Lemma prepare_now_clock o w : now (user (snd (prepare o w))) = now (user w).
Proof.
  unfold prepare, bind, new_Faker, ret. simpl.
  destruct (seed o); reflexivity.
Qed.

(** C3, as amended.  For a string node without a regex check, generated for
    a field that has no [stringMap] generator, whose last [min] and [max]
    checks declare the minimum [a] and the maximum [b >= 0]: every string
    the entry point generates has length at most [b], and at least [a] when
    [a <= b].  A string is generated for every field that is sure of a
    generator ([sure_field]), provided [a <= b] or [b] is not zero, and the
    host can build a string as long as the larger of the two bounds. *)
Theorem string_length_bounds n checks o a b w :
  find (fun c : check (option Z) => String.eqb (kind c) "regex") checks = None ->
  stringMap_generator o = None ->
  stringOptions checks = (Some a, Some b) ->
  0 <= b ->
  (forall s,
     fst (generateMock C (S n) (ZodString checks) o w) = Ret (VStr s) ->
     Z.of_nat (String.length s) <= b /\
     (a <= b -> a <= Z.of_nat (String.length s))) /\
  (sure_field checks o (now (user w)) ->
   a <= b \/ b <> 0 ->
   Z.max a b <= alpha_limit ->
   exists s, fst (generateMock C (S n) (ZodString checks) o w) = Ret (VStr s)).
Proof.
  intros Hre Hsm Hso Hb.
  rewrite generateMock_ZodString.
  rewrite (parseString_unsized checks _ Hre) by exact Hsm.
  unfold try_catch. split.
  - intros s Hs.
    destruct (parseString_sized C checks _ (snd (prepare o w)))
      as [[v|e|] w'] eqn:Hrun.
    + simpl in Hs. injection Hs as ->.
      destruct (parseString_sized_bounds _ _ _ _ _ _ _ Hso Hb Hrun)
        as (s' & Heq & Hbounds).
      injection Heq as ->. exact Hbounds.
    + destruct e; simpl in Hs; discriminate.
    + discriminate.
  - intros Hk Hab Hlim.
    destruct (parseString_sized_total checks
                (defaultOptions (next_faker (user w)) o) a b
                (snd (prepare o w)) Hso Hb) as (s & w' & ->);
      [rewrite prepare_now_clock; exact Hk | exact Hab | exact Hlim|].
    exists s. reflexivity.
Qed.

End Strings.

(** ** Entry counts of maps and records *)

Section Generated.
Context {E : Env}.

(** [v] is a value that the computation [m] returns from some state. *)
Definition generated (m : M val) (v : val) : Prop :=
  exists w w', m w = (Ret v, w').

End Generated.

Section EntryCounts.
Context {E : Env} (C : Callbacks heap).
Variable gen : schema -> GenerateMockOptions -> M val.

(** An entry whose key is generated for [kt] and whose value is generated
    for [vt]. *)
Definition entry_of (kt vt : schema) (o : GenerateMockOptions)
    (e : val * val) : Prop :=
  generated (gen kt o) (fst e) /\ generated (gen vt o) (snd e).

Lemma map_set_entries kt vt o k v es :
  generated (gen kt o) k -> generated (gen vt o) v ->
  Forall (entry_of kt vt o) es ->
  Forall (entry_of kt vt o) (map_set k v es).
Proof.
  intros Hk Hv. induction es as [|[k' v'] es IH]; simpl; intros Hall.
  - constructor; [split; assumption | constructor].
  - inversion Hall as [|? ? [Hk' Hv'] Hrest]; subst.
    destruct (sameValueZero k' k).
    + constructor; [split; assumption | exact Hrest].
    + constructor; [split; assumption | apply IH, Hrest].
Qed.

(** The entries that the [while] loop of [parseMap] leaves are made of
    generated keys and values. *)
Lemma map_loop_entries n target kt vt o results w es w' :
  Forall (entry_of kt vt o) results ->
  map_loop gen n target kt vt o results w = (Ret es, w') ->
  Forall (entry_of kt vt o) es.
Proof.
  revert results w. induction n as [|n IH]; intros results w Hinv; simpl;
    destruct (Z.of_nat (length results) <? target).
  - discriminate.
  - intros H. injection H as <- _. exact Hinv.
  - intros H.
    apply bind_Ret_inv in H as (k & w1 & Hk & H).
    apply bind_Ret_inv in H as (v & w2 & Hv & H).
    apply IH in H; [exact H|].
    apply map_set_entries; [exists w, w1; exact Hk | exists w1, w2; exact Hv|].
    exact Hinv.
  - intros H. injection H as <- _. exact Hinv.
Qed.

Lemma map_set_length k v es :
  (length es <= length (map_set k v es) <= S (length es))%nat.
Proof.
  induction es as [|[k' v'] es IH]; simpl; [lia|].
  destruct (sameValueZero k' k); simpl; lia.
Qed.

(** When the [while] loop of [parseMap] ends, the map has the target size. *)
Lemma map_loop_size n target kt vt o results w es w' :
  Z.of_nat (length results) <= Z.max 0 target ->
  map_loop gen n target kt vt o results w = (Ret es, w') ->
  length es = Z.to_nat target.
Proof.
  revert results w. induction n as [|n IH]; intros results w Hinv; simpl;
    destruct (Z.ltb_spec (Z.of_nat (length results)) target) as [Hlt|Hge].
  - discriminate.
  - intros H. injection H as <- _. lia.
  - intros H.
    apply bind_Ret_inv in H as (k & w1 & _ & H).
    apply bind_Ret_inv in H as (v & w2 & _ & H).
    apply IH in H; [exact H|].
    pose proof (map_set_length k v results). lia.
  - intros H. injection H as <- _. lia.
Qed.

Definition upsert (acc : list (string * val)) (kv : string * val) :=
  obj_set (fst kv) (snd kv) acc.

Lemma obj_set_keys k v props k' :
  In k' (map fst (obj_set k v props)) <-> k' = k \/ In k' (map fst props).
Proof.
  induction props as [|[k0 v0] ps IH]; simpl.
  - intuition.
  - destruct (String.eqb_spec k0 k) as [->|Hne]; simpl.
    + intuition.
    + rewrite IH. intuition.
Qed.

Lemma obj_set_length_new k v props :
  ~ In k (map fst props) -> length (obj_set k v props) = S (length props).
Proof.
  induction props as [|[k0 v0] ps IH]; simpl; [reflexivity|].
  intros Hn. destruct (String.eqb_spec k0 k) as [->|Hne]; simpl.
  - tauto.
  - rewrite IH; tauto.
Qed.

Lemma obj_set_length_le k v props :
  (length (obj_set k v props) <= S (length props))%nat.
Proof.
  induction props as [|[k0 v0] ps IH]; simpl; [lia|].
  destruct (String.eqb k0 k); simpl; lia.
Qed.

Lemma upsert_all_keys kvs prev k :
  In k (map fst (fold_left upsert kvs prev))
  <-> In k (map fst kvs) \/ In k (map fst prev).
Proof.
  revert prev; induction kvs as [|[k0 v0] kvs IH]; intros prev; simpl.
  - tauto.
  - rewrite IH. unfold upsert. simpl. rewrite obj_set_keys.
    intuition congruence.
Qed.

Lemma upsert_all_length_le kvs prev :
  (length (fold_left upsert kvs prev) <= length prev + length kvs)%nat.
Proof.
  revert prev; induction kvs as [|[k0 v0] kvs IH]; intros prev; simpl.
  - lia.
  - specialize (IH (upsert prev (k0, v0))).
    pose proof (obj_set_length_le k0 v0 prev) as Hle.
    change (obj_set k0 v0 prev) with (upsert prev (k0, v0)) in Hle. lia.
Qed.

Lemma upsert_all_length_distinct kvs prev :
  List.NoDup (map fst kvs) ->
  (forall k, In k (map fst kvs) -> ~ In k (map fst prev)) ->
  length (fold_left upsert kvs prev) = (length prev + length kvs)%nat.
Proof.
  revert prev; induction kvs as [|[k0 v0] kvs IH]; intros prev Hnd Hfresh;
    simpl.
  - lia.
  - inversion Hnd as [|? ? Hnotin Hnd']; subst.
    rewrite IH; [| exact Hnd' |].
    + unfold upsert. simpl. rewrite obj_set_length_new; [lia|].
      apply Hfresh. simpl. tauto.
    + intros k Hk. unfold upsert. simpl. rewrite obj_set_keys.
      intros [->|Hin]; [tauto|].
      apply (Hfresh k); simpl; tauto.
Qed.

Lemma assoc_obj_set_same k v props : assoc k (obj_set k v props) = Some v.
Proof.
  induction props as [|[k0 v0] ps IH]; simpl.
  - rewrite String.eqb_refl. reflexivity.
  - destruct (String.eqb_spec k0 k) as [->|Hne]; simpl.
    + rewrite String.eqb_refl. reflexivity.
    + destruct (String.eqb_spec k0 k); [congruence | exact IH].
Qed.

Lemma assoc_obj_set_other k k' v props :
  k' <> k -> assoc k' (obj_set k v props) = assoc k' props.
Proof.
  intros Hne. induction props as [|[k0 v0] ps IH]; simpl.
  - destruct (String.eqb_spec k k'); [congruence | reflexivity].
  - destruct (String.eqb_spec k0 k) as [->|Hne0]; simpl.
    + destruct (String.eqb_spec k k'); [congruence | reflexivity].
    + destruct (String.eqb_spec k0 k'); [reflexivity | exact IH].
Qed.

Lemma obj_set_NoDup k v props :
  List.NoDup (map fst props) -> List.NoDup (map fst (obj_set k v props)).
Proof.
  induction props as [|[k0 v0] ps IH]; simpl; intros Hnd.
  - constructor; [tauto | constructor].
  - inversion Hnd as [|? ? Hnotin Hnd']; subst.
    destruct (String.eqb_spec k0 k) as [->|Hne]; simpl.
    + constructor; assumption.
    + constructor; [|apply IH; exact Hnd'].
      rewrite obj_set_keys. intuition congruence.
Qed.

Lemma upsert_all_NoDup kvs prev :
  List.NoDup (map fst prev) ->
  List.NoDup (map fst (fold_left upsert kvs prev)).
Proof.
  revert prev; induction kvs as [|[k0 v0] kvs IH]; intros prev Hnd; simpl;
    [exact Hnd|].
  apply IH, obj_set_NoDup, Hnd.
Qed.

Lemma assoc_app {A} k (l1 l2 : list (string * A)) :
  assoc k (l1 ++ l2)
  = match assoc k l1 with
    | Some a => Some a
    | None => assoc k l2
    end.
Proof.
  induction l1 as [|[k0 a0] l1 IH]; simpl; [reflexivity|].
  destruct (String.eqb k0 k); [reflexivity | exact IH].
Qed.

(** After a run of insertions a name holds the value of the last insertion
    under that name. *)
Lemma assoc_upsert_all kvs prev name :
  assoc name (fold_left upsert kvs prev)
  = match assoc name (rev kvs) with
    | Some v => Some v
    | None => assoc name prev
    end.
Proof.
  revert prev; induction kvs as [|[k0 v0] kvs IH]; intros prev; simpl;
    [reflexivity|].
  rewrite IH, assoc_app. destruct (assoc name (rev kvs)); [reflexivity|].
  unfold upsert. simpl.
  destruct (String.eqb_spec k0 name) as [->|Hne].
  - apply assoc_obj_set_same.
  - apply assoc_obj_set_other. congruence.
Qed.

(** The property that a round of [parseRecord] inserts for the key [k] and
    the value [v]. *)
Definition inserted (kv : val * val) : string * val :=
  (to_property_key (fst kv), snd kv).

(** The [reduce] of [parseRecord] inserts one property per round, made of a
    key and a value that the entry point generated. *)
Lemma record_fold_inv keySchema valueSchema o N prev w props w' :
  foldM
    (fun (prev : list (string * val)) (_ : unit) =>
       let* k := gen keySchema o in
       let* v := gen valueSchema o in
       ret (obj_set (to_property_key k) v prev))
    (repeat tt N) prev w = (Ret props, w') ->
  exists kvs,
    length kvs = N /\
    Forall (entry_of keySchema valueSchema o) kvs /\
    props = fold_left upsert (map inserted kvs) prev.
Proof.
  revert prev w; induction N as [|N IH]; intros prev w; simpl.
  - intros H. injection H as <- _. exists [].
    split; [reflexivity | split; [constructor | reflexivity]].
  - intros H.
    apply bind_Ret_inv in H as (prev' & w1 & Hstep & H).
    apply bind_Ret_inv in Hstep as (k & w2 & Hk & Hstep).
    apply bind_Ret_inv in Hstep as (v & w3 & Hv & Hstep).
    injection Hstep as <- _.
    apply IH in H as (kvs & Hlen & Hall & ->).
    exists ((k, v) :: kvs). split; [simpl; lia|]. split; [|reflexivity].
    constructor; [|exact Hall].
    split; [exists w, w2; exact Hk | exists w2, w3; exact Hv].
Qed.

(** When the entry point returns for the key and the value schema, the
    [reduce] of [parseRecord] returns. *)
Lemma record_fold_returns keySchema valueSchema o N :
  (forall w0, exists y w1, gen keySchema o w0 = (Ret y, w1)) ->
  (forall w0, exists y w1, gen valueSchema o w0 = (Ret y, w1)) ->
  forall prev w, exists props w',
    foldM
      (fun (prev : list (string * val)) (_ : unit) =>
         let* k := gen keySchema o in
         let* v := gen valueSchema o in
         ret (obj_set (to_property_key k) v prev))
      (repeat tt N) prev w = (Ret props, w').
Proof.
  intros Hkey Hvalue. induction N as [|N IH]; intros prev w; simpl.
  - unfold ret. eauto.
  - destruct (Hkey w) as (k & w1 & Hk).
    destruct (Hvalue w1) as (v & w2 & Hv).
    destruct (IH (obj_set (to_property_key k) v prev) w2)
      as (props & w' & Hrest).
    exists props, w'.
    unfold bind at 1. unfold bind at 1. rewrite Hk.
    unfold bind at 1. rewrite Hv. exact Hrest.
Qed.

(** With a target of at most one entry the loop of [parseMap] makes at most
    one round. *)
Lemma map_loop_returns n target kt vt o w :
  target <= 1 ->
  (forall w0, exists y w1, gen kt o w0 = (Ret y, w1)) ->
  (forall w0, exists y w1, gen vt o w0 = (Ret y, w1)) ->
  exists es w', map_loop gen (S n) target kt vt o [] w = (Ret es, w').
Proof.
  intros Htarget Hkey Hvalue.
  assert (Hdone : forall m k v w2,
            map_loop gen m target kt vt o (map_set k v []) w2
            = (Ret (map_set k v []), w2)).
  { intros m k v w2.
    assert (Hlt : (Z.of_nat (length (map_set k v [])) <? target) = false)
      by (apply Z.ltb_ge; simpl; lia).
    destruct m; cbn [map_loop]; rewrite Hlt; reflexivity. }
  cbn [map_loop length].
  destruct (Z.ltb_spec (Z.of_nat 0) target) as [Hpos|_];
    [|unfold ret; eauto].
  destruct (Hkey w) as (k & w1 & Hk).
  destruct (Hvalue w1) as (v & w2 & Hv).
  exists (map_set k v []), w2.
  unfold bind at 1. rewrite Hk.
  unfold bind at 1. rewrite Hv.
  apply Hdone.
Qed.


End EntryCounts.

(** ** Tuples *)

Section Tuples.
Context {E : Env} (C : Callbacks heap).

Lemma mapM_Ret_inv {A} (f : A -> M val) l w ys w' :
  mapM f l w = (Ret ys, w') ->
  Forall2 (fun x y => generated (f x) y) l ys.
Proof.
  revert w ys w'; induction l as [|x l IH]; intros w ys w'; simpl.
  - intros H. injection H as <- _. constructor.
  - intros H.
    apply bind_Ret_inv in H as (y & w1 & Hy & H).
    apply bind_Ret_inv in H as (ys' & w2 & Hys & H).
    injection H as <- _.
    constructor; [exists w, w1; exact Hy | eapply IH; exact Hys].
Qed.

Lemma repeatM_Ret_inv (m : M val) k w xs w' :
  repeatM k m w = (Ret xs, w') ->
  length xs = k /\ Forall (generated m) xs.
Proof.
  revert w xs w'; induction k as [|k IH]; intros w xs w'; simpl.
  - intros H. injection H as <- _. split; [reflexivity | constructor].
  - intros H.
    apply bind_Ret_inv in H as (x & w1 & Hx & H).
    apply bind_Ret_inv in H as (xs' & w2 & Hxs & H).
    injection H as <- _.
    apply IH in Hxs as [Hlen Hall].
    split; [simpl; lia|].
    constructor; [exists w, w1; exact Hx | exact Hall].
Qed.

Lemma mapM_returns {A} (f : A -> M val) (P : A -> val -> Prop) l :
  (forall x w, In x l -> exists y w', f x w = (Ret y, w') /\ P x y) ->
  forall w, exists ys w', mapM f l w = (Ret ys, w') /\ Forall2 P l ys.
Proof.
  induction l as [|x l IH]; intros Hf w; simpl.
  - exists [], w. split; [reflexivity | constructor].
  - destruct (Hf x w (or_introl eq_refl)) as (y & w1 & Hy & Py).
    destruct (IH (fun x' w' Hin => Hf x' w' (or_intror Hin)) w1)
      as (ys & w2 & Hys & Pys).
    exists (y :: ys), w2.
    rewrite (bind_Ret _ _ _ _ _ Hy), (bind_Ret _ _ _ _ _ Hys).
    split; [reflexivity | constructor; assumption].
Qed.

Lemma repeatM_returns (m : M val) (P : val -> Prop) :
  (forall w, exists y w', m w = (Ret y, w') /\ P y) ->
  forall k w, exists ys w', repeatM k m w = (Ret ys, w') /\ Forall P ys.
Proof.
  intros Hm. induction k as [|k IH]; intros w; simpl.
  - exists [], w. split; [reflexivity | constructor].
  - destruct (Hm w) as (y & w1 & Hy & Py).
    destruct (IH w1) as (ys & w2 & Hys & Pys).
    exists (y :: ys), w2.
    rewrite (bind_Ret _ _ _ _ _ Hy), (bind_Ret _ _ _ _ _ Hys).
    split; [reflexivity | constructor; assumption].
Qed.

Lemma number_node_returns n o w :
  exists x w', generateMock C (S n) (ZodNumber []) o w = (Ret (VNum x), w').
Proof.
  rewrite generateMock_run.
  rewrite (dispatch_builtin C _ _ _ parseNumber) by reflexivity.
  unfold try_catch, parseNumber. cbn [fakerOptions fold_left fst snd].
  destruct (number_int_total
              (fakerInstance (defaultOptions (next_faker (user w)) o))
              None None (snd (prepare o w))
              ltac:(vm_compute; discriminate)) as (x & w' & Hx).
  rewrite (bind_Ret _ _ _ _ _ Hx). unfold ret. eauto.
Qed.

Lemma boolean_node_returns n o w :
  exists b w', generateMock C (S n) ZodBoolean o w = (Ret (VBool b), w').
Proof.
  rewrite generateMock_run.
  rewrite (dispatch_builtin C _ _ _ parseBoolean) by reflexivity.
  unfold try_catch, parseBoolean.
  destruct (draw_total
              (fakerInstance (defaultOptions (next_faker (user w)) o))
              rand_bool (snd (prepare o w))) as (b & w' & Hb).
  rewrite (bind_Ret _ _ _ _ _ Hb). unfold ret. eauto.
Qed.

Lemma string_node_returns n o w :
  keyName o = None ->
  exists s w', generateMock C (S n) (ZodString []) o w = (Ret (VStr s), w').
Proof.
  intros Hk. rewrite generateMock_ZodString.
  rewrite parseString_unsized; [|reflexivity|].
  - unfold try_catch.
    destruct (parseString_sized_returns C []
                (defaultOptions (next_faker (user w)) o) (snd (prepare o w)))
      as (s & w' & Hs).
    + unfold sure_field.
      change (keyName (defaultOptions (next_faker (user w)) o))
        with (keyName o).
      rewrite Hk. exact I.
    + vm_compute; discriminate.
    + left; reflexivity.
    + rewrite Hs. eauto.
  - unfold stringMap_generator.
    change (keyName (defaultOptions (next_faker (user w)) o))
      with (keyName o).
    rewrite Hk. reflexivity.
Qed.


(** The scenario of the specification: a number, a boolean and strings. *)

(** What [typeof] tells about the value generated for a primitive node. *)
Definition primitive_of (s : schema) (v : val) : Prop :=
  match s with
  | ZodNumber _ => exists x, v = VNum x
  | ZodBoolean => exists b, v = VBool b
  | ZodString _ => exists t, v = VStr t
  | _ => False
  end.

(** With no options, [tuple([number(), boolean()]).rest(string())] always
    yields an array that starts with a number and a boolean and continues
    with strings only. *)
Theorem tuple_scenario n w :
  exists x b strs,
    fst (generateMock C (S (S n))
           (ZodTuple [ZodNumber []; ZodBoolean] (Some (ZodString [])))
           no_options w)
    = Ret (VArr (VNum x :: VBool b :: map VStr strs)).
Proof.
  rewrite generateMock_run.
  rewrite (dispatch_builtin C _ _ _ (parseZodTuple C (generateMock C (S n))))
    by reflexivity.
  set (d := defaultOptions (next_faker (user w)) no_options).
  unfold try_catch, parseZodTuple.
  assert (Hitems : forall s w0, In s [ZodNumber []; ZodBoolean] ->
            exists y w', generateMock C (S n) s d w0 = (Ret y, w')
                         /\ primitive_of s y).
  { intros s w0 [<-|[<-|[]]].
    - destruct (number_node_returns n d w0) as (x & w' & Hx).
      exists (VNum x), w'. split; [exact Hx | exists x; reflexivity].
    - destruct (boolean_node_returns n d w0) as (b & w' & Hb).
      exists (VBool b), w'. split; [exact Hb | exists b; reflexivity]. }
  destruct (mapM_returns (fun def => generateMock C (S n) def d) primitive_of
              [ZodNumber []; ZodBoolean] Hitems (snd (prepare no_options w)))
    as (heads & w1 & Hheads & Pheads).
  rewrite (bind_Ret _ _ _ _ _ Hheads).
  inversion Pheads as [|s1 y1 l1 ys1 P1 Prest]; subst.
  inversion Prest as [|s2 y2 l2 ys2 P2 Pnil]; subst.
  inversion Pnil; subst.
  destruct P1 as [x ->], P2 as [b ->].
  unfold parseArray, depthControlled.
  change (default 10 (maxDepth d) <=? default 0 (currentDepth d)) with false.
  cbv iota. unfold parseArray_inner.
  set (d' := set_depths (default 0 (currentDepth d) + 1)
               (default 10 (maxDepth d)) d).
  destruct (number_int_total (fakerInstance d') (Some 0) (Some 10) w1
              ltac:(vm_compute; discriminate))
    as (target & w2 & Htarget).
  unfold bind at 1. rewrite (bind_Ret _ _ _ _ _ Htarget).
  assert (Helement : forall w0, exists y w',
            array_element C (generateMock C (S n)) (ZodString []) d' w0
            = (Ret y, w') /\ exists t, y = VStr t).
  { intros w0.
    destruct (string_node_returns n d' w0 eq_refl) as (t & w' & Ht).
    exists (VStr t), w'. split; [exact Ht | exists t; reflexivity]. }
  destruct (repeatM_returns _ _ Helement (Z.to_nat target) w2)
    as (results & w3 & Hresults & Presults).
  rewrite (bind_Ret _ _ _ _ _ Hresults).
  assert (Hstrs : exists strs, results = map VStr strs).
  { clear Hresults. induction Presults as [|v vs [t ->] _ [strs ->]].
    - exists []. reflexivity.
    - exists (t :: strs). reflexivity. }
  destruct Hstrs as (strs & ->).
  exists x, b, strs. reflexivity.
Qed.

End Tuples.

(** ** Which backup mocks the engine invokes *)

Section BackupTrace.
Context {E : Env} (C : Callbacks heap).

(** The keys under which the engine may look up a backup mock and invoke
    it: [ZodUndefined], and the tags that the registry does not hold. *)
Definition fallback_key (key : string) : Prop :=
  key = "ZodUndefined" \/ builtin key = false.

(** [m] extends the trace of invoked backup mocks by fallback keys only. *)
Definition fallback_only {A} (m : M A) : Prop :=
  forall w, exists ks,
    backup_calls (snd (m w)) = backup_calls w ++ ks /\
    Forall fallback_key ks.

Lemma fo_frame {A} (m : M A) :
  (forall w, backup_calls (snd (m w)) = backup_calls w) -> fallback_only m.
Proof.
  intros H w. exists []. rewrite H, app_nil_r. split; [reflexivity | constructor].
Qed.

Lemma fo_ret {A} (a : A) : fallback_only (ret a).
Proof. apply fo_frame. reflexivity. Qed.

Lemma fo_throw {A} e : fallback_only (@throw _ A e).
Proof. apply fo_frame. reflexivity. Qed.

Lemma fo_diverge {A} : fallback_only (@diverge _ A).
Proof. apply fo_frame. reflexivity. Qed.

Lemma fo_lift_outcome {A} (r : outcome A) : fallback_only (lift_outcome r).
Proof. apply fo_frame. reflexivity. Qed.

Lemma fo_bind {A B} (m : M A) (k : A -> M B) :
  fallback_only m -> (forall a, fallback_only (k a)) ->
  fallback_only (bind m k).
Proof.
  intros Hm Hk w. unfold bind.
  destruct (Hm w) as (ks1 & H1 & F1).
  destruct (m w) as [[a|e|] w1]; simpl in *; [|eauto|eauto].
  destruct (Hk a w1) as (ks2 & H2 & F2).
  exists (ks1 ++ ks2). rewrite H2, H1, app_assoc.
  split; [reflexivity | apply Forall_app; tauto].
Qed.

Lemma fo_try_catch {A} (m : M A) (h : error -> M A) :
  fallback_only m -> (forall e, fallback_only (h e)) ->
  fallback_only (try_catch m h).
Proof.
  intros Hm Hh w. unfold try_catch.
  destruct (Hm w) as (ks1 & H1 & F1).
  destruct (m w) as [[a|e|] w1]; simpl in *; [eauto| |eauto].
  destruct (Hh e w1) as (ks2 & H2 & F2).
  exists (ks1 ++ ks2). rewrite H2, H1, app_assoc.
  split; [reflexivity | apply Forall_app; tauto].
Qed.

Lemma fo_draw {A} r (f : rng -> A * rng) : fallback_only (draw r f).
Proof. apply fo_frame. intros w. unfold draw. destruct (f _). reflexivity. Qed.

Lemma fo_call_member {A} r (f : Z -> rng -> outcome A * rng) :
  fallback_only (call_member r f).
Proof.
  apply fo_frame. intros w. unfold call_member. destruct (f _ _). reflexivity.
Qed.

Lemma fo_call_user {A} (f : heap -> outcome A * heap) :
  fallback_only (call_user f).
Proof.
  apply fo_frame. intros w. unfold call_user. destruct (f _). reflexivity.
Qed.

Lemma fo_console_log l : fallback_only (console_log l).
Proof. apply fo_frame. reflexivity. Qed.

Lemma fo_get_now : fallback_only get_now.
Proof. apply fo_frame. reflexivity. Qed.

Lemma fo_new_Faker : fallback_only new_Faker.
Proof. apply fo_frame. reflexivity. Qed.

Lemma fo_faker_seed r s : fallback_only (faker_seed r s).
Proof. apply fo_frame. reflexivity. Qed.

Lemma fo_record_backup_call key :
  fallback_key key -> fallback_only (record_backup_call key).
Proof.
  intros Hk w. exists [key]. split; [reflexivity|]. constructor; [exact Hk | constructor].
Qed.

(** One step of a proof that a computation is [fallback_only]. *)
Ltac fo_step :=
  lazymatch goal with
  | |- fallback_only (bind _ _) => apply fo_bind; [|intros ?]
  | |- fallback_only (try_catch _ _) => apply fo_try_catch; [|intros ?]
  | |- fallback_only (ret _) => apply fo_ret
  | |- fallback_only (throw _) => apply fo_throw
  | |- fallback_only diverge => apply fo_diverge
  | |- fallback_only (lift_outcome _) => apply fo_lift_outcome
  | |- fallback_only (draw _ _) => apply fo_draw
  | |- fallback_only (call_member _ _) => apply fo_call_member
  | |- fallback_only (call_user _) => apply fo_call_user
  | |- fallback_only (console_log _) => apply fo_console_log
  | |- fallback_only get_now => apply fo_get_now
  | |- fallback_only new_Faker => apply fo_new_Faker
  | |- fallback_only (faker_seed _ _) => apply fo_faker_seed
  | |- fallback_only (match ?x with _ => _ end) => destruct x
  end.

Ltac fo := repeat fo_step.

Lemma fo_number_int r mn mx : fallback_only (number_int r mn mx).
Proof. unfold number_int. fo. Qed.

Lemma fo_arrayElement {A} r (l : list A) :
  fallback_only (helpers_arrayElement r l).
Proof.
  unfold helpers_arrayElement. destruct l as [|x [|y l]]; fo.
  apply fo_number_int.
Qed.

Lemma fo_string_alpha r n : fallback_only (string_alpha r n).
Proof.
  apply fo_frame. intros w. unfold string_alpha. destruct (rand_alpha _ _).
  reflexivity.
Qed.

Lemma fo_toDate d : fallback_only (toDate d).
Proof. unfold toDate. fo. Qed.

Lemma fo_date_between r a b : fallback_only (date_between r a b).
Proof. unfold date_between. fo; first [apply fo_toDate | apply fo_number_int]. Qed.

Lemma fo_date_soon r d ref : fallback_only (date_soon r d ref).
Proof. unfold date_soon. fo; first [apply fo_toDate | apply fo_number_int]. Qed.

Lemma fo_date_recent r d ref : fallback_only (date_recent r d ref).
Proof. unfold date_recent. fo; first [apply fo_toDate | apply fo_number_int]. Qed.

Lemma fo_mapM {A B} (f : A -> M B) l :
  (forall x, fallback_only (f x)) -> fallback_only (mapM f l).
Proof. intros Hf. induction l as [|x l IH]; simpl; fo; auto. Qed.

Lemma fo_foldM {A B} (f : B -> A -> M B) l b :
  (forall b x, fallback_only (f b x)) -> fallback_only (foldM f l b).
Proof.
  intros Hf. revert b. induction l as [|x l IH]; intros b; simpl; fo; auto.
Qed.

Lemma fo_findM {A} (p : A -> M bool) l :
  (forall x, fallback_only (p x)) -> fallback_only (findM p l).
Proof. intros Hp. induction l as [|x l IH]; simpl; fo; auto. Qed.

Lemma fo_repeatM {A} k (m : M A) :
  fallback_only m -> fallback_only (repeatM k m).
Proof. intros Hm. induction k as [|k IH]; simpl; fo; auto. Qed.

Lemma fo_invoke_backup key f s o :
  fallback_key key -> fallback_only (invoke_backup C key f s o).
Proof.
  intros Hk. unfold invoke_backup. fo. apply fo_record_backup_call, Hk.
Qed.

Lemma fo_toString_method v : fallback_only (toString_method v).
Proof. unfold toString_method. fo. Qed.

Lemma fo_probe r k members fnKey : fallback_only (probe r k members fnKey).
Proof. unfold probe. fo. Qed.

Lemma fo_findMatchingFaker k r mapper :
  fallback_only (findMatchingFaker C k r mapper).
Proof.
  unfold findMatchingFaker. fo.
  apply fo_findM. intros sec. fo. apply fo_findM. intros fnKey. apply fo_probe.
Qed.

Lemma fo_call_generator r g : fallback_only (call_generator C r g).
Proof. unfold call_generator. fo. apply fo_date_recent. Qed.

Lemma fo_parseString s o : fallback_only (parseString C s o).
Proof.
  unfold parseString, parseString_sized. fo;
    first [ apply fo_number_int | apply fo_findMatchingFaker
          | apply fo_call_generator | apply fo_toString_method
          | apply fo_string_alpha ].
Qed.

Lemma fo_parseDate s o : fallback_only (parseDate s o).
Proof.
  unfold parseDate, date_bounds. fo;
    first [ apply fo_date_between | apply fo_date_soon | apply fo_date_recent
          | idtac ].
  apply fo_foldM. intros acc item. fo.
Qed.

Lemma fo_parseNumber s o : fallback_only (parseNumber s o).
Proof. unfold parseNumber. fo. apply fo_number_int. Qed.

Lemma fo_parseBoolean s o : fallback_only (parseBoolean s o).
Proof. unfold parseBoolean. fo. Qed.

Lemma fo_parseEnum s o : fallback_only (parseEnum s o).
Proof. unfold parseEnum. fo. apply fo_arrayElement. Qed.

Lemma fo_parseNativeEnum s o : fallback_only (parseNativeEnum s o).
Proof. unfold parseNativeEnum. fo. apply fo_arrayElement. Qed.

Lemma fo_parseLiteral s o : fallback_only (parseLiteral s o).
Proof. unfold parseLiteral. fo. Qed.

Lemma fo_parseUuid s o : fallback_only (parseUuid s o).
Proof. unfold parseUuid. fo. Qed.

Lemma fo_depthControlled inner s o :
  (forall s o, fallback_only (inner s o)) ->
  fallback_only (depthControlled inner s o).
Proof. intros Hi. unfold depthControlled. fo. apply Hi. Qed.

Section Workers.
Variable gen : schema -> GenerateMockOptions -> M val.
Hypothesis Hgen : forall s o, fallback_only (gen s o).

Lemma fo_array_element s o : fallback_only (array_element C gen s o).
Proof.
  unfold array_element.
  fo; first [apply Hgen | apply fo_invoke_backup; left; reflexivity].
Qed.

Lemma fo_set_loop k target vt o results :
  fallback_only (set_loop gen k target vt o results).
Proof.
  revert results. induction k as [|k IH]; intros results; simpl; fo; auto.
Qed.

Lemma fo_map_loop k target kt vt o results :
  fallback_only (map_loop gen k target kt vt o results).
Proof.
  revert results. induction k as [|k IH]; intros results; simpl; fo; auto.
Qed.

Lemma fo_workerMap n tag worker :
  assoc tag (workerMap C gen n) = Some worker ->
  forall s o, fallback_only (worker s o).
Proof.
  apply (assoc_Forall
           (fun wk : schema -> GenerateMockOptions -> M val =>
              forall s o, fallback_only (wk s o))).
  unfold workerMap.
  repeat (apply Forall_cons; split; [cbn [snd]; intros s o|]);
    [..|apply Forall_nil; exact I].
  all: try (apply fo_depthControlled; clear s o; intros s o).
  all: try solve [ apply fo_parseString | apply fo_parseDate
                 | apply fo_parseNumber | apply fo_parseBoolean
                 | apply fo_parseEnum | apply fo_parseNativeEnum
                 | apply fo_parseLiteral | apply fo_parseUuid
                 | apply fo_ret ].
  - unfold parseObject_inner. fo. apply fo_foldM. intros; fo. apply Hgen.
  - unfold parseRecord. fo. apply fo_foldM. intros; fo; apply Hgen.
  - unfold parseArray_inner. fo; [apply fo_number_int|].
    apply fo_repeatM, fo_array_element.
  - unfold parseSet_inner. fo; [apply fo_number_int | apply fo_set_loop].
  - unfold parseMap_inner. fo. apply fo_map_loop.
  - unfold parseLazy. fo. apply Hgen.
  - unfold parseUnion. fo; first [apply fo_arrayElement | apply Hgen].
  - unfold parseZodIntersection. fo; apply Hgen.
  - unfold parseDiscriminatedUnion, parseUnion.
    fo; first [apply fo_arrayElement | apply Hgen].
  - unfold parseOptional. fo; apply Hgen.
  - unfold parseOptional. fo; apply Hgen.
  - unfold parseTransform. fo; apply Hgen.
  - unfold parseTransform. fo; apply Hgen.
  - unfold parseZodFunction. fo.
  - unfold parseZodPromise. fo. apply Hgen.
  - unfold parseZodTuple. fo.
    { apply fo_mapM. intros; apply Hgen. }
    { apply fo_depthControlled. intros s' o'.
      unfold parseArray_inner. fo; [apply fo_number_int|].
      apply fo_repeatM, fo_array_element. }
  - unfold parseBranded. fo; apply Hgen.
  - unfold parseZodDefault. fo. apply Hgen.
Qed.

Lemma fo_dispatch n s d :
  fallback_only (dispatch C (workerMap C gen n) s d).
Proof.
  unfold dispatch.
  destruct (if String.eqb (typeName s) "ZodUndefined"
            then backup_lookup d "ZodUndefined" else None) as [f|].
  { apply fo_invoke_backup. left. reflexivity. }
  destruct (assoc (typeName s) (workerMap C gen n)) as [worker|] eqn:Hw.
  { apply (fo_workerMap n _ _ Hw). }
  apply assoc_None_iff in Hw. rewrite workerMap_keys in Hw.
  fo. apply fo_invoke_backup. right. exact Hw.
Qed.

End Workers.

Lemma fo_prepare o : fallback_only (prepare o).
Proof. unfold prepare. fo. Qed.

Lemma fo_contain e : fallback_only (contain e).
Proof. unfold contain. fo. Qed.

Lemma fo_generateMock fuel : forall s o, fallback_only (generateMock C fuel s o).
Proof.
  induction fuel as [|n IH]; intros s o.
  - apply fo_diverge.
  - rewrite generateMock_unfold. apply fo_bind; [apply fo_prepare|].
    intros d. apply fo_try_catch; [|apply fo_contain].
    apply fo_dispatch. exact IH.
Qed.

End BackupTrace.

Section BackupFallback.
Context {E : Env} (C : Callbacks heap).

(** C10.  Over a whole call of the entry point, every backup mock that the
    engine invokes is invoked under the key [ZodUndefined] or under a tag
    that the registry does not hold: the [backupMocks] entry of any other
    built-in tag is never invoked.  A [ZodUndefined] entry pre-empts the
    built-in synthesizer, at the entry point and in the element step of the
    array synthesizer; a node with any other built-in tag goes to its
    built-in synthesizer whatever [backupMocks] holds. *)
Theorem backup_only_as_fallback s o w :
  (forall fuel, exists keys,
     backup_calls (snd (generateMock C fuel s o w)) = backup_calls w ++ keys /\
     Forall (fun key => key = "ZodUndefined" \/ builtin key = false) keys) /\
  (forall n f,
     backup_lookup o "ZodUndefined" = Some f ->
     generateMock C (S n) ZodUndefined o w =
     try_catch
       (invoke_backup C "ZodUndefined" f ZodUndefined
          (defaultOptions (next_faker (user w)) o))
       contain (snd (prepare o w))) /\
  (forall gen f,
     backup_lookup o "ZodUndefined" = Some f ->
     array_element C gen ZodUndefined o
     = invoke_backup C "ZodUndefined" f ZodUndefined o) /\
  (forall n,
     builtin (typeName s) = true ->
     typeName s <> "ZodUndefined" ->
     exists worker,
       assoc (typeName s) (workerMap C (generateMock C n) n) = Some worker /\
       generateMock C (S n) s o w =
       try_catch (worker s (defaultOptions (next_faker (user w)) o))
         contain (snd (prepare o w))).
Proof.
  split; [|split; [|split]].
  - intros fuel. exact (fo_generateMock C fuel s o w).
  - intros n f Hf. rewrite generateMock_run. unfold dispatch. simpl.
    rewrite backup_lookup_defaultOptions, Hf. reflexivity.
  - intros gen f Hf. unfold array_element. simpl. rewrite Hf. reflexivity.
  - intros n Hb Hne.
    destruct (workerMap_known C (generateMock C n) n _ Hb) as (worker & Hw).
    exists worker. split; [exact Hw|].
    rewrite generateMock_run.
    rewrite (dispatch_builtin C _ _ _ worker); [reflexivity| |exact Hw].
    destruct (String.eqb_spec (typeName s) "ZodUndefined"); [contradiction|reflexivity].
Qed.

End BackupFallback.

(** ** Determinism under a seed *)

(** Nodes whose value, under a seed, depends only on the seed and the clock:
    no [ZodUuid] node (its synthesizer draws from the module-level Faker
    instance), no function node (the closure it yields captures the Faker
    instance of the call), no tag outside the typed constructors that the
    registry would nevertheless map to a synthesizer. *)
Fixpoint seed_stable (s : schema) : bool :=
  match s with
  | ZodObject shape => forallb (fun f => seed_stable (snd f)) shape
  | ZodRecord k v => seed_stable k && seed_stable v
  | ZodArray e _ _ _ => seed_stable e
  | ZodSet e _ _ => seed_stable e
  | ZodMap k v => seed_stable k && seed_stable v
  | ZodLazy _ => true
  | ZodUnion alts => forallb seed_stable alts
  | ZodIntersection l r => seed_stable l && seed_stable r
  | ZodDiscriminatedUnion alts => forallb seed_stable alts
  | ZodOptional i => seed_stable i
  | ZodNullable i => seed_stable i
  | ZodEffects i _ => seed_stable i
  | ZodFunction _ => false
  | ZodPromise i => seed_stable i
  | ZodTuple items rest =>
      forallb seed_stable items
      && match rest with Some r => seed_stable r | None => true end
  | ZodBranded i => seed_stable i
  | ZodDefault i _ => seed_stable i
  | ZodUuid => false
  | ZodOther t => negb (builtin t)
  | _ => true
  end.

Section Steady.
Context {E : Env} (C : Callbacks heap).

(** A caller's function that neither reads nor writes the state. *)
Definition pure_call {A} (f : heap -> outcome A * heap) : Prop :=
  exists r, forall h, f h = (r, h).

(** Options whose functions are pure: what a backup mock returns depends
    on the node and on the options it is handed, the Faker instance apart;
    the generators of [stringMap] are pure; the mockery mapper is a pure
    function of the field name, and so are the generators it returns. *)
Definition steady (o : GenerateMockOptions) : Prop :=
  (forall tag f, backup_lookup o tag = Some f ->
     forall s o', exists x,
       forall r h, backup_fn C f s (set_faker r o') h = (x, h)) /\
  (forall m k f, stringMap o = Some m -> m !! k = Some f ->
     pure_call (string_fn C f)) /\
  (forall f k, mockeryMapper o = Some f ->
     exists x,
       (forall r h, mapper_fn C f k r h = (x, h)) /\
       (forall g, x = Ret (Some g) -> pure_call (mapped_fn C g))).

(** *** Nodes that do not read the clock *)

(** A member of the Faker instance that does not read the clock. *)
Definition clockless {A} (f : Z -> rng -> outcome A * rng) : Prop :=
  forall t t' r, f t r = f t' r.

(** No function [name] of a module [sec] of the Faker instance reads the
    clock. *)
Definition clockless_member (sec name : string) : Prop :=
  forall members fn,
    In (sec, members) catalog -> assoc name members = Some (Fn fn) ->
    clockless fn.

Definition clockless_generator (g : FakerFunction) : Prop :=
  match g with
  | DateGenerator => False
  | MemberGenerator sec name => clockless_member sec name
  | _ => True
  end.

(** A string node under the field name [k] that does not read the clock:
    it has a regex check with a pattern; or the generator that the field
    name or a check selects in the table of [parseString] is not the date
    generator and, when the table has none and there is a field name, the
    default mapper maps the name to no generator that reads the clock and
    no member of that name of the Faker instance reads it. *)
Definition string_free (k : option string)
    (checks : list (check (option Z))) : Prop :=
  (exists c re,
     find (fun c : check (option Z) => String.eqb (kind c) "regex") checks
     = Some c /\ regex c = Some re) \/
  (forall t,
     match stringType k checks t with
     | Some g => clockless_generator (snd g)
     | None =>
         match k with
         | Some name =>
             truthy_string name = true ->
             (forall g, defaultMapper name = Some g -> clockless_generator g)
             /\ (forall sec, clockless_member sec name)
         | None => True
         end
     end).

(** A date node that does not read the clock: it declares a bound, and
    every bound it declares is a valid date.  (Faker reads the clock for a
    reference date that is absent or invalid.) *)
Definition date_free (checks : list (check date_value)) : Prop :=
  (declared_date "min" checks <> None \/ declared_date "max" checks <> None)
  /\ (forall t, declared_date "min" checks = Some t -> valid_time t)
  /\ (forall t, declared_date "max" checks = Some t -> valid_time t).

(** What [clock_free] asks of one node under the field name [k]: its
    string and date nodes do not read the clock, and the children the
    engine descends into belong to [Inv] under the field name the engine
    passes down. *)
Definition clock_free_step (Inv : option string -> schema -> Prop)
    (k : option string) (s : schema) : Prop :=
  match s with
  | ZodString checks => string_free k checks
  | ZodDate checks => date_free checks
  | ZodObject shape => forall f, In f shape -> Inv (Some (fst f)) (snd f)
  | ZodRecord ks vs => Inv k ks /\ Inv k vs
  | ZodArray e _ _ _ => Inv k e
  | ZodSet e _ _ => Inv k e
  | ZodMap ks vs => Inv k ks /\ Inv k vs
  | ZodLazy g => Inv k (getter_fn C g)
  | ZodUnion alts => forall a, In a alts -> Inv k a
  | ZodDiscriminatedUnion alts => forall a, In a alts -> Inv k a
  | ZodIntersection l r => Inv k l /\ Inv k r
  | ZodOptional i => Inv k i
  | ZodNullable i => Inv k i
  | ZodEffects i _ => Inv k i
  | ZodPromise i => Inv k i
  | ZodBranded i => Inv k i
  | ZodDefault i _ => Inv k i
  | ZodTuple items rest =>
      (forall i, In i items -> Inv k i) /\
      (forall r, rest = Some r -> Inv k r)
  | _ => True
  end.

(** The node [s], generated under the field name [k], never reads the
    clock: [s] under [k] belongs to a set of nodes under field names that
    is closed under the descent of the engine, also through lazy getters,
    and whose string and date nodes do not read the clock. *)
Definition clock_free (k : option string) (s : schema) : Prop :=
  exists Inv : option string -> schema -> Prop,
    Inv k s /\ forall k' s', Inv k' s' -> clock_free_step Inv k' s'.

(** For a node without lazy getters, the condition can be read off the
    node. *)
Fixpoint clock_free_tree (k : option string) (s : schema) : Prop :=
  match s with
  | ZodString checks => string_free k checks
  | ZodDate checks => date_free checks
  | ZodObject shape =>
      fold_right
        (fun f acc => clock_free_tree (Some (fst f)) (snd f) /\ acc)
        True shape
  | ZodRecord ks vs => clock_free_tree k ks /\ clock_free_tree k vs
  | ZodArray e _ _ _ => clock_free_tree k e
  | ZodSet e _ _ => clock_free_tree k e
  | ZodMap ks vs => clock_free_tree k ks /\ clock_free_tree k vs
  | ZodLazy _ => False
  | ZodUnion alts =>
      fold_right (fun a acc => clock_free_tree k a /\ acc) True alts
  | ZodDiscriminatedUnion alts =>
      fold_right (fun a acc => clock_free_tree k a /\ acc) True alts
  | ZodIntersection l r => clock_free_tree k l /\ clock_free_tree k r
  | ZodOptional i => clock_free_tree k i
  | ZodNullable i => clock_free_tree k i
  | ZodEffects i _ => clock_free_tree k i
  | ZodPromise i => clock_free_tree k i
  | ZodBranded i => clock_free_tree k i
  | ZodDefault i _ => clock_free_tree k i
  | ZodTuple items rest =>
      fold_right (fun i acc => clock_free_tree k i /\ acc) True items /\
      match rest with
      | Some r => clock_free_tree k r
      | None => True
      end
  | _ => True
  end.

Lemma fold_right_and {A} (P : A -> Prop) l :
  fold_right (fun a acc => P a /\ acc) True l -> forall a, In a l -> P a.
Proof.
  induction l as [|x l IH]; simpl; [intros _ a []|].
  intros [Hx Hl] a [<-|Hin]; [exact Hx | exact (IH Hl a Hin)].
Qed.

Lemma clock_free_tree_free k s : clock_free_tree k s -> clock_free k s.
Proof.
  intros Hs. exists clock_free_tree. split; [exact Hs|].
  clear k s Hs. intros k s Hs.
  destruct s; cbn [clock_free_tree clock_free_step] in *;
    try solve [exact Hs | exact I | destruct Hs].
  - intros f. exact (fold_right_and
                       (fun f => clock_free_tree (Some (fst f)) (snd f))
                       shape Hs f).
  - exact (fold_right_and (clock_free_tree k) alternatives Hs).
  - exact (fold_right_and (clock_free_tree k) alternatives Hs).
  - destruct Hs as [Hitems Hrest]. split.
    + exact (fold_right_and (clock_free_tree k) items Hitems).
    + intros r ->. exact Hrest.
Qed.

End Steady.

Section Simulation.
Context {E : Env} (C : Callbacks heap).

(** Two runs, one drawing from the Faker instance [r1] and one from [r2];
    [clocked] tells whether they are made at the same clock reading. *)
Variables r1 r2 : nat.
Variable clocked : bool.

(** The two states agree on what a seeded run can observe: the state of its
    Faker instance and, for runs made at the same clock reading, the clock.
    The instance is allocated, so that a later [new Faker] does not
    overwrite it. *)
Definition agree (w1 w2 : world) : Prop :=
  fakers (user w1) r1 = fakers (user w2) r2 /\
  (clocked = true -> now (user w1) = now (user w2)) /\
  (r1 < next_faker (user w1))%nat /\
  (r2 < next_faker (user w2))%nat.

Definition same_outcome {A} (R : A -> A -> Prop) (x y : outcome A) : Prop :=
  match x, y with
  | Ret a, Ret b => R a b
  | Throw e, Throw e' => e = e'
  | Diverge, Diverge => True
  | _, _ => False
  end.

(** From agreeing states, [m1] and [m2] end with related outcomes in
    agreeing states. *)
Definition sim {A} (R : A -> A -> Prop) (m1 m2 : M A) : Prop :=
  forall w1 w2, agree w1 w2 ->
    same_outcome R (fst (m1 w1)) (fst (m2 w2)) /\
    agree (snd (m1 w1)) (snd (m2 w2)).

Lemma sim_ret {A} (R : A -> A -> Prop) a b : R a b -> sim R (ret a) (ret b).
Proof. intros H w1 w2 Hw. split; [exact H | exact Hw]. Qed.

Lemma sim_ret_eq {A} (a : A) : sim eq (ret a) (ret a).
Proof. apply sim_ret. reflexivity. Qed.

Lemma sim_throw {A} (R : A -> A -> Prop) e : sim R (throw e) (throw e).
Proof. intros w1 w2 Hw. split; [reflexivity | exact Hw]. Qed.

Lemma sim_diverge {A} (R : A -> A -> Prop) : sim R diverge diverge.
Proof. intros w1 w2 Hw. split; [exact I | exact Hw]. Qed.

Lemma sim_lift_outcome {A} (x : outcome A) :
  sim eq (lift_outcome x) (lift_outcome x).
Proof.
  intros w1 w2 Hw. split; [|exact Hw]. destruct x; simpl; auto.
Qed.

Lemma sim_bind {A B} (R : A -> A -> Prop) (S : B -> B -> Prop)
    (m1 m2 : M A) (k1 k2 : A -> M B) :
  sim R m1 m2 ->
  (forall a b, R a b -> sim S (k1 a) (k2 b)) ->
  sim S (bind m1 k1) (bind m2 k2).
Proof.
  intros Hm Hk w1 w2 Hw. unfold bind.
  destruct (Hm w1 w2 Hw) as [Ho Ha].
  destruct (m1 w1) as [[a|e|] w1'], (m2 w2) as [[b|e'|] w2'];
    simpl in *; try contradiction; auto.
  apply Hk; assumption.
Qed.

Lemma sim_bind_eq {A B} (S : B -> B -> Prop)
    (m1 m2 : M A) (k1 k2 : A -> M B) :
  sim eq m1 m2 ->
  (forall a, sim S (k1 a) (k2 a)) ->
  sim S (bind m1 k1) (bind m2 k2).
Proof.
  intros Hm Hk. apply (sim_bind eq S); [exact Hm|].
  intros a b <-. apply Hk.
Qed.

Lemma sim_try_catch {A} (R : A -> A -> Prop) (m1 m2 : M A)
    (h1 h2 : error -> M A) :
  sim R m1 m2 ->
  (forall e, sim R (h1 e) (h2 e)) ->
  sim R (try_catch m1 h1) (try_catch m2 h2).
Proof.
  intros Hm Hh w1 w2 Hw. unfold try_catch.
  destruct (Hm w1 w2 Hw) as [Ho Ha].
  destruct (m1 w1) as [[a|e|] w1'], (m2 w2) as [[b|e'|] w2'];
    simpl in *; try contradiction; auto.
  subst e'. apply Hh; assumption.
Qed.

Lemma sim_weaken {A} (R S : A -> A -> Prop) (m1 m2 : M A) :
  (forall a b, R a b -> S a b) -> sim R m1 m2 -> sim S m1 m2.
Proof.
  intros HRS Hm w1 w2 Hw. destruct (Hm w1 w2 Hw) as [Ho Ha].
  split; [|exact Ha].
  destruct (fst (m1 w1)), (fst (m2 w2)); simpl in *; auto.
Qed.

Lemma agree_update w1 w2 s :
  agree w1 w2 ->
  agree (set_user (update_faker r1 s (user w1)) w1)
        (set_user (update_faker r2 s (user w2)) w2).
Proof.
  intros (Hf & Hn & H1 & H2). unfold agree. simpl.
  rewrite !Nat.eqb_refl. auto.
Qed.

Lemma sim_draw {A} (f : rng -> A * rng) : sim eq (draw r1 f) (draw r2 f).
Proof.
  intros w1 w2 Hw. unfold draw.
  destruct Hw as (Hf & Hrest). rewrite Hf.
  destruct (f (fakers (user w2) r2)) as [a s]. simpl.
  split; [reflexivity|]. apply agree_update. unfold agree. auto.
Qed.

Lemma sim_call_member {A} (f : Z -> rng -> outcome A * rng) :
  clocked = true \/ clockless f ->
  sim eq (call_member r1 f) (call_member r2 f).
Proof.
  intros Hc w1 w2 Hw. unfold call_member.
  destruct Hw as (Hf & Hn & Hrest). rewrite Hf.
  assert (Hcall : f (now (user w1)) (fakers (user w2) r2)
                  = f (now (user w2)) (fakers (user w2) r2)).
  { destruct Hc as [Hc|Hc]; [rewrite (Hn Hc); reflexivity | apply Hc]. }
  rewrite Hcall.
  destruct (f (now (user w2)) (fakers (user w2) r2)) as [a s]. simpl.
  split; [destruct a; simpl; auto|]. apply agree_update. unfold agree. auto.
Qed.

Lemma sim_get_now : clocked = true -> sim eq get_now get_now.
Proof.
  intros Hc w1 w2 Hw. unfold get_now. simpl.
  split; [apply Hw, Hc | exact Hw].
Qed.

Lemma sim_console_log l1 l2 : sim eq (console_log l1) (console_log l2).
Proof.
  intros w1 w2 Hw. unfold console_log. simpl. split; [reflexivity | exact Hw].
Qed.

Lemma sim_faker_seed s : sim eq (faker_seed r1 s) (faker_seed r2 s).
Proof.
  intros w1 w2 Hw. unfold faker_seed. simpl fst. simpl snd.
  split; [reflexivity|]. apply agree_update, Hw.
Qed.

Lemma sim_new_Faker : sim (fun _ _ => True) new_Faker new_Faker.
Proof.
  intros w1 w2 (Hf & Hn & H1 & H2). unfold new_Faker, agree. simpl.
  split; [exact I|].
  destruct (Nat.eqb_spec r1 (next_faker (user w1))); [lia|].
  destruct (Nat.eqb_spec r2 (next_faker (user w2))); [lia|].
  repeat split; auto; lia.
Qed.

Lemma sim_call_user_alike {A} (f1 f2 : heap -> outcome A * heap) x :
  (forall h, f1 h = (x, h)) -> (forall h, f2 h = (x, h)) ->
  sim eq (call_user f1) (call_user f2).
Proof.
  intros H1 H2 w1 w2 Hw. unfold call_user. rewrite H1, H2. simpl.
  split; [destruct x; simpl; auto|].
  destruct w1, w2; exact Hw.
Qed.

Lemma sim_call_user_pure {A} (f : heap -> outcome A * heap) :
  pure_call f -> sim eq (call_user f) (call_user f).
Proof. intros [x Hx]. apply (sim_call_user_alike f f x); exact Hx. Qed.

Lemma sim_record_backup_call key :
  sim eq (record_backup_call key) (record_backup_call key).
Proof.
  intros w1 w2 Hw. unfold record_backup_call. simpl.
  split; [reflexivity | exact Hw].
Qed.

(** A computation that returns [x] from every state relates its two runs
    by [x]. *)
Lemma sim_returns {A} (m : M A) x :
  sim eq m m -> (forall w, exists w', m w = (Ret x, w')) ->
  sim (fun a b => a = x /\ b = x) m m.
Proof.
  intros Hm Hx w1 w2 Hw. destruct (Hm w1 w2 Hw) as [_ Ha].
  split; [|exact Ha].
  destruct (Hx w1) as (w1' & ->), (Hx w2) as (w2' & ->). simpl. auto.
Qed.

End Simulation.

(** Reading options through [set_faker], [set_keyName] and [set_depths]. *)

Lemma fakerInstance_set_faker r o : fakerInstance (set_faker r o) = r.
Proof. reflexivity. Qed.
Lemma faker_set_faker r o : faker (set_faker r o) = Some r.
Proof. reflexivity. Qed.
Lemma keyName_set_faker r o : keyName (set_faker r o) = keyName o.
Proof. reflexivity. Qed.
Lemma stringMap_set_faker r o : stringMap (set_faker r o) = stringMap o.
Proof. reflexivity. Qed.
Lemma mockeryMapper_set_faker r o :
  mockeryMapper (set_faker r o) = mockeryMapper o.
Proof. reflexivity. Qed.
Lemma backupMocks_set_faker r o : backupMocks (set_faker r o) = backupMocks o.
Proof. reflexivity. Qed.
Lemma recordKeysLength_set_faker r o :
  recordKeysLength (set_faker r o) = recordKeysLength o.
Proof. reflexivity. Qed.
Lemma mapEntriesLength_set_faker r o :
  mapEntriesLength (set_faker r o) = mapEntriesLength o.
Proof. reflexivity. Qed.
Lemma throwOnUnknownType_set_faker r o :
  throwOnUnknownType (set_faker r o) = throwOnUnknownType o.
Proof. reflexivity. Qed.
Lemma seed_set_faker r o : seed (set_faker r o) = seed o.
Proof. reflexivity. Qed.
Lemma currentDepth_set_faker r o :
  currentDepth (set_faker r o) = currentDepth o.
Proof. reflexivity. Qed.
Lemma maxDepth_set_faker r o : maxDepth (set_faker r o) = maxDepth o.
Proof. reflexivity. Qed.
Lemma set_keyName_set_faker k r o :
  set_keyName k (set_faker r o) = set_faker r (set_keyName k o).
Proof. reflexivity. Qed.
Lemma set_depths_set_faker c l r o :
  set_depths c l (set_faker r o) = set_faker r (set_depths c l o).
Proof. reflexivity. Qed.
Lemma set_faker_set_faker r r' o :
  set_faker r (set_faker r' o) = set_faker r o.
Proof. reflexivity. Qed.
Lemma backup_lookup_set_faker r o tag :
  backup_lookup (set_faker r o) tag = backup_lookup o tag.
Proof. reflexivity. Qed.

Create Rewrite HintDb opts.
#[local] Hint Rewrite fakerInstance_set_faker faker_set_faker
  keyName_set_faker stringMap_set_faker mockeryMapper_set_faker
  backupMocks_set_faker recordKeysLength_set_faker mapEntriesLength_set_faker
  throwOnUnknownType_set_faker seed_set_faker currentDepth_set_faker
  maxDepth_set_faker set_keyName_set_faker set_depths_set_faker
  set_faker_set_faker backup_lookup_set_faker : opts.

Section SteadyOptions.
Context {E : Env} (C : Callbacks heap).

Lemma steady_set_keyName k o : steady C o -> steady C (set_keyName k o).
Proof. intros H. exact H. Qed.

Lemma steady_set_depths c l o : steady C o -> steady C (set_depths c l o).
Proof. intros H. exact H. Qed.

(** Options without functions of the caller are steady. *)
Lemma steady_without_functions o :
  backupMocks o = None -> stringMap o = None -> mockeryMapper o = None ->
  steady C o.
Proof.
  intros Hb Hs Hm. unfold steady, backup_lookup. rewrite Hb, Hs, Hm.
  repeat split; intros; discriminate.
Qed.

End SteadyOptions.

Section SeededWorkers.
Context {E : Env} (C : Callbacks heap).

Hypothesis Hlazy : forall g, seed_stable (getter_fn C g) = true.
Hypothesis Htransform : forall f v, pure_call (transform_fn C f v).
Hypothesis Hdefault : forall f, pure_call (default_fn C f).

Variables r1 r2 : nat.
Variable clocked : bool.

(** A set of nodes that do not read the clock, for the runs that are made
    at different clock readings. *)
Variable Inv : option string -> schema -> Prop.
Hypothesis Hinv : forall k s, Inv k s -> clock_free_step C Inv k s.

(** The two runs read the same clock, or the node does not read it. *)
Definition timely (k : option string) (s : schema) : Prop :=
  clocked = true \/ Inv k s.

(** The synthesizer [wk] behaves alike on the node [s] in the two runs. *)
Definition seeded_alike (wk : schema -> GenerateMockOptions -> M val)
    (s : schema) : Prop :=
  forall o, steady C o -> timely (keyName o) s ->
    sim r1 r2 clocked eq (wk s (set_faker r1 o)) (wk s (set_faker r2 o)).

Ltac sm_step :=
  lazymatch goal with
  | |- sim _ _ _ _ (bind _ _) (bind _ _) => apply sim_bind_eq; [|intros ?]
  | |- sim _ _ _ _ (try_catch _ _) (try_catch _ _) =>
      apply sim_try_catch; [|intros ?]
  | |- sim _ _ _ _ (ret _) (ret _) => apply sim_ret_eq
  | |- sim _ _ _ _ (throw _) (throw _) => apply sim_throw
  | |- sim _ _ _ _ diverge diverge => apply sim_diverge
  | |- sim _ _ _ _ (lift_outcome _) (lift_outcome _) => apply sim_lift_outcome
  | |- sim _ _ _ _ (draw _ _) (draw _ _) => apply sim_draw
  | |- sim _ _ _ _ (console_log _) (console_log _) => apply sim_console_log
  | |- sim _ _ _ _ (match ?x with _ => _ end) (match ?x with _ => _ end) =>
      destruct x
  end.

Ltac sm := repeat sm_step.

(** The clock condition of a child, from the one of its parent. *)
Ltac descend Ht :=
  let H := fresh "Hstep" in
  destruct Ht as [Ht|Ht];
  [ left; exact Ht
  | right; pose proof (Hinv _ _ Ht) as H; cbn [clock_free_step] in H;
    first [ exact H | apply H; solve [assumption | reflexivity]
          | apply (proj1 H); solve [assumption | reflexivity]
          | apply (proj2 H); solve [assumption | reflexivity] ] ].

Lemma sim_number_int mn mx :
  sim r1 r2 clocked eq (number_int r1 mn mx) (number_int r2 mn mx).
Proof. unfold number_int. sm. Qed.

Lemma nth_head_In {A} i (x : A) l : In (nth i (x :: l) x) (x :: l).
Proof.
  destruct (Nat.lt_ge_cases i (length (x :: l))) as [Hlt|Hge].
  - apply nth_In. exact Hlt.
  - rewrite nth_overflow by exact Hge. left. reflexivity.
Qed.

Lemma sim_arrayElement {A} (l : list A) :
  sim r1 r2 clocked (fun a b => a = b /\ In a l)
    (helpers_arrayElement r1 l) (helpers_arrayElement r2 l).
Proof.
  unfold helpers_arrayElement. destruct l as [|x [|y l]].
  - apply sim_throw.
  - apply sim_ret. split; [reflexivity | left; reflexivity].
  - apply (sim_bind r1 r2 clocked eq); [apply sim_number_int|].
    intros i ? <-. apply sim_ret. split; [reflexivity | apply nth_head_In].
Qed.

Lemma sim_arrayElement_eq {A} (l : list A) :
  sim r1 r2 clocked eq (helpers_arrayElement r1 l) (helpers_arrayElement r2 l).
Proof.
  eapply sim_weaken; [|apply sim_arrayElement]. intros a b [H _]; exact H.
Qed.

Lemma sim_string_alpha n :
  sim r1 r2 clocked eq (string_alpha r1 n) (string_alpha r2 n).
Proof.
  intros w1 w2 Hw. unfold string_alpha.
  destruct Hw as (Hf & Hrest). rewrite Hf.
  destruct (rand_alpha n (fakers (user w2) r2)) as [a s]. simpl.
  split; [destruct a; reflexivity|]. apply agree_update. unfold agree. auto.
Qed.

(** Faker reads the clock for a reference date that is absent or
    invalid. *)
Lemma sim_toDate d :
  clocked = true \/ d <> None ->
  sim r1 r2 clocked eq (toDate d) (toDate d).
Proof.
  intros Hc. unfold toDate. destruct d as [t|]; [apply sim_ret_eq|].
  apply sim_get_now. destruct Hc as [Hc|Hc]; [exact Hc | congruence].
Qed.

Lemma sim_date_between a b :
  clocked = true \/ (a <> None /\ b <> None) ->
  sim r1 r2 clocked eq (date_between r1 a b) (date_between r2 a b).
Proof.
  intros Hc. unfold date_between.
  apply sim_bind_eq; [apply sim_toDate; tauto|]. intros fromMs.
  apply sim_bind_eq; [apply sim_toDate; tauto|]. intros toMs.
  sm. apply sim_number_int.
Qed.

Lemma sim_date_soon d ref :
  clocked = true \/ ref <> None ->
  sim r1 r2 clocked eq (date_soon r1 d ref) (date_soon r2 d ref).
Proof.
  intros Hc. unfold date_soon.
  apply sim_bind_eq; [apply sim_toDate, Hc|]. intros t.
  sm. apply sim_number_int.
Qed.

Lemma sim_date_recent d ref :
  clocked = true \/ ref <> None ->
  sim r1 r2 clocked eq (date_recent r1 d ref) (date_recent r2 d ref).
Proof.
  intros Hc. unfold date_recent.
  apply sim_bind_eq; [apply sim_toDate, Hc|]. intros t.
  sm. apply sim_number_int.
Qed.

Lemma sim_mapM {A B} (f1 f2 : A -> M B) l :
  (forall x, In x l -> sim r1 r2 clocked eq (f1 x) (f2 x)) ->
  sim r1 r2 clocked eq (mapM f1 l) (mapM f2 l).
Proof.
  induction l as [|x l IH]; intros Hf; simpl; sm.
  - apply Hf. left. reflexivity.
  - apply IH. intros y Hy. apply Hf. right. exact Hy.
Qed.

Lemma sim_foldM {A B} (f1 f2 : B -> A -> M B) l b :
  (forall b x, In x l -> sim r1 r2 clocked eq (f1 b x) (f2 b x)) ->
  sim r1 r2 clocked eq (foldM f1 l b) (foldM f2 l b).
Proof.
  revert b. induction l as [|x l IH]; intros b Hf; simpl; sm.
  - apply Hf. left. reflexivity.
  - apply IH. intros b' y Hy. apply Hf. right. exact Hy.
Qed.

Lemma sim_findM {A} (p1 p2 : A -> M bool) l :
  (forall x, In x l -> sim r1 r2 clocked eq (p1 x) (p2 x)) ->
  sim r1 r2 clocked eq (findM p1 l) (findM p2 l).
Proof.
  induction l as [|x l IH]; intros Hp; simpl; sm.
  - apply Hp. left. reflexivity.
  - apply IH. intros y Hy. apply Hp. right. exact Hy.
Qed.

Lemma sim_repeatM {A} k (m1 m2 : M A) :
  sim r1 r2 clocked eq m1 m2 ->
  sim r1 r2 clocked eq (repeatM k m1) (repeatM k m2).
Proof. intros Hm. induction k as [|k IH]; simpl; sm; auto. Qed.

Lemma sim_toString_method v :
  sim r1 r2 clocked eq (toString_method v) (toString_method v).
Proof. unfold toString_method. sm. Qed.

Lemma sim_invoke_backup key f s o o' tag :
  steady C o -> backup_lookup o tag = Some f ->
  sim r1 r2 clocked eq (invoke_backup C key f s (set_faker r1 o'))
                       (invoke_backup C key f s (set_faker r2 o')).
Proof.
  intros (Hb & _) Hf. unfold invoke_backup.
  apply sim_bind_eq; [apply sim_record_backup_call|]. intros _.
  destruct (Hb tag f Hf s o') as (x & Hx).
  apply (sim_call_user_alike r1 r2 clocked _ _ x); intros h; apply Hx.
Qed.

(** *** Generators *)

(** A generator that both runs may call: it does not read the clock unless
    the runs read the same clock, and it is pure when it is the caller's. *)
Definition alike_generator (g : FakerFunction) : Prop :=
  (clocked = true \/ clockless_generator g) /\
  (forall f, g = MappedGenerator f -> pure_call (mapped_fn C f)).

Definition alike_found (a b : option FakerFunction) : Prop :=
  a = b /\ forall g, a = Some g -> alike_generator g.

Lemma table_alike t p :
  In p (stringGenerators t) ->
  clocked = true \/ clockless_generator (snd p) ->
  alike_generator (snd p).
Proof.
  intros Hin Hc. split; [exact Hc|].
  intros f Hf. apply (stringGenerators_table t) in Hin.
  rewrite Hf in Hin. contradiction.
Qed.

Lemma defaultMapper_not_mapped k g f :
  defaultMapper k = Some g -> g <> MappedGenerator f.
Proof.
  unfold defaultMapper, inherited. destruct (truthy_string k); [|discriminate].
  unfold keyToFnMap. cbn [assoc].
  repeat (destruct (String.eqb _ _);
          [intros H; injection H as <-; discriminate|]).
  discriminate.
Qed.

Lemma sim_probe k members fnKey :
  clocked = true \/
  (forall fn, assoc k members = Some (Fn fn) -> clockless fn) ->
  sim r1 r2 clocked eq (probe r1 k members fnKey) (probe r2 k members fnKey).
Proof.
  intros Hc. unfold probe.
  destruct (_ || _)%bool; [|apply sim_ret_eq].
  destruct (assoc k members) as [[|fn]|]; try apply sim_ret_eq.
  sm. apply sim_call_member.
  destruct Hc as [Hc|Hc]; [left; exact Hc | right; apply Hc; reflexivity].
Qed.

Lemma findMatchingFaker_run k r mapper :
  findMatchingFaker C k (Some r) mapper =
  (let* mapped :=
     match mapper with
     | None => ret (defaultMapper k)
     | Some f =>
         let* g := call_user (mapper_fn C f k r) in
         ret (option_map MappedGenerator g)
     end in
   match mapped with
   | Some g => ret (Some g)
   | None =>
       let* sectionName :=
         findM (fun sec : string * list (string * member rng) =>
                  let* fnKey :=
                    findM (probe r k (snd sec)) (map fst (snd sec)) in
                  ret (match fnKey with
                       | Some k => truthy_string k
                       | None => false
                       end))
               catalog in
       match sectionName with
       | Some sec =>
           if truthy_string (fst sec)
           then ret (Some (MemberGenerator (fst sec) k))
           else ret None
       | None => ret None
       end
   end).
Proof. reflexivity. Qed.

Lemma sim_findMatchingFaker k o :
  steady C o ->
  clocked = true \/
  ((forall g, defaultMapper k = Some g -> clockless_generator g) /\
   (forall sec, clockless_member sec k)) ->
  sim r1 r2 clocked alike_found
    (findMatchingFaker C k (Some r1) (mockeryMapper o))
    (findMatchingFaker C k (Some r2) (mockeryMapper o)).
Proof.
  intros (_ & _ & Hm) Hc. rewrite !findMatchingFaker_run.
  apply (sim_bind r1 r2 clocked alike_found).
  - destruct (mockeryMapper o) as [f|] eqn:Hf.
    + destruct (Hm f k eq_refl) as (x & Hx & Hpure).
      apply (sim_bind r1 r2 clocked (fun a b => a = b /\ Ret a = x)).
      * intros w1 w2 Hw. unfold call_user. rewrite !Hx. simpl.
        split; [|destruct w1, w2; exact Hw].
        destruct x; simpl; auto.
      * intros g ? [<- Hg]. apply sim_ret. split; [reflexivity|].
        intros g' Hg'. destruct g as [g|]; [|discriminate].
        injection Hg' as <-. split; [right; exact I|].
        intros f' Hf'. injection Hf' as <-. apply Hpure. symmetry. exact Hg.
    + apply sim_ret. split; [reflexivity|].
      intros g Hg. split.
      * destruct Hc as [Hc|[Hc _]]; [left; exact Hc | right; apply Hc, Hg].
      * intros f' ->. destruct (defaultMapper_not_mapped _ _ _ Hg eq_refl).
  - intros mapped ? [<- Hmapped]. destruct mapped as [g|].
    + apply sim_ret. split; [reflexivity | exact Hmapped].
    + apply (sim_bind r1 r2 clocked eq).
      * apply sim_findM. intros sec Hsec. sm. apply sim_findM.
        intros fnKey _. apply sim_probe.
        destruct Hc as [Hc|[_ Hc]]; [left; exact Hc | right].
        intros fn Hfn. destruct sec as [sec members].
        exact (Hc sec members fn Hsec Hfn).
      * intros found ? <-.
        assert (Hgood : forall sec, alike_generator (MemberGenerator sec k)).
        { intros sec. split; [|discriminate].
          destruct Hc as [Hc|[_ Hc]]; [left; exact Hc | right; apply Hc]. }
        destruct found as [sec|].
        -- destruct (truthy_string (fst sec)); apply sim_ret;
             (split; [reflexivity|]); intros g Hg;
             [injection Hg as <-; apply Hgood | discriminate].
        -- apply sim_ret. split; [reflexivity | discriminate].
Qed.

Lemma sim_call_generator g :
  alike_generator g ->
  sim r1 r2 clocked eq (call_generator C r1 g) (call_generator C r2 g).
Proof.
  intros [Hc Hpure]. destruct g; cbn [call_generator].
  - sm.
  - apply sim_bind_eq.
    + apply sim_date_recent. left.
      destruct Hc as [Hc|Hc]; [exact Hc | contradiction].
    + intros d. sm.
  - sm.
  - destruct (assoc section catalog) as [members|] eqn:Hsec;
      [|apply sim_throw].
    destruct (assoc name members) as [[|fn]|] eqn:Hfn; try apply sim_throw.
    apply sim_call_member.
    destruct Hc as [Hc|Hc]; [left; exact Hc | right].
    exact (Hc members fn (assoc_In _ _ _ Hsec) Hfn).
  - apply sim_call_user_pure, Hpure. reflexivity.
  - apply sim_ret_eq.
  - apply sim_throw.
Qed.

(** *** Leaf synthesizers *)

Lemma sa_parseString_sized checks o :
  steady C o ->
  clocked = true \/
  (forall t,
     match stringType (keyName o) checks t with
     | Some g => clockless_generator (snd g)
     | None =>
         match keyName o with
         | Some name =>
             truthy_string name = true ->
             (forall g, defaultMapper name = Some g -> clockless_generator g)
             /\ (forall sec, clockless_member sec name)
         | None => True
         end
     end) ->
  sim r1 r2 clocked eq (parseString_sized C checks (set_faker r1 o))
                       (parseString_sized C checks (set_faker r2 o)).
Proof.
  intros Ho Hc. unfold parseString_sized.
  autorewrite with opts.
  apply sim_bind_eq; [apply sim_number_int|]. intros target.
  apply (sim_bind r1 r2 clocked (fun a b => a = b /\ alike_generator a)).
  - destruct (stringType (keyName o) checks target) as [g|] eqn:Hst.
    + apply sim_ret. split; [reflexivity|].
      apply (table_alike target).
      * unfold stringType in Hst. apply find_some in Hst. tauto.
      * destruct Hc as [Hc|Hc]; [left; exact Hc | right].
        specialize (Hc target). rewrite Hst in Hc. exact Hc.
    + apply (sim_bind r1 r2 clocked alike_found).
      * destruct (keyName o) as [k|] eqn:Hk;
          [destruct (truthy_string k) eqn:Htruthy|].
        -- apply sim_findMatchingFaker; [exact Ho|].
           destruct Hc as [Hc|Hc]; [left; exact Hc | right].
           specialize (Hc target). rewrite Hst in Hc. apply Hc. reflexivity.
        -- apply sim_ret. split; [reflexivity | discriminate].
        -- apply sim_ret. split; [reflexivity | discriminate].
      * intros found ? [<- Hfound]. apply sim_ret. split; [reflexivity|].
        destruct found as [g|]; simpl; [apply Hfound; reflexivity|].
        split; [right; exact I | discriminate].
  - intros g ? [<- Hg].
    apply sim_bind_eq; [apply sim_call_generator, Hg|]. intros mock.
    apply sim_bind_eq; [apply sim_toString_method|]. intros v.
    sm. apply sim_string_alpha.
Qed.

Lemma sa_parseString checks : seeded_alike (parseString C) (ZodString checks).
Proof.
  intros o Ho Ht. unfold parseString. autorewrite with opts.
  assert (Hsm : forall r,
            stringMap_generator (set_faker r o) = stringMap_generator o).
  { intros r. reflexivity. }
  rewrite !Hsm.
  assert (Hsized :
    find (fun c : check (option Z) => String.eqb (kind c) "regex") checks
      = None \/
    (exists c,
       find (fun c : check (option Z) => String.eqb (kind c) "regex") checks
       = Some c /\ regex c = None) ->
    sim r1 r2 clocked eq
      match stringMap_generator o with
      | Some g => call_user (string_fn C g)
      | None => parseString_sized C checks (set_faker r1 o)
      end
      match stringMap_generator o with
      | Some g => call_user (string_fn C g)
      | None => parseString_sized C checks (set_faker r2 o)
      end).
  { intros Hre. destruct (stringMap_generator o) as [g|] eqn:Hg.
    - apply sim_call_user_pure.
      unfold stringMap_generator in Hg.
      destruct (keyName o) as [k'|]; [|discriminate].
      destruct (stringMap o) as [m|] eqn:Hm; [|discriminate].
      destruct (truthy_string k'); [|discriminate].
      destruct Ho as (_ & Hs & _). exact (Hs m k' g Hm Hg).
    - apply sa_parseString_sized; [exact Ho|].
      destruct Ht as [Ht|Ht]; [left; exact Ht | right].
      pose proof (Hinv _ _ Ht) as Hstep. cbn [clock_free_step] in Hstep.
      destruct Hstep as [(c & re & Hc & Hregex)|Hstep]; [|exact Hstep].
      exfalso. destruct Hre as [Hre|(c' & Hre & Hnone)]; congruence. }
  destruct (find (fun c : check (option Z) => String.eqb (kind c) "regex")
              checks) as [[k v re]|] eqn:Hre.
  - destruct re as [re|]; [sm|].
    apply Hsized. right. eexists. split; reflexivity.
  - apply Hsized. left. reflexivity.
Qed.

Lemma sa_parseBoolean s : seeded_alike parseBoolean s.
Proof. intros o Ho Ht. unfold parseBoolean. autorewrite with opts. sm. Qed.

Lemma sim_date_bounds checks :
  sim r1 r2 clocked
    (fun a b =>
       a = (option_map time_clip (declared_date "min" checks),
            option_map time_clip (declared_date "max" checks)) /\
       b = (option_map time_clip (declared_date "min" checks),
            option_map time_clip (declared_date "max" checks)))
    (date_bounds checks) (date_bounds checks).
Proof.
  apply sim_returns; [|apply date_bounds_run].
  unfold date_bounds. apply sim_foldM. intros acc item _. sm.
Qed.

Lemma sa_parseDate checks : seeded_alike parseDate (ZodDate checks).
Proof.
  intros o Ho Ht. unfold parseDate. autorewrite with opts.
  eapply sim_bind; [apply sim_date_bounds|].
  intros bounds ? [-> ->].
  assert (Hfree : clocked = true \/ date_free checks).
  { destruct Ht as [Ht|Ht]; [left; exact Ht | right].
    exact (Hinv _ _ Ht). }
  apply sim_try_catch; [|intros e; sm].
  destruct (declared_date "min" checks) as [A|] eqn:Hmin,
           (declared_date "max" checks) as [B|] eqn:Hmax;
    cbn [option_map].
  - destruct (date_gt _ _); [apply sim_ret_eq|].
    apply sim_bind_eq; [|intros d; apply sim_ret_eq].
    apply sim_date_between.
    destruct Hfree as [Hc|(_ & HA & HB)]; [left; exact Hc | right].
    rewrite (time_clip_valid A (HA A Hmin)),
            (time_clip_valid B (HB B Hmax)).
    split; discriminate.
  - apply sim_bind_eq; [|intros d; apply sim_ret_eq].
    apply sim_date_soon.
    destruct Hfree as [Hc|(_ & HA & _)]; [left; exact Hc | right].
    rewrite (time_clip_valid A (HA A Hmin)). discriminate.
  - apply sim_bind_eq; [|intros d; apply sim_ret_eq].
    apply sim_date_recent.
    destruct Hfree as [Hc|(_ & _ & HB)]; [left; exact Hc | right].
    rewrite (time_clip_valid B (HB B Hmax)). discriminate.
  - apply sim_bind_eq; [|intros d; apply sim_ret_eq].
    apply sim_date_recent.
    destruct Hfree as [Hc|([H|H] & _)]; [left; exact Hc | | ]; congruence.
Qed.

Lemma sa_parseNumber s : seeded_alike parseNumber s.
Proof.
  intros o Ho Ht. unfold parseNumber. autorewrite with opts. sm.
  apply sim_number_int.
Qed.

Lemma sa_parseEnum s : seeded_alike parseEnum s.
Proof.
  intros o Ho Ht. unfold parseEnum. autorewrite with opts. sm.
  apply sim_arrayElement_eq.
Qed.

Lemma sa_parseNativeEnum s : seeded_alike parseNativeEnum s.
Proof.
  intros o Ho Ht. unfold parseNativeEnum. autorewrite with opts. sm.
  apply sim_arrayElement_eq.
Qed.

Lemma sa_parseLiteral s : seeded_alike parseLiteral s.
Proof. intros o Ho Ht. unfold parseLiteral. sm. Qed.

(** The depth guard hands the node on unchanged, with deeper options. *)
Lemma sa_depthControlled inner s :
  seeded_alike inner s -> seeded_alike (depthControlled inner) s.
Proof.
  intros Hi o Ho Ht. unfold depthControlled. autorewrite with opts.
  destruct (_ <=? _).
  - apply sim_ret_eq.
  - apply Hi; [apply steady_set_depths, Ho | exact Ht].
Qed.

(** *** Composite synthesizers *)

Section Composite.
Variable gen : schema -> GenerateMockOptions -> M val.
Hypothesis Hgen : forall s, seed_stable s = true -> seeded_alike gen s.

Lemma sa_array_element s :
  seed_stable s = true -> seeded_alike (array_element C gen) s.
Proof.
  intros Hs o Ho Ht. unfold array_element. autorewrite with opts.
  destruct (if String.eqb (typeName s) "ZodUndefined"
            then backup_lookup o "ZodUndefined" else None) as [f|] eqn:Hf.
  - destruct (String.eqb (typeName s) "ZodUndefined"); [|discriminate].
    apply (sim_invoke_backup _ _ _ o o "ZodUndefined"); assumption.
  - apply (Hgen s Hs o Ho Ht).
Qed.

Lemma sa_set_loop k target vt o results :
  seed_stable vt = true -> steady C o -> timely (keyName o) vt ->
  sim r1 r2 clocked eq (set_loop gen k target vt (set_faker r1 o) results)
                       (set_loop gen k target vt (set_faker r2 o) results).
Proof.
  intros Hs Ho Ht. revert results.
  induction k as [|k IH]; intros results; simpl; sm; auto.
  apply (Hgen vt Hs o Ho Ht).
Qed.

Lemma sa_map_loop k target kt vt o results :
  seed_stable kt = true -> seed_stable vt = true -> steady C o ->
  timely (keyName o) kt -> timely (keyName o) vt ->
  sim r1 r2 clocked eq (map_loop gen k target kt vt (set_faker r1 o) results)
                       (map_loop gen k target kt vt (set_faker r2 o) results).
Proof.
  intros Hk Hv Ho Htk Htv. revert results.
  induction k as [|k IH]; intros results; simpl; sm; auto.
  - apply (Hgen kt Hk o Ho Htk).
  - apply (Hgen vt Hv o Ho Htv).
Qed.

Lemma sa_parseObject_inner s :
  seed_stable s = true -> seeded_alike (parseObject_inner gen) s.
Proof.
  intros Hs o Ho Ht. unfold parseObject_inner.
  destruct s; try apply sim_throw.
  simpl in Hs. rewrite forallb_forall in Hs.
  sm. apply sim_foldM. intros carry field Hin. sm.
  autorewrite with opts.
  apply (Hgen _ (Hs field Hin)); [apply steady_set_keyName, Ho|].
  change (keyName (set_keyName (fst field) o)) with (Some (fst field)).
  descend Ht.
Qed.

Lemma sa_parseRecord s :
  seed_stable s = true -> seeded_alike (parseRecord gen) s.
Proof.
  intros Hs o Ho Ht. unfold parseRecord. autorewrite with opts.
  destruct (valid_array_length _); [|apply sim_throw].
  destruct s; try apply sim_throw.
  simpl in Hs. apply andb_prop in Hs as [Hk Hv].
  sm. apply sim_foldM. intros prev [] _. sm.
  - apply (Hgen _ Hk o Ho). descend Ht.
  - apply (Hgen _ Hv o Ho). descend Ht.
Qed.

Lemma sa_parseArray_inner s :
  seed_stable s = true -> seeded_alike (parseArray_inner C gen) s.
Proof.
  intros Hs o Ho Ht. unfold parseArray_inner. autorewrite with opts.
  destruct s; try apply sim_throw. simpl in Hs.
  sm; [apply sim_number_int|].
  apply sim_repeatM, (sa_array_element _ Hs o Ho). descend Ht.
Qed.

Lemma sa_parseSet_inner n s :
  seed_stable s = true -> seeded_alike (parseSet_inner gen n) s.
Proof.
  intros Hs o Ho Ht. unfold parseSet_inner. autorewrite with opts.
  destruct s; try apply sim_throw. simpl in Hs.
  sm; [apply sim_number_int | apply sa_set_loop; try assumption].
  descend Ht.
Qed.

Lemma sa_parseMap_inner n s :
  seed_stable s = true -> seeded_alike (parseMap_inner gen n) s.
Proof.
  intros Hs o Ho Ht. unfold parseMap_inner. autorewrite with opts.
  destruct s; try apply sim_throw.
  simpl in Hs. apply andb_prop in Hs as [Hk Hv].
  sm. apply sa_map_loop; try assumption; descend Ht.
Qed.

Lemma sa_parseLazy s : seeded_alike (parseLazy C gen) s.
Proof.
  intros o Ho Ht. unfold parseLazy. destruct s; try apply sim_throw.
  apply (Hgen _ (Hlazy _) o Ho). descend Ht.
Qed.

Lemma sa_parseOptional s :
  seed_stable s = true -> seeded_alike (parseOptional gen) s.
Proof.
  intros Hs o Ho Ht. unfold parseOptional.
  destruct s; try apply sim_throw; simpl in Hs; apply (Hgen _ Hs o Ho);
    descend Ht.
Qed.

Lemma sa_parseBranded s :
  seed_stable s = true -> seeded_alike (parseBranded gen) s.
Proof.
  intros Hs o Ho Ht. unfold parseBranded.
  destruct s; try apply sim_throw; simpl in Hs; apply (Hgen _ Hs o Ho);
    descend Ht.
Qed.

Lemma sa_parseUnion s :
  seed_stable s = true -> seeded_alike (parseUnion gen) s.
Proof.
  intros Hs o Ho Ht. unfold parseUnion. autorewrite with opts.
  destruct s; try apply sim_throw; simpl in Hs;
    rewrite forallb_forall in Hs;
    (eapply sim_bind; [apply sim_arrayElement|]);
    intros mocked ? [<- Hin]; apply (Hgen _ (Hs _ Hin) o Ho);
    descend Ht.
Qed.

Lemma sa_parseTransform s :
  seed_stable s = true -> seeded_alike (parseTransform C gen) s.
Proof.
  intros Hs o Ho Ht. unfold parseTransform.
  destruct s; try apply sim_throw. simpl in Hs.
  apply sim_bind_eq; [apply (Hgen _ Hs o Ho); descend Ht|]. intros input.
  destruct eff; sm. apply sim_call_user_pure, Htransform.
Qed.

Lemma sa_parseZodIntersection s :
  seed_stable s = true -> seeded_alike (parseZodIntersection gen) s.
Proof.
  intros Hs o Ho Ht. unfold parseZodIntersection.
  destruct s; try apply sim_throw.
  simpl in Hs. apply andb_prop in Hs as [Hl Hr].
  sm; [apply (Hgen _ Hl o Ho) | apply (Hgen _ Hr o Ho)]; descend Ht.
Qed.

Lemma sa_parseZodTuple s :
  seed_stable s = true -> seeded_alike (parseZodTuple C gen) s.
Proof.
  intros Hs o Ho Ht. unfold parseZodTuple.
  destruct s; try apply sim_throw.
  simpl in Hs. apply andb_prop in Hs as [Hitems Hrest].
  rewrite forallb_forall in Hitems.
  apply sim_bind_eq.
  { apply sim_mapM. intros item Hin. apply (Hgen _ (Hitems _ Hin) o Ho).
    descend Ht. }
  intros results. destruct rest as [restSchema|]; [|apply sim_ret_eq].
  apply sim_bind_eq.
  { unfold parseArray, depthControlled. autorewrite with opts.
    destruct (_ <=? _); [apply sim_ret_eq|].
    unfold parseArray_inner. autorewrite with opts.
    sm; [apply sim_number_int|].
    apply sim_repeatM, (sa_array_element _ Hrest);
      [apply steady_set_depths, Ho|].
    descend Ht. }
  intros next. sm.
Qed.

Lemma sa_parseZodDefault s :
  seed_stable s = true -> seeded_alike (parseZodDefault C gen) s.
Proof.
  intros Hs o Ho Ht. unfold parseZodDefault. autorewrite with opts.
  destruct s; try apply sim_throw. simpl in Hs.
  sm; [apply sim_call_user_pure, Hdefault | apply (Hgen _ Hs o Ho)].
  descend Ht.
Qed.

Lemma sa_parseZodPromise s :
  seed_stable s = true -> seeded_alike (parseZodPromise gen) s.
Proof.
  intros Hs o Ho Ht. unfold parseZodPromise.
  destruct s; try apply sim_throw. simpl in Hs.
  sm. apply (Hgen _ Hs o Ho). descend Ht.
Qed.

(** The [try] block of the entry point behaves alike in the two runs. *)
Lemma sa_dispatch n s :
  seed_stable s = true ->
  seeded_alike (dispatch C (workerMap C gen n)) s.
Proof.
  intros Hs o Ho Ht.
  destruct s; simpl in Hs; try discriminate.
  all: try (rewrite !(dispatch_builtin C (workerMap C gen n) _ _ _
                        eq_refl eq_refl)).
  all: try (apply sa_depthControlled; [|exact Ho|exact Ht]).
  all: try solve
    [ apply sa_parseObject_inner; assumption
    | apply sa_parseRecord; assumption
    | apply sa_parseArray_inner; assumption
    | apply sa_parseSet_inner; assumption
    | apply sa_parseMap_inner; assumption
    | apply sa_parseLazy
    | apply sa_parseUnion; assumption
    | apply sa_parseZodIntersection; assumption
    | apply sa_parseOptional; assumption
    | apply sa_parseTransform; assumption
    | apply sa_parseZodPromise; assumption
    | apply sa_parseZodTuple; assumption
    | apply sa_parseString; assumption
    | apply sa_parseNumber; assumption
    | apply sa_parseBoolean; assumption
    | apply sa_parseDate; assumption
    | apply sa_parseEnum; assumption
    | apply sa_parseNativeEnum; assumption
    | apply sa_parseLiteral; assumption
    | apply sa_parseBranded; assumption
    | apply sa_parseZodDefault; assumption
    | apply sim_ret_eq ].
  - (* ZodUndefined *)
    unfold dispatch. cbn [typeName]. autorewrite with opts.
    cbn [String.eqb Ascii.eqb Bool.eqb].
    destruct (backup_lookup o "ZodUndefined") as [f|] eqn:Hf.
    + apply (sim_invoke_backup _ _ _ o _ "ZodUndefined"); assumption.
    + simpl. apply sim_ret_eq.
  - (* ZodOther *)
    apply negb_true_iff in Hs.
    unfold dispatch. cbn [typeName]. autorewrite with opts.
    destruct (if String.eqb tag "ZodUndefined"
              then backup_lookup o "ZodUndefined" else None) as [f|] eqn:Hf.
    { destruct (String.eqb tag "ZodUndefined"); [|discriminate].
      apply (sim_invoke_backup _ _ _ o _ "ZodUndefined"); assumption. }
    rewrite (workerMap_unknown C gen n tag Hs).
    destruct (backup_lookup o tag) as [f|] eqn:Hb.
    { apply (sim_invoke_backup _ _ _ o _ tag); assumption. }
    sm.
Qed.

End Composite.

Lemma sim_contain e : sim r1 r2 clocked eq (contain e) (contain e).
Proof. unfold contain. sm. Qed.

End SeededWorkers.

Section SeededRuns.
Context {E : Env} (C : Callbacks heap).

Hypothesis Hlazy : forall g, seed_stable (getter_fn C g) = true.
Hypothesis Htransform : forall f v, pure_call (transform_fn C f v).
Hypothesis Hdefault : forall f, pure_call (default_fn C f).

Variable clocked : bool.
Variable Inv : option string -> schema -> Prop.
Hypothesis Hinv : forall k s, Inv k s -> clock_free_step C Inv k s.

Lemma sim_prepare r1 r2 o :
  sim r1 r2 clocked
    (fun d1 d2 => exists o', d1 = set_faker r1 o' /\ d2 = set_faker r2 o'
                             /\ keyName o' = keyName o
                             /\ (steady C o -> steady C o'))
    (prepare (set_faker r1 o)) (prepare (set_faker r2 o)).
Proof.
  unfold prepare.
  apply (sim_bind r1 r2 clocked (fun _ _ => True)); [apply sim_new_Faker|].
  intros f1 f2 _.
  change (defaultOptions f1 (set_faker r1 o))
    with (set_faker r1 (set_depths (default 0 (currentDepth o))
                                   (default 10 (maxDepth o)) o)).
  change (defaultOptions f2 (set_faker r2 o))
    with (set_faker r2 (set_depths (default 0 (currentDepth o))
                                   (default 10 (maxDepth o)) o)).
  autorewrite with opts.
  apply (sim_bind r1 r2 clocked eq).
  - change (seed (set_depths (default 0 (currentDepth o))
                    (default 10 (maxDepth o)) o)) with (seed o).
    destruct (seed o); [apply sim_faker_seed | apply sim_ret_eq].
  - intros _ _ _. apply sim_ret. eexists.
    split; [reflexivity|]. split; [reflexivity|].
    split; [reflexivity|]. apply steady_set_depths.
Qed.

(** The entry point behaves alike in two runs that draw from instances in
    the same state. *)
Lemma sa_generateMock r1 r2 fuel :
  forall s, seed_stable s = true ->
            seeded_alike C r1 r2 clocked Inv (generateMock C fuel) s.
Proof.
  induction fuel as [|n IH]; intros s Hs o Ho Ht.
  - apply sim_diverge.
  - rewrite !generateMock_unfold.
    eapply sim_bind; [apply sim_prepare|].
    intros d1 d2 (o' & -> & -> & Hk & Ho').
    apply sim_try_catch; [|apply sim_contain].
    apply (sa_dispatch C Hlazy Htransform Hdefault r1 r2 clocked Inv Hinv
             _ IH n s Hs o').
    + apply Ho', Ho.
    + rewrite Hk. exact Ht.
Qed.

Lemma same_outcome_eq {A} (x y : outcome A) :
  same_outcome eq x y -> x = y.
Proof.
  destruct x, y; simpl; intros H; try contradiction; congruence.
Qed.

(** Two seeded calls of the entry point: they draw from the instance the
    caller supplies, or each from the one it creates. *)
Lemma seeded_calls fuel s o sd w1 w2 :
  seed_stable s = true ->
  steady C o ->
  seed o = Some sd ->
  (forall r, faker o = Some r ->
     (r < next_faker (user w1))%nat /\ (r < next_faker (user w2))%nat) ->
  (clocked = true -> now (user w1) = now (user w2)) ->
  clocked = true \/ Inv (keyName o) s ->
  fst (generateMock C fuel s o w1) = fst (generateMock C fuel s o w2).
Proof.
  intros Hs Ho Hsd Hf Hnow Ht.
  destruct fuel as [|n]; [reflexivity|].
  rewrite !generateMock_run.
  set (f1 := default (next_faker (user w1)) (faker o)).
  set (f2 := default (next_faker (user w2)) (faker o)).
  set (o' := set_depths (default 0 (currentDepth o))
               (default 10 (maxDepth o)) o).
  assert (Hd1 : defaultOptions (next_faker (user w1)) o = set_faker f1 o')
    by reflexivity.
  assert (Hd2 : defaultOptions (next_faker (user w2)) o = set_faker f2 o')
    by reflexivity.
  rewrite Hd1, Hd2.
  assert (Hagree : agree f1 f2 clocked
                     (snd (prepare o w1)) (snd (prepare o w2))).
  { unfold prepare, bind, new_Faker, faker_seed, ret, agree. simpl.
    rewrite Hsd. simpl. rewrite Hd1, Hd2. autorewrite with opts.
    rewrite !Nat.eqb_refl.
    split; [reflexivity|]. split; [exact Hnow|].
    subst f1 f2. destruct (faker o) as [r|]; simpl.
    - destruct (Hf r eq_refl). lia.
    - lia. }
  apply same_outcome_eq.
  apply (sim_try_catch f1 f2 clocked eq);
    [|intros e; apply sim_contain|exact Hagree].
  apply (sa_dispatch C Hlazy Htransform Hdefault f1 f2 clocked Inv Hinv _
           (sa_generateMock f1 f2 n) n s Hs o'); [exact Ho | exact Ht].
Qed.

End SeededRuns.

Section Determinism.
Context {E : Env} (C : Callbacks heap).

Hypothesis Hlazy : forall g, seed_stable (getter_fn C g) = true.
Hypothesis Htransform : forall f v, pure_call (transform_fn C f v).
Hypothesis Hdefault : forall f, pure_call (default_fn C f).

(** C1, as amended.  Take a node without [ZodUuid] and function nodes
    (also behind lazy getters), transforms and default thunks that are pure
    functions, and options that carry a seed and whose functions (backup
    mocks, [stringMap] generators, mockery mapper) are pure; the options may
    carry a Faker instance of the caller, which then exists in both states.
    Two calls of the entry point with that node and those options have the
    same outcome (the same value, or the same error), whatever the states
    of the Faker instances and of the console, when they are made at the
    same clock reading, and at any two clock readings when the node does
    not read the clock ([clock_free]). *)
Theorem seeded_determinism fuel s o sd w1 w2 :
  seed_stable s = true ->
  steady C o ->
  seed o = Some sd ->
  (forall r, faker o = Some r ->
     (r < next_faker (user w1))%nat /\ (r < next_faker (user w2))%nat) ->
  now (user w1) = now (user w2) \/ clock_free C (keyName o) s ->
  fst (generateMock C fuel s o w1) = fst (generateMock C fuel s o w2).
Proof.
  intros Hs Ho Hsd Hf [Hnow|(Inv & Hin & Hinv)].
  - apply (seeded_calls C Hlazy Htransform Hdefault true (fun _ _ => False)
             ltac:(intros ? ? []) fuel s o sd w1 w2 Hs Ho Hsd Hf);
      [intros _; exact Hnow | left; reflexivity].
  - apply (seeded_calls C Hlazy Htransform Hdefault false Inv Hinv
             fuel s o sd w1 w2 Hs Ho Hsd Hf);
      [discriminate | right; exact Hin].
Qed.

End Determinism.

(** * Concrete runs *)

(** The callbacks of [Sample] meet the assumptions on the caller's
    functions. *)
Lemma sample_getters_stable g :
  seed_stable (getter_fn Sample.callbacks g) = true.
Proof. reflexivity. Qed.

Lemma sample_transform_pure f v :
  pure_call (transform_fn Sample.callbacks f v).
Proof. exists (Ret v). reflexivity. Qed.

Lemma sample_default_pure f : pure_call (default_fn Sample.callbacks f).
Proof. exists (Ret VUndefined). reflexivity. Qed.

(** C1, the claim as stated fails: with the same node and the same seed, a
    date node without bounds yields another date at another clock reading,
    and so does a string field named [date]; a [ZodUuid] node yields another
    value on a second call (its synthesizer draws from the module-level
    Faker instance, which the seed does not reset); a function node yields a
    closure over another Faker instance. *)
Lemma determinism_counterexample :
  Sample.run (ZodDate []) (Sample.seeded 123) 7 1000000000
    <> Sample.run (ZodDate []) (Sample.seeded 123) 7 2000000000 /\
  Sample.run (ZodObject [("date", ZodString [])]) (Sample.seeded 123)
    7 1000000000
    <> Sample.run (ZodObject [("date", ZodString [])]) (Sample.seeded 123)
         7 2000000000 /\
  Sample.run ZodUuid (Sample.seeded 123) 7 0
    <> Sample.run_again ZodUuid (Sample.seeded 123) 7 0 /\
  Sample.run (ZodFunction ZodBoolean) (Sample.seeded 123) 7 0
    <> Sample.run_again (ZodFunction ZodBoolean) (Sample.seeded 123) 7 0.
Proof. repeat split; vm_compute; discriminate. Qed.

(** The node [{ uid, age }] does not read the clock: the field name [uid]
    selects the uuid generator. *)
Lemma user_node_clock_free :
  clock_free Sample.callbacks None Sample.user_node.
Proof.
  apply clock_free_tree_free. repeat split. right. intros t. exact I.
Qed.

(** The node of the repository's test of seeded unions and enums:
    [{ theme: enum, nativeEnum, union: 'a' | 'b', discriminatedUnion:
    { discriminator: 'a', a: boolean } | { discriminator: 'b', b: string } }].
    No member of the Faker modules of [Sample] is called [b]. *)
Definition seed_test_node : schema :=
  ZodObject
    [ ("theme", ZodEnum ["light"; "dark"]);
      ("nativeEnum", ZodNativeEnum [LNum 1; LNum 2]);
      ("union", ZodUnion [ZodLiteral (LStr "a"); ZodLiteral (LStr "b")]);
      ("discriminatedUnion",
       ZodDiscriminatedUnion
         [ ZodObject [("discriminator", ZodLiteral (LStr "a"));
                      ("a", ZodBoolean)];
           ZodObject [("discriminator", ZodLiteral (LStr "b"));
                      ("b", ZodString [])] ]) ].

Lemma seed_test_node_clock_free :
  clock_free Sample.callbacks None seed_test_node.
Proof.
  apply clock_free_tree_free. repeat split. right. intros t _.
  split; [discriminate|].
  intros sec members fn Hin Hfn. simpl in Hin.
  repeat (destruct Hin as [Hin|Hin];
          [injection Hin as <- <-; discriminate Hfn|]).
  destruct Hin.
Qed.

(** The options of [Sample] carry pure functions only. *)
Lemma sample_steady o : steady Sample.callbacks o.
Proof.
  repeat split.
  - intros tag f _ s o'. destruct f as [|f].
    + exists (Ret (VStr "not undefined")). reflexivity.
    + exists (Throw (Fault "Error: backup mock failed")). reflexivity.
  - intros m k f _ _. exists (Ret (VStr "value set")). reflexivity.
  - intros f k _. exists (Ret None). split; [reflexivity | discriminate].
Qed.

(** [seeded_determinism] at the node [{ uid, age }] and at the node of the
    repository's test of seeded unions, with seed 123, for two states whose
    Faker instances and clocks differ; and at a date node
    without bounds with seed 123 and the module-level Faker instance as the
    caller's, for two states whose Faker instances differ and whose clocks
    agree. *)
Lemma seeded_determinism_witness :
  seed_stable Sample.user_node = true /\
  steady Sample.callbacks (Sample.seeded 123) /\
  seed (Sample.seeded 123) = Some (SeedNumber 123) /\
  clock_free Sample.callbacks (keyName (Sample.seeded 123))
    Sample.user_node /\
  now (user (Sample.world0 7 1000)) <> now (user (Sample.world0 8 2000)) /\
  fst (generateMock Sample.callbacks 5 Sample.user_node (Sample.seeded 123)
         (Sample.world0 7 1000))
  = fst (generateMock Sample.callbacks 5 Sample.user_node (Sample.seeded 123)
           (Sample.world0 8 2000)) /\
  fst (generateMock Sample.callbacks 5 Sample.user_node (Sample.seeded 123)
         (Sample.world0 7 1000))
  = Ret (VObj [("uid", VStr "uuid-440917656"); ("age", VNum 38)]) /\
  seed_stable seed_test_node = true /\
  clock_free Sample.callbacks (keyName (Sample.seeded 123)) seed_test_node /\
  fst (generateMock Sample.callbacks 5 seed_test_node (Sample.seeded 123)
         (Sample.world0 7 1000))
  = fst (generateMock Sample.callbacks 5 seed_test_node (Sample.seeded 123)
           (Sample.world0 8 2000)) /\
  faker (set_faker 0 (Sample.seeded 123)) = Some 0%nat /\
  (0 < next_faker (user (Sample.world0 7 1000)))%nat /\
  (0 < next_faker (user (Sample.world0 8 1000)))%nat /\
  fst (generateMock Sample.callbacks 5 (ZodDate [])
         (set_faker 0 (Sample.seeded 123)) (Sample.world0 7 1000))
  = fst (generateMock Sample.callbacks 5 (ZodDate [])
           (set_faker 0 (Sample.seeded 123)) (Sample.world0 8 1000)).
Proof.
  split; [reflexivity|]. split; [apply sample_steady|].
  split; [reflexivity|]. split; [exact user_node_clock_free|].
  split; [discriminate|]. split.
  { apply (seeded_determinism Sample.callbacks sample_getters_stable
             sample_transform_pure sample_default_pure 5 Sample.user_node
             (Sample.seeded 123) (SeedNumber 123));
      [ reflexivity | apply sample_steady | reflexivity | discriminate
      | right; exact user_node_clock_free ]. }
  split; [vm_compute; reflexivity|].
  split; [reflexivity|]. split; [exact seed_test_node_clock_free|]. split.
  { apply (seeded_determinism Sample.callbacks sample_getters_stable
             sample_transform_pure sample_default_pure 5 seed_test_node
             (Sample.seeded 123) (SeedNumber 123));
      [ reflexivity | apply sample_steady | reflexivity | discriminate
      | right; exact seed_test_node_clock_free ]. }
  split; [reflexivity|]. split; [simpl; lia|]. split; [simpl; lia|].
  apply (seeded_determinism Sample.callbacks sample_getters_stable
           sample_transform_pure sample_default_pure 5 (ZodDate [])
           (set_faker 0 (Sample.seeded 123)) (SeedNumber 123));
    [ reflexivity | apply sample_steady | reflexivity
    | intros r Hr; injection Hr as <-; simpl; lia
    | left; reflexivity ].
Defined.


(** C3, the claim as stated fails: a [stringMap] generator is used verbatim,
    a regex check bypasses the length checks, and for a minimum of [2^32]
    or more the padding with [string.alpha] throws a [RangeError], so that
    no string is generated. *)
Lemma string_length_counterexample :
  Sample.run (ZodObject [("locked", Sample.string_between 1 5)])
    (Sample.with_stringMap "locked" 0%nat) 7 0
  = Ret (VObj [("locked", VStr "value set")]) /\
  ~ (Z.of_nat (String.length "value set") <= 5) /\
  Sample.run
    (ZodString [Check "regex" None (Some "abc");
                Sample.bound "min" 5; Sample.bound "max" 10])
    no_options 7 0
  = Ret (VStr "abc") /\
  ~ (5 <= Z.of_nat (String.length "abc")) /\
  Sample.run (Sample.string_between 4294967400 4294967500) no_options 7 0
  = Ret VUndefined.
Proof. repeat split; vm_compute; congruence. Qed.

(** [string_length_bounds] at [string().min(1).max(5)]. *)
Lemma string_length_bounds_witness :
  find (fun c : check (option Z) => String.eqb (kind c) "regex")
    [Sample.bound "min" 1; Sample.bound "max" 5] = None /\
  stringMap_generator no_options = None /\
  stringOptions [Sample.bound "min" 1; Sample.bound "max" 5]
  = (Some 1, Some 5) /\
  0 <= 5 /\
  @sure_field Sample.env [Sample.bound "min" 1; Sample.bound "max" 5]
    no_options (now (user (Sample.world0 7 0))) /\
  Z.max 1 5 <= @alpha_limit Sample.env /\
  exists s,
    fst (generateMock Sample.callbacks 1 (Sample.string_between 1 5)
           no_options (Sample.world0 7 0)) = Ret (VStr s) /\
    Z.of_nat (String.length s) <= 5 /\ 1 <= Z.of_nat (String.length s).
Proof.
  split; [reflexivity|]. split; [reflexivity|]. split; [reflexivity|].
  split; [lia|]. split; [exact I|]. split; [vm_compute; discriminate|].
  destruct (string_length_bounds Sample.callbacks 0
              [Sample.bound "min" 1; Sample.bound "max" 5] no_options 1 5
              (Sample.world0 7 0) eq_refl eq_refl eq_refl ltac:(lia))
    as [Hbounds Htotal].
  assert (Hab : 1 <= 5 \/ 5 <> 0) by (left; lia).
  destruct (Htotal I Hab ltac:(vm_compute; discriminate)) as [s Hs].
  exists s. split; [exact Hs|].
  destruct (Hbounds s Hs) as [Hmax Hmin]. split; [exact Hmax | apply Hmin; lia].
Defined.

(** C4, the claim as stated fails: of two [min] checks the generator reads
    the last one, so that the node [date().min(5).min(3).max(10)], which
    accepts the dates of [[5, 10]], yields the date 3. *)
Lemma date_range_counterexample :
  Sample.run
    (ZodDate [Check "min" (DateNum 5) None; Check "min" (DateNum 3) None;
              Check "max" (DateNum 10) None])
    no_options 7 0
  = Ret (VDate 3) /\
  ~ (5 <= 3 <= 10).
Proof. split; [vm_compute; reflexivity | lia]. Qed.

(** The dates of the checks of a kind, for a list of checks given in
    full. *)
Ltac checked_dates :=
  let m := fresh "m" in
  let c := fresh "c" in
  let Hin := fresh "Hin" in
  let Hk := fresh "Hk" in
  let Hv := fresh "Hv" in
  intros m (c & Hin & Hk & Hv); simpl in Hin;
  repeat (destruct Hin as [<-|Hin]; simpl in Hk, Hv;
          [ first [ discriminate Hk
                  | destruct Hv as [Hv|Hv];
                    first [discriminate Hv | injection Hv as <-; lia] ]
          | ]);
  destruct Hin.

(** [date_range] at [date().max(500).min(100)], the checks in that order,
    and at the inverted range [date().min(500).max(100)]. *)
Lemma date_range_witness :
  declared_date "min"
    [Check "max" (DateObj 500) None; Check "min" (DateNum 100) None]
  = Some 100 /\
  declared_date "max"
    [Check "max" (DateObj 500) None; Check "min" (DateNum 100) None]
  = Some 500 /\
  valid_time 100 /\ valid_time 500 /\
  (exists t,
     fst (generateMock Sample.callbacks 1
            (ZodDate [Check "max" (DateObj 500) None;
                      Check "min" (DateNum 100) None])
            no_options (Sample.world0 7 0)) = Ret (VDate t) /\
     100 <= t <= 500) /\
  fst (generateMock Sample.callbacks 1
         (ZodDate [Check "min" (DateObj 500) None;
                   Check "max" (DateObj 100) None])
         no_options (Sample.world0 7 0)) = Ret VUndefined.
Proof.
  split; [reflexivity|]. split; [reflexivity|].
  split; [unfold valid_time, MAX_TIME; lia|].
  split; [unfold valid_time, MAX_TIME; lia|].
  split.
  - destruct (date_range Sample.callbacks 0
                [Check "max" (DateObj 500) None; Check "min" (DateNum 100) None]
                100 500 no_options (Sample.world0 7 0) eq_refl eq_refl)
      as [Hin _]; [checked_dates | checked_dates | | |].
    + unfold valid_time, MAX_TIME; lia.
    + unfold valid_time, MAX_TIME; lia.
    + destruct (Hin ltac:(lia)) as (t & Ht & Hr & _). exists t. auto.
  - apply (date_range Sample.callbacks 0
             [Check "min" (DateObj 500) None; Check "max" (DateObj 100) None]
             500 100 no_options (Sample.world0 7 0) eq_refl eq_refl);
      [ checked_dates | checked_dates
      | unfold valid_time, MAX_TIME; lia | unfold valid_time, MAX_TIME; lia
      | lia ].
Defined.

(** [unknown_type] at a [ZodAny] node, in strict mode and without it. *)
Lemma unknown_type_witness :
  builtin (typeName (ZodOther "ZodAny")) = false /\
  backup_lookup Sample.strict "ZodAny" = None /\
  fst (generateMock Sample.callbacks 1 (ZodOther "ZodAny") Sample.strict
         (Sample.world0 7 0)) = Throw (ZodMockError "ZodAny") /\
  fst (generateMock Sample.callbacks 1 (ZodOther "ZodAny") no_options
         (Sample.world0 7 0)) = Ret VUndefined.
Proof.
  split; [reflexivity|]. split; [reflexivity|]. split.
  - apply (unknown_type Sample.callbacks 0 (ZodOther "ZodAny") Sample.strict);
      reflexivity.
  - apply (unknown_type Sample.callbacks 0 (ZodOther "ZodAny") no_options);
      try reflexivity. left. reflexivity.
Defined.

(** [fault_containment] at [number().min(5).max(2)], where Faker throws, and
    at a [ZodAny] node whose backup mock throws. *)
Lemma fault_containment_witness :
  fst (dispatch Sample.callbacks
         (workerMap Sample.callbacks (generateMock Sample.callbacks 0) 0)
         (ZodNumber [Sample.bound "min" 5; Sample.bound "max" 2])
         (defaultOptions (next_faker (user (Sample.world0 7 0))) no_options)
         (snd (prepare no_options (Sample.world0 7 0))))
  = Throw (Fault "FakerError: Max should be greater than min") /\
  (exists w3,
     generateMock Sample.callbacks 1
       (ZodNumber [Sample.bound "min" 5; Sample.bound "max" 2]) no_options
       (Sample.world0 7 0) = (Ret VUndefined, w3) /\
     console (user w3)
     = [LogError (Fault "FakerError: Max should be greater than min")]) /\
  fst (generateMock Sample.callbacks 1 (ZodOther "ZodAny")
         (Sample.with_backup "ZodAny" 1%nat) (Sample.world0 7 0))
  = Ret VUndefined.
Proof.
  split; [vm_compute; reflexivity|]. split.
  - destruct (fault_containment Sample.callbacks
                (ZodNumber [Sample.bound "min" 5; Sample.bound "max" 2])
                no_options (Sample.world0 7 0)) as (Hfault & _ & _).
    destruct (Hfault 0%nat "FakerError: Max should be greater than min"
                (snd (dispatch Sample.callbacks
                        (workerMap Sample.callbacks
                           (generateMock Sample.callbacks 0) 0)
                        (ZodNumber [Sample.bound "min" 5; Sample.bound "max" 2])
                        (defaultOptions
                           (next_faker (user (Sample.world0 7 0))) no_options)
                        (snd (prepare no_options (Sample.world0 7 0))))))
      as (w3 & Hrun & Hlog & _).
    { apply injective_projections; [vm_compute; reflexivity | reflexivity]. }
    exists w3. split; [exact Hrun|]. rewrite Hlog. vm_compute. reflexivity.
  - destruct (fault_containment Sample.callbacks (ZodOther "ZodAny")
                (Sample.with_backup "ZodAny" 1%nat) (Sample.world0 7 0))
      as (Hfault & _ & _).
    destruct (Hfault 0%nat "Error: backup mock failed"
                (snd (dispatch Sample.callbacks
                        (workerMap Sample.callbacks
                           (generateMock Sample.callbacks 0) 0)
                        (ZodOther "ZodAny")
                        (defaultOptions
                           (next_faker (user (Sample.world0 7 0)))
                           (Sample.with_backup "ZodAny" 1%nat))
                        (snd (prepare (Sample.with_backup "ZodAny" 1%nat)
                                (Sample.world0 7 0))))))
      as (w3 & Hrun & _).
    { apply injective_projections; [vm_compute; reflexivity | reflexivity]. }
    rewrite Hrun. reflexivity.
Defined.





(** [backup_only_as_fallback]: a [ZodUndefined] backup mock pre-empts the
    built-in synthesizer, a [ZodString] backup mock is never invoked. *)
Lemma backup_only_as_fallback_witness :
  backup_lookup (Sample.with_backup "ZodUndefined" 0%nat) "ZodUndefined"
  = Some 0%nat /\
  fst (generateMock Sample.callbacks 1 ZodUndefined
         (Sample.with_backup "ZodUndefined" 0%nat) (Sample.world0 7 0))
  = Ret (VStr "not undefined") /\
  builtin (typeName (ZodString [])) = true /\
  typeName (ZodString []) <> "ZodUndefined" /\
  backup_calls
    (snd (generateMock Sample.callbacks 1 (ZodString [])
            (Sample.with_backup "ZodString" 0%nat) (Sample.world0 7 0)))
  = [].
Proof.
  split; [reflexivity|]. split.
  - destruct (backup_only_as_fallback Sample.callbacks ZodUndefined
                (Sample.with_backup "ZodUndefined" 0%nat) (Sample.world0 7 0))
      as (_ & Hpre & _).
    rewrite (Hpre 0%nat 0%nat eq_refl). reflexivity.
  - split; [reflexivity|]. split; [discriminate|].
    destruct (backup_only_as_fallback Sample.callbacks (ZodString [])
                (Sample.with_backup "ZodString" 0%nat) (Sample.world0 7 0))
      as (_ & _ & _ & Hbuiltin).
    destruct (Hbuiltin 0%nat eq_refl ltac:(discriminate))
      as (worker & Hw & Hrun).
    rewrite Hrun. injection Hw as <-. reflexivity.
Defined.

(** * Further properties

    Properties of the code that the claims of the specification leave
    out: the LRU cache, the synthesizers of numbers, arrays, sets, enums,
    unions, objects and intersections, field-name matching, dates with
    one bound, loops that cannot end, wrappers and backup mocks,
    termination under the depth guard, leniency, the module-level Faker
    instance, seeded arrays, and the factory. *)

(** ** The LRU cache *)

Section LRU.
Context {K V : Type} `{EqDecision K}.
Import LRUCache.

Implicit Types (m : list (K * V)) (c : LRUCache.t K V) (k : K) (v : V).

Lemma map_has_get k m : map_has k m = true <-> map_get k m <> None.
Proof.
  induction m as [|[k' v'] m IH]; simpl; [split; [discriminate | congruence]|].
  destruct (decide (k' = k)) as [->|Hne].
  - rewrite bool_decide_eq_true_2 by reflexivity. simpl. split; congruence.
  - rewrite bool_decide_eq_false_2 by exact Hne. simpl. exact IH.
Qed.

Lemma map_has_keys k m : map_has k m = true <-> In k (map fst m).
Proof.
  induction m as [|[k' v'] m IH]; simpl; [split; [discriminate | tauto]|].
  destruct (decide (k' = k)) as [->|Hne].
  - rewrite bool_decide_eq_true_2 by reflexivity. simpl. tauto.
  - rewrite bool_decide_eq_false_2 by exact Hne. simpl.
    rewrite IH. intuition congruence.
Qed.

Lemma map_get_None k m : map_get k m = None <-> ~ In k (map fst m).
Proof.
  induction m as [|[k' v'] m IH]; simpl; [tauto|].
  destruct (decide (k' = k)) as [->|Hne].
  - split; [discriminate | tauto].
  - rewrite IH. tauto.
Qed.

Lemma map_get_put_same k v m : map_get k (map_put k v m) = Some v.
Proof.
  induction m as [|[k' v'] m IH]; simpl.
  - rewrite decide_True by reflexivity. reflexivity.
  - destruct (decide (k' = k)) as [->|Hne]; simpl.
    + rewrite decide_True by reflexivity. reflexivity.
    + rewrite decide_False by exact Hne. exact IH.
Qed.

Lemma map_get_put_other k k' v m :
  k' <> k -> map_get k' (map_put k v m) = map_get k' m.
Proof.
  intros Hne. induction m as [|[k0 v0] m IH]; simpl.
  - rewrite decide_False by congruence. reflexivity.
  - destruct (decide (k0 = k)) as [->|Hne0]; simpl.
    + rewrite !decide_False by congruence. reflexivity.
    + destruct (decide (k0 = k')); [reflexivity | exact IH].
Qed.

Lemma map_get_delete_same k m : map_get k (map_delete k m) = None.
Proof.
  induction m as [|[k0 v0] m IH]; simpl; [reflexivity|].
  destruct (decide (k0 = k)) as [->|Hne]; simpl; [exact IH|].
  rewrite decide_False by exact Hne. exact IH.
Qed.

Lemma map_get_delete_other k k' m :
  k' <> k -> map_get k' (map_delete k m) = map_get k' m.
Proof.
  intros Hne. induction m as [|[k0 v0] m IH]; simpl; [reflexivity|].
  destruct (decide (k0 = k)) as [->|Hne0]; simpl.
  - rewrite decide_False by congruence. exact IH.
  - destruct (decide (k0 = k')); [reflexivity | exact IH].
Qed.

Lemma keys_delete k k' m :
  In k' (map fst (map_delete k m)) <-> In k' (map fst m) /\ k' <> k.
Proof.
  induction m as [|[k0 v0] m IH]; simpl; [tauto|].
  destruct (decide (k0 = k)) as [->|Hne0]; simpl; rewrite IH;
    intuition congruence.
Qed.

Lemma NoDup_delete k m :
  List.NoDup (map fst m) -> List.NoDup (map fst (map_delete k m)).
Proof.
  induction m as [|[k0 v0] m IH]; simpl; [auto|].
  intros Hnd. inversion Hnd as [|? ? Hnotin Hnd']; subst.
  destruct (decide (k0 = k)); simpl; [auto|].
  constructor; [|auto]. rewrite keys_delete. tauto.
Qed.

Lemma length_delete_le k m : (length (map_delete k m) <= length m)%nat.
Proof.
  induction m as [|[k0 v0] m IH]; simpl; [lia|].
  destruct (decide (k0 = k)); simpl; lia.
Qed.

Lemma delete_absent k m : ~ In k (map fst m) -> map_delete k m = m.
Proof.
  induction m as [|[k0 v0] m IH]; simpl; [reflexivity|].
  intros Hnotin. destruct (decide (k0 = k)) as [->|Hne]; [tauto|].
  rewrite IH; tauto.
Qed.

Lemma length_delete_present k m :
  List.NoDup (map fst m) -> In k (map fst m) ->
  S (length (map_delete k m)) = length m.
Proof.
  induction m as [|[k0 v0] m IH]; simpl; [tauto|].
  intros Hnd Hin. inversion Hnd as [|? ? Hnotin Hnd']; subst.
  destruct (decide (k0 = k)) as [->|Hne]; simpl.
  - rewrite delete_absent by exact Hnotin. reflexivity.
  - rewrite IH; [reflexivity | exact Hnd' | tauto].
Qed.

Lemma put_absent k v m : ~ In k (map fst m) -> map_put k v m = m ++ [(k, v)].
Proof.
  induction m as [|[k0 v0] m IH]; simpl; [reflexivity|].
  intros Hnotin. destruct (decide (k0 = k)) as [->|Hne]; [tauto|].
  rewrite IH; tauto.
Qed.

(** Deleting a key and setting it again moves it to the end. *)
Lemma put_delete k v m :
  map_put k v (map_delete k m) = map_delete k m ++ [(k, v)].
Proof. apply put_absent. rewrite keys_delete. tauto. Qed.

Lemma NoDup_snoc k v m :
  List.NoDup (map fst m) -> ~ In k (map fst m) ->
  List.NoDup (map fst (m ++ [(k, v)])).
Proof.
  induction m as [|[k0 v0] m IH]; simpl; intros Hnd Hnotin.
  - constructor; [tauto | constructor].
  - inversion Hnd as [|? ? Hn0 Hnd']; subst.
    constructor; [|apply IH; tauto].
    rewrite map_app, in_app_iff. simpl. intuition congruence.
Qed.

(** The cache after [set]: the key goes to the end; a new key at capacity
    first drops the oldest entry. *)
Lemma set_cache k v c :
  cache (set k v c) =
  (if map_has k (cache c) then map_delete k (cache c)
   else if maxSize c <=? Z.of_nat (length (cache c))
        then match cache c with
             | [] => []
             | (firstKey, _) :: _ => map_delete firstKey (cache c)
             end
        else cache c) ++ [(k, v)].
Proof.
  unfold set. cbn [cache].
  destruct (map_has k (cache c)) eqn:Hhas; [apply put_delete|].
  assert (Hnotin : ~ In k (map fst (cache c))).
  { rewrite <- map_has_keys. congruence. }
  destruct (maxSize c <=? Z.of_nat (length (cache c)));
    [|apply put_absent; exact Hnotin].
  destruct (cache c) as [|[k0 v0] m] eqn:Hc; [reflexivity|].
  apply put_absent. rewrite keys_delete. tauto.
Qed.

Lemma get_hit k v c :
  map_get k (cache c) = Some v ->
  get k c = (Some v, {| maxSize := maxSize c;
                        cache := map_delete k (cache c) ++ [(k, v)] |}).
Proof. intros Hg. unfold get. rewrite Hg, put_delete. reflexivity. Qed.

Lemma get_miss k c : map_get k (cache c) = None -> get k c = (None, c).
Proof. intros Hg. unfold get. rewrite Hg. reflexivity. Qed.

Lemma maxSize_step c o : maxSize (step c o) = maxSize c.
Proof.
  destruct o as [k|k v|]; simpl; try reflexivity.
  unfold get. destruct (map_get k (cache c)); reflexivity.
Qed.

(** What every use of the cache keeps: distinct keys, and at most
    [max(1, maxSize)] entries. *)
Definition within_capacity c : Prop :=
  List.NoDup (map fst (cache c)) /\
  Z.of_nat (length (cache c)) <= Z.max 1 (maxSize c).

Lemma step_within_capacity c o : within_capacity c -> within_capacity (step c o).
Proof.
  intros [Hnd Hlen]. destruct o as [k|k v|]; simpl.
  - destruct (map_get k (cache c)) as [v|] eqn:Hg.
    + rewrite (get_hit _ _ _ Hg). split; cbn [snd cache maxSize].
      * apply NoDup_snoc; [apply NoDup_delete; exact Hnd|].
        rewrite keys_delete. tauto.
      * rewrite length_app. simpl.
        assert (Hin : In k (map fst (cache c))).
        { apply map_has_keys, map_has_get. congruence. }
        pose proof (length_delete_present k _ Hnd Hin). lia.
    + rewrite (get_miss _ _ Hg). split; assumption.
  - split.
    + rewrite set_cache.
      destruct (map_has k (cache c)) eqn:Hhas.
      * apply NoDup_snoc; [apply NoDup_delete; exact Hnd|].
        rewrite keys_delete. tauto.
      * assert (Hnotin : ~ In k (map fst (cache c))).
        { rewrite <- map_has_keys. congruence. }
        destruct (maxSize c <=? Z.of_nat (length (cache c)));
          [|apply NoDup_snoc; assumption].
        destruct (cache c) as [|[k0 v0] m] eqn:Hc;
          [apply NoDup_snoc; [constructor | tauto]|].
        apply NoDup_snoc; [apply NoDup_delete; exact Hnd|].
        rewrite keys_delete. tauto.
    + rewrite set_cache, length_app. cbn [maxSize set length].
      destruct (map_has k (cache c)) eqn:Hhas.
      * apply map_has_keys in Hhas.
        pose proof (length_delete_present k _ Hnd Hhas). lia.
      * destruct (Z.leb_spec (maxSize c) (Z.of_nat (length (cache c))));
          [|lia].
        destruct (cache c) as [|[k0 v0] m] eqn:Hc; [simpl; lia|].
        pose proof (length_delete_present k0 ((k0, v0) :: m) Hnd
                      (or_introl eq_refl)).
        lia.
  - split; [constructor | simpl; lia].
Qed.

Lemma run_within_capacity ops c :
  within_capacity c -> within_capacity (run ops c).
Proof.
  revert c. induction ops as [|o ops IH]; intros c Hc; simpl; [exact Hc|].
  apply IH, step_within_capacity, Hc.
Qed.

Lemma maxSize_run ops c : maxSize (run ops c) = maxSize c.
Proof.
  revert c. induction ops as [|o ops IH]; intros c; simpl; [reflexivity|].
  rewrite IH. apply maxSize_step.
Qed.

(** X1.  Whatever sequence of [get], [set] and [clear] is applied to a new
    cache, its keys stay distinct and it never holds more than
    [max(1, maxSize)] entries: at most [maxSize] for a capacity of at least
    one, and one entry for a capacity of zero or less. *)
Theorem lru_capacity (maxSize : Z) (ops : list (op K V)) :
  List.NoDup (map fst (cache (run ops (new maxSize)))) /\
  Z.of_nat (length (cache (run ops (new maxSize)))) <= Z.max 1 maxSize.
Proof.
  pose proof (run_within_capacity ops (new maxSize)) as Hrun.
  unfold within_capacity in Hrun. rewrite maxSize_run in Hrun.
  apply Hrun. split; [constructor | simpl; lia].
Qed.

(** X2.  A value that was just set is what [get] returns, whatever the
    capacity (even zero) and whatever the cache held; and setting a key
    leaves every other key as it was, unless the cache was at capacity and
    the key is new. *)
Theorem lru_set_then_get k v c :
  fst (get k (set k v c)) = Some v /\
  (map_has k (cache c) = true \/ Z.of_nat (length (cache c)) < maxSize c ->
   forall k', k' <> k ->
     map_get k' (cache (set k v c)) = map_get k' (cache c)).
Proof.
  split.
  - unfold get, set. cbn [cache]. rewrite map_get_put_same. reflexivity.
  - intros Hroom k' Hne. unfold set. cbn [cache].
    rewrite map_get_put_other by exact Hne.
    destruct (map_has k (cache c)); [apply map_get_delete_other, Hne|].
    destruct Hroom as [|Hroom]; [discriminate|].
    destruct (Z.leb_spec (maxSize c) (Z.of_nat (length (cache c)))); [lia|].
    reflexivity.
Qed.

(** A hit or a miss, [get] changes no binding. *)
Lemma get_preserves_bindings k c k' :
  map_get k' (cache (snd (get k c))) = map_get k' (cache c).
Proof.
  destruct (map_get k (cache c)) as [v|] eqn:Hg.
  - rewrite (get_hit _ _ _ Hg). cbn [snd cache]. rewrite <- put_delete.
    destruct (decide (k' = k)) as [->|Hne].
    + rewrite map_get_put_same. congruence.
    + rewrite map_get_put_other by exact Hne.
      apply map_get_delete_other, Hne.
  - rewrite (get_miss _ _ Hg). reflexivity.
Qed.

(** At capacity, a new key takes the place of the oldest key. *)
Lemma set_evicts_first k v k0 v0 rest c :
  cache c = (k0, v0) :: rest ->
  maxSize c <= Z.of_nat (length (cache c)) ->
  map_get k (cache c) = None ->
  forall k',
    map_get k' (cache (set k v c)) =
    if decide (k' = k) then Some v
    else if decide (k' = k0) then None
    else map_get k' (cache c).
Proof.
  intros Hc Hfull Hnew k'.
  assert (Hhas : map_has k (cache c) = false).
  { destruct (map_has k (cache c)) eqn:Hh; [|reflexivity].
    apply map_has_get in Hh. congruence. }
  unfold set. cbn [cache]. rewrite Hhas.
  destruct (Z.leb_spec (maxSize c) (Z.of_nat (length (cache c)))); [|lia].
  rewrite Hc. destruct (decide (k' = k)) as [->|Hne].
  - apply map_get_put_same.
  - rewrite map_get_put_other by exact Hne.
    destruct (decide (k' = k0)) as [->|Hne0].
    + apply map_get_delete_same.
    + apply map_get_delete_other, Hne0.
Qed.

(** X3.  Eviction is of the least recently used key.  In a cache at
    capacity whose oldest entry is [k0], setting a new key [k] drops [k0]
    and nothing else; but when [k0] was read by [get] just before, it is
    the second oldest key [k1] that is dropped, and [k0] stays. *)
Theorem lru_evicts_least_recent k v k0 v0 rest c :
  List.NoDup (map fst (cache c)) ->
  cache c = (k0, v0) :: rest ->
  maxSize c <= Z.of_nat (length (cache c)) ->
  map_get k (cache c) = None ->
  (forall k',
     map_get k' (cache (set k v c)) =
     if decide (k' = k) then Some v
     else if decide (k' = k0) then None
     else map_get k' (cache c)) /\
  (forall k1 v1 rest',
     rest = (k1, v1) :: rest' ->
     forall k',
       map_get k' (cache (set k v (snd (get k0 c)))) =
       if decide (k' = k) then Some v
       else if decide (k' = k1) then None
       else map_get k' (cache c)).
Proof.
  intros Hnd Hc Hfull Hnew.
  split; [exact (set_evicts_first k v k0 v0 rest c Hc Hfull Hnew)|].
  intros k1 v1 rest' Hrest k'. subst rest.
  assert (Hg0 : map_get k0 (cache c) = Some v0).
  { rewrite Hc. simpl. rewrite decide_True by reflexivity. reflexivity. }
  assert (Hc' : cache (snd (get k0 c)) = (k1, v1) :: (rest' ++ [(k0, v0)])).
  { rewrite (get_hit _ _ _ Hg0). cbn [snd cache]. rewrite Hc.
    rewrite Hc in Hnd. simpl in Hnd.
    inversion Hnd as [|? ? Hn0 Hnd1]; subst.
    simpl. rewrite decide_True by reflexivity.
    rewrite decide_False by (intros ->; apply Hn0; left; reflexivity).
    rewrite delete_absent; [reflexivity|].
    intros Hin. apply Hn0. right. exact Hin. }
  assert (Hm' : maxSize (snd (get k0 c)) = maxSize c).
  { rewrite (get_hit _ _ _ Hg0). reflexivity. }
  rewrite (set_evicts_first k v k1 v1 (rest' ++ [(k0, v0)]) _ Hc').
  - rewrite get_preserves_bindings. reflexivity.
  - rewrite Hm', Hc'. rewrite Hc in Hfull. simpl in Hfull |- *.
    rewrite length_app. simpl. lia.
  - rewrite get_preserves_bindings. exact Hnew.
Qed.

(** X4.  [get] only reads: it changes no binding and not the number of
    entries, and a miss leaves the cache as it is. *)
Theorem lru_get_reads_only k c :
  (forall k', map_get k' (cache (snd (get k c))) = map_get k' (cache c)) /\
  (List.NoDup (map fst (cache c)) ->
   length (cache (snd (get k c))) = length (cache c)) /\
  fst (get k c) = map_get k (cache c) /\
  (map_get k (cache c) = None -> snd (get k c) = c).
Proof.
  split; [intros k'; apply get_preserves_bindings|].
  destruct (map_get k (cache c)) as [v|] eqn:Hg.
  - rewrite (get_hit _ _ _ Hg). cbn [fst snd cache].
    repeat split; try discriminate.
    intros Hnd. rewrite length_app. simpl.
    assert (Hin : In k (map fst (cache c))).
    { apply map_has_keys, map_has_get. congruence. }
    pose proof (length_delete_present k _ Hnd Hin). lia.
  - rewrite (get_miss _ _ Hg). repeat split; reflexivity.
Qed.

End LRU.

(** ** Numbers, arrays, sets and enums *)

Section Collections.
Context {E : Env} (C : Callbacks heap).

Lemma prepare_console o w :
  console (user (snd (prepare o w))) = console (user w).
Proof.
  unfold prepare, bind, new_Faker, faker_seed, ret. simpl.
  destruct (seed o); reflexivity.
Qed.

Lemma prepare_now o w : now (user (snd (prepare o w))) = now (user w).
Proof.
  unfold prepare, bind, new_Faker, faker_seed, ret. simpl.
  destruct (seed o); reflexivity.
Qed.

(** A run of a depth-guarded synthesizer below the depth limit. *)
Lemma depthControlled_below inner s o fresh :
  default 0 (currentDepth o) < default 10 (maxDepth o) ->
  depthControlled inner s (defaultOptions fresh o)
  = inner s (nested_options fresh o).
Proof.
  intros Hlt. unfold depthControlled.
  change (default 10 (maxDepth (defaultOptions fresh o)))
    with (default 10 (maxDepth o)).
  change (default 0 (currentDepth (defaultOptions fresh o)))
    with (default 0 (currentDepth o)).
  destruct (Z.leb_spec (default 10 (maxDepth o)) (default 0 (currentDepth o)));
    [lia | reflexivity].
Qed.

(** A run of the entry point that returns is a run of the [try] block that
    returns the same value, or one that ends in a fault when the value is
    [undefined]. *)
Lemma generateMock_Ret_inv n s o w v :
  fst (generateMock C (S n) s o w) = Ret v ->
  fst (dispatch C (workerMap C (generateMock C n) n) s
         (defaultOptions (next_faker (user w)) o) (snd (prepare o w)))
  = Ret v
  \/ (v = VUndefined /\
      exists e,
        fst (dispatch C (workerMap C (generateMock C n) n) s
               (defaultOptions (next_faker (user w)) o) (snd (prepare o w)))
        = Throw (Fault e)).
Proof.
  rewrite generateMock_run. unfold try_catch.
  destruct (dispatch _ _ _ _ _) as [[v'|[m|e]|] w']; simpl;
    try discriminate.
  - intros H. left. exact H.
  - intros H. injection H as <-. right. split; [reflexivity|]. eauto.
Qed.

Lemma generateMock_number n s o w :
  typeName s = "ZodNumber" \/ typeName s = "ZodBigInt" ->
  generateMock C (S n) s o w
  = try_catch (parseNumber s (defaultOptions (next_faker (user w)) o))
      contain (snd (prepare o w)).
Proof.
  intros Htag. rewrite generateMock_run.
  rewrite (dispatch_builtin C _ _ _ parseNumber); [reflexivity| |].
  - destruct Htag as [-> | ->]; reflexivity.
  - destruct Htag as [-> | ->]; reflexivity.
Qed.


(** *** Outcomes that are never a fault *)

Definition no_fault {A} (m : M A) : Prop :=
  forall w e, fst (m w) <> Throw (Fault e).

Lemma no_fault_ret {A} (a : A) : no_fault (ret a).
Proof. intros w e. simpl. discriminate. Qed.

Lemma no_fault_bind {A B} (m : M A) (k : A -> M B) :
  no_fault m -> (forall a, no_fault (k a)) -> no_fault (bind m k).
Proof.
  intros Hm Hk w e. unfold bind. specialize (Hm w).
  destruct (m w) as [[a|e'|] w1]; simpl in *.
  - apply Hk.
  - destruct e' as [msg|d]; [discriminate | exfalso; exact (Hm d eq_refl)].
  - discriminate.
Qed.

Lemma no_fault_generateMock fuel s o : no_fault (generateMock C fuel s o).
Proof.
  intros w e. destruct fuel as [|n]; [simpl; discriminate|].
  rewrite generateMock_run. apply try_contain_no_Fault.
Qed.

Lemma no_fault_repeatM {A} k (m : M A) : no_fault m -> no_fault (repeatM k m).
Proof.
  intros Hm. induction k as [|k IH]; simpl; [apply no_fault_ret|].
  apply no_fault_bind; [exact Hm|]. intros x.
  apply no_fault_bind; [exact IH|]. intros xs. apply no_fault_ret.
Qed.

Lemma no_fault_number_int r mn mx :
  default 0 mn <= default MAX_SAFE_INTEGER mx -> no_fault (number_int r mn mx).
Proof.
  intros Hle w e. destruct (number_int_total r mn mx w Hle) as (t & w' & ->).
  simpl. discriminate.
Qed.

(** A run that is never a fault and ends, behind the [catch] clause, in a
    value, ended in that value. *)
Lemma try_contain_Ret_inv (m : M val) w v :
  no_fault m -> fst (try_catch m contain w) = Ret v ->
  exists w', m w = (Ret v, w').
Proof.
  intros Hm. unfold try_catch. specialize (Hm w).
  destruct (m w) as [[v'|[msg|d]|] w']; simpl in *; try discriminate.
  - intros H. injection H as ->. eauto.
  - exfalso. exact (Hm d eq_refl).
Qed.

(** *** Arrays *)

Lemma array_element_plain element o :
  backup_lookup o "ZodUndefined" = None ->
  forall gen, array_element C gen element o = gen element o.
Proof.
  intros Hb gen. unfold array_element. rewrite Hb.
  destruct (String.eqb (typeName element) "ZodUndefined"); reflexivity.
Qed.

Lemma parseArray_inner_run gen element minLength maxLength exactLength o :
  parseArray_inner C gen (ZodArray element minLength maxLength exactLength) o
  = (let* targetLength :=
       number_int (fakerInstance o)
         (Some (array_min minLength maxLength exactLength))
         (Some (array_max maxLength exactLength)) in
     let* results :=
       repeatM (Z.to_nat targetLength) (array_element C gen element o) in
     ret (VArr results)).
Proof.
  unfold parseArray_inner, array_min, array_max.
  set (mn := match minLength, exactLength with
             | Some v, _ => v | None, Some v => v | None, None => 0 end).
  set (mx := match maxLength, exactLength with
             | Some v, _ => v | None, Some v => v | None, None => 10 end).
  replace (if mx <? mn then mx else mn) with (Z.min mn mx); [reflexivity|].
  destruct (Z.ltb_spec mx mn); lia.
Qed.

Lemma array_bounds_ordered minLength maxLength exactLength :
  array_min minLength maxLength exactLength
  <= array_max maxLength exactLength.
Proof. unfold array_min. lia. Qed.

(** X6.  Below the depth limit and without a [ZodUndefined] backup mock, an
    array node that the entry point returns a value for yields an array
    whose length lies between the declared minimum and maximum (by default
    0 and 10; a minimum above the maximum is lowered to it), each element
    being a value the entry point generates for the element schema one level
    deeper; and a value is returned whenever element generation returns. *)
Theorem array_length_bounds n element minLength maxLength exactLength o w :
  default 0 (currentDepth o) < default 10 (maxDepth o) ->
  backup_lookup o "ZodUndefined" = None ->
  let node := ZodArray element minLength maxLength exactLength in
  let o' := nested_options (next_faker (user w)) o in
  (forall v,
     fst (generateMock C (S n) node o w) = Ret v ->
     exists xs,
       v = VArr xs /\
       Z.max 0 (array_min minLength maxLength exactLength)
         <= Z.of_nat (length xs)
         <= Z.max 0 (array_max maxLength exactLength) /\
       Forall (generated (generateMock C n element o')) xs) /\
  ((forall w0, exists y w1, generateMock C n element o' w0 = (Ret y, w1)) ->
   exists xs, fst (generateMock C (S n) node o w) = Ret (VArr xs)).
Proof.
  intros Hdepth Hbackup node o'.
  assert (Hrun : generateMock C (S n) node o w
                 = try_catch
                     (parseArray_inner C (generateMock C n) node o')
                     contain (snd (prepare o w))).
  { rewrite generateMock_run.
    rewrite (dispatch_builtin C _ _ _ (parseArray C (generateMock C n)))
      by reflexivity.
    unfold parseArray. rewrite depthControlled_below by exact Hdepth.
    reflexivity. }
  assert (Hel : array_element C (generateMock C n) element o'
                = generateMock C n element o').
  { apply array_element_plain. exact Hbackup. }
  pose proof (array_bounds_ordered minLength maxLength exactLength) as Hord.
  rewrite Hrun. unfold node. rewrite parseArray_inner_run, Hel. split.
  - intros v Hv. apply try_contain_Ret_inv in Hv as (w' & Hv).
    + apply bind_Ret_inv in Hv as (t & w1 & Ht & Hv).
      apply bind_Ret_inv in Hv as (xs & w2 & Hxs & Hv).
      injection Hv as <- _.
      apply number_int_Ret_inv in Ht. cbn in Ht.
      apply repeatM_Ret_inv in Hxs as [Hlen Hall].
      exists xs. split; [reflexivity|]. split; [lia | exact Hall].
    + apply no_fault_bind; [apply no_fault_number_int; exact Hord|].
      intros t. apply no_fault_bind; [|intros xs; apply no_fault_ret].
      apply no_fault_repeatM, no_fault_generateMock.
  - intros Hgen. unfold try_catch.
    destruct (number_int_total (fakerInstance o')
                (Some (array_min minLength maxLength exactLength))
                (Some (array_max maxLength exactLength))
                (snd (prepare o w)) Hord) as (t & w1 & Ht).
    rewrite (bind_Ret _ _ _ _ _ Ht).
    destruct (repeatM_returns (generateMock C n element o') (fun _ => True)
                (fun w0 => match Hgen w0 with
                           | ex_intro _ y (ex_intro _ w1 Hy) =>
                               ex_intro _ y (ex_intro _ w1 (conj Hy I))
                           end)
                (Z.to_nat t) w1) as (xs & w2 & Hxs & _).
    rewrite (bind_Ret _ _ _ _ _ Hxs). exists xs. reflexivity.
Qed.

(** *** Sets *)

(** No two members are the same key. *)
Definition distinct_members (xs : list val) : Prop :=
  ForallOrdPairs (fun a b => sameValueZero a b = false) xs.

Lemma sameValueZero_sym a b : sameValueZero a b = sameValueZero b a.
Proof.
  destruct a, b; simpl; try reflexivity.
  - apply Z.eqb_sym.
  - destruct b0, b; reflexivity.
  - apply String.eqb_sym.
Qed.

Lemma set_add_length v es :
  (length es <= length (set_add v es) <= S (length es))%nat.
Proof.
  unfold set_add. destruct (existsb _ es); [lia|].
  rewrite length_app. simpl. lia.
Qed.

Lemma distinct_snoc v es :
  distinct_members es -> existsb (sameValueZero v) es = false ->
  distinct_members (es ++ [v]).
Proof.
  unfold distinct_members.
  induction 1 as [|a es Ha Hes IH]; simpl; intros Hnew.
  - constructor; [constructor | constructor].
  - apply orb_false_iff in Hnew as [Hva Hnew].
    constructor; [|apply IH; exact Hnew].
    apply Forall_app_2; [exact Ha|]. constructor; [|constructor].
    rewrite sameValueZero_sym. exact Hva.
Qed.

Lemma set_add_distinct v es :
  distinct_members es -> distinct_members (set_add v es).
Proof.
  intros Hes. unfold set_add.
  destruct (existsb (sameValueZero v) es) eqn:Hex; [exact Hes|].
  apply distinct_snoc; assumption.
Qed.

Lemma set_add_members (P : val -> Prop) v es :
  P v -> Forall P es -> Forall P (set_add v es).
Proof.
  intros Hv Hes. unfold set_add. destruct (existsb _ es); [exact Hes|].
  apply Forall_app_2; [exact Hes | constructor; [exact Hv | constructor]].
Qed.

(** When the [while] loop of [parseSet] ends, the set has the target size,
    its members are pairwise distinct and each was generated for the value
    schema. *)
Lemma set_loop_inv gen n target vt o results w xs w' :
  Z.of_nat (length results) <= Z.max 0 target ->
  distinct_members results ->
  Forall (generated (gen vt o)) results ->
  set_loop gen n target vt o results w = (Ret xs, w') ->
  length xs = Z.to_nat target /\ distinct_members xs /\
  Forall (generated (gen vt o)) xs.
Proof.
  revert results w.
  induction n as [|n IH]; intros results w Hlen Hdis Hall; simpl;
    destruct (Z.ltb_spec (Z.of_nat (length results)) target) as [Hlt|Hge].
  - discriminate.
  - intros H. injection H as <- _. split; [lia | split; assumption].
  - intros H. apply bind_Ret_inv in H as (v & w1 & Hv & H).
    apply IH in H; [exact H | | |].
    + pose proof (set_add_length v results). lia.
    + apply set_add_distinct, Hdis.
    + apply set_add_members; [exists w, w1; exact Hv | exact Hall].
  - intros H. injection H as <- _. split; [lia | split; assumption].
Qed.

Lemma no_fault_set_loop gen n target vt o results :
  no_fault (gen vt o) -> no_fault (set_loop gen n target vt o results).
Proof.
  intros Hgen. revert results. induction n as [|n IH]; intros results; simpl;
    destruct (Z.of_nat (length results) <? target);
    try apply no_fault_ret.
  - intros w e. simpl. discriminate.
  - apply no_fault_bind; [exact Hgen | intros v; apply IH].
Qed.

Lemma parseSet_inner_run gen n valueType minSize maxSize o :
  parseSet_inner gen n (ZodSet valueType minSize maxSize) o
  = (let* targetLength :=
       number_int (fakerInstance o)
         (Some (set_min minSize maxSize)) (Some (set_max maxSize)) in
     let* results := set_loop gen n targetLength valueType o [] in
     ret (VSet results)).
Proof.
  unfold parseSet_inner, set_min, set_max.
  replace (if default 5 maxSize <? default 1 minSize
           then default 5 maxSize else default 1 minSize)
    with (Z.min (default 1 minSize) (default 5 maxSize)); [reflexivity|].
  destruct (Z.ltb_spec (default 5 maxSize) (default 1 minSize)); lia.
Qed.

(** X7.  Below the depth limit, a set node that the entry point returns a
    value for yields a set whose size lies between the declared minimum and
    maximum (by default 1 and 5; a minimum above the maximum is lowered to
    it), whose members are pairwise distinct keys, each generated for the
    value schema one level deeper.  With a maximum of at most one member a
    value is returned whenever member generation returns. *)
Theorem set_size_bounds n valueType minSize maxSize o w :
  default 0 (currentDepth o) < default 10 (maxDepth o) ->
  let node := ZodSet valueType minSize maxSize in
  let o' := nested_options (next_faker (user w)) o in
  (forall v,
     fst (generateMock C (S n) node o w) = Ret v ->
     exists xs,
       v = VSet xs /\
       Z.max 0 (set_min minSize maxSize)
         <= Z.of_nat (length xs)
         <= Z.max 0 (set_max maxSize) /\
       distinct_members xs /\
       Forall (generated (generateMock C n valueType o')) xs) /\
  (set_max maxSize <= 1 ->
   (forall w0, exists y w1, generateMock C n valueType o' w0 = (Ret y, w1)) ->
   exists xs, fst (generateMock C (S n) node o w) = Ret (VSet xs)).
Proof.
  intros Hdepth node o'.
  assert (Hrun : generateMock C (S n) node o w
                 = try_catch
                     (parseSet_inner (generateMock C n) n node o')
                     contain (snd (prepare o w))).
  { rewrite generateMock_run.
    rewrite (dispatch_builtin C _ _ _ (parseSet (generateMock C n) n))
      by reflexivity.
    unfold parseSet. rewrite depthControlled_below by exact Hdepth.
    reflexivity. }
  assert (Hord : set_min minSize maxSize <= set_max maxSize)
    by (unfold set_min; lia).
  rewrite Hrun. unfold node. rewrite parseSet_inner_run. split.
  - intros v Hv. apply try_contain_Ret_inv in Hv as (w' & Hv).
    + apply bind_Ret_inv in Hv as (t & w1 & Ht & Hv).
      apply bind_Ret_inv in Hv as (xs & w2 & Hxs & Hv).
      injection Hv as <- _.
      apply number_int_Ret_inv in Ht. cbn in Ht.
      apply set_loop_inv in Hxs as (Hlen & Hdis & Hall);
        [| simpl; lia | constructor | constructor].
      exists xs. split; [reflexivity|].
      split; [lia | split; assumption].
    + apply no_fault_bind; [apply no_fault_number_int; exact Hord|].
      intros t. apply no_fault_bind; [|intros xs; apply no_fault_ret].
      apply no_fault_set_loop, no_fault_generateMock.
  - intros Hmax Hgen. unfold try_catch.
    destruct (number_int_total (fakerInstance o')
                (Some (set_min minSize maxSize)) (Some (set_max maxSize))
                (snd (prepare o w)) Hord) as (t & w1 & Ht).
    rewrite (bind_Ret _ _ _ _ _ Ht).
    apply number_int_Ret_inv in Ht. cbn in Ht.
    destruct n as [|n].
    { destruct (Hgen w1) as (y & w2 & Hy). discriminate. }
    cbn [set_loop length].
    destruct (Z.ltb_spec (Z.of_nat 0) t) as [Hpos|Hneg].
    + destruct (Hgen w1) as (y & w2 & Hy).
      assert (Hdone : set_loop (generateMock C (S n)) n t valueType o'
                        (set_add y []) w2 = (Ret (set_add y []), w2)).
      { assert (Hlt : (Z.of_nat (length (set_add y [])) <? t) = false)
          by (apply Z.ltb_ge; simpl; lia).
        destruct n; cbn [set_loop]; rewrite Hlt; reflexivity. }
      unfold bind. rewrite Hy, Hdone. eexists. reflexivity.
    + eexists. reflexivity.
Qed.

(** *** Enumerations *)

Lemma arrayElement_returns {A} r (l : list A) w :
  l <> [] ->
  exists x w', helpers_arrayElement r l w = (Ret x, w') /\ In x l.
Proof.
  intros Hl. destruct l as [|x [|y l]]; [congruence| |].
  - exists x, w. split; [reflexivity | left; reflexivity].
  - unfold helpers_arrayElement.
    destruct (number_int_total r None (Some (Z.of_nat (length (x :: y :: l)) - 1))
                w ltac:(simpl; lia)) as (i & w' & Hi).
    rewrite (bind_Ret _ _ _ _ _ Hi).
    exists (nth (Z.to_nat i) (x :: y :: l) x), w'.
    split; [reflexivity | apply nth_head_In].
Qed.

(** X8.  An enum node yields one of its values, and a native enum node one
    of the values of the enum; a node without values yields [undefined]. *)
Theorem enum_yields_member n o w :
  (forall values,
     values <> [] ->
     exists x,
       In x values /\
       fst (generateMock C (S n) (ZodEnum values) o w) = Ret (VStr x)) /\
  (forall values,
     values <> [] ->
     exists l,
       In l values /\
       fst (generateMock C (S n) (ZodNativeEnum values) o w)
       = Ret (val_of_literal l)) /\
  fst (generateMock C (S n) (ZodEnum []) o w) = Ret VUndefined /\
  fst (generateMock C (S n) (ZodNativeEnum []) o w) = Ret VUndefined.
Proof.
  repeat split.
  - intros values Hne. rewrite generateMock_run.
    rewrite (dispatch_builtin C _ _ _ parseEnum) by reflexivity.
    unfold try_catch, parseEnum.
    destruct (arrayElement_returns
                (fakerInstance (defaultOptions (next_faker (user w)) o))
                values (snd (prepare o w)) Hne) as (x & w' & Hx & Hin).
    rewrite (bind_Ret _ _ _ _ _ Hx). exists x. split; [exact Hin | reflexivity].
  - intros values Hne. rewrite generateMock_run.
    rewrite (dispatch_builtin C _ _ _ parseNativeEnum) by reflexivity.
    unfold try_catch, parseNativeEnum.
    destruct (arrayElement_returns
                (fakerInstance (defaultOptions (next_faker (user w)) o))
                values (snd (prepare o w)) Hne) as (x & w' & Hx & Hin).
    rewrite (bind_Ret _ _ _ _ _ Hx). exists x. split; [exact Hin | reflexivity].
  - rewrite generateMock_run. reflexivity.
  - rewrite generateMock_run. reflexivity.
Qed.

(** *** Unions *)

Lemma no_fault_arrayElement {A} r (l : list A) :
  l <> [] -> no_fault (helpers_arrayElement r l).
Proof.
  intros Hl w e.
  destruct (arrayElement_returns r l w Hl) as (x & w' & -> & _).
  simpl. discriminate.
Qed.

(** X9.  A union (or discriminated union) node that the entry point
    returns a value for yields a value that the entry point generates, with
    the same options, for one of the alternatives; a union without
    alternatives yields [undefined]. *)
Theorem union_picks_alternative n discriminated alternatives o w v :
  fst (generateMock C (S n) (union_node discriminated alternatives) o w)
  = Ret v ->
  (alternatives = [] /\ v = VUndefined) \/
  exists alt,
    In alt alternatives /\
    generated
      (generateMock C n alt (defaultOptions (next_faker (user w)) o)) v.
Proof.
  set (d := defaultOptions (next_faker (user w)) o).
  assert (Hrun : generateMock C (S n) (union_node discriminated alternatives)
                   o w
                 = try_catch
                     (let* mocked :=
                        helpers_arrayElement (fakerInstance d) alternatives in
                      generateMock C n mocked d)
                     contain (snd (prepare o w))).
  { rewrite generateMock_run. fold d. destruct discriminated; simpl union_node.
    - rewrite (dispatch_builtin C _ _ _
                 (parseDiscriminatedUnion (generateMock C n)))
        by reflexivity.
      reflexivity.
    - rewrite (dispatch_builtin C _ _ _ (parseUnion (generateMock C n)))
        by reflexivity.
      reflexivity. }
  rewrite Hrun. destruct alternatives as [|a alts].
  - intros H. left. split; [reflexivity|].
    unfold try_catch in H. simpl in H. congruence.
  - intros H. right.
    apply try_contain_Ret_inv in H as (w' & H).
    + apply bind_Ret_inv in H as (alt & w1 & Halt & H).
      destruct (arrayElement_returns (fakerInstance d) (a :: alts)
                  (snd (prepare o w)) ltac:(discriminate))
        as (alt' & w1' & Halt' & Hin).
      assert (alt' = alt) as -> by congruence.
      exists alt. split; [exact Hin | exists w1, w'; exact H].
    + apply no_fault_bind; [apply no_fault_arrayElement; discriminate|].
      intros alt. apply no_fault_generateMock.
Qed.

(** *** Objects *)

Lemma obj_set_absent k v props :
  ~ In k (map fst props) -> obj_set k v props = props ++ [(k, v)].
Proof.
  induction props as [|[k0 v0] ps IH]; simpl; [reflexivity|].
  intros Hn. destruct (String.eqb_spec k0 k) as [->|Hne]; [tauto|].
  rewrite IH; tauto.
Qed.

(** The [reduce] of [parseObject] over a shape with distinct keys appends
    one property per field, in the order of the shape. *)
Lemma object_fold_inv gen o shape :
  List.NoDup (map fst shape) ->
  forall carry w props w',
    (forall k, In k (map fst shape) -> ~ In k (map fst carry)) ->
    foldM
      (fun (carry : list (string * val)) (field : string * schema) =>
         let* v := gen (snd field) (set_keyName (fst field) o) in
         ret (obj_set (fst field) v carry))
      shape carry w = (Ret props, w') ->
    exists new,
      props = carry ++ new /\
      Forall2
        (fun (field : string * schema) (prop : string * val) =>
           fst prop = fst field /\
           generated (gen (snd field) (set_keyName (fst field) o)) (snd prop))
        shape new.
Proof.
  induction shape as [|[k s] shape IH]; simpl; intros Hnd carry w props w' Hfresh.
  - intros H. injection H as <- _. exists []. rewrite app_nil_r.
    split; [reflexivity | constructor].
  - intros H. inversion Hnd as [|? ? Hnotin Hnd']; subst.
    apply bind_Ret_inv in H as (carry' & w1 & Hstep & H).
    apply bind_Ret_inv in Hstep as (v & w2 & Hv & Hstep).
    injection Hstep as <- <-.
    rewrite obj_set_absent in H by (apply Hfresh; left; reflexivity).
    apply IH in H as (new & -> & Hall); [|exact Hnd'|].
    + exists ((k, v) :: new). rewrite <- app_assoc. split; [reflexivity|].
      constructor; [|exact Hall].
      split; [reflexivity | exists w, w2; exact Hv].
    + intros k' Hin. rewrite map_app, in_app_iff. simpl.
      intros [Hc|[<-|[]]]; [|exact (Hnotin Hin)].
      apply (Hfresh k'); [right; exact Hin | exact Hc].
Qed.

Lemma no_fault_foldM {A B} (f : B -> A -> M B) l :
  (forall b x, no_fault (f b x)) -> forall b, no_fault (foldM f l b).
Proof.
  intros Hf. induction l as [|x l IH]; intros b; simpl;
    [apply no_fault_ret|].
  apply no_fault_bind; [apply Hf | intros b'; apply IH].
Qed.

Lemma foldM_returns {A B} (f : B -> A -> M B) l :
  (forall b x w, In x l -> exists b' w', f b x w = (Ret b', w')) ->
  forall b w, exists b' w', foldM f l b w = (Ret b', w').
Proof.
  induction l as [|x l IH]; intros Hf b w; simpl.
  - unfold ret. eauto.
  - destruct (Hf b x w (or_introl eq_refl)) as (b1 & w1 & H1).
    rewrite (bind_Ret _ _ _ _ _ H1).
    apply IH. intros b0 x0 w0 Hin. apply Hf. right. exact Hin.
Qed.

(** X10.  Below the depth limit, an object node (whose shape has distinct
    keys) that the entry point returns a value for yields an object with
    exactly the keys of the shape, in their order; the value of each key is
    generated by the entry point for the schema of that field, one level
    deeper and with the key as field name.  A value is returned whenever the
    generation of every field returns. *)
Theorem object_follows_shape n shape o w :
  default 0 (currentDepth o) < default 10 (maxDepth o) ->
  List.NoDup (map fst shape) ->
  let o' := nested_options (next_faker (user w)) o in
  (forall v,
     fst (generateMock C (S n) (ZodObject shape) o w) = Ret v ->
     exists props,
       v = VObj props /\
       map fst props = map fst shape /\
       Forall2
         (fun (field : string * schema) (prop : string * val) =>
            generated
              (generateMock C n (snd field) (set_keyName (fst field) o'))
              (snd prop))
         shape props) /\
  ((forall field w0,
      In field shape ->
      exists y w1,
        generateMock C n (snd field) (set_keyName (fst field) o') w0
        = (Ret y, w1)) ->
   exists props,
     fst (generateMock C (S n) (ZodObject shape) o w) = Ret (VObj props)).
Proof.
  intros Hdepth Hnd o'.
  assert (Hrun : generateMock C (S n) (ZodObject shape) o w
                 = try_catch
                     (parseObject_inner (generateMock C n)
                        (ZodObject shape) o')
                     contain (snd (prepare o w))).
  { rewrite generateMock_run.
    rewrite (dispatch_builtin C _ _ _ (parseObject (generateMock C n)))
      by reflexivity.
    unfold parseObject. rewrite depthControlled_below by exact Hdepth.
    reflexivity. }
  rewrite Hrun. unfold parseObject_inner. split.
  - intros v Hv. apply try_contain_Ret_inv in Hv as (w' & Hv).
    + apply bind_Ret_inv in Hv as (props & w1 & Hfold & Hv).
      injection Hv as <- _.
      apply object_fold_inv in Hfold as (new & -> & Hall);
        [|exact Hnd | intros k _ []].
      exists new. split; [reflexivity|]. simpl. split.
      * clear -Hall. induction Hall as [|f p fs ps [Hk _] _ IH]; simpl;
          [reflexivity | congruence].
      * clear -Hall. induction Hall as [|f p fs ps [_ Hg] _ IH];
          constructor; assumption.
    + apply no_fault_bind; [|intros props; apply no_fault_ret].
      apply no_fault_foldM. intros carry field.
      apply no_fault_bind; [apply no_fault_generateMock|].
      intros y. apply no_fault_ret.
  - intros Hgen. unfold try_catch.
    destruct (foldM_returns
                (fun (carry : list (string * val)) (field : string * schema) =>
                   let* v := generateMock C n (snd field)
                               (set_keyName (fst field) o') in
                   ret (obj_set (fst field) v carry))
                shape
                (fun carry field w0 Hin =>
                   match Hgen field w0 Hin with
                   | ex_intro _ y (ex_intro _ w1 Hy) =>
                       ex_intro _ (obj_set (fst field) y carry)
                         (ex_intro _ w1
                            (eq_trans (bind_Ret _ _ _ _ _ Hy) eq_refl))
                   end)
                [] (snd (prepare o w))) as (props & w1 & Hfold).
    rewrite (bind_Ret _ _ _ _ _ Hfold). exists props. reflexivity.
Qed.

(** *** Intersections *)

Lemma assoc_None_keys {A} k (l : list (string * A)) :
  ~ In k (map fst l) -> assoc k l = None.
Proof.
  induction l as [|[k0 a] l IH]; simpl; [reflexivity|].
  intros Hn. destruct (String.eqb_spec k0 k); [tauto | apply IH; tauto].
Qed.

(** [{ ...target, ...source }]: the properties of the source win. *)
Lemma assoc_assign sp : List.NoDup (map fst sp) ->
  forall tp k,
    assoc k (fold_left (fun acc kv => obj_set (fst kv) (snd kv) acc) sp tp)
    = match assoc k sp with
      | Some x => Some x
      | None => assoc k tp
      end.
Proof.
  induction sp as [|[k0 v0] sp IH]; simpl; intros Hnd tp k; [reflexivity|].
  inversion Hnd as [|? ? Hnotin Hnd']; subst.
  rewrite (IH Hnd'). destruct (String.eqb_spec k0 k) as [->|Hne].
  - rewrite (assoc_None_keys k sp Hnotin). apply assoc_obj_set_same.
  - destruct (assoc k sp); [reflexivity|].
    apply assoc_obj_set_other. congruence.
Qed.

(** X11.  An intersection node that the entry point returns [v] for: [v]
    comes from a value [left] generated for the left schema and a value
    [right] generated for the right schema.  When [left] is [undefined] or
    [null] the merge throws and [v] is [undefined]; when both are objects,
    [v] is an object in which every property of [right] overrides the
    property of [left] with the same key. *)
Theorem intersection_merges n l r o w v :
  fst (generateMock C (S n) (ZodIntersection l r) o w) = Ret v ->
  let d := defaultOptions (next_faker (user w)) o in
  exists left right,
    generated (generateMock C n l d) left /\
    generated (generateMock C n r d) right /\
    (left = VUndefined \/ left = VNull -> v = VUndefined) /\
    (forall lp rp,
       left = VObj lp -> right = VObj rp -> List.NoDup (map fst rp) ->
       exists props,
         v = VObj props /\
         forall k, assoc k props = match assoc k rp with
                                   | Some x => Some x
                                   | None => assoc k lp
                                   end).
Proof.
  intros H d. revert H. rewrite generateMock_run. fold d.
  rewrite (dispatch_builtin C _ _ _ (parseZodIntersection (generateMock C n)))
    by reflexivity.
  unfold try_catch, parseZodIntersection, bind at 1.
  destruct (generateMock C n l d (snd (prepare o w))) as [[left|e|] w1] eqn:Hl.
  2:{ pose proof (no_fault_generateMock n l d (snd (prepare o w))) as Hnf.
      rewrite Hl in Hnf. destruct e as [m|e]; [discriminate|].
      exfalso. exact (Hnf e eq_refl). }
  2:{ discriminate. }
  unfold bind at 1.
  destruct (generateMock C n r d w1) as [[right|e|] w2] eqn:Hr.
  2:{ pose proof (no_fault_generateMock n r d w1) as Hnf.
      rewrite Hr in Hnf. destruct e as [m|e]; [discriminate|].
      exfalso. exact (Hnf e eq_refl). }
  2:{ discriminate. }
  unfold lift_outcome. intros H.
  exists left, right.
  split; [exists (snd (prepare o w)), w1; exact Hl|].
  split; [exists w1, w2; exact Hr|]. split.
  - intros [-> | ->]; simpl in H; congruence.
  - intros lp rp -> -> Hnd. simpl in H. injection H as <-.
    eexists. split; [reflexivity|]. intros k. apply assoc_assign, Hnd.
Qed.

End Collections.

(** ** Field-name matching *)

Section Matching.
Context {E : Env} (C : Callbacks heap).

(** A computation that never throws. *)
Definition no_throw {A} (m : M A) : Prop :=
  forall w e, fst (m w) <> Throw e.

Lemma no_throw_ret {A} (a : A) : no_throw (ret a).
Proof. intros w e. simpl. discriminate. Qed.

Lemma no_throw_bind {A B} (m : M A) (k : A -> M B) :
  no_throw m -> (forall a, no_throw (k a)) -> no_throw (bind m k).
Proof.
  intros Hm Hk w e. unfold bind. specialize (Hm w).
  destruct (m w) as [[a|e'|] w1]; simpl in *.
  - apply Hk.
  - exfalso. exact (Hm e' eq_refl).
  - discriminate.
Qed.

Lemma no_throw_findM {A} (p : A -> M bool) l :
  (forall x, no_throw (p x)) -> no_throw (findM p l).
Proof.
  intros Hp. induction l as [|x l IH]; simpl; [apply no_throw_ret|].
  apply no_throw_bind; [apply Hp|].
  intros [|]; [apply no_throw_ret | exact IH].
Qed.

Lemma no_throw_probe r keyName members fnKey :
  no_throw (probe r keyName members fnKey).
Proof.
  unfold probe.
  destruct (_ || _)%bool; [|apply no_throw_ret].
  destruct (assoc keyName members) as [[|fn]|]; try apply no_throw_ret.
  intros w e. unfold try_catch.
  destruct ((let* mock := call_member r fn in ret (is_primitive_mock mock)) w)
    as [[b|e'|] w']; simpl; discriminate.
Qed.

Lemma findM_Some_inv {A} (p : A -> M bool) l w x w' :
  findM p l w = (Ret (Some x), w') ->
  In x l /\ exists w1 w2, p x w1 = (Ret true, w2).
Proof.
  revert w. induction l as [|y l IH]; intros w; simpl; [discriminate|].
  intros H. apply bind_Ret_inv in H as (b & w1 & Hb & H).
  destruct b.
  - injection H as <- _. split; [left; reflexivity | eauto].
  - apply IH in H as [Hin Hp]. split; [right; exact Hin | exact Hp].
Qed.

Lemma probe_true_inv r keyName members fnKey w w' :
  probe r keyName members fnKey w = (Ret true, w') ->
  exists fn, assoc keyName members = Some (Fn fn).
Proof.
  unfold probe. destruct (_ || _)%bool; [|discriminate].
  destruct (assoc keyName members) as [[|fn]|]; try discriminate.
  eauto.
Qed.

(** X12.  With the default mapper, [findMatchingFaker] never throws.  The
    generator it finds is the entry of the mapper's table for the
    lower-cased field name; or, for a field name whose lower-case form is
    [constructor] or [__proto__], the member of that name which the table
    inherits from [Object.prototype] (the function [Object], and the object
    [Object.prototype], which is no function), both found without calling
    Faker; or else a member of a Faker module whose own name is exactly the
    field name and which is a function: a field name that matches a member
    only up to case, dashes or underscores finds nothing. *)
Theorem findMatchingFaker_exact_member keyName fakerOption w :
  (forall e,
     fst (findMatchingFaker C keyName fakerOption None w) <> Throw e) /\
  (forall g w',
     findMatchingFaker C keyName fakerOption None w = (Ret (Some g), w') ->
     (keyName <> "" /\ w' = w /\
      assoc (Js.toLowerCase keyName) keyToFnMap = Some g) \/
     (keyName <> "" /\ w' = w /\
      assoc (Js.toLowerCase keyName) keyToFnMap = None /\
      ((Js.toLowerCase keyName = "constructor" /\ g = ObjectConstructor) \/
       (Js.toLowerCase keyName = "__proto__" /\ g = ObjectPrototype))) \/
     (defaultMapper keyName = None /\
      exists section members fn,
        In (section, members) catalog /\
        g = MemberGenerator section keyName /\
        assoc keyName members = Some (Fn fn))) /\
  (forall g,
     defaultMapper keyName = Some g ->
     findMatchingFaker C keyName fakerOption None w = (Ret (Some g), w)).
Proof.
  unfold findMatchingFaker.
  change ((let* mapped := ret (defaultMapper keyName) in
           match mapped with
           | Some g => ret (Some g)
           | None => ?k
           end) w)
    with (match defaultMapper keyName with
          | Some g => ret (Some g)
          | None => k
          end w).
  destruct (defaultMapper keyName) as [g0|] eqn:Hmap.
  - split; [intros e; simpl; discriminate|]. split.
    + intros g w' H. injection H as <- <-.
      unfold defaultMapper, truthy_string in Hmap.
      destruct (String.eqb_spec keyName "") as [->|Hne];
        [discriminate|]. cbn [negb] in Hmap.
      destruct (assoc (Js.toLowerCase keyName) keyToFnMap) as [g1|] eqn:Htab.
      * injection Hmap as <-. left. repeat split; assumption.
      * right. left. split; [exact Hne|]. split; [reflexivity|].
        split; [reflexivity|]. unfold inherited in Hmap.
        destruct (String.eqb_spec (Js.toLowerCase keyName) "constructor")
          as [Hc|_].
        { injection Hmap as <-. left. split; [exact Hc | reflexivity]. }
        destruct (String.eqb_spec (Js.toLowerCase keyName) "__proto__")
          as [Hp|_]; [|discriminate].
        injection Hmap as <-. right. split; [exact Hp | reflexivity].
    + intros g Hg. injection Hg as <-. reflexivity.
  - set (inner := fun sec : string * list (string * member rng) =>
                    let* fnKey :=
                      findM (probe (default 0%nat fakerOption) keyName (snd sec))
                        (map fst (snd sec)) in
                    ret (match fnKey with
                         | Some k => truthy_string k
                         | None => false
                         end)).
    assert (Hinner : forall sec, no_throw (inner sec)).
    { intros sec. apply no_throw_bind; [|intros fk; apply no_throw_ret].
      apply no_throw_findM. intros fk. apply no_throw_probe. }
    split; [|split].
    + intros e. revert e. apply no_throw_bind.
      * apply no_throw_findM, Hinner.
      * intros [sec|]; [|apply no_throw_ret].
        destruct (truthy_string (fst sec)); apply no_throw_ret.
    + intros g w' H. right. right. split; [reflexivity|].
      apply bind_Ret_inv in H as (found & w1 & Hfind & H).
      destruct found as [[section members]|]; [|discriminate].
      simpl in H. destruct (truthy_string section); [|discriminate].
      injection H as <- _.
      apply findM_Some_inv in Hfind as (Hin & wa & wb & Hp).
      unfold inner in Hp. simpl in Hp.
      apply bind_Ret_inv in Hp as (fk & wc & Hfk & Hp).
      destruct fk as [fk|]; [|discriminate].
      apply findM_Some_inv in Hfk as (_ & wd & we & Hprobe).
      apply probe_true_inv in Hprobe as (fn & Hfn).
      exists section, members, fn. repeat split; assumption.
    + discriminate.
Qed.

End Matching.

(** ** Dates with one bound or none *)

Section OpenDates.
Context {E : Env} (C : Callbacks heap).

Lemma draw_console {A} r (f : rng -> A * rng) w :
  console (user (snd (draw r f w))) = console (user w) /\
  now (user (snd (draw r f w))) = now (user w).
Proof. unfold draw. destruct (f _). split; reflexivity. Qed.

(** The offset that [date.soon] and [date.recent] draw. *)
Lemma date_offset r days w :
  1000 <= days * day_ms ->
  exists off w',
    number_int r (Some 1000) (Some (days * day_ms)) w = (Ret off, w') /\
    1000 <= off <= days * day_ms /\
    console (user w') = console (user w).
Proof.
  intros Hdays.
  destruct (number_int_total r (Some 1000) (Some (days * day_ms)) w Hdays)
    as (off & w' & Hoff).
  exists off, w'. split; [exact Hoff|].
  split; [exact (number_int_Ret_inv _ _ _ _ _ _ Hoff)|].
  unfold number_int in Hoff.
  destruct (_ <? _); [discriminate|].
  pose proof (draw_console r (rand_int (default 0 (Some 1000))
                                (default MAX_SAFE_INTEGER (Some (days * day_ms))))
                w) as [Hc _].
  rewrite Hoff in Hc. exact Hc.
Qed.

Lemma toDate_run refDate w :
  toDate refDate w = (Ret (default (now (user w)) refDate), w).
Proof. destruct refDate; reflexivity. Qed.

Lemma date_soon_run r days refDate w :
  1000 <= days * day_ms ->
  exists t w',
    date_soon r days refDate w = (Ret (time_clip t), w') /\
    default (now (user w)) refDate + 1000
      <= t <= default (now (user w)) refDate + days * day_ms /\
    console (user w') = console (user w).
Proof.
  intros Hdays. set (ref := default (now (user w)) refDate).
  destruct (date_offset r days w Hdays) as (off & w' & Hoff & Hr & Hc).
  exists (ref + off), w'. unfold date_soon.
  rewrite (bind_Ret _ _ _ _ _ (toDate_run refDate w)).
  rewrite (bind_Ret _ _ _ _ _ Hoff).
  split; [reflexivity|]. split; [lia | exact Hc].
Qed.

Lemma date_recent_run r days refDate w :
  1000 <= days * day_ms ->
  exists t w',
    date_recent r days refDate w = (Ret (time_clip t), w') /\
    default (now (user w)) refDate - days * day_ms
      <= t <= default (now (user w)) refDate - 1000 /\
    console (user w') = console (user w).
Proof.
  intros Hdays. set (ref := default (now (user w)) refDate).
  destruct (date_offset r days w Hdays) as (off & w' & Hoff & Hr & Hc).
  exists (ref - off), w'. unfold date_recent.
  rewrite (bind_Ret _ _ _ _ _ (toDate_run refDate w)).
  rewrite (bind_Ret _ _ _ _ _ Hoff).
  split; [reflexivity|]. split; [lia | exact Hc].
Qed.

Lemma day_ms_range : 1000 <= 1 * day_ms /\ 1000 <= 30 * day_ms.
Proof. unfold day_ms. lia. Qed.

(** X13.  A date node with only a minimum [A] yields the Date whose time
    value lies between one second and one day after [A]; with only a
    maximum [A], between one day and one second before [A]; without bounds,
    between thirty days and one second before the current time.  The
    current time stands in for a bound that is an Invalid Date, and a time
    value beyond the range of a Date makes the result the Invalid Date
    ([date_object (time_clip t)]).  A bound that is neither a Date nor a
    number other than NaN is reported on the console and ignored. *)
Theorem date_open_ranges n as_date A o w :
  let ref := default (now (user w)) (time_clip A) in
  (exists t,
     fst (generateMock C (S n)
            (ZodDate [Check "min" (date_bound as_date A) None]) o w)
     = Ret (date_object (time_clip t)) /\
     ref + 1000 <= t <= ref + day_ms) /\
  (exists t,
     fst (generateMock C (S n)
            (ZodDate [Check "max" (date_bound as_date A) None]) o w)
     = Ret (date_object (time_clip t)) /\
     ref - day_ms <= t <= ref - 1000) /\
  (exists t,
     fst (generateMock C (S n) (ZodDate []) o w)
     = Ret (date_object (time_clip t)) /\
     now (user w) - 30 * day_ms <= t <= now (user w) - 1000) /\
  (forall (upper nan : bool),
     let kind_ := if upper then "max" else "min" in
     let run := generateMock C (S n)
                  (ZodDate [Check kind_ (invalid_date_bound nan) None]) o w in
     exists t,
       fst run = Ret (date_object (time_clip t)) /\
       now (user w) - 30 * day_ms <= t <= now (user w) - 1000 /\
       console (user (snd run))
       = console (user w) ++ [LogInvalidDate kind_]).
Proof.
  intros ref.
  destruct day_ms_range as [Hday Hmonth].
  set (d := defaultOptions (next_faker (user w)) o).
  repeat split.
  - rewrite generateMock_ZodDate. fold d. unfold try_catch, parseDate.
    assert (Hb : date_bounds [Check "min" (date_bound as_date A) None]
                   (snd (prepare o w))
                 = (Ret (Some (time_clip A), None), snd (prepare o w)))
      by (destruct as_date; reflexivity).
    rewrite (bind_Ret _ _ _ _ _ Hb). cbv beta iota. unfold try_catch.
    destruct (date_soon_run (fakerInstance d) 1 (time_clip A)
                (snd (prepare o w)) Hday) as (t & w' & Ht & Hr & _).
    rewrite (bind_Ret _ _ _ _ _ Ht). exists t. split; [reflexivity|].
    rewrite prepare_now in Hr. fold ref in Hr. lia.
  - rewrite generateMock_ZodDate. fold d. unfold try_catch, parseDate.
    assert (Hb : date_bounds [Check "max" (date_bound as_date A) None]
                   (snd (prepare o w))
                 = (Ret (None, Some (time_clip A)), snd (prepare o w)))
      by (destruct as_date; reflexivity).
    rewrite (bind_Ret _ _ _ _ _ Hb). cbv beta iota. unfold try_catch.
    destruct (date_recent_run (fakerInstance d) 1 (time_clip A)
                (snd (prepare o w)) Hday) as (t & w' & Ht & Hr & _).
    rewrite (bind_Ret _ _ _ _ _ Ht). exists t. split; [reflexivity|].
    rewrite prepare_now in Hr. fold ref in Hr. lia.
  - rewrite generateMock_ZodDate. fold d. unfold try_catch, parseDate.
    assert (Hb : date_bounds [] (snd (prepare o w))
                 = (Ret (None, None), snd (prepare o w))) by reflexivity.
    rewrite (bind_Ret _ _ _ _ _ Hb). cbv beta iota. unfold try_catch.
    destruct (date_recent_run (fakerInstance d) 30 None
                (snd (prepare o w)) Hmonth) as (t & w' & Ht & Hr & _).
    rewrite (bind_Ret _ _ _ _ _ Ht). exists t. split; [reflexivity|].
    simpl in Hr. rewrite prepare_now in Hr. exact Hr.
  - intros upper nan kind_ run. unfold run.
    rewrite generateMock_ZodDate. fold d. unfold try_catch, parseDate.
    set (w1 := snd (console_log (LogInvalidDate kind_) (snd (prepare o w)))).
    assert (Hb : date_bounds [Check kind_ (invalid_date_bound nan) None]
                   (snd (prepare o w))
                 = (Ret (None, None), w1))
      by (destruct upper, nan; reflexivity).
    rewrite (bind_Ret _ _ _ _ _ Hb). cbv beta iota. unfold try_catch.
    destruct (date_recent_run (fakerInstance d) 30 None w1 Hmonth)
      as (t & w' & Ht & Hr & Hc).
    rewrite (bind_Ret _ _ _ _ _ Ht). exists t. split; [reflexivity|].
    change (default (now (user w1)) None) with (now (user w1)) in Hr. split.
    + assert (Hnow : now (user w1) = now (user w)).
      { unfold w1. simpl. apply prepare_now. }
      rewrite Hnow in Hr. exact Hr.
    + simpl. rewrite Hc. unfold w1. simpl. rewrite prepare_console.
      reflexivity.
Qed.

End OpenDates.

(** ** Loops that cannot reach their target *)

Section Starvation.
Context {E : Env} (C : Callbacks heap).

Lemma literal_run n lit o w :
  generateMock C (S n) (ZodLiteral lit) o w
  = (Ret (val_of_literal lit), snd (prepare o w)).
Proof.
  rewrite generateMock_run.
  rewrite (dispatch_builtin C _ _ _ parseLiteral) by reflexivity.
  reflexivity.
Qed.

Lemma sameValueZero_literal lit :
  sameValueZero (val_of_literal lit) (val_of_literal lit) = true.
Proof.
  destruct lit as [s|z|b| |]; simpl; try reflexivity.
  - apply String.eqb_refl.
  - apply Z.eqb_refl.
  - destruct b; reflexivity.
Qed.

(** The set of a literal never grows beyond one member. *)
Lemma set_loop_literal n k target lit o results w :
  2 <= target ->
  results = [] \/ results = [val_of_literal lit] ->
  fst (set_loop (generateMock C n) k target (ZodLiteral lit) o results w)
  = Diverge.
Proof.
  intros Htarget. revert results w.
  induction k as [|k IH]; intros results w Hres; simpl;
    (destruct (Z.ltb_spec (Z.of_nat (length results)) target) as [_|Hge];
     [|destruct Hres as [-> | ->]; simpl in Hge; lia]).
  - reflexivity.
  - destruct n as [|n]; [reflexivity|].
    unfold bind. rewrite literal_run. apply IH. right.
    destruct Hres as [-> | ->]; [reflexivity|].
    unfold set_add. simpl. rewrite sameValueZero_literal. reflexivity.
Qed.

(** The map keyed by a literal never grows beyond one entry. *)
Lemma map_loop_literal n k target lit vt o results w v :
  2 <= target ->
  results = [] \/ (exists x, results = [(val_of_literal lit, x)]) ->
  fst (map_loop (generateMock C n) k target (ZodLiteral lit) vt o results w)
  <> Ret v.
Proof.
  intros Htarget. revert results w.
  induction k as [|k IH]; intros results w Hres; simpl;
    (destruct (Z.ltb_spec (Z.of_nat (length results)) target) as [_|Hge];
     [|destruct Hres as [-> | [x ->]]; simpl in Hge; lia]).
  - simpl. discriminate.
  - destruct n as [|n]; [simpl; discriminate|].
    unfold bind at 1. rewrite literal_run. unfold bind.
    destruct (generateMock C (S n) vt o (snd (prepare o w)))
      as [[x|e|] w1]; simpl; try discriminate.
    apply IH. right.
    destruct Hres as [-> | [x0 ->]]; [exists x; reflexivity|].
    exists x. simpl. rewrite sameValueZero_literal. reflexivity.
Qed.

Lemma no_fault_map_loop n k target kt vt o results :
  no_fault (map_loop (generateMock C n) k target kt vt o results).
Proof.
  revert results. induction k as [|k IH]; intros results; simpl;
    destruct (Z.of_nat (length results) <? target);
    try apply no_fault_ret.
  - intros w e. simpl. discriminate.
  - apply no_fault_bind; [apply no_fault_generateMock|]. intros x.
    apply no_fault_bind; [apply no_fault_generateMock|]. intros y. apply IH.
Qed.

(** X14.  Below the depth limit, the entry point never returns for a set
    of a literal that must have two members or more: whatever the fuel, the
    run is still in the [while] loop of [parseSet] when the fuel runs out.
    Likewise it never returns a value for a map keyed by a literal when
    [mapEntriesLength] is two or more. *)
Theorem literal_collections_starve fuel lit o w :
  default 0 (currentDepth o) < default 10 (maxDepth o) ->
  (forall minSize maxSize,
     2 <= set_min minSize maxSize ->
     fst (generateMock C fuel (ZodSet (ZodLiteral lit) minSize maxSize) o w)
     = Diverge) /\
  (forall valueType v,
     2 <= default 1 (mapEntriesLength o) ->
     fst (generateMock C fuel (ZodMap (ZodLiteral lit) valueType) o w)
     <> Ret v).
Proof.
  intros Hdepth. split.
  - intros minSize maxSize Hmin.
    destruct fuel as [|n]; [reflexivity|].
    rewrite generateMock_run.
    rewrite (dispatch_builtin C _ _ _ (parseSet (generateMock C n) n))
      by reflexivity.
    unfold parseSet. rewrite depthControlled_below by exact Hdepth.
    rewrite parseSet_inner_run. unfold try_catch.
    set (o' := nested_options (next_faker (user w)) o).
    destruct (number_int_total (fakerInstance o')
                (Some (set_min minSize maxSize)) (Some (set_max maxSize))
                (snd (prepare o w)) ltac:(unfold set_min; simpl; lia))
      as (t & w1 & Ht).
    rewrite (bind_Ret _ _ _ _ _ Ht).
    apply number_int_Ret_inv in Ht. cbn in Ht.
    pose proof (set_loop_literal n n t lit o' [] w1 ltac:(lia)
                  (or_introl eq_refl)) as Hloop.
    unfold bind.
    destruct (set_loop (generateMock C n) n t (ZodLiteral lit) o' [] w1)
      as [[xs|e|] w2]; simpl in Hloop; try discriminate.
    reflexivity.
  - intros valueType v Htarget.
    destruct fuel as [|n]; [simpl; discriminate|].
    rewrite generateMock_run.
    rewrite (dispatch_builtin C _ _ _ (parseMap (generateMock C n) n))
      by reflexivity.
    unfold parseMap. rewrite depthControlled_below by exact Hdepth.
    unfold parseMap_inner, try_catch.
    set (o' := nested_options (next_faker (user w)) o).
    change (mapEntriesLength o') with (mapEntriesLength o).
    assert (Hloop : forall xs,
              fst (map_loop (generateMock C n) n
                     (default 1 (mapEntriesLength o)) (ZodLiteral lit)
                     valueType o' [] (snd (prepare o w))) <> Ret xs).
    { intros xs. apply map_loop_literal; [exact Htarget | left; reflexivity]. }
    pose proof (no_fault_map_loop n n (default 1 (mapEntriesLength o))
                  (ZodLiteral lit) valueType o' [] (snd (prepare o w))) as Hnf.
    unfold bind.
    destruct (map_loop (generateMock C n) n (default 1 (mapEntriesLength o))
                (ZodLiteral lit) valueType o' [] (snd (prepare o w)))
      as [[xs|e|] w2]; simpl in *.
    + exfalso. exact (Hloop xs eq_refl).
    + destruct e as [m|e]; [simpl; discriminate|].
      exfalso. exact (Hnf e eq_refl).
    + discriminate.
Qed.

End Starvation.

(** ** Seeded arrays *)

Section SeededArrays.
Context {E : Env} (C : Callbacks heap).

(** After [prepare] with a seed, the instance of the call is in the state
    the seed installs. *)
Lemma prepare_seeded o sd w :
  seed o = Some sd ->
  fakers (user (snd (prepare o w)))
    (fakerInstance (defaultOptions (next_faker (user w)) o))
  = seed_rng sd.
Proof.
  intros Hsd. unfold prepare, bind, new_Faker, faker_seed, ret. simpl.
  rewrite Hsd. simpl. rewrite Nat.eqb_refl. reflexivity.
Qed.

(** What a seeded call yields for a number node: it depends on the seed
    and the checks alone. *)
Definition seeded_number (sd : seed_value) (checks : list (check (option Z)))
  : val :=
  let lo := default 0 (fst (fakerOptions checks)) in
  let hi := default MAX_SAFE_INTEGER (snd (fakerOptions checks)) in
  if hi <? lo then VUndefined else VNum (fst (rand_int lo hi (seed_rng sd))).

Lemma seeded_number_run n checks o sd w :
  seed o = Some sd ->
  exists w',
    generateMock C (S n) (ZodNumber checks) o w
    = (Ret (seeded_number sd checks), w').
Proof.
  intros Hsd.
  rewrite generateMock_run.
  rewrite (dispatch_builtin C _ _ _ parseNumber) by reflexivity.
  unfold try_catch, parseNumber, seeded_number.
  unfold number_int, bind.
  destruct (_ <? _).
  - simpl. eauto.
  - unfold draw. rewrite (prepare_seeded o sd w Hsd).
    destruct (rand_int _ _ (seed_rng sd)) as [x r']. simpl. eauto.
Qed.

Lemma repeatM_constant (m : M val) x :
  (forall w, exists w', m w = (Ret x, w')) ->
  forall k w, exists w', repeatM k m w = (Ret (repeat x k), w').
Proof.
  intros Hm. induction k as [|k IH]; intros w; simpl.
  - unfold ret. eauto.
  - destruct (Hm w) as (w1 & H1). destruct (IH w1) as (w2 & H2).
    rewrite (bind_Ret _ _ _ _ _ H1), (bind_Ret _ _ _ _ _ H2).
    unfold ret. eauto.
Qed.

(** X16.  Under a seed every nested call of the entry point seeds the Faker
    instance again, so all elements of a generated array of numbers are the
    same: below the depth limit the call returns the array that repeats the
    one number the seed gives, as many times as the length the seed gives,
    whatever the states of the Faker instances. *)
Theorem seeded_array_repeats n checks minLength maxLength exactLength
    o sd w :
  seed o = Some sd ->
  default 0 (currentDepth o) < default 10 (maxDepth o) ->
  fst (generateMock C (S (S n))
         (ZodArray (ZodNumber checks) minLength maxLength exactLength)
         o w)
  = Ret (VArr
           (repeat (seeded_number sd checks)
              (Z.to_nat
                 (fst (rand_int (array_min minLength maxLength exactLength)
                         (array_max maxLength exactLength) (seed_rng sd)))))).
Proof.
  intros Hsd Hdepth.
  rewrite generateMock_run.
  rewrite (dispatch_builtin C _ _ _ (parseArray C (generateMock C (S n))))
    by reflexivity.
  unfold parseArray. rewrite depthControlled_below by exact Hdepth.
  rewrite parseArray_inner_run. unfold try_catch.
  set (o' := nested_options (next_faker (user w)) o).
  pose proof (array_bounds_ordered minLength maxLength exactLength) as Hord.
  unfold number_int at 1. cbn [default from_option id].
  destruct (Z.ltb_spec (array_max maxLength exactLength)
              (array_min minLength maxLength exactLength)); [lia|].
  unfold bind at 1, draw at 1.
  change (fakerInstance o')
    with (fakerInstance (defaultOptions (next_faker (user w)) o)).
  rewrite (prepare_seeded o sd w Hsd).
  destruct (rand_int _ _ (seed_rng sd)) as [t r'] eqn:Ht. cbn [fst].
  assert (Hel : array_element C (generateMock C (S n))
                  (ZodNumber checks) o'
                = generateMock C (S n) (ZodNumber checks) o').
  { reflexivity. }
  rewrite Hel.
  match goal with
  | |- fst (match bind _ _ ?w1 with _ => _ end) = _ =>
      destruct (repeatM_constant
                  (generateMock C (S n) (ZodNumber checks) o')
                  (seeded_number sd checks)
                  (fun w0 => seeded_number_run n checks o' sd w0 Hsd)
                  (Z.to_nat t) w1) as (w2 & Hrep)
  end.
  rewrite (bind_Ret _ _ _ _ _ Hrep). reflexivity.
Qed.

End SeededArrays.

(** ** The type of a generated string *)

Section StringType.
Context {E : Env} (C : Callbacks heap).

Lemma parseString_sized_VStr checks o w v w' :
  parseString_sized C checks o w = (Ret v, w') -> exists str, v = VStr str.
Proof.
  unfold parseString_sized. intros H.
  apply bind_Ret_inv in H as (t & w1 & _ & H).
  apply bind_Ret_inv in H as (g & w2 & _ & H).
  apply bind_Ret_inv in H as (mock & w3 & _ & H).
  apply bind_Ret_inv in H as (str & w4 & _ & H).
  apply bind_Ret_inv in H as (str' & w5 & _ & H).
  injection H as <- _. eauto.
Qed.

(** X21.  Without a [stringMap] generator for the field, a string node
    yields a string, also when the generator matched by the field name is
    a Faker function that returns a number, a boolean or a date; or it
    yields [undefined], when a fault was contained. *)
Theorem string_node_yields_string n checks o w v :
  stringMap_generator o = None ->
  fst (generateMock C (S n) (ZodString checks) o w) = Ret v ->
  v = VUndefined \/ exists str, v = VStr str.
Proof.
  intros Hmap. rewrite generateMock_ZodString. unfold try_catch.
  set (d := defaultOptions (next_faker (user w)) o).
  assert (Hmap' : stringMap_generator d = None) by exact Hmap.
  destruct (parseString C (ZodString checks) d (snd (prepare o w)))
    as [[v'|[m|e]|] w'] eqn:Hrun; simpl; try discriminate.
  - intros H. injection H as <-. right.
    unfold parseString in Hrun. rewrite Hmap' in Hrun.
    destruct (find _ checks) as [[k x [re|]]|].
    + apply bind_Ret_inv in Hrun as (str & w1 & _ & Hrun).
      injection Hrun as <- _. eauto.
    + exact (parseString_sized_VStr _ _ _ _ _ Hrun).
    + exact (parseString_sized_VStr _ _ _ _ _ Hrun).
  - intros H. injection H as <-. left. reflexivity.
Qed.

End StringType.

(** ** Wrappers, backup mocks and unknown nodes inside objects *)

Section Wrappers.
Context {E : Env} (C : Callbacks heap).

(** A run of the entry point ends in a value, in a [ZodMockError] or in
    no outcome. *)
Lemma generateMock_outcomes fuel s o w :
  (exists x w1, generateMock C fuel s o w = (Ret x, w1)) \/
  (exists m, fst (generateMock C fuel s o w) = Throw (ZodMockError m)) \/
  fst (generateMock C fuel s o w) = Diverge.
Proof.
  pose proof (no_fault_generateMock C fuel s o w) as Hnf.
  destruct (generateMock C fuel s o w) as [[x|[m|e]|] w1]; simpl in *; eauto.
  exfalso. exact (Hnf e eq_refl).
Qed.

(** A synthesizer that hands the node behind a wrapper to the entry point
    and returns its value as it is. *)
Lemma pass_through_run n inner d w' v :
  fst (try_catch (generateMock C n inner d) contain w') = Ret v ->
  generated (generateMock C n inner d) v.
Proof.
  intros H. apply try_contain_Ret_inv in H as (w1 & H);
    [exists w', w1; exact H | apply no_fault_generateMock].
Qed.

(** X22.  Optional, nullable and branded nodes, and effects nodes that are
    refinements or preprocessors, are transparent: a value the entry point
    returns for them is a value it generates, with the same options, for the
    node they wrap (an optional field is never left out, and a preprocessor
    is not applied).  A promise node yields a promise of such a value.  For
    a transform, the caller's function is applied to such a value; when it
    throws, the result is [undefined]. *)
Theorem wrappers_pass_through n inner o w v :
  let d := defaultOptions (next_faker (user w)) o in
  (forall s,
     In s [ZodOptional inner; ZodNullable inner; ZodBranded inner;
           ZodEffects inner Refinement; ZodEffects inner Preprocess] ->
     fst (generateMock C (S n) s o w) = Ret v ->
     generated (generateMock C n inner d) v) /\
  (fst (generateMock C (S n) (ZodPromise inner) o w) = Ret v ->
   exists x, v = VPromise x /\ generated (generateMock C n inner d) x) /\
  (forall f,
     fst (generateMock C (S n) (ZodEffects inner (Transform f)) o w) = Ret v ->
     exists input h,
       generated (generateMock C n inner d) input /\
       (fst (transform_fn C f input h) = Ret v \/
        v = VUndefined /\
        exists e, fst (transform_fn C f input h) = Throw (Fault e))).
Proof.
  intros d. split; [|split].
  - intros s Hs. rewrite generateMock_run. fold d.
    simpl in Hs.
    destruct Hs as [<-|[<-|[<-|[<-|[<-|[]]]]]].
    + rewrite (dispatch_builtin C _ _ _ (parseOptional (generateMock C n)))
        by reflexivity.
      apply pass_through_run.
    + rewrite (dispatch_builtin C _ _ _ (parseOptional (generateMock C n)))
        by reflexivity.
      apply pass_through_run.
    + rewrite (dispatch_builtin C _ _ _ (parseBranded (generateMock C n)))
        by reflexivity.
      apply pass_through_run.
    + rewrite (dispatch_builtin C _ _ _ (parseTransform C (generateMock C n)))
        by reflexivity.
      unfold parseTransform, try_catch, bind.
      destruct (generateMock_outcomes n inner d (snd (prepare o w)))
        as [(x & w1 & Hx)|[(m & Hx)|Hx]].
      * rewrite Hx. simpl. intros H. injection H as <-. do 2 eexists; exact Hx.
      * destruct (generateMock C n inner d _) as [r w1].
        simpl in Hx. subst r. discriminate.
      * destruct (generateMock C n inner d _) as [r w1].
        simpl in Hx. subst r. discriminate.
    + rewrite (dispatch_builtin C _ _ _ (parseTransform C (generateMock C n)))
        by reflexivity.
      unfold parseTransform, try_catch, bind.
      destruct (generateMock_outcomes n inner d (snd (prepare o w)))
        as [(x & w1 & Hx)|[(m & Hx)|Hx]].
      * rewrite Hx. simpl. intros H. injection H as <-. do 2 eexists; exact Hx.
      * destruct (generateMock C n inner d _) as [r w1].
        simpl in Hx. subst r. discriminate.
      * destruct (generateMock C n inner d _) as [r w1].
        simpl in Hx. subst r. discriminate.
  - rewrite generateMock_run. fold d.
    rewrite (dispatch_builtin C _ _ _ (parseZodPromise (generateMock C n)))
      by reflexivity.
    unfold parseZodPromise, try_catch, bind.
    destruct (generateMock_outcomes n inner d (snd (prepare o w)))
      as [(x & w1 & Hx)|[(m & Hx)|Hx]].
    + rewrite Hx. simpl. intros H. injection H as <-.
      exists x. split; [reflexivity | do 2 eexists; exact Hx].
    + destruct (generateMock C n inner d _) as [r w1].
      simpl in Hx. subst r. discriminate.
    + destruct (generateMock C n inner d _) as [r w1].
      simpl in Hx. subst r. discriminate.
  - intros f. rewrite generateMock_run. fold d.
    rewrite (dispatch_builtin C _ _ _ (parseTransform C (generateMock C n)))
      by reflexivity.
    unfold parseTransform, try_catch, bind.
    destruct (generateMock_outcomes n inner d (snd (prepare o w)))
      as [(x & w1 & Hx)|[(m & Hx)|Hx]].
    + rewrite Hx. unfold call_user.
      destruct (transform_fn C f x (user w1)) as [[y|[m|e]|] h'] eqn:Ht;
        simpl; intros H; try discriminate.
      * injection H as <-. exists x, (user w1).
        split; [do 2 eexists; exact Hx|]. left. rewrite Ht. reflexivity.
      * injection H as <-. exists x, (user w1).
        split; [do 2 eexists; exact Hx|]. right.
        split; [reflexivity|]. exists e. rewrite Ht. reflexivity.
    + destruct (generateMock C n inner d _) as [r w1].
      simpl in Hx. subst r. discriminate.
    + destruct (generateMock C n inner d _) as [r w1].
      simpl in Hx. subst r. discriminate.
Qed.

(** *** Backup mocks for unknown nodes *)

Lemma unknown_not_undefined s :
  builtin (typeName s) = false ->
  String.eqb (typeName s) "ZodUndefined" = false.
Proof.
  intros Hb. destruct (String.eqb_spec (typeName s) "ZodUndefined") as [Heq|];
    [|reflexivity].
  rewrite Heq in Hb. discriminate.
Qed.

(** X23.  A node whose tag the registry does not hold goes to the backup
    mock registered under that tag, called with the node and the options
    completed by the defaults: the entry point returns what the backup mock
    returns, and [undefined] when it throws. *)
Theorem unknown_type_uses_backup n s o f w :
  builtin (typeName s) = false ->
  backup_lookup o (typeName s) = Some f ->
  let d := defaultOptions (next_faker (user w)) o in
  let h := user (snd (prepare o w)) in
  (forall v, fst (backup_fn C f s d h) = Ret v ->
             fst (generateMock C (S n) s o w) = Ret v) /\
  (forall e, fst (backup_fn C f s d h) = Throw (Fault e) ->
             fst (generateMock C (S n) s o w) = Ret VUndefined).
Proof.
  intros Hb Hf d h.
  rewrite generateMock_run. unfold try_catch, dispatch.
  rewrite (unknown_not_undefined s Hb), (workerMap_unknown C _ _ _ Hb).
  rewrite backup_lookup_defaultOptions, Hf.
  unfold invoke_backup, bind, record_backup_call, call_user. cbn [user].
  fold d h. destruct (backup_fn C f s d h) as [[x|e'|] h']; simpl.
  - split; [intros v H; exact H | intros e H; discriminate].
  - split; [intros v H; discriminate|].
    intros e H. injection H as ->. reflexivity.
  - split; intros ? H; discriminate.
Qed.

(** *** An unknown node inside an object *)

Lemma foldM_app {A B} (f : B -> A -> M B) l1 l2 b w :
  foldM f (l1 ++ l2) b w = (let* b' := foldM f l1 b in foldM f l2 b') w.
Proof.
  revert b w. induction l1 as [|x l1 IH]; intros b w; simpl.
  - reflexivity.
  - unfold bind.
    destruct (f b x w) as [[b'|e|] w1]; try reflexivity.
    rewrite IH. reflexivity.
Qed.

(** With [throwOnUnknownType], a node that has neither a synthesizer nor
    a backup mock makes the entry point throw. *)
Lemma unknown_strict_run n s o w :
  builtin (typeName s) = false ->
  backup_lookup o (typeName s) = None ->
  throwOnUnknownType o = Some true ->
  generateMock C (S n) s o w
  = (Throw (ZodMockError (typeName s)), snd (prepare o w)).
Proof.
  intros Hb Hbk Hthrow.
  rewrite generateMock_run. unfold try_catch, dispatch.
  rewrite (unknown_not_undefined s Hb), (workerMap_unknown C _ _ _ Hb).
  rewrite backup_lookup_defaultOptions, Hbk.
  change (throwOnUnknownType (defaultOptions (next_faker (user w)) o))
    with (throwOnUnknownType o).
  rewrite Hthrow. reflexivity.
Qed.

(** X24.  A [ZodMockError] crosses the nested calls of the entry point.
    Below the depth limit and with [throwOnUnknownType], an object node with
    a field whose node has neither a synthesizer nor a backup mock makes the
    entry point throw the [ZodMockError] of that node, once the fields
    before it have been generated. *)
Theorem unknown_field_throws n before key s after o w :
  builtin (typeName s) = false ->
  backup_lookup o (typeName s) = None ->
  throwOnUnknownType o = Some true ->
  default 0 (currentDepth o) < default 10 (maxDepth o) ->
  (forall field w0,
     In field before ->
     exists y w1,
       generateMock C (S n) (snd field)
         (set_keyName (fst field) (nested_options (next_faker (user w)) o)) w0
       = (Ret y, w1)) ->
  fst (generateMock C (S (S n)) (ZodObject (before ++ (key, s) :: after)) o w)
  = Throw (ZodMockError (typeName s)).
Proof.
  intros Hb Hbk Hthrow Hdepth Hbefore.
  set (o' := nested_options (next_faker (user w)) o) in *.
  rewrite generateMock_run.
  rewrite (dispatch_builtin C _ _ _ (parseObject (generateMock C (S n))))
    by reflexivity.
  unfold parseObject. rewrite depthControlled_below by exact Hdepth.
  fold o'. unfold parseObject_inner, try_catch.
  set (f := fun (carry : list (string * val)) (field : string * schema) =>
              let* v := generateMock C (S n) (snd field)
                          (set_keyName (fst field) o') in
              ret (obj_set (fst field) v carry)).
  destruct (foldM_returns f before
              (fun carry field w0 Hin =>
                 match Hbefore field w0 Hin with
                 | ex_intro _ y (ex_intro _ w1 Hy) =>
                     ex_intro _ (obj_set (fst field) y carry)
                       (ex_intro _ w1
                          (eq_trans (bind_Ret _ _ _ _ _ Hy) eq_refl))
                 end)
              [] (snd (prepare o w))) as (carry & w1 & Hfold).
  unfold bind at 1. rewrite foldM_app. unfold bind at 1. rewrite Hfold.
  cbn [foldM]. unfold bind at 1. unfold f at 1. unfold bind at 1.
  cbn [fst snd].
  rewrite (unknown_strict_run n s (set_keyName key o') w1 Hb Hbk Hthrow).
  reflexivity.
Qed.

End Wrappers.

(** ** Termination under the depth guard *)

Section Termination.
Context {E : Env} (C : Callbacks heap).

(** A computation that returns or throws from every state. *)
Definition halts {A} (m : M A) : Prop := forall w, fst (m w) <> Diverge.

Lemma halts_ret {A} (a : A) : halts (ret a).
Proof. intros w. simpl. discriminate. Qed.

Lemma halts_throw {A} e : halts (@throw _ A e).
Proof. intros w. simpl. discriminate. Qed.

Lemma halts_lift_outcome {A} (r : outcome A) :
  r <> Diverge -> halts (lift_outcome r).
Proof. intros Hr w. exact Hr. Qed.

(** [k] needs to halt only on the values that [m] can return. *)
Lemma halts_bind_post {A B} (P : A -> Prop) (m : M A) (k : A -> M B) :
  halts m -> (forall w a w', m w = (Ret a, w') -> P a) ->
  (forall a, P a -> halts (k a)) -> halts (bind m k).
Proof.
  intros Hm Hp Hk w. unfold bind. specialize (Hm w). specialize (Hp w).
  destruct (m w) as [[a|e|] w1]; simpl in *.
  - apply Hk. eapply Hp. reflexivity.
  - discriminate.
  - congruence.
Qed.

Lemma halts_bind {A B} (m : M A) (k : A -> M B) :
  halts m -> (forall a, halts (k a)) -> halts (bind m k).
Proof.
  intros Hm Hk. apply (halts_bind_post (fun _ => True)); auto.
Qed.

Lemma halts_try_catch {A} (m : M A) (h : error -> M A) :
  halts m -> (forall e, halts (h e)) -> halts (try_catch m h).
Proof.
  intros Hm Hh w. unfold try_catch. specialize (Hm w).
  destruct (m w) as [[a|e|] w1]; simpl in *; [discriminate | apply Hh | congruence].
Qed.

Lemma halts_draw {A} r (f : rng -> A * rng) : halts (draw r f).
Proof. intros w. unfold draw. destruct (f _). simpl. discriminate. Qed.

Lemma halts_call_member {A} r (f : Z -> rng -> outcome A * rng) :
  (forall t s, fst (f t s) <> Diverge) -> halts (call_member r f).
Proof.
  intros Hf w. unfold call_member.
  specialize (Hf (now (user w)) (fakers (user w) r)).
  destruct (f _ _). exact Hf.
Qed.

Lemma halts_call_user {A} (f : heap -> outcome A * heap) :
  (forall h, fst (f h) <> Diverge) -> halts (call_user f).
Proof.
  intros Hf w. unfold call_user. specialize (Hf (user w)).
  destruct (f _). exact Hf.
Qed.

Lemma halts_console_log l : halts (console_log l).
Proof. intros w. simpl. discriminate. Qed.

Lemma halts_get_now : halts get_now.
Proof. intros w. simpl. discriminate. Qed.

Lemma halts_new_Faker : halts new_Faker.
Proof. intros w. simpl. discriminate. Qed.

Lemma halts_faker_seed r s : halts (faker_seed r s).
Proof. intros w. simpl. discriminate. Qed.

Lemma halts_record_backup_call key : halts (record_backup_call key).
Proof. intros w. simpl. discriminate. Qed.

(** One step of a proof that a computation halts. *)
Ltac halts_step :=
  lazymatch goal with
  | |- halts (bind _ _) => apply halts_bind; [|intros ?]
  | |- halts (try_catch _ _) => apply halts_try_catch; [|intros ?]
  | |- halts (ret _) => apply halts_ret
  | |- halts (throw _) => apply halts_throw
  | |- halts (draw _ _) => apply halts_draw
  | |- halts (console_log _) => apply halts_console_log
  | |- halts get_now => apply halts_get_now
  | |- halts new_Faker => apply halts_new_Faker
  | |- halts (faker_seed _ _) => apply halts_faker_seed
  | |- halts (record_backup_call _) => apply halts_record_backup_call
  | |- halts (match ?x with _ => _ end) => destruct x
  end.

Ltac halts_auto := repeat halts_step.

Lemma halts_number_int r mn mx : halts (number_int r mn mx).
Proof. unfold number_int. halts_auto. Qed.

Lemma halts_arrayElement {A} r (l : list A) : halts (helpers_arrayElement r l).
Proof.
  unfold helpers_arrayElement. destruct l as [|x [|y l]]; halts_auto.
  apply halts_number_int.
Qed.

Lemma arrayElement_In {A} r (l : list A) w x w' :
  helpers_arrayElement r l w = (Ret x, w') -> In x l.
Proof.
  destruct l as [|y l]; [discriminate|].
  destruct (arrayElement_returns r (y :: l) w ltac:(discriminate))
    as (x' & w1 & Hx & Hin).
  intros H. congruence.
Qed.

Lemma halts_string_alpha r n : halts (string_alpha r n).
Proof.
  intros w. unfold string_alpha. destruct (rand_alpha _ _) as [[a|] s];
    simpl; discriminate.
Qed.

Lemma halts_toDate d : halts (toDate d).
Proof. unfold toDate. halts_auto. Qed.

Lemma halts_date_between r a b : halts (date_between r a b).
Proof.
  unfold date_between.
  halts_auto; first [apply halts_toDate | apply halts_number_int].
Qed.

Lemma halts_date_soon r d ref : halts (date_soon r d ref).
Proof.
  unfold date_soon.
  halts_auto; first [apply halts_toDate | apply halts_number_int].
Qed.

Lemma halts_date_recent r d ref : halts (date_recent r d ref).
Proof.
  unfold date_recent.
  halts_auto; first [apply halts_toDate | apply halts_number_int].
Qed.

Lemma halts_mapM {A B} (f : A -> M B) l :
  (forall x, In x l -> halts (f x)) -> halts (mapM f l).
Proof.
  induction l as [|x l IH]; intros Hf; simpl; halts_auto.
  - apply Hf. left. reflexivity.
  - apply IH. intros y Hy. apply Hf. right. exact Hy.
Qed.

Lemma halts_foldM {A B} (f : B -> A -> M B) l b :
  (forall b x, In x l -> halts (f b x)) -> halts (foldM f l b).
Proof.
  revert b. induction l as [|x l IH]; intros b Hf; simpl; halts_auto.
  - apply Hf. left. reflexivity.
  - apply IH. intros b' y Hy. apply Hf. right. exact Hy.
Qed.

Lemma halts_findM {A} (p : A -> M bool) l :
  (forall x, In x l -> halts (p x)) -> halts (findM p l).
Proof.
  induction l as [|x l IH]; intros Hp; simpl; halts_auto.
  - apply Hp. left. reflexivity.
  - apply IH. intros y Hy. apply Hp. right. exact Hy.
Qed.

Lemma halts_repeatM {A} k (m : M A) : halts m -> halts (repeatM k m).
Proof. intros Hm. induction k as [|k IH]; simpl; halts_auto; auto. Qed.

Lemma halts_toString_method v : halts (toString_method v).
Proof. unfold toString_method. halts_auto. Qed.

Lemma object_assign_halts target source :
  object_assign target source <> Diverge.
Proof. destruct target, source; simpl; discriminate. Qed.

Hypothesis Hcallbacks : terminating_callbacks C.
Hypothesis Hcatalog : terminating_catalog.

Lemma halts_invoke_backup key f s o : halts (invoke_backup C key f s o).
Proof.
  unfold invoke_backup. halts_auto. apply halts_call_user.
  intros h. apply Hcallbacks.
Qed.

Lemma halts_probe r keyName section members fnKey :
  In (section, members) catalog ->
  halts (probe r keyName members fnKey).
Proof.
  intros Hin. unfold probe.
  destruct (_ || _)%bool; [|apply halts_ret].
  destruct (assoc keyName members) as [[|fn]|] eqn:Hm; try apply halts_ret.
  halts_auto. apply halts_call_member. intros t s.
  exact (Hcatalog _ _ _ _ t s Hin (assoc_In _ _ _ Hm)).
Qed.

Lemma halts_findMatchingFaker k r mapper :
  halts (findMatchingFaker C k r mapper).
Proof.
  unfold findMatchingFaker. apply halts_bind.
  - destruct mapper; halts_auto. apply halts_call_user.
    intros h. apply Hcallbacks.
  - intros [g|]; [apply halts_ret|]. apply halts_bind.
    + apply halts_findM. intros [section members] Hin. halts_auto.
      apply halts_findM. intros fnKey _.
      apply (halts_probe _ _ section). exact Hin.
    + intros found. halts_auto.
Qed.

Lemma halts_call_generator r g : halts (call_generator C r g).
Proof.
  unfold call_generator. destruct g as [t| |k|section name|f| |].
  - halts_auto.
  - halts_auto. apply halts_date_recent.
  - halts_auto.
  - destruct (assoc section catalog) as [members|] eqn:Hs;
      [|apply halts_throw].
    destruct (assoc name members) as [[|fn]|] eqn:Hm; try apply halts_throw.
    apply halts_call_member. intros t s.
    exact (Hcatalog _ _ _ _ t s (assoc_In _ _ _ Hs) (assoc_In _ _ _ Hm)).
  - apply halts_call_user. intros h. apply Hcallbacks.
  - apply halts_ret.
  - apply halts_throw.
Qed.

Lemma halts_parseString s o : halts (parseString C s o).
Proof.
  unfold parseString.
  destruct (find _ _) as [[k v [re|]]|].
  - halts_auto.
  - destruct (stringMap_generator o);
      [apply halts_call_user; intros h; apply Hcallbacks|].
    unfold parseString_sized. halts_auto;
      first [ apply halts_number_int | apply halts_findMatchingFaker
            | apply halts_call_generator | apply halts_toString_method
            | apply halts_string_alpha ].
  - destruct (stringMap_generator o);
      [apply halts_call_user; intros h; apply Hcallbacks|].
    unfold parseString_sized. halts_auto;
      first [ apply halts_number_int | apply halts_findMatchingFaker
            | apply halts_call_generator | apply halts_toString_method
            | apply halts_string_alpha ].
Qed.

Lemma halts_parseDate s o : halts (parseDate s o).
Proof.
  unfold parseDate, date_bounds. halts_auto;
    first [ apply halts_date_between | apply halts_date_soon
          | apply halts_date_recent | idtac ].
  apply halts_foldM. intros acc item _. halts_auto.
Qed.

Lemma halts_parseNumber s o : halts (parseNumber s o).
Proof. unfold parseNumber. halts_auto. apply halts_number_int. Qed.

Lemma halts_parseBoolean s o : halts (parseBoolean s o).
Proof. unfold parseBoolean. halts_auto. Qed.

Lemma halts_parseEnum s o : halts (parseEnum s o).
Proof. unfold parseEnum. halts_auto. apply halts_arrayElement. Qed.

Lemma halts_parseNativeEnum s o : halts (parseNativeEnum s o).
Proof. unfold parseNativeEnum. halts_auto. apply halts_arrayElement. Qed.

Lemma halts_parseLiteral s o : halts (parseLiteral s o).
Proof. unfold parseLiteral. halts_auto. Qed.

Lemma halts_parseUuid s o : halts (parseUuid s o).
Proof. unfold parseUuid. halts_auto. Qed.

Lemma halts_prepare o : halts (prepare o).
Proof. unfold prepare. halts_auto. Qed.

Lemma halts_contain e : halts (contain e).
Proof. unfold contain. halts_auto. Qed.

(** The depth guard passes on a budget that is one less. *)
Lemma halts_depthControlled inner s o b :
  (forall o', (S (depth_budget o') <= b)%nat -> halts (inner s o')) ->
  (depth_budget o <= b)%nat ->
  halts (depthControlled inner s o).
Proof.
  intros Hinner Hb. unfold depthControlled.
  destruct (Z.leb_spec (default 10 (maxDepth o)) (default 0 (currentDepth o)))
    as [Hle|Hlt]; [apply halts_ret|].
  apply Hinner. unfold depth_budget in *. cbn [maxDepth currentDepth set_depths].
  cbn [default from_option id]. lia.
Qed.

(** *** The synthesizers of one node

    [gen] halts on the children of the node [s] within the budget [b], and
    on the node behind the getter of a lazy [s] within a budget below [b]. *)

Section Node.
Variable gen : schema -> GenerateMockOptions -> M val.
Variable b : nat.

Lemma halts_array_element element o :
  (forall o', (depth_budget o' <= b)%nat -> halts (gen element o')) ->
  (depth_budget o <= b)%nat ->
  halts (array_element C gen element o).
Proof.
  intros Hel Hb. unfold array_element.
  destruct (if String.eqb (typeName element) "ZodUndefined"
            then backup_lookup o "ZodUndefined" else None);
    [apply halts_invoke_backup | apply Hel; assumption].
Qed.

Lemma halts_parseArray_inner element mn mx ex o :
  (forall o', (depth_budget o' <= b)%nat -> halts (gen element o')) ->
  (depth_budget o <= b)%nat ->
  halts (parseArray_inner C gen (ZodArray element mn mx ex) o).
Proof.
  intros Hel Hb. unfold parseArray_inner.
  apply halts_bind; [apply halts_number_int|]. intros t.
  apply halts_bind; [|intros xs; apply halts_ret].
  apply halts_repeatM, halts_array_element; assumption.
Qed.

Section OneNode.
Variable s : schema.

Hypothesis Hs : match s with
                | ZodSet _ _ _ | ZodMap _ _ => False
                | _ => True
                end.
Hypothesis Hgen : forall c o',
  In c (children s) -> (depth_budget o' <= b)%nat -> halts (gen c o').
Hypothesis Hgetter : forall g o',
  s = ZodLazy g -> (S (depth_budget o') <= b)%nat ->
  halts (gen (getter_fn C g) o').

Lemma halts_workerMap n tag worker :
  assoc tag (workerMap C gen n) = Some worker ->
  forall o, (depth_budget o <= b)%nat -> halts (worker s o).
Proof.
  apply (assoc_Forall
           (fun wk : schema -> GenerateMockOptions -> M val =>
              forall o, (depth_budget o <= b)%nat -> halts (wk s o))).
  unfold workerMap.
  repeat (apply Forall_cons; split; [cbn [snd]; intros o Hb|]);
    [..|apply Forall_nil; exact I].
  all: try solve [ apply halts_parseString | apply halts_parseDate
                 | apply halts_parseNumber | apply halts_parseBoolean
                 | apply halts_parseEnum | apply halts_parseNativeEnum
                 | apply halts_parseLiteral | apply halts_parseUuid
                 | apply halts_ret ].
  - (* ZodObject *)
    apply (halts_depthControlled _ _ _ b); [|exact Hb]. intros o' Hb'.
    unfold parseObject_inner. destruct s; try apply halts_throw.
    apply halts_bind; [|intros props; apply halts_ret].
    apply halts_foldM. intros carry field Hin.
    apply halts_bind; [|intros v; apply halts_ret].
    apply Hgen; [simpl; apply in_map; exact Hin|].
    unfold depth_budget in *. simpl. lia.
  - (* ZodRecord *)
    apply (halts_depthControlled _ _ _ b); [|exact Hb]. intros o' Hb'.
    unfold parseRecord. destruct (valid_array_length _); [|apply halts_throw].
    destruct s; try apply halts_throw.
    apply halts_bind; [|intros props; apply halts_ret].
    apply halts_foldM. intros prev [] _.
    apply halts_bind; [apply Hgen; [simpl; tauto | lia]|]. intros k.
    apply halts_bind; [apply Hgen; [simpl; tauto | lia]|]. intros v.
    apply halts_ret.
  - (* ZodArray *)
    apply (halts_depthControlled _ _ _ b); [|exact Hb]. intros o' Hb'.
    destruct s; try apply halts_throw.
    apply halts_parseArray_inner; [|lia].
    intros o2 Hb2. apply Hgen; [simpl; tauto | exact Hb2].
  - (* ZodSet *)
    apply (halts_depthControlled _ _ _ b); [|exact Hb]. intros o' Hb'.
    unfold parseSet_inner. destruct s; try apply halts_throw.
    contradiction.
  - (* ZodMap *)
    apply (halts_depthControlled _ _ _ b); [|exact Hb]. intros o' Hb'.
    unfold parseMap_inner. destruct s; try apply halts_throw.
    contradiction.
  - (* ZodLazy *)
    apply (halts_depthControlled _ _ _ b); [|exact Hb]. intros o' Hb'.
    unfold parseLazy. destruct s eqn:Hnode; try apply halts_throw.
    apply (Hgetter _ _ eq_refl Hb').
  - (* ZodUnion *)
    unfold parseUnion. destruct s; try apply halts_throw.
    + apply (halts_bind_post (fun alt => In alt alternatives));
        [apply halts_arrayElement | apply arrayElement_In|].
      intros alt Hin. apply Hgen; [exact Hin | exact Hb].
    + apply (halts_bind_post (fun alt => In alt alternatives));
        [apply halts_arrayElement | apply arrayElement_In|].
      intros alt Hin. apply Hgen; [exact Hin | exact Hb].
  - (* ZodIntersection *)
    unfold parseZodIntersection. destruct s; try apply halts_throw.
    apply halts_bind; [apply Hgen; [simpl; tauto | exact Hb]|]. intros x.
    apply halts_bind; [apply Hgen; [simpl; tauto | exact Hb]|]. intros y.
    apply halts_lift_outcome, object_assign_halts.
  - (* ZodDiscriminatedUnion *)
    unfold parseDiscriminatedUnion, parseUnion.
    destruct s; try apply halts_throw.
    + apply (halts_bind_post (fun alt => In alt alternatives));
        [apply halts_arrayElement | apply arrayElement_In|].
      intros alt Hin. apply Hgen; [exact Hin | exact Hb].
    + apply (halts_bind_post (fun alt => In alt alternatives));
        [apply halts_arrayElement | apply arrayElement_In|].
      intros alt Hin. apply Hgen; [exact Hin | exact Hb].
  - (* ZodOptional *)
    unfold parseOptional. destruct s; try apply halts_throw;
      (apply Hgen; [simpl; tauto | exact Hb]).
  - (* ZodNullable *)
    unfold parseOptional. destruct s; try apply halts_throw;
      (apply Hgen; [simpl; tauto | exact Hb]).
  - (* ZodTransformer *)
    unfold parseTransform. destruct s; try apply halts_throw.
    apply halts_bind; [apply Hgen; [simpl; tauto | exact Hb]|]. intros input.
    destruct eff; try apply halts_ret.
    apply halts_call_user. intros h. apply Hcallbacks.
  - (* ZodEffects *)
    unfold parseTransform. destruct s; try apply halts_throw.
    apply halts_bind; [apply Hgen; [simpl; tauto | exact Hb]|]. intros input.
    destruct eff; try apply halts_ret.
    apply halts_call_user. intros h. apply Hcallbacks.
  - (* ZodFunction *)
    unfold parseZodFunction. destruct s; first [apply halts_throw | apply halts_ret].
  - (* ZodPromise *)
    unfold parseZodPromise. destruct s; try apply halts_throw.
    apply halts_bind; [apply Hgen; [simpl; tauto | exact Hb]|]. intros v.
    apply halts_ret.
  - (* ZodTuple *)
    unfold parseZodTuple. destruct s; try apply halts_throw.
    apply halts_bind.
    + apply halts_mapM. intros def Hin.
      apply Hgen; [simpl; apply in_or_app; left; exact Hin | exact Hb].
    + intros results. destruct rest as [restSchema|]; [|apply halts_ret].
      apply halts_bind.
      * unfold parseArray.
        apply (halts_depthControlled _ _ _ b); [|exact Hb]. intros o' Hb'.
        apply halts_parseArray_inner; [|lia].
        intros o2 Hb2. apply Hgen; [|exact Hb2].
        simpl. apply in_or_app. right. left. reflexivity.
      * intros next. destruct next; first [apply halts_ret | apply halts_throw].
  - (* ZodBranded *)
    unfold parseBranded. destruct s; try apply halts_throw.
    apply Hgen; [simpl; tauto | exact Hb].
  - (* ZodDefault *)
    unfold parseZodDefault. destruct s; try apply halts_throw.
    apply halts_bind; [apply halts_draw|]. intros [|].
    + apply halts_call_user. intros h. apply Hcallbacks.
    + apply Hgen; [simpl; tauto | exact Hb].
Qed.

Lemma halts_dispatch n d :
  (depth_budget d <= b)%nat ->
  halts (dispatch C (workerMap C gen n) s d).
Proof.
  intros Hb. unfold dispatch.
  destruct (if String.eqb (typeName s) "ZodUndefined"
            then backup_lookup d "ZodUndefined" else None) as [f|];
    [apply halts_invoke_backup|].
  destruct (assoc (typeName s) (workerMap C gen n)) as [worker|] eqn:Hw;
    [exact (halts_workerMap n _ _ Hw d Hb)|].
  destruct (backup_lookup d (typeName s)); [apply halts_invoke_backup|].
  destruct (default false (throwOnUnknownType d));
    [apply halts_throw | apply halts_ret].
Qed.

End OneNode.

End Node.

(** *** Heights and children *)

Lemma height_pos s : (1 <= height s)%nat.
Proof. destruct s; simpl; lia. Qed.

Lemma list_max_In {A} (f : A -> nat) x l :
  In x l -> (f x <= list_max (map f l))%nat.
Proof.
  induction l as [|y l IH]; simpl; [tauto|].
  intros [->|Hin]; [lia | specialize (IH Hin); lia].
Qed.

Lemma height_children s c : In c (children s) -> (height c < height s)%nat.
Proof.
  destruct s; simpl; try tauto;
    try (intros [<-|[<-|[]]]; lia); try (intros [<-|[]]; lia).
  - intros Hin. apply in_map_iff in Hin as ([k c'] & <- & Hin).
    pose proof (list_max_In (fun f => height (snd f)) (k, c') shape Hin).
    simpl in *. lia.
  - intros Hin. pose proof (list_max_In height c alternatives Hin). lia.
  - intros Hin. pose proof (list_max_In height c alternatives Hin). lia.
  - intros Hin. apply in_app_or in Hin as [Hin|Hin].
    + pose proof (list_max_In height c items Hin). lia.
    + destruct rest as [r|]; simpl in Hin; [|tauto].
      destruct Hin as [<-|[]]. lia.
Qed.

Lemma loop_free_children s c :
  loop_free s = true -> In c (children s) -> loop_free c = true.
Proof.
  destruct s; simpl; try tauto; try discriminate;
    rewrite ?andb_true_iff;
    try (intros [H1 H2] [<-|[<-|[]]]; assumption);
    try (intros H [<-|[]]; assumption).
  - intros H Hin. apply in_map_iff in Hin as ([k c'] & <- & Hin).
    rewrite forallb_forall in H. exact (H _ Hin).
  - intros H Hin. rewrite forallb_forall in H. exact (H _ Hin).
  - intros H Hin. rewrite forallb_forall in H. exact (H _ Hin).
  - intros [H1 H2] Hin. apply in_app_or in Hin as [Hin|Hin].
    + rewrite forallb_forall in H1. exact (H1 _ Hin).
    + destruct rest as [r|]; simpl in Hin; [|tauto].
      destruct Hin as [<-|[]]. exact H2.
Qed.

Lemma loop_free_top s :
  loop_free s = true ->
  match s with ZodSet _ _ _ | ZodMap _ _ => False | _ => True end.
Proof. destruct s; simpl; try discriminate; auto. Qed.

(** A bound for each member of a list gives one bound for all of them. *)
Lemma common_bound {A} (P : nat -> A -> Prop) l :
  (forall x, In x l ->
     exists N, forall fuel, (N <= fuel)%nat -> P fuel x) ->
  exists N, forall fuel, (N <= fuel)%nat -> forall x, In x l -> P fuel x.
Proof.
  induction l as [|y l IH]; intros H.
  - exists 0%nat. intros fuel _ x [].
  - destruct (H y (or_introl eq_refl)) as [Ny Hy].
    destruct (IH (fun x Hin => H x (or_intror Hin))) as [Nl Hl].
    exists (Nat.max Ny Nl). intros fuel Hfuel x [<-|Hin].
    + apply Hy. lia.
    + apply Hl; [lia | exact Hin].
Qed.

Lemma depth_budget_defaultOptions fresh o :
  depth_budget (defaultOptions fresh o) = depth_budget o.
Proof.
  unfold depth_budget, defaultOptions. simpl.
  destruct (maxDepth o), (currentDepth o); reflexivity.
Qed.

Hypothesis Hgetters : forall g, loop_free (getter_fn C g) = true.

(** With enough fuel the entry point halts on every loop-free node of
    height at most [h], for every budget of at most [d] levels. *)
Lemma halts_within d :
  forall h s,
    (height s <= h)%nat -> loop_free s = true ->
    exists N, forall fuel, (N <= fuel)%nat ->
      forall o, (depth_budget o <= d)%nat -> halts (generateMock C fuel s o).
Proof.
  induction d as [d IHd] using lt_wf_ind.
  induction h as [|h IHh]; intros s Hh Hs.
  - pose proof (height_pos s). lia.
  - destruct (common_bound
                (fun fuel c =>
                   forall o, (depth_budget o <= d)%nat ->
                             halts (generateMock C fuel c o))
                (children s)) as [Nc Hc].
    { intros c Hin. apply (IHh c).
      - pose proof (height_children s c Hin). lia.
      - exact (loop_free_children s c Hs Hin). }
    assert (Hg : exists Ng, forall fuel, (Ng <= fuel)%nat ->
              forall g o, s = ZodLazy g -> (S (depth_budget o) <= d)%nat ->
                          halts (generateMock C fuel (getter_fn C g) o)).
    { destruct s; try (exists 0%nat; intros; discriminate).
      destruct d as [|d']; [exists 0%nat; intros; lia|].
      destruct (IHd d' (Nat.lt_succ_diag_r d')
                  (height (getter_fn C getter)) (getter_fn C getter)
                  (le_n _) (Hgetters getter)) as [N HN].
      exists N. intros fuel Hfuel g o Heq Hb. injection Heq as <-.
      apply HN; [exact Hfuel | lia]. }
    destruct Hg as [Ng Hg].
    exists (S (Nat.max Nc Ng)). intros fuel Hfuel o Hb.
    destruct fuel as [|n]; [lia|]. intros w. rewrite generateMock_run.
    apply halts_try_catch; [|apply halts_contain].
    apply (halts_dispatch (generateMock C n) d s).
    + exact (loop_free_top s Hs).
    + intros c o' Hin Hb'. apply Hc; [lia | exact Hin | exact Hb'].
    + intros g o' Heq Hb'. apply (Hg n); [lia | exact Heq | exact Hb'].
    + rewrite depth_budget_defaultOptions. exact Hb.
Qed.

(** X15.  The depth guard makes the entry point terminate on recursive
    schemas.  When the caller's functions and the functions of Faker return
    or throw, and neither the node nor a node behind a lazy getter contains
    a set or a map, then for every node, however its lazy getters refer to
    one another, there is an amount of fuel from which every run of the
    entry point returns or throws. *)
Theorem generateMock_terminates s o :
  loop_free s = true ->
  exists N, forall fuel w,
    (N <= fuel)%nat -> fst (generateMock C fuel s o w) <> Diverge.
Proof.
  intros Hs.
  destruct (halts_within (depth_budget o) (height s) s (le_n _) Hs) as [N HN].
  exists N. intros fuel w Hfuel. exact (HN fuel Hfuel o (le_n _) w).
Qed.

End Termination.

(** ** The lenient entry point never throws *)

Section Lenient.
Context {E : Env} (C : Callbacks heap).

(** A computation that does not end in a [ZodMockError]. *)
Definition quiet {A} (m : M A) : Prop :=
  forall w, ~ is_mock_error (fst (m w)).

Lemma quiet_ret {A} (a : A) : quiet (ret a).
Proof. intros w [m H]. discriminate. Qed.

Lemma quiet_fault {A} d : quiet (@throw _ A (Fault d)).
Proof. intros w [m H]. discriminate. Qed.

Lemma quiet_diverge {A} : quiet (@diverge _ A).
Proof. intros w [m H]. discriminate. Qed.

Lemma quiet_lift_outcome {A} (r : outcome A) :
  ~ is_mock_error r -> quiet (lift_outcome r).
Proof. intros Hr w. exact Hr. Qed.

Lemma quiet_bind_post {A B} (P : A -> Prop) (m : M A) (k : A -> M B) :
  quiet m -> (forall w a w', m w = (Ret a, w') -> P a) ->
  (forall a, P a -> quiet (k a)) -> quiet (bind m k).
Proof.
  intros Hm Hp Hk w. unfold bind. specialize (Hm w). specialize (Hp w).
  destruct (m w) as [[a|e|] w1]; simpl in *.
  - apply Hk. eapply Hp. reflexivity.
  - intros [msg H]. apply Hm. exists msg. congruence.
  - intros [msg H]. discriminate.
Qed.

Lemma quiet_bind {A B} (m : M A) (k : A -> M B) :
  quiet m -> (forall a, quiet (k a)) -> quiet (bind m k).
Proof. intros Hm Hk. apply (quiet_bind_post (fun _ => True)); auto. Qed.

(** The handler only sees faults. *)
Lemma quiet_try_catch {A} (m : M A) (h : error -> M A) :
  quiet m -> (forall d, quiet (h (Fault d))) -> quiet (try_catch m h).
Proof.
  intros Hm Hh w. unfold try_catch. specialize (Hm w).
  destruct (m w) as [[a|[msg|d]|] w1]; simpl in *.
  - intros [msg H]. discriminate.
  - exfalso. apply Hm. exists msg. reflexivity.
  - apply Hh.
  - intros [msg H]. discriminate.
Qed.

Lemma quiet_draw {A} r (f : rng -> A * rng) : quiet (draw r f).
Proof. intros w [m H]. unfold draw in H. destruct (f _). discriminate. Qed.

Lemma quiet_call_member {A} r (f : Z -> rng -> outcome A * rng) :
  (forall t s, ~ is_mock_error (fst (f t s))) -> quiet (call_member r f).
Proof.
  intros Hf w. unfold call_member.
  specialize (Hf (now (user w)) (fakers (user w) r)).
  destruct (f _ _). exact Hf.
Qed.

Lemma quiet_call_user {A} (f : heap -> outcome A * heap) :
  (forall h, ~ is_mock_error (fst (f h))) -> quiet (call_user f).
Proof.
  intros Hf w. unfold call_user. specialize (Hf (user w)).
  destruct (f _). exact Hf.
Qed.

Lemma quiet_console_log l : quiet (console_log l).
Proof. intros w [m H]. discriminate. Qed.

Lemma quiet_get_now : quiet get_now.
Proof. intros w [m H]. discriminate. Qed.

Lemma quiet_new_Faker : quiet new_Faker.
Proof. intros w [m H]. discriminate. Qed.

Lemma quiet_faker_seed r s : quiet (faker_seed r s).
Proof. intros w [m H]. discriminate. Qed.

Lemma quiet_record_backup_call key : quiet (record_backup_call key).
Proof. intros w [m H]. discriminate. Qed.

(** One step of a proof that a computation is quiet. *)
Ltac quiet_step :=
  lazymatch goal with
  | |- quiet (bind _ _) => apply quiet_bind; [|intros ?]
  | |- quiet (try_catch _ _) => apply quiet_try_catch; [|intros ?]
  | |- quiet (ret _) => apply quiet_ret
  | |- quiet (throw (Fault _)) => apply quiet_fault
  | |- quiet diverge => apply quiet_diverge
  | |- quiet (draw _ _) => apply quiet_draw
  | |- quiet (console_log _) => apply quiet_console_log
  | |- quiet get_now => apply quiet_get_now
  | |- quiet new_Faker => apply quiet_new_Faker
  | |- quiet (faker_seed _ _) => apply quiet_faker_seed
  | |- quiet (record_backup_call _) => apply quiet_record_backup_call
  | |- quiet (match ?x with _ => _ end) => destruct x
  end.

Ltac quiet_auto := repeat quiet_step.

Lemma quiet_number_int r mn mx : quiet (number_int r mn mx).
Proof. unfold number_int. quiet_auto. Qed.

Lemma quiet_arrayElement {A} r (l : list A) : quiet (helpers_arrayElement r l).
Proof.
  unfold helpers_arrayElement. destruct l as [|x [|y l]]; quiet_auto.
  apply quiet_number_int.
Qed.

Lemma quiet_string_alpha r n : quiet (string_alpha r n).
Proof.
  intros w [m H]. unfold string_alpha in H.
  destruct (rand_alpha _ _) as [[a|] s]; discriminate.
Qed.

Lemma quiet_toDate d : quiet (toDate d).
Proof. unfold toDate. quiet_auto. Qed.

Lemma quiet_date_between r a b : quiet (date_between r a b).
Proof.
  unfold date_between.
  quiet_auto; first [apply quiet_toDate | apply quiet_number_int].
Qed.

Lemma quiet_date_soon r d ref : quiet (date_soon r d ref).
Proof.
  unfold date_soon.
  quiet_auto; first [apply quiet_toDate | apply quiet_number_int].
Qed.

Lemma quiet_date_recent r d ref : quiet (date_recent r d ref).
Proof.
  unfold date_recent.
  quiet_auto; first [apply quiet_toDate | apply quiet_number_int].
Qed.

Lemma quiet_mapM {A B} (f : A -> M B) l :
  (forall x, quiet (f x)) -> quiet (mapM f l).
Proof. intros Hf. induction l as [|x l IH]; simpl; quiet_auto; auto. Qed.

Lemma quiet_foldM {A B} (f : B -> A -> M B) l b :
  (forall b x, quiet (f b x)) -> quiet (foldM f l b).
Proof.
  intros Hf. revert b.
  induction l as [|x l IH]; intros b; simpl; quiet_auto; auto.
Qed.

Lemma quiet_findM {A} (p : A -> M bool) l :
  (forall x, In x l -> quiet (p x)) -> quiet (findM p l).
Proof.
  induction l as [|x l IH]; intros Hp; simpl; quiet_auto.
  - apply Hp. left. reflexivity.
  - apply IH. intros y Hy. apply Hp. right. exact Hy.
Qed.

Lemma quiet_repeatM {A} k (m : M A) : quiet m -> quiet (repeatM k m).
Proof. intros Hm. induction k as [|k IH]; simpl; quiet_auto; auto. Qed.

Lemma quiet_toString_method v : quiet (toString_method v).
Proof. unfold toString_method. quiet_auto. Qed.

Lemma object_assign_quiet target source :
  ~ is_mock_error (object_assign target source).
Proof. intros [m H]. destruct target, source; simpl in H; discriminate. Qed.

Hypothesis Hcallbacks : polite_callbacks C.
Hypothesis Hcatalog : polite_catalog.

Lemma quiet_invoke_backup key f s o : quiet (invoke_backup C key f s o).
Proof.
  unfold invoke_backup. quiet_auto. apply quiet_call_user.
  intros h. apply Hcallbacks.
Qed.

Lemma quiet_probe r keyName section members fnKey :
  In (section, members) catalog ->
  quiet (probe r keyName members fnKey).
Proof.
  intros Hin. unfold probe.
  destruct (_ || _)%bool; [|apply quiet_ret].
  destruct (assoc keyName members) as [[|fn]|] eqn:Hm; try apply quiet_ret.
  quiet_auto. apply quiet_call_member. intros t s.
  exact (Hcatalog _ _ _ _ t s Hin (assoc_In _ _ _ Hm)).
Qed.

Lemma quiet_findMatchingFaker k r mapper :
  quiet (findMatchingFaker C k r mapper).
Proof.
  unfold findMatchingFaker. apply quiet_bind.
  - destruct mapper; quiet_auto. apply quiet_call_user.
    intros h. apply Hcallbacks.
  - intros [g|]; [apply quiet_ret|]. apply quiet_bind.
    + apply quiet_findM. intros [section members] Hin. quiet_auto.
      apply quiet_findM. intros fnKey _.
      apply (quiet_probe _ _ section). exact Hin.
    + intros found. quiet_auto.
Qed.

Lemma quiet_call_generator r g : quiet (call_generator C r g).
Proof.
  unfold call_generator. destruct g as [t| |k|section name|f| |].
  - quiet_auto.
  - quiet_auto. apply quiet_date_recent.
  - quiet_auto.
  - destruct (assoc section catalog) as [members|] eqn:Hs;
      [|apply quiet_fault].
    destruct (assoc name members) as [[|fn]|] eqn:Hm; try apply quiet_fault.
    apply quiet_call_member. intros t s.
    exact (Hcatalog _ _ _ _ t s (assoc_In _ _ _ Hs) (assoc_In _ _ _ Hm)).
  - apply quiet_call_user. intros h. apply Hcallbacks.
  - apply quiet_ret.
  - apply quiet_fault.
Qed.

Lemma quiet_parseString s o : quiet (parseString C s o).
Proof.
  unfold parseString.
  destruct (find _ _) as [[k v [re|]]|].
  - quiet_auto.
  - destruct (stringMap_generator o);
      [apply quiet_call_user; intros h; apply Hcallbacks|].
    unfold parseString_sized. quiet_auto;
      first [ apply quiet_number_int | apply quiet_findMatchingFaker
            | apply quiet_call_generator | apply quiet_toString_method
            | apply quiet_string_alpha ].
  - destruct (stringMap_generator o);
      [apply quiet_call_user; intros h; apply Hcallbacks|].
    unfold parseString_sized. quiet_auto;
      first [ apply quiet_number_int | apply quiet_findMatchingFaker
            | apply quiet_call_generator | apply quiet_toString_method
            | apply quiet_string_alpha ].
Qed.

Lemma quiet_parseDate s o : quiet (parseDate s o).
Proof.
  unfold parseDate, date_bounds. quiet_auto;
    first [ apply quiet_date_between | apply quiet_date_soon
          | apply quiet_date_recent | idtac ].
  apply quiet_foldM. intros acc item. quiet_auto.
Qed.

Lemma quiet_parseNumber s o : quiet (parseNumber s o).
Proof. unfold parseNumber. quiet_auto. apply quiet_number_int. Qed.

Lemma quiet_parseBoolean s o : quiet (parseBoolean s o).
Proof. unfold parseBoolean. quiet_auto. Qed.

Lemma quiet_parseEnum s o : quiet (parseEnum s o).
Proof. unfold parseEnum. quiet_auto. apply quiet_arrayElement. Qed.

Lemma quiet_parseNativeEnum s o : quiet (parseNativeEnum s o).
Proof. unfold parseNativeEnum. quiet_auto. apply quiet_arrayElement. Qed.

Lemma quiet_parseLiteral s o : quiet (parseLiteral s o).
Proof. unfold parseLiteral. quiet_auto. Qed.

Lemma quiet_parseUuid s o : quiet (parseUuid s o).
Proof. unfold parseUuid. quiet_auto. Qed.

Lemma quiet_prepare o : quiet (prepare o).
Proof. unfold prepare. quiet_auto. Qed.

Lemma quiet_contain d : quiet (contain (Fault d)).
Proof. unfold contain. simpl. quiet_auto. Qed.

Lemma quiet_depthControlled inner s o :
  lenient o ->
  (forall s o, lenient o -> quiet (inner s o)) ->
  quiet (depthControlled inner s o).
Proof.
  intros Ho Hi. unfold depthControlled.
  destruct (_ <=? _); [apply quiet_ret | apply Hi; exact Ho].
Qed.

Section Workers.
Variable gen : schema -> GenerateMockOptions -> M val.
Hypothesis Hgen : forall s o, lenient o -> quiet (gen s o).

Lemma quiet_array_element s o :
  lenient o -> quiet (array_element C gen s o).
Proof.
  intros Ho. unfold array_element.
  destruct (if String.eqb (typeName s) "ZodUndefined"
            then backup_lookup o "ZodUndefined" else None);
    [apply quiet_invoke_backup | apply Hgen; exact Ho].
Qed.

Lemma quiet_set_loop k target vt o results :
  lenient o -> quiet (set_loop gen k target vt o results).
Proof.
  intros Ho. revert results.
  induction k as [|k IH]; intros results; simpl; quiet_auto; auto.
Qed.

Lemma quiet_map_loop k target kt vt o results :
  lenient o -> quiet (map_loop gen k target kt vt o results).
Proof.
  intros Ho. revert results.
  induction k as [|k IH]; intros results; simpl; quiet_auto; auto.
Qed.

Lemma quiet_parseArray_inner s o :
  lenient o -> quiet (parseArray_inner C gen s o).
Proof.
  intros Ho. unfold parseArray_inner. destruct s; try apply quiet_fault.
  apply quiet_bind; [apply quiet_number_int|]. intros t.
  apply quiet_bind; [|intros xs; apply quiet_ret].
  apply quiet_repeatM, quiet_array_element, Ho.
Qed.

Lemma quiet_workerMap n tag worker :
  assoc tag (workerMap C gen n) = Some worker ->
  forall s o, lenient o -> quiet (worker s o).
Proof.
  apply (assoc_Forall
           (fun wk : schema -> GenerateMockOptions -> M val =>
              forall s o, lenient o -> quiet (wk s o))).
  unfold workerMap.
  repeat (apply Forall_cons; split; [cbn [snd]; intros s o Ho|]);
    [..|apply Forall_nil; exact I].
  all: try (apply quiet_depthControlled; [exact Ho|];
            clear s o Ho; intros s o Ho).
  all: try solve [ apply quiet_parseString | apply quiet_parseDate
                 | apply quiet_parseNumber | apply quiet_parseBoolean
                 | apply quiet_parseEnum | apply quiet_parseNativeEnum
                 | apply quiet_parseLiteral | apply quiet_parseUuid
                 | apply quiet_ret
                 | apply quiet_parseArray_inner; exact Ho ].
  - unfold parseObject_inner. destruct s; try apply quiet_fault.
    apply quiet_bind; [|intros props; apply quiet_ret].
    apply quiet_foldM. intros carry field.
    apply quiet_bind; [apply Hgen; exact Ho | intros v; apply quiet_ret].
  - unfold parseRecord. destruct (valid_array_length _); [|apply quiet_fault].
    destruct s; try apply quiet_fault.
    apply quiet_bind; [|intros props; apply quiet_ret].
    apply quiet_foldM. intros prev [].
    apply quiet_bind; [apply Hgen; exact Ho|]. intros k.
    apply quiet_bind; [apply Hgen; exact Ho|]. intros v. apply quiet_ret.
  - unfold parseSet_inner. destruct s; try apply quiet_fault.
    apply quiet_bind; [apply quiet_number_int|]. intros t.
    apply quiet_bind; [apply quiet_set_loop; exact Ho|].
    intros xs. apply quiet_ret.
  - unfold parseMap_inner. destruct s; try apply quiet_fault.
    apply quiet_bind; [apply quiet_map_loop; exact Ho|].
    intros xs. apply quiet_ret.
  - unfold parseLazy. destruct s; try apply quiet_fault.
    apply Hgen. exact Ho.
  - unfold parseUnion. destruct s; try apply quiet_fault;
      (apply quiet_bind; [apply quiet_arrayElement|]; intros alt;
       apply Hgen; exact Ho).
  - unfold parseZodIntersection. destruct s; try apply quiet_fault.
    apply quiet_bind; [apply Hgen; exact Ho|]. intros x.
    apply quiet_bind; [apply Hgen; exact Ho|]. intros y.
    apply quiet_lift_outcome, object_assign_quiet.
  - unfold parseDiscriminatedUnion, parseUnion.
    destruct s; try apply quiet_fault;
      (apply quiet_bind; [apply quiet_arrayElement|]; intros alt;
       apply Hgen; exact Ho).
  - unfold parseOptional. destruct s; try apply quiet_fault;
      (apply Hgen; exact Ho).
  - unfold parseOptional. destruct s; try apply quiet_fault;
      (apply Hgen; exact Ho).
  - unfold parseTransform. destruct s; try apply quiet_fault.
    apply quiet_bind; [apply Hgen; exact Ho|]. intros input.
    destruct eff; try apply quiet_ret.
    apply quiet_call_user. intros h. apply Hcallbacks.
  - unfold parseTransform. destruct s; try apply quiet_fault.
    apply quiet_bind; [apply Hgen; exact Ho|]. intros input.
    destruct eff; try apply quiet_ret.
    apply quiet_call_user. intros h. apply Hcallbacks.
  - unfold parseZodFunction.
    destruct s; first [apply quiet_fault | apply quiet_ret].
  - unfold parseZodPromise. destruct s; try apply quiet_fault.
    apply quiet_bind; [apply Hgen; exact Ho|]. intros v. apply quiet_ret.
  - unfold parseZodTuple. destruct s; try apply quiet_fault.
    apply quiet_bind; [apply quiet_mapM; intros def; apply Hgen; exact Ho|].
    intros results. destruct rest as [restSchema|]; [|apply quiet_ret].
    apply quiet_bind.
    + unfold parseArray. apply quiet_depthControlled; [exact Ho|].
      intros s' o' Ho'. apply quiet_parseArray_inner, Ho'.
    + intros next.
      destruct next; first [apply quiet_ret | apply quiet_fault].
  - unfold parseBranded. destruct s; try apply quiet_fault.
    apply Hgen. exact Ho.
  - unfold parseZodDefault. destruct s; try apply quiet_fault.
    apply quiet_bind; [apply quiet_draw|]. intros [|].
    + apply quiet_call_user. intros h. apply Hcallbacks.
    + apply Hgen. exact Ho.
Qed.

Lemma quiet_dispatch n s d :
  lenient d -> quiet (dispatch C (workerMap C gen n) s d).
Proof.
  intros Hd. unfold dispatch.
  destruct (if String.eqb (typeName s) "ZodUndefined"
            then backup_lookup d "ZodUndefined" else None) as [f|];
    [apply quiet_invoke_backup|].
  destruct (assoc (typeName s) (workerMap C gen n)) as [worker|] eqn:Hw;
    [exact (quiet_workerMap n _ _ Hw s d Hd)|].
  destruct (backup_lookup d (typeName s)); [apply quiet_invoke_backup|].
  unfold lenient in Hd. rewrite Hd. apply quiet_ret.
Qed.

End Workers.

Lemma quiet_generateMock fuel :
  forall s o, lenient o -> quiet (generateMock C fuel s o).
Proof.
  induction fuel as [|n IH]; intros s o Ho.
  - apply quiet_diverge.
  - intros w. rewrite generateMock_run.
    apply quiet_try_catch; [|apply quiet_contain].
    apply quiet_dispatch; [exact IH | exact Ho].
Qed.


End Lenient.

(** ** The lenient entry point returns a value *)

Section Returns.
Context {E : Env} (C : Callbacks heap).


End Returns.

(** ** The module-level Faker instance is left alone *)

Section ModuleFaker.
Context {E : Env} (C : Callbacks heap).

(** A computation that leaves the module-level instance as it found it. *)
Definition keeps {A} (m : M A) : Prop :=
  forall w, loaded (user w) ->
    fakers (user (snd (m w))) 0%nat = fakers (user w) 0%nat /\
    loaded (user (snd (m w))).

Lemma keeps_lift_outcome {A} (r : outcome A) : keeps (lift_outcome r).
Proof. intros w Hw. split; [reflexivity | exact Hw]. Qed.

Lemma keeps_ret {A} (a : A) : keeps (ret a).
Proof. intros w Hw. split; [reflexivity | exact Hw]. Qed.

Lemma keeps_throw {A} e : keeps (@throw _ A e).
Proof. intros w Hw. split; [reflexivity | exact Hw]. Qed.

Lemma keeps_diverge {A} : keeps (@diverge _ A).
Proof. intros w Hw. split; [reflexivity | exact Hw]. Qed.

Lemma keeps_bind_post {A B} (P : A -> Prop) (m : M A) (k : A -> M B) :
  keeps m -> (forall w a w', m w = (Ret a, w') -> P a) ->
  (forall a, P a -> keeps (k a)) -> keeps (bind m k).
Proof.
  intros Hm Hp Hk w Hw. unfold bind.
  specialize (Hm w Hw). specialize (Hp w).
  destruct (m w) as [[a|e|] w1]; simpl in *; try exact Hm.
  destruct Hm as [Hf Hl].
  destruct (Hk a (Hp a w1 eq_refl) w1 Hl) as [Hf' Hl'].
  split; [congruence | exact Hl'].
Qed.

Lemma keeps_bind {A B} (m : M A) (k : A -> M B) :
  keeps m -> (forall a, keeps (k a)) -> keeps (bind m k).
Proof. intros Hm Hk. apply (keeps_bind_post (fun _ => True)); auto. Qed.

Lemma keeps_try_catch {A} (m : M A) (h : error -> M A) :
  keeps m -> (forall e, keeps (h e)) -> keeps (try_catch m h).
Proof.
  intros Hm Hh w Hw. unfold try_catch. specialize (Hm w Hw).
  destruct (m w) as [[a|e|] w1]; simpl in *; try exact Hm.
  destruct Hm as [Hf Hl]. destruct (Hh e w1 Hl) as [Hf' Hl'].
  split; [congruence | exact Hl'].
Qed.

Lemma keeps_draw {A} r (f : rng -> A * rng) :
  r <> 0%nat -> keeps (draw r f).
Proof.
  intros Hr w Hw. unfold draw. destruct (f _) as [a s]. simpl.
  destruct r; [contradiction|]. split; [reflexivity | exact Hw].
Qed.

Lemma keeps_call_member {A} r (f : Z -> rng -> outcome A * rng) :
  r <> 0%nat -> keeps (call_member r f).
Proof.
  intros Hr w Hw. unfold call_member. destruct (f _ _) as [a s]. simpl.
  destruct r; [contradiction|]. split; [reflexivity | exact Hw].
Qed.

Lemma keeps_call_user {A} (f : heap -> outcome A * heap) :
  leaves_module_faker f -> keeps (call_user f).
Proof.
  intros Hf w Hw. unfold call_user. specialize (Hf (user w) Hw).
  destruct (f _) as [a h]. exact Hf.
Qed.

Lemma keeps_console_log l : keeps (console_log l).
Proof. intros w Hw. split; [reflexivity | exact Hw]. Qed.

Lemma keeps_get_now : keeps get_now.
Proof. intros w Hw. split; [reflexivity | exact Hw]. Qed.

(** A new instance takes the next reference, which is not [0]. *)
Lemma keeps_new_Faker : keeps new_Faker.
Proof.
  intros w Hw. unfold new_Faker, loaded in *. simpl.
  destruct (next_faker (user w)); [lia|]. split; [reflexivity | lia].
Qed.

Lemma keeps_faker_seed r s : r <> 0%nat -> keeps (faker_seed r s).
Proof.
  intros Hr w Hw. unfold faker_seed. simpl.
  destruct r; [contradiction|]. split; [reflexivity | exact Hw].
Qed.

Lemma keeps_record_backup_call key : keeps (record_backup_call key).
Proof. intros w Hw. split; [reflexivity | exact Hw]. Qed.

(** One step of a proof that a computation keeps the instance. *)
Ltac keeps_step :=
  lazymatch goal with
  | |- keeps (bind _ _) => apply keeps_bind; [|intros ?]
  | |- keeps (try_catch _ _) => apply keeps_try_catch; [|intros ?]
  | |- keeps (ret _) => apply keeps_ret
  | |- keeps (throw _) => apply keeps_throw
  | |- keeps diverge => apply keeps_diverge
  | |- keeps (draw _ _) => apply keeps_draw; try assumption
  | |- keeps (console_log _) => apply keeps_console_log
  | |- keeps get_now => apply keeps_get_now
  | |- keeps new_Faker => apply keeps_new_Faker
  | |- keeps (record_backup_call _) => apply keeps_record_backup_call
  | |- keeps (match ?x with _ => _ end) => destruct x
  end.

Ltac keeps_auto := repeat keeps_step.

Lemma keeps_number_int r mn mx : r <> 0%nat -> keeps (number_int r mn mx).
Proof. intros Hr. unfold number_int. keeps_auto. Qed.

Lemma keeps_arrayElement {A} r (l : list A) :
  r <> 0%nat -> keeps (helpers_arrayElement r l).
Proof.
  intros Hr. unfold helpers_arrayElement. destruct l as [|x [|y l]]; keeps_auto.
  apply keeps_number_int, Hr.
Qed.

Lemma keeps_string_alpha r n : r <> 0%nat -> keeps (string_alpha r n).
Proof.
  intros Hr w Hw. unfold string_alpha. destruct (rand_alpha _ _) as [a s].
  simpl. destruct r; [contradiction|]. split; [reflexivity | exact Hw].
Qed.

Lemma keeps_toDate d : keeps (toDate d).
Proof. unfold toDate. keeps_auto. Qed.

Lemma keeps_date_between r a b : r <> 0%nat -> keeps (date_between r a b).
Proof.
  intros Hr. unfold date_between.
  keeps_auto; first [apply keeps_toDate | apply keeps_number_int, Hr].
Qed.

Lemma keeps_date_soon r d ref : r <> 0%nat -> keeps (date_soon r d ref).
Proof.
  intros Hr. unfold date_soon.
  keeps_auto; first [apply keeps_toDate | apply keeps_number_int, Hr].
Qed.

Lemma keeps_date_recent r d ref : r <> 0%nat -> keeps (date_recent r d ref).
Proof.
  intros Hr. unfold date_recent.
  keeps_auto; first [apply keeps_toDate | apply keeps_number_int, Hr].
Qed.

Lemma keeps_mapM {A B} (f : A -> M B) l :
  (forall x, In x l -> keeps (f x)) -> keeps (mapM f l).
Proof.
  induction l as [|x l IH]; intros Hf; simpl; keeps_auto.
  - apply Hf. left. reflexivity.
  - apply IH. intros y Hy. apply Hf. right. exact Hy.
Qed.

Lemma keeps_foldM {A B} (f : B -> A -> M B) l b :
  (forall b x, In x l -> keeps (f b x)) -> keeps (foldM f l b).
Proof.
  revert b. induction l as [|x l IH]; intros b Hf; simpl; keeps_auto.
  - apply Hf. left. reflexivity.
  - apply IH. intros b' y Hy. apply Hf. right. exact Hy.
Qed.

Lemma keeps_findM {A} (p : A -> M bool) l :
  (forall x, keeps (p x)) -> keeps (findM p l).
Proof. intros Hp. induction l as [|x l IH]; simpl; keeps_auto; auto. Qed.

Lemma keeps_repeatM {A} k (m : M A) : keeps m -> keeps (repeatM k m).
Proof. intros Hm. induction k as [|k IH]; simpl; keeps_auto; auto. Qed.

Lemma keeps_toString_method v : keeps (toString_method v).
Proof. unfold toString_method. keeps_auto. Qed.

Hypothesis Hcallbacks : discreet_callbacks C.

Lemma keeps_invoke_backup key f s o : keeps (invoke_backup C key f s o).
Proof.
  unfold invoke_backup. keeps_auto. apply keeps_call_user, Hcallbacks.
Qed.

Lemma keeps_probe r keyName members fnKey :
  r <> 0%nat -> keeps (probe r keyName members fnKey).
Proof.
  intros Hr. unfold probe.
  destruct (_ || _)%bool; [|apply keeps_ret].
  destruct (assoc keyName members) as [[|fn]|]; try apply keeps_ret.
  keeps_auto. apply keeps_call_member, Hr.
Qed.

Lemma keeps_findMatchingFaker k r mapper :
  default 0%nat r <> 0%nat -> keeps (findMatchingFaker C k r mapper).
Proof.
  intros Hr. unfold findMatchingFaker. apply keeps_bind.
  - destruct mapper; keeps_auto. apply keeps_call_user, Hcallbacks.
  - intros [g|]; [apply keeps_ret|]. apply keeps_bind.
    + apply keeps_findM. intros [section members]. keeps_auto.
      apply keeps_findM. intros fnKey. apply keeps_probe, Hr.
    + intros found. keeps_auto.
Qed.

Lemma keeps_call_generator r g :
  r <> 0%nat -> keeps (call_generator C r g).
Proof.
  intros Hr. unfold call_generator. destruct g as [t| |k|section name|f| |].
  - keeps_auto.
  - keeps_auto. apply keeps_date_recent, Hr.
  - keeps_auto.
  - destruct (assoc section catalog) as [members|]; [|apply keeps_throw].
    destruct (assoc name members) as [[|fn]|]; try apply keeps_throw.
    apply keeps_call_member, Hr.
  - apply keeps_call_user, Hcallbacks.
  - apply keeps_ret.
  - apply keeps_throw.
Qed.

(** The options a synthesizer receives carry a Faker instance of their
    own. *)
Definition own_faker (o : GenerateMockOptions) : Prop :=
  exists r, faker o = Some r /\ r <> 0%nat.

Lemma own_faker_instance o : own_faker o -> fakerInstance o <> 0%nat.
Proof. intros (r & Hf & Hr). unfold fakerInstance. rewrite Hf. exact Hr. Qed.

Lemma own_faker_default o :
  own_faker o -> default 0%nat (faker o) <> 0%nat.
Proof. exact (own_faker_instance o). Qed.

Lemma keeps_parseString s o : own_faker o -> keeps (parseString C s o).
Proof.
  intros Ho. pose proof (own_faker_instance o Ho) as Hr.
  pose proof (own_faker_default o Ho) as Hd.
  unfold parseString.
  destruct (find _ _) as [[k v [re|]]|].
  - keeps_auto.
  - destruct (stringMap_generator o);
      [apply keeps_call_user, Hcallbacks|].
    unfold parseString_sized. keeps_auto;
      first [ apply keeps_number_int; exact Hr
            | apply keeps_findMatchingFaker; exact Hd
            | apply keeps_call_generator; exact Hr
            | apply keeps_toString_method
            | apply keeps_string_alpha; exact Hr ].
  - destruct (stringMap_generator o);
      [apply keeps_call_user, Hcallbacks|].
    unfold parseString_sized. keeps_auto;
      first [ apply keeps_number_int; exact Hr
            | apply keeps_findMatchingFaker; exact Hd
            | apply keeps_call_generator; exact Hr
            | apply keeps_toString_method
            | apply keeps_string_alpha; exact Hr ].
Qed.

Lemma keeps_parseDate s o : own_faker o -> keeps (parseDate s o).
Proof.
  intros Ho. pose proof (own_faker_instance o Ho) as Hr.
  unfold parseDate, date_bounds. keeps_auto;
    first [ apply keeps_date_between; exact Hr
          | apply keeps_date_soon; exact Hr
          | apply keeps_date_recent; exact Hr | idtac ].
  apply keeps_foldM. intros acc item _. keeps_auto.
Qed.

Lemma keeps_parseNumber s o : own_faker o -> keeps (parseNumber s o).
Proof.
  intros Ho. pose proof (own_faker_instance o Ho) as Hr.
  unfold parseNumber. keeps_auto. apply keeps_number_int, Hr.
Qed.

Lemma keeps_parseBoolean s o : own_faker o -> keeps (parseBoolean s o).
Proof.
  intros Ho. pose proof (own_faker_instance o Ho) as Hr.
  unfold parseBoolean. keeps_auto.
Qed.

Lemma keeps_parseEnum s o : own_faker o -> keeps (parseEnum s o).
Proof.
  intros Ho. pose proof (own_faker_instance o Ho) as Hr.
  unfold parseEnum. keeps_auto. apply keeps_arrayElement, Hr.
Qed.

Lemma keeps_parseNativeEnum s o : own_faker o -> keeps (parseNativeEnum s o).
Proof.
  intros Ho. pose proof (own_faker_instance o Ho) as Hr.
  unfold parseNativeEnum. keeps_auto. apply keeps_arrayElement, Hr.
Qed.

Lemma keeps_parseLiteral s o : keeps (parseLiteral s o).
Proof. unfold parseLiteral. keeps_auto. Qed.

Lemma keeps_contain e : keeps (contain e).
Proof. unfold contain. keeps_auto. Qed.

Lemma keeps_depthControlled inner s o :
  own_faker o ->
  (forall o', own_faker o' -> keeps (inner s o')) ->
  keeps (depthControlled inner s o).
Proof.
  intros Ho Hi. unfold depthControlled.
  destruct (_ <=? _); [apply keeps_ret | apply Hi; exact Ho].
Qed.

Section Node.
Variable gen : schema -> GenerateMockOptions -> M val.

Lemma keeps_array_element element o :
  (forall o', own_faker o' -> keeps (gen element o')) ->
  own_faker o -> keeps (array_element C gen element o).
Proof.
  intros Hel Ho. unfold array_element.
  destruct (if String.eqb (typeName element) "ZodUndefined"
            then backup_lookup o "ZodUndefined" else None);
    [apply keeps_invoke_backup | apply Hel; exact Ho].
Qed.

Lemma keeps_set_loop k target vt o results :
  (forall o', own_faker o' -> keeps (gen vt o')) ->
  own_faker o -> keeps (set_loop gen k target vt o results).
Proof.
  intros Hel Ho. revert results.
  induction k as [|k IH]; intros results; simpl; keeps_auto; auto.
Qed.

Lemma keeps_map_loop k target kt vt o results :
  (forall o', own_faker o' -> keeps (gen kt o')) ->
  (forall o', own_faker o' -> keeps (gen vt o')) ->
  own_faker o -> keeps (map_loop gen k target kt vt o results).
Proof.
  intros Hk Hv Ho. revert results.
  induction k as [|k IH]; intros results; simpl; keeps_auto; auto.
Qed.

Lemma keeps_parseArray_inner element mn mx ex o :
  (forall o', own_faker o' -> keeps (gen element o')) ->
  own_faker o ->
  keeps (parseArray_inner C gen (ZodArray element mn mx ex) o).
Proof.
  intros Hel Ho. unfold parseArray_inner.
  apply keeps_bind; [apply keeps_number_int, own_faker_instance, Ho|].
  intros t. apply keeps_bind; [|intros xs; apply keeps_ret].
  apply keeps_repeatM, keeps_array_element; assumption.
Qed.

Section OneNode.
Variable s : schema.

Hypothesis Hgen : forall c o,
  In c (children s) -> own_faker o -> keeps (gen c o).
Hypothesis Hgetter : forall g o,
  s = ZodLazy g -> own_faker o -> keeps (gen (getter_fn C g) o).

(** Every synthesizer of the registry but [parseUuid]. *)
Lemma keeps_workerMap n :
  Forall (fun entry : string * (schema -> GenerateMockOptions -> M val) =>
            fst entry <> "ZodUuid" ->
            forall o, own_faker o -> keeps (snd entry s o))
         (workerMap C gen n).
Proof.
  unfold workerMap.
  repeat (apply Forall_cons; split; [cbn [fst snd]; intros Htag o Ho|]);
    [..|apply Forall_nil; exact I].
  all: try solve [ apply keeps_parseString; exact Ho
                 | apply keeps_parseDate; exact Ho
                 | apply keeps_parseNumber; exact Ho
                 | apply keeps_parseBoolean; exact Ho
                 | apply keeps_parseEnum; exact Ho
                 | apply keeps_parseNativeEnum; exact Ho
                 | apply keeps_parseLiteral
                 | apply keeps_ret
                 | contradiction ].
  - (* ZodObject *)
    apply keeps_depthControlled; [exact Ho|]. intros o' Ho'.
    unfold parseObject_inner. destruct s; try apply keeps_throw.
    apply keeps_bind; [|intros props; apply keeps_ret].
    apply keeps_foldM. intros carry field Hin.
    apply keeps_bind; [|intros v; apply keeps_ret].
    apply Hgen; [simpl; apply in_map; exact Hin | exact Ho'].
  - (* ZodRecord *)
    apply keeps_depthControlled; [exact Ho|]. intros o' Ho'.
    unfold parseRecord. destruct (valid_array_length _); [|apply keeps_throw].
    destruct s; try apply keeps_throw.
    apply keeps_bind; [|intros props; apply keeps_ret].
    apply keeps_foldM. intros prev [] _.
    apply keeps_bind; [apply Hgen; [simpl; tauto | exact Ho']|]. intros k.
    apply keeps_bind; [apply Hgen; [simpl; tauto | exact Ho']|]. intros v.
    apply keeps_ret.
  - (* ZodArray *)
    apply keeps_depthControlled; [exact Ho|]. intros o' Ho'.
    destruct s; try apply keeps_throw.
    apply keeps_parseArray_inner; [|exact Ho'].
    intros o2 Ho2. apply Hgen; [simpl; tauto | exact Ho2].
  - (* ZodSet *)
    apply keeps_depthControlled; [exact Ho|]. intros o' Ho'.
    unfold parseSet_inner. destruct s; try apply keeps_throw.
    apply keeps_bind; [apply keeps_number_int, own_faker_instance, Ho'|].
    intros t. apply keeps_bind; [|intros xs; apply keeps_ret].
    apply keeps_set_loop; [|exact Ho'].
    intros o2 Ho2. apply Hgen; [simpl; tauto | exact Ho2].
  - (* ZodMap *)
    apply keeps_depthControlled; [exact Ho|]. intros o' Ho'.
    unfold parseMap_inner. destruct s; try apply keeps_throw.
    apply keeps_bind; [|intros xs; apply keeps_ret].
    apply keeps_map_loop; [| |exact Ho'];
      intros o2 Ho2; (apply Hgen; [simpl; tauto | exact Ho2]).
  - (* ZodLazy *)
    apply keeps_depthControlled; [exact Ho|]. intros o' Ho'.
    unfold parseLazy. destruct s eqn:Hnode; try apply keeps_throw.
    apply (Hgetter _ _ eq_refl Ho').
  - (* ZodUnion *)
    unfold parseUnion. destruct s; try apply keeps_throw.
    + apply (keeps_bind_post (fun alt => In alt alternatives));
        [apply keeps_arrayElement, own_faker_instance, Ho
        | apply arrayElement_In|].
      intros alt Hin. apply Hgen; [exact Hin | exact Ho].
    + apply (keeps_bind_post (fun alt => In alt alternatives));
        [apply keeps_arrayElement, own_faker_instance, Ho
        | apply arrayElement_In|].
      intros alt Hin. apply Hgen; [exact Hin | exact Ho].
  - (* ZodIntersection *)
    unfold parseZodIntersection. destruct s; try apply keeps_throw.
    apply keeps_bind; [apply Hgen; [simpl; tauto | exact Ho]|]. intros x.
    apply keeps_bind; [apply Hgen; [simpl; tauto | exact Ho]|]. intros y.
    apply keeps_lift_outcome.
  - (* ZodDiscriminatedUnion *)
    unfold parseDiscriminatedUnion, parseUnion.
    destruct s; try apply keeps_throw.
    + apply (keeps_bind_post (fun alt => In alt alternatives));
        [apply keeps_arrayElement, own_faker_instance, Ho
        | apply arrayElement_In|].
      intros alt Hin. apply Hgen; [exact Hin | exact Ho].
    + apply (keeps_bind_post (fun alt => In alt alternatives));
        [apply keeps_arrayElement, own_faker_instance, Ho
        | apply arrayElement_In|].
      intros alt Hin. apply Hgen; [exact Hin | exact Ho].
  - (* ZodOptional *)
    unfold parseOptional. destruct s; try apply keeps_throw;
      (apply Hgen; [simpl; tauto | exact Ho]).
  - (* ZodNullable *)
    unfold parseOptional. destruct s; try apply keeps_throw;
      (apply Hgen; [simpl; tauto | exact Ho]).
  - (* ZodTransformer *)
    unfold parseTransform. destruct s; try apply keeps_throw.
    apply keeps_bind; [apply Hgen; [simpl; tauto | exact Ho]|]. intros input.
    destruct eff; try apply keeps_ret.
    apply keeps_call_user, Hcallbacks.
  - (* ZodEffects *)
    unfold parseTransform. destruct s; try apply keeps_throw.
    apply keeps_bind; [apply Hgen; [simpl; tauto | exact Ho]|]. intros input.
    destruct eff; try apply keeps_ret.
    apply keeps_call_user, Hcallbacks.
  - (* ZodFunction *)
    unfold parseZodFunction.
    destruct s; first [apply keeps_throw | apply keeps_ret].
  - (* ZodPromise *)
    unfold parseZodPromise. destruct s; try apply keeps_throw.
    apply keeps_bind; [apply Hgen; [simpl; tauto | exact Ho]|]. intros v.
    apply keeps_ret.
  - (* ZodTuple *)
    unfold parseZodTuple. destruct s; try apply keeps_throw.
    apply keeps_bind.
    + apply keeps_mapM. intros def Hin.
      apply Hgen; [simpl; apply in_or_app; left; exact Hin | exact Ho].
    + intros results. destruct rest as [restSchema|]; [|apply keeps_ret].
      apply keeps_bind.
      * unfold parseArray.
        apply keeps_depthControlled; [exact Ho|]. intros o' Ho'.
        apply keeps_parseArray_inner; [|exact Ho'].
        intros o2 Ho2. apply Hgen; [|exact Ho2].
        simpl. apply in_or_app. right. left. reflexivity.
      * intros next.
        destruct next; first [apply keeps_ret | apply keeps_throw].
  - (* ZodBranded *)
    unfold parseBranded. destruct s; try apply keeps_throw.
    apply Hgen; [simpl; tauto | exact Ho].
  - (* ZodDefault *)
    unfold parseZodDefault. destruct s; try apply keeps_throw.
    apply keeps_bind;
      [apply keeps_draw, own_faker_instance, Ho|]. intros [|].
    + apply keeps_call_user, Hcallbacks.
    + apply Hgen; [simpl; tauto | exact Ho].
Qed.

Lemma keeps_dispatch n d :
  typeName s <> "ZodUuid" -> own_faker d ->
  keeps (dispatch C (workerMap C gen n) s d).
Proof.
  intros Hs Hd. unfold dispatch.
  destruct (if String.eqb (typeName s) "ZodUndefined"
            then backup_lookup d "ZodUndefined" else None) as [f|];
    [apply keeps_invoke_backup|].
  destruct (assoc (typeName s) (workerMap C gen n)) as [worker|] eqn:Hw.
  - pose proof (keeps_workerMap n) as Hall.
    rewrite List.Forall_forall in Hall.
    exact (Hall _ (assoc_In _ _ _ Hw) Hs d Hd).
  - destruct (backup_lookup d (typeName s)); [apply keeps_invoke_backup|].
    destruct (default false (throwOnUnknownType d));
      [apply keeps_throw | apply keeps_ret].
Qed.

End OneNode.

End Node.

(** *** Nodes without [ZodUuid] *)

Lemma uuid_free_top s : uuid_free s = true -> typeName s <> "ZodUuid".
Proof.
  destruct s; simpl; try discriminate.
  intros H Heq. subst. discriminate.
Qed.

Lemma uuid_free_children s c :
  uuid_free s = true -> In c (children s) -> uuid_free c = true.
Proof.
  destruct s; simpl; try tauto.
  all: rewrite ?andb_true_iff, ?forallb_forall.
  all: try (intros H Hin; rewrite in_map_iff in Hin;
            destruct Hin as (f & <- & Hf); apply H; exact Hf).
  all: try (intros [H1 H2] [<-|[<-|[]]]; assumption).
  all: try (intros H [<-|[]]; assumption).
  all: try (intros H Hin; apply H; exact Hin).
  intros [H1 H2] Hin. apply in_app_or in Hin. destruct Hin as [Hin|Hin].
  - apply H1, Hin.
  - destruct rest; simpl in Hin; [|contradiction].
    destruct Hin as [<-|[]]. exact H2.
Qed.

Hypothesis Hgetters : forall g, uuid_free (getter_fn C g) = true.

Lemma defaultOptions_own_faker fresh o :
  fresh <> 0%nat -> faker o <> Some 0%nat ->
  own_faker (defaultOptions fresh o).
Proof.
  intros Hfresh Ho. exists (default fresh (faker o)).
  split; [reflexivity|].
  destruct (faker o) as [r|]; simpl; [|exact Hfresh].
  intros ->. apply Ho. reflexivity.
Qed.

(** Completing the options allocates an instance and may seed the instance
    of the call, which is not the module-level one. *)
Lemma prepare_state o w :
  faker o <> Some 0%nat -> loaded (user w) ->
  fakers (user (snd (prepare o w))) 0%nat = fakers (user w) 0%nat /\
  loaded (user (snd (prepare o w))).
Proof.
  intros Ho Hw.
  assert (Hfresh : next_faker (user w) <> 0%nat)
    by (unfold loaded in Hw; lia).
  pose proof (own_faker_instance _ (defaultOptions_own_faker _ o Hfresh Ho))
    as Hr.
  unfold prepare, bind, new_Faker, ret, loaded in *. cbn [fst snd].
  change (seed (defaultOptions (next_faker (user w)) o)) with (seed o).
  destruct (seed o) as [sd|]; unfold faker_seed, ret; simpl.
  - destruct (fakerInstance (defaultOptions (next_faker (user w)) o));
      [contradiction|].
    destruct (next_faker (user w)); [contradiction|].
    split; [reflexivity | lia].
  - destruct (next_faker (user w)); [contradiction|].
    split; [reflexivity | lia].
Qed.

Lemma keeps_generateMock fuel :
  forall s o, uuid_free s = true -> faker o <> Some 0%nat ->
              keeps (generateMock C fuel s o).
Proof.
  induction fuel as [|n IH]; intros s o Hs Ho; [apply keeps_diverge|].
  assert (Hown : forall o', own_faker o' -> faker o' <> Some 0%nat).
  { intros o' (r & Hf & Hr) H. rewrite Hf in H. injection H as ->.
    apply Hr. reflexivity. }
  intros w Hw. rewrite generateMock_run.
  destruct (prepare_state o w Ho Hw) as [Hf Hl].
  assert (Hd : own_faker (defaultOptions (next_faker (user w)) o)).
  { apply defaultOptions_own_faker; [|exact Ho]. unfold loaded in Hw. lia. }
  assert (Hrun : keeps (try_catch
                          (dispatch C (workerMap C (generateMock C n) n) s
                             (defaultOptions (next_faker (user w)) o))
                          contain)).
  { apply keeps_try_catch; [|apply keeps_contain].
    apply keeps_dispatch; [| |apply uuid_free_top, Hs|exact Hd].
    - intros c o' Hc Ho'.
      apply IH; [exact (uuid_free_children s c Hs Hc) | apply Hown, Ho'].
    - intros g o' _ Ho'. apply IH; [apply Hgetters | apply Hown, Ho']. }
  destruct (Hrun _ Hl) as [Hf' Hl'].
  split; [congruence | exact Hl'].
Qed.


End ModuleFaker.

(** ** The factory *)

Section SpreadFacts.

Lemma assign_props_NoDup source target :
  List.NoDup (map fst target) ->
  List.NoDup (map fst (assign_props target source)).
Proof.
  unfold assign_props. revert target.
  induction source as [|[k v] source IH]; simpl; intros target Hnd;
    [exact Hnd|].
  apply IH, obj_set_NoDup, Hnd.
Qed.

Lemma assoc_assign_props source target k :
  List.NoDup (map fst source) ->
  assoc k (assign_props target source)
  = match assoc k source with
    | Some x => Some x
    | None => assoc k target
    end.
Proof. intros Hnd. apply assoc_assign, Hnd. Qed.

(** Copying properties with distinct keys into an empty object gives the
    same bindings. *)
Lemma assoc_assign_empty source k :
  List.NoDup (map fst source) ->
  assoc k (assign_props [] source) = assoc k source.
Proof.
  intros Hnd. rewrite assoc_assign_props by exact Hnd.
  destruct (assoc k source); reflexivity.
Qed.

Lemma spread_pair a b :
  spread [a; b]
  = VObj (assign_props (assign_props [] (own_props a)) (own_props b)).
Proof. reflexivity. Qed.

Lemma spread_pair_NoDup a b props :
  spread [a; b] = VObj props -> List.NoDup (map fst props).
Proof.
  rewrite spread_pair. intros H. injection H as <-.
  apply assign_props_NoDup, assign_props_NoDup. constructor.
Qed.

(** In [{ ...a, ...b }] the properties of [b] win. *)
Lemma assoc_spread_pair a b k :
  List.NoDup (map fst (own_props b)) ->
  assoc k (own_props (spread [a; b]))
  = match assoc k (own_props b) with
    | Some x => Some x
    | None => assoc k (own_props (spread [a]))
    end.
Proof.
  intros Hnd. rewrite spread_pair. cbn [own_props].
  apply assoc_assign_props, Hnd.
Qed.

Lemma assoc_filter_out key props :
  assoc key (List.filter (fun p : string * val =>
                            negb (String.eqb (fst p) key)) props) = None.
Proof.
  induction props as [|[k v] ps IH]; simpl; [reflexivity|].
  destruct (String.eqb_spec k key) as [->|Hne]; simpl; [exact IH|].
  destruct (String.eqb_spec k key); [congruence | exact IH].
Qed.

End SpreadFacts.

Section FactoryFacts.
Context {E : Env} {Z_ : Validator} (C : Callbacks heap).

Lemma mapM_length {A} (f : A -> M val) l w ys w' :
  mapM f l w = (Ret ys, w') -> length ys = length l.
Proof.
  intros H. apply mapM_Ret_inv in H.
  induction H; simpl; congruence.
Qed.

Lemma indices_length count : Z.of_nat (length (indices count)) = Z.max 0 count.
Proof. unfold indices. rewrite length_map, length_seq. lia. Qed.

(** X17.  [createMany(count, attributes)] throws a [RangeError], before
    generating anything, for a count of [2^32] or more, and returns the
    empty array, again without generating anything, for a count of zero or
    less.  Whenever it returns, it returns an array of [count] objects, none
    of which has the [_index] property that the method adds on the way. *)
Theorem createMany_shape fuel f count attributes w :
  (4294967296 <= count ->
   createMany C fuel f count attributes w
   = (Throw (Fault "RangeError: Invalid array length"), w)) /\
  (count <= 0 -> createMany C fuel f count attributes w = (Ret (VArr []), w)) /\
  (forall v,
     fst (createMany C fuel f count attributes w) = Ret v ->
     exists items,
       v = VArr items /\
       Z.of_nat (length items) = Z.max 0 count /\
       Forall (fun item => exists props,
                 item = VObj props /\ assoc "_index" props = None) items).
Proof.
  unfold createMany. repeat split.
  - intros Hbig. destruct (Z.leb_spec 4294967296 count); [reflexivity | lia].
  - intros Hneg. destruct (Z.leb_spec 4294967296 count); [lia|].
    unfold indices. replace (Z.to_nat count) with 0%nat by lia. reflexivity.
  - intros v Hv. destruct (Z.leb_spec 4294967296 count); [discriminate|].
    apply fst_Ret_inv in Hv as (w' & Hv).
    apply bind_Ret_inv in Hv as (items & w1 & Hitems & Hv).
    apply bind_Ret_inv in Hv as (rests & w2 & Hrests & Hv).
    injection Hv as <- _.
    exists rests. split; [reflexivity|]. split.
    + rewrite (mapM_length _ _ _ _ _ Hrests), (mapM_length _ _ _ _ _ Hitems).
      apply indices_length.
    + apply mapM_Ret_inv in Hrests.
      clear -Hrests. induction Hrests as [|item r items rs Hg _ IH];
        constructor; [|exact IH].
      destruct Hg as (wa & wb & Hg). unfold lift_outcome, rest_without in Hg.
      destruct item; try discriminate; injection Hg as <- _;
        (eexists; split;
         [reflexivity | first [apply assoc_filter_out | reflexivity]]).
Qed.

(** The callback of a factory, or [undefined] without one:
    [fakerCallback?.(f)]. *)
Definition callback_result (f : Factory) (r : nat) : M val :=
  match factory_callback f with
  | Some cb => cb r
  | None => ret VUndefined
  end.

(** X18.  [state] accumulates, and the later state wins.  After
    [state(a)] and then [state(b)] with attributes [a] and [b] (objects with
    distinct keys, not functions), the callback of the factory returns,
    whenever the callback of the first factory returns [base], an object in
    which a key has the value that [b] gives it, else the value that [a]
    gives it, else the value that [base] gives it. *)
Theorem state_later_wins fuel f a b r w base w' :
  as_function a = None -> as_function b = None ->
  List.NoDup (map fst (own_props a)) ->
  List.NoDup (map fst (own_props b)) ->
  callback_result f r w = (Ret base, w') ->
  exists props,
    callback_result (state C fuel (state C fuel f (Attributes a)) (Attributes b))
      r w
    = (Ret (VObj props), w') /\
    forall k,
      assoc k props
      = match assoc k (own_props b) with
        | Some x => Some x
        | None =>
            match assoc k (own_props a) with
            | Some x => Some x
            | None => assoc k (own_props (spread [base]))
            end
        end.
Proof.
  intros Ha Hb Hnda Hndb Hbase.
  assert (Hrun :
    callback_result (state C fuel (state C fuel f (Attributes a)) (Attributes b))
      r w
    = (Ret (spread [spread [base; a]; b]), w')).
  { unfold callback_result in *. unfold state, factory.
    cbn [factory_callback]. unfold state_attributes. rewrite Ha, Hb.
    destruct (factory_callback f) as [cb|].
    - unfold bind, ret. rewrite Hbase. reflexivity.
    - unfold ret in Hbase. injection Hbase as <- <-. reflexivity. }
  rewrite Hrun.
  exists (assign_props (assign_props [] (own_props (spread [base; a])))
            (own_props b)).
  split; [reflexivity|]. intros k.
  rewrite assoc_assign_props by exact Hndb.
  destruct (assoc k (own_props b)); [reflexivity|].
  rewrite assoc_assign_empty.
  - apply (assoc_spread_pair base a k Hnda).
  - apply (spread_pair_NoDup base a). reflexivity.
Qed.

(** X19.  [raw(attributes)] returns an object in which every attribute has
    the value supplied, and [create(attributes)] is the validation of that
    object: it returns the data of [safeParse] when the object is accepted
    and throws [Invalid input] when it is rejected. *)
Theorem raw_attributes_win fuel f attributes w :
  (forall v,
     fst (raw C fuel f attributes w) = Ret v ->
     exists props,
       v = VObj props /\
       (List.NoDup (map fst (own_props attributes)) ->
        forall k x,
          assoc k (own_props attributes) = Some x -> assoc k props = Some x))
  /\
  fst (create C fuel f attributes w)
  = match fst (raw C fuel f attributes w) with
    | Ret merged =>
        match safeParse (factory_schema f) merged with
        | inl data => Ret data
        | inr error => Throw (Fault ("Error: Invalid input: " +:+ error))
        end
    | Throw e => Throw e
    | Diverge => Diverge
    end.
Proof.
  unfold raw, create, bind.
  destruct (mockFactory C fuel f w) as [[mock|e|] w1]; simpl.
  - split.
    + intros v Hv. injection Hv as <-.
      exists (assign_props (assign_props [] (own_props mock))
                (own_props attributes)).
      split; [reflexivity|].
      intros Hnd k x Hk. rewrite assoc_assign_props by exact Hnd.
      rewrite Hk. reflexivity.
    + destruct (safeParse _ _); reflexivity.
  - split; [discriminate | reflexivity].
  - split; [discriminate | reflexivity].
Qed.

End FactoryFacts.

(** *** The factory and the clock *)

Section FactoryClock.
Context {E : Env} {Z_ : Validator} (C : Callbacks heap).

Hypothesis Hlazy : forall g, seed_stable (getter_fn C g) = true.
Hypothesis Htransform : forall f v, pure_call (transform_fn C f v).
Hypothesis Hdefault : forall f, pure_call (default_fn C f).

(** The state in which [createMockFactory] calls the engine: a new Faker
    instance, seeded with the clock reading. *)
Definition seeded_start (w : world) : world :=
  snd (faker_seed (next_faker (user w)) (SeedNumber (now (user w)))
         (snd (new_Faker w))).

(** Without a callback, what the function of [createMockFactory] yields is
    the validation of what the engine generates from [seeded_start]. *)
Lemma mockFactory_outcome fuel s w :
  fst (mockFactory C fuel (factory s None) w)
  = match fst (generateMock C fuel s
                 (set_faker (next_faker (user w)) no_options)
                 (seeded_start w)) with
    | Ret mockData =>
        match safeParse s (spread [mockData; VObj []]) with
        | inl parsed => Ret parsed
        | inr error => Throw (Fault ("ZodError: " +:+ error))
        end
    | Throw e => Throw e
    | Diverge => Diverge
    end.
Proof.
  unfold mockFactory, createMockFactory, factory. cbn [factory_schema
    factory_callback].
  unfold bind at 1. unfold new_Faker at 1. cbv beta iota zeta.
  unfold bind at 1. unfold get_now at 1. cbv beta iota zeta.
  unfold bind at 1. unfold faker_seed at 1. cbv beta iota zeta.
  unfold bind at 1.
  change (generateMock C fuel s _ _)
    with (generateMock C fuel s (set_faker (next_faker (user w)) no_options)
            (seeded_start w)).
  destruct (generateMock C fuel s _ (seeded_start w)) as [[m|e|] w1];
    try reflexivity.
  unfold bind, ret, parse. cbn [fst].
  destruct (safeParse s (spread [m; VObj []])); reflexivity.
Qed.

Lemma seeded_start_agree w1 w2 :
  now (user w1) = now (user w2) ->
  agree (next_faker (user w1)) (next_faker (user w2)) true
    (seeded_start w1) (seeded_start w2).
Proof.
  intros Hnow. unfold agree, seeded_start, faker_seed, new_Faker. simpl.
  rewrite !Nat.eqb_refl, Hnow. repeat split; auto.
Qed.

(** X20.  The seed of a factory is the clock.  For a factory without a
    callback, over a node without [ZodUuid] and function nodes and with pure
    transforms and default thunks, two calls made at the same clock reading
    have the same outcome, whatever else the two states hold; and so have
    two calls of [raw], and of [create], with the same attributes. *)
Theorem factory_follows_clock fuel s attributes w1 w2 :
  seed_stable s = true ->
  now (user w1) = now (user w2) ->
  fst (mockFactory C fuel (factory s None) w1)
  = fst (mockFactory C fuel (factory s None) w2) /\
  fst (raw C fuel (factory s None) attributes w1)
  = fst (raw C fuel (factory s None) attributes w2) /\
  fst (create C fuel (factory s None) attributes w1)
  = fst (create C fuel (factory s None) attributes w2).
Proof.
  intros Hs Hnow.
  assert (Hmock : fst (mockFactory C fuel (factory s None) w1)
                  = fst (mockFactory C fuel (factory s None) w2)).
  { rewrite !mockFactory_outcome.
    pose proof (sa_generateMock C Hlazy Htransform Hdefault true
                  (fun _ _ => False) ltac:(intros ? ? [])
                  (next_faker (user w1)) (next_faker (user w2)) fuel s Hs
                  no_options
                  (steady_without_functions C no_options
                     eq_refl eq_refl eq_refl)
                  (or_introl eq_refl)
                  (seeded_start w1) (seeded_start w2)
                  (seeded_start_agree w1 w2 Hnow)) as [Hsame _].
    apply same_outcome_eq in Hsame. rewrite Hsame. reflexivity. }
  split; [exact Hmock|].
  unfold raw, create, bind.
  destruct (mockFactory C fuel (factory s None) w1) as [x1 w1'],
           (mockFactory C fuel (factory s None) w2) as [x2 w2'].
  simpl in Hmock. subst x2.
  destruct x1 as [m|e|]; simpl; [|split; reflexivity..].
  split; [reflexivity|].
  destruct (safeParse _ _); reflexivity.
Qed.

End FactoryClock.

(** ** Concrete runs of the further properties *)

(** [lru_evicts_least_recent] at the cache [a, b, c] of capacity three:
    setting [d] drops [a]; after a [get] of [a], it drops [b] and keeps
    [a]. *)
Lemma lru_evicts_least_recent_witness :
  List.NoDup (map fst (LRUCache.cache Examples.abc)) /\
  LRUCache.cache Examples.abc = [("a", 1); ("b", 2); ("c", 3)] /\
  LRUCache.maxSize Examples.abc
    <= Z.of_nat (length (LRUCache.cache Examples.abc)) /\
  LRUCache.map_get "d" (LRUCache.cache Examples.abc) = None /\
  LRUCache.map_get "a"
    (LRUCache.cache (LRUCache.set "d" 4 Examples.abc)) = None /\
  LRUCache.map_get "a"
    (LRUCache.cache
       (LRUCache.set "d" 4 (snd (LRUCache.get "a" Examples.abc)))) = Some 1 /\
  LRUCache.map_get "b"
    (LRUCache.cache
       (LRUCache.set "d" 4 (snd (LRUCache.get "a" Examples.abc)))) = None.
Proof.
  assert (Hnd : List.NoDup (map fst (LRUCache.cache Examples.abc))).
  { vm_compute. repeat constructor; simpl; intuition discriminate. }
  assert (Hfull : LRUCache.maxSize Examples.abc
                  <= Z.of_nat (length (LRUCache.cache Examples.abc)))
    by (vm_compute; discriminate).
  assert (Hc : LRUCache.cache Examples.abc = [("a", 1); ("b", 2); ("c", 3)])
    by reflexivity.
  assert (Hnew : LRUCache.map_get "d" (LRUCache.cache Examples.abc) = None)
    by reflexivity.
  destruct (lru_evicts_least_recent "d" 4 "a" 1 [("b", 2); ("c", 3)]
              Examples.abc Hnd Hc Hfull Hnew) as [Hfirst Hsecond].
  split; [exact Hnd|]. split; [reflexivity|]. split; [exact Hfull|].
  split; [reflexivity|]. split; [|split].
  - rewrite (Hfirst "a"). reflexivity.
  - rewrite (Hsecond "b" 2 [("c", 3)] eq_refl "a"). reflexivity.
  - rewrite (Hsecond "b" 2 [("c", 3)] eq_refl "b"). reflexivity.
Defined.

(** [array_length_bounds] at [array(boolean()).min(2).max(4)]. *)
Lemma array_length_bounds_witness :
  default 0 (currentDepth no_options) < default 10 (maxDepth no_options) /\
  backup_lookup no_options "ZodUndefined" = None /\
  exists xs,
    fst (generateMock Sample.callbacks 4
           (ZodArray ZodBoolean (Some 2) (Some 4) None) no_options
           (Sample.world0 7 0))
    = Ret (VArr xs) /\
    2 <= Z.of_nat (length xs) <= 4.
Proof.
  split; [reflexivity|]. split; [reflexivity|].
  destruct (array_length_bounds Sample.callbacks 3 ZodBoolean (Some 2)
              (Some 4) None no_options (Sample.world0 7 0)
              eq_refl eq_refl) as [Hbounds Hreturns].
  destruct Hreturns as (xs & Hxs).
  { intros w0.
    destruct (boolean_node_returns Sample.callbacks 2
                (nested_options
                   (next_faker (user (Sample.world0 7 0))) no_options) w0)
      as (y & w1 & Hy).
    eauto. }
  exists xs. split; [exact Hxs|].
  destruct (Hbounds _ Hxs) as (xs' & Heq & Hlen & _).
  injection Heq as <-. exact Hlen.
Defined.

(** [set_size_bounds] at [set(boolean()).max(1)]. *)
Lemma set_size_bounds_witness :
  default 0 (currentDepth no_options) < default 10 (maxDepth no_options) /\
  exists xs,
    fst (generateMock Sample.callbacks 4 (ZodSet ZodBoolean None (Some 1))
           no_options (Sample.world0 7 0))
    = Ret (VSet xs) /\
    Z.of_nat (length xs) = 1 /\
    distinct_members xs.
Proof.
  split; [reflexivity|].
  destruct (set_size_bounds Sample.callbacks 3 ZodBoolean None (Some 1)
              no_options (Sample.world0 7 0) eq_refl) as [Hbounds Hreturns].
  destruct Hreturns as (xs & Hxs).
  { vm_compute. discriminate. }
  { intros w0.
    destruct (boolean_node_returns Sample.callbacks 2
                (nested_options
                   (next_faker (user (Sample.world0 7 0))) no_options) w0)
      as (y & w1 & Hy).
    eauto. }
  exists xs. split; [exact Hxs|].
  destruct (Hbounds _ Hxs) as (xs' & Heq & Hlen & Hdis & _).
  injection Heq as <-. split; [|exact Hdis].
  change (set_min None (Some 1)) with 1 in Hlen.
  change (set_max (Some 1)) with 1 in Hlen. lia.
Defined.

(** [union_picks_alternative] at [union([boolean(), number()])]. *)
Lemma union_picks_alternative_witness :
  fst (generateMock Sample.callbacks 4
         (union_node false [ZodBoolean; ZodNumber []]) no_options
         (Sample.world0 7 0))
  = Ret (VBool true) /\
  exists alt,
    In alt [ZodBoolean; ZodNumber []] /\
    generated
      (generateMock Sample.callbacks 3 alt
         (defaultOptions (next_faker (user (Sample.world0 7 0))) no_options))
      (VBool true).
Proof.
  assert (Hrun : fst (generateMock Sample.callbacks 4
                        (union_node false [ZodBoolean; ZodNumber []])
                        no_options (Sample.world0 7 0))
                 = Ret (VBool true)) by (vm_compute; reflexivity).
  split; [exact Hrun|].
  destruct (union_picks_alternative Sample.callbacks 3 false
              [ZodBoolean; ZodNumber []] no_options (Sample.world0 7 0)
              (VBool true) Hrun) as [[Hempty _]|Halt];
    [discriminate | exact Halt].
Defined.

(** [object_follows_shape] at the node [{ uid, age }]. *)
Lemma object_follows_shape_witness :
  default 0 (currentDepth no_options) < default 10 (maxDepth no_options) /\
  List.NoDup (map fst [("uid", ZodString [Sample.bound "min" 1]);
                       ("age", ZodNumber [Sample.bound "min" 18;
                                          Sample.bound "max" 120])]) /\
  fst (generateMock Sample.callbacks 4 Sample.user_node no_options
         (Sample.world0 7 0))
  = Ret (VObj [("uid", VStr "uuid-238199713"); ("age", VNum 107)]) /\
  exists props,
    VObj [("uid", VStr "uuid-238199713"); ("age", VNum 107)] = VObj props /\
    map fst props = ["uid"; "age"].
Proof.
  assert (Hnd : List.NoDup
                  (map fst [("uid", ZodString [Sample.bound "min" 1]);
                            ("age", ZodNumber [Sample.bound "min" 18;
                                               Sample.bound "max" 120])])).
  { repeat constructor; simpl; intuition discriminate. }
  assert (Hrun : fst (generateMock Sample.callbacks 4 Sample.user_node
                        no_options (Sample.world0 7 0))
                 = Ret (VObj [("uid", VStr "uuid-238199713"); ("age", VNum 107)]))
    by (vm_compute; reflexivity).
  split; [reflexivity|]. split; [exact Hnd|]. split; [exact Hrun|].
  destruct (object_follows_shape Sample.callbacks 3 _ no_options
              (Sample.world0 7 0) eq_refl Hnd) as [Hshape _].
  destruct (Hshape _ Hrun) as (props & Heq & Hkeys & _).
  exists props. split; [exact Heq | exact Hkeys].
Defined.

(** [intersection_merges] at [{ a, b } & { b: 'x' }]: the right side
    gives [b]. *)
Lemma intersection_merges_witness :
  fst (generateMock Sample.callbacks 4
         (ZodIntersection
            (ZodObject [("a", ZodBoolean); ("b", ZodNumber [])])
            (ZodObject [("b", ZodLiteral (LStr "x"))]))
         no_options (Sample.world0 7 0))
  = Ret (VObj [("a", VBool true); ("b", VStr "x")]) /\
  exists left right,
    generated
      (generateMock Sample.callbacks 3
         (ZodObject [("a", ZodBoolean); ("b", ZodNumber [])])
         (defaultOptions (next_faker (user (Sample.world0 7 0))) no_options))
      left /\
    generated
      (generateMock Sample.callbacks 3
         (ZodObject [("b", ZodLiteral (LStr "x"))])
         (defaultOptions (next_faker (user (Sample.world0 7 0))) no_options))
      right.
Proof.
  assert (Hrun : fst (generateMock Sample.callbacks 4
                        (ZodIntersection
                           (ZodObject [("a", ZodBoolean); ("b", ZodNumber [])])
                           (ZodObject [("b", ZodLiteral (LStr "x"))]))
                        no_options (Sample.world0 7 0))
                 = Ret (VObj [("a", VBool true); ("b", VStr "x")]))
    by (vm_compute; reflexivity).
  split; [exact Hrun|].
  destruct (intersection_merges Sample.callbacks 3 _ _ no_options
              (Sample.world0 7 0) _ Hrun) as (left & right & Hl & Hr & _).
  exists left, right. split; [exact Hl | exact Hr].
Defined.

(** [literal_collections_starve] at [set(literal('x')).min(2)]. *)
Lemma literal_collections_starve_witness :
  default 0 (currentDepth no_options) < default 10 (maxDepth no_options) /\
  2 <= set_min (Some 2) None /\
  fst (generateMock Sample.callbacks 40
         (ZodSet (ZodLiteral (LStr "x")) (Some 2) None) no_options
         (Sample.world0 7 0))
  = Diverge.
Proof.
  split; [reflexivity|]. split; [vm_compute; discriminate|].
  apply (proj1 (literal_collections_starve Sample.callbacks 40 (LStr "x")
                  no_options (Sample.world0 7 0) eq_refl)).
  vm_compute. discriminate.
Defined.

(** [seeded_array_repeats] at [array(number().min(1).max(50)).min(3).max(6)]
    with seed 42: five times the same number. *)
Lemma seeded_array_repeats_witness :
  seed (Sample.seeded 42) = Some (SeedNumber 42) /\
  default 0 (currentDepth (Sample.seeded 42))
    < default 10 (maxDepth (Sample.seeded 42)) /\
  fst (generateMock Sample.callbacks 5
         (ZodArray
            (ZodNumber [Sample.bound "min" 1; Sample.bound "max" 50])
            (Some 3) (Some 6) None)
         (Sample.seeded 42) (Sample.world0 7 0))
  = Ret (VArr [VNum 43; VNum 43; VNum 43; VNum 43; VNum 43]).
Proof.
  split; [reflexivity|]. split; [reflexivity|].
  rewrite (seeded_array_repeats Sample.callbacks 3
             [Sample.bound "min" 1; Sample.bound "max" 50]
             (Some 3) (Some 6) None (Sample.seeded 42) (SeedNumber 42)
             (Sample.world0 7 0) eq_refl eq_refl).
  vm_compute. reflexivity.
Defined.

(** [state_later_wins] at a factory without callback, with the states
    [{ role: 'admin' }] and then [{ role: 'owner', age: 40 }]. *)
Lemma state_later_wins_witness :
  as_function (VObj [("role", VStr "admin")]) = None /\
  as_function (VObj [("role", VStr "owner"); ("age", VNum 40)]) = None /\
  List.NoDup (map fst (own_props (VObj [("role", VStr "admin")]))) /\
  List.NoDup
    (map fst (own_props (VObj [("role", VStr "owner"); ("age", VNum 40)]))) /\
  callback_result (factory Sample.user_node None) 1%nat (Sample.world0 7 0)
  = (Ret VUndefined, Sample.world0 7 0) /\
  exists props,
    callback_result
      (state Sample.callbacks 4
         (state Sample.callbacks 4 (factory Sample.user_node None)
            (Attributes (VObj [("role", VStr "admin")])))
         (Attributes (VObj [("role", VStr "owner"); ("age", VNum 40)])))
      1%nat (Sample.world0 7 0)
    = (Ret (VObj props), Sample.world0 7 0) /\
    assoc "role" props = Some (VStr "owner") /\
    assoc "age" props = Some (VNum 40).
Proof.
  assert (Hnda : List.NoDup
                   (map fst (own_props (VObj [("role", VStr "admin")])))).
  { repeat constructor; simpl; intuition discriminate. }
  assert (Hndb : List.NoDup
                   (map fst (own_props (VObj [("role", VStr "owner");
                                              ("age", VNum 40)])))).
  { repeat constructor; simpl; intuition discriminate. }
  split; [reflexivity|]. split; [reflexivity|]. split; [exact Hnda|].
  split; [exact Hndb|]. split; [reflexivity|].
  destruct (state_later_wins Sample.callbacks 4
              (factory Sample.user_node None)
              (VObj [("role", VStr "admin")])
              (VObj [("role", VStr "owner"); ("age", VNum 40)])
              1%nat (Sample.world0 7 0) VUndefined (Sample.world0 7 0)
              eq_refl eq_refl Hnda Hndb eq_refl) as (props & Hrun & Hprops).
  exists props. split; [exact Hrun|]. split.
  - rewrite (Hprops "role"). reflexivity.
  - rewrite (Hprops "age"). reflexivity.
Defined.

(** [factory_follows_clock] at the node [{ uid, age }], for two states
    whose Faker instances differ and whose clocks agree. *)
Lemma factory_follows_clock_witness :
  seed_stable Sample.user_node = true /\
  now (user (Sample.world0 7 1000)) = now (user (Sample.world0 8 1000)) /\
  fst (@mockFactory _ Examples.validator Sample.callbacks 5
         (factory Sample.user_node None) (Sample.world0 7 1000))
  = fst (@mockFactory _ Examples.validator Sample.callbacks 5
           (factory Sample.user_node None) (Sample.world0 8 1000)).
Proof.
  split; [reflexivity|]. split; [reflexivity|].
  apply (@factory_follows_clock _ Examples.validator Sample.callbacks
           sample_getters_stable sample_transform_pure sample_default_pure
           5 Sample.user_node VUndefined
           (Sample.world0 7 1000) (Sample.world0 8 1000));
    reflexivity.
Defined.

(** The callbacks and the Faker functions of the examples return or
    throw, and the getter of [Examples.callbacks] yields a node without
    sets and maps. *)
Lemma examples_callbacks_terminate : terminating_callbacks Examples.callbacks.
Proof.
  repeat split; intros; simpl; try discriminate.
  destruct f; simpl; discriminate.
Qed.

Lemma sample_catalog_terminates : @terminating_catalog Sample.env.
Proof.
  intros section members name fn t r Hsec Hmem. simpl in Hsec.
  repeat (destruct Hsec as [Hsec|Hsec];
          [injection Hsec as <- <-; simpl in Hmem;
           repeat (destruct Hmem as [Hmem|Hmem];
                   [injection Hmem as <- <-; simpl; discriminate|]);
           destruct Hmem|]).
  destruct Hsec.
Qed.

Lemma examples_getters_loop_free g :
  loop_free (getter_fn Examples.callbacks g) = true.
Proof. reflexivity. Qed.

(** [generateMock_terminates] at the self-referential node
    [Node = object({ value: number(), next: lazy(() => Node) })]. *)
Lemma generateMock_terminates_witness :
  loop_free (ZodLazy 0%nat) = true /\
  exists N, forall fuel w,
    (N <= fuel)%nat ->
    fst (generateMock Examples.callbacks fuel (ZodLazy 0%nat) no_options w)
    <> Diverge.
Proof.
  split; [reflexivity|].
  apply (generateMock_terminates Examples.callbacks
           examples_callbacks_terminate sample_catalog_terminates
           examples_getters_loop_free (ZodLazy 0%nat) no_options).
  reflexivity.
Defined.

(** [string_node_yields_string] at a field named [number], which matches
    Faker's [number.int]: the number is turned into a string. *)
Lemma string_node_yields_string_witness :
  stringMap_generator (set_keyName "number" no_options) = None /\
  fst (generateMock Sample.callbacks 4 (ZodString [])
         (set_keyName "number" no_options) (Sample.world0 7 0))
  = Ret (VStr "13") /\
  (VStr "13" = VUndefined \/ exists str, VStr "13" = VStr str).
Proof.
  assert (Hrun : fst (generateMock Sample.callbacks 4 (ZodString [])
                        (set_keyName "number" no_options) (Sample.world0 7 0))
                 = Ret (VStr "13")) by (vm_compute; reflexivity).
  split; [reflexivity|]. split; [exact Hrun|].
  exact (string_node_yields_string Sample.callbacks 3 []
           (set_keyName "number" no_options) (Sample.world0 7 0) (VStr "13")
           eq_refl Hrun).
Defined.

(** [unknown_type_uses_backup] at a [ZodAny] node with a backup mock
    registered under [ZodAny]. *)
Lemma unknown_type_uses_backup_witness :
  builtin (typeName (ZodOther "ZodAny")) = false /\
  backup_lookup (Sample.with_backup "ZodAny" 0%nat)
    (typeName (ZodOther "ZodAny")) = Some 0%nat /\
  fst (generateMock Sample.callbacks 3 (ZodOther "ZodAny")
         (Sample.with_backup "ZodAny" 0%nat) (Sample.world0 7 0))
  = Ret (VStr "not undefined").
Proof.
  assert (Hb : builtin (typeName (ZodOther "ZodAny")) = false)
    by reflexivity.
  assert (Hf : backup_lookup (Sample.with_backup "ZodAny" 0%nat)
                 (typeName (ZodOther "ZodAny")) = Some 0%nat)
    by (vm_compute; reflexivity).
  split; [exact Hb|]. split; [exact Hf|].
  apply (proj1 (unknown_type_uses_backup Sample.callbacks 2
                  (ZodOther "ZodAny") (Sample.with_backup "ZodAny" 0%nat)
                  0%nat (Sample.world0 7 0) Hb Hf)).
  reflexivity.
Defined.

(** [unknown_field_throws] at [{ flag: boolean(), mystery: any(),
    age: number() }] with [throwOnUnknownType]. *)
Lemma unknown_field_throws_witness :
  builtin (typeName (ZodOther "ZodAny")) = false /\
  backup_lookup Sample.strict (typeName (ZodOther "ZodAny")) = None /\
  throwOnUnknownType Sample.strict = Some true /\
  default 0 (currentDepth Sample.strict)
    < default 10 (maxDepth Sample.strict) /\
  fst (generateMock Sample.callbacks 4
         (ZodObject ([("flag", ZodBoolean)]
                     ++ ("mystery", ZodOther "ZodAny")
                        :: [("age", ZodNumber [])]))
         Sample.strict (Sample.world0 7 0))
  = Throw (ZodMockError "ZodAny").
Proof.
  split; [reflexivity|]. split; [reflexivity|]. split; [reflexivity|].
  split; [reflexivity|].
  apply (unknown_field_throws Sample.callbacks 2 [("flag", ZodBoolean)]
           "mystery" (ZodOther "ZodAny") [("age", ZodNumber [])]
           Sample.strict (Sample.world0 7 0));
    try reflexivity.
  intros field w0 [<-|[]].
  destruct (boolean_node_returns Sample.callbacks 2
              (set_keyName "flag"
                 (nested_options (next_faker (user (Sample.world0 7 0)))
                    Sample.strict)) w0) as (y & w1 & Hy).
  eauto.
Defined.

(** The callbacks and the Faker functions of the examples throw no
    [ZodMockError]. *)
Lemma sample_callbacks_polite : polite_callbacks Sample.callbacks.
Proof.
  repeat split; intros; intros [m H]; simpl in H; try discriminate.
  destruct f; simpl in H; discriminate.
Qed.

Lemma examples_callbacks_polite : polite_callbacks Examples.callbacks.
Proof.
  repeat split; intros; intros [m H]; simpl in H; try discriminate.
  destruct f; simpl in H; discriminate.
Qed.

Lemma sample_catalog_polite : @polite_catalog Sample.env.
Proof.
  intros section members name fn t r Hsec Hmem [m H]. simpl in Hsec.
  repeat (destruct Hsec as [Hsec|Hsec];
          [injection Hsec as <- <-; simpl in Hmem;
           repeat (destruct Hmem as [Hmem|Hmem];
                   [injection Hmem as <- <-; simpl in H; discriminate|]);
           destruct Hmem|]).
  destruct Hsec.
Qed.



(** The callbacks of the examples do not touch the state. *)
Lemma sample_callbacks_discreet : discreet_callbacks Sample.callbacks.
Proof.
  repeat split; intros; simpl; try assumption;
    destruct f; simpl; try reflexivity; assumption.
Qed.



(** [findMatchingFaker_exact_member] at the field names [Constructor] and
    [__proto__], for which the default mapper returns an inherited member:
    a string field of the first name yields the text of an empty object, one
    of the second name yields [undefined]. *)
Lemma findMatchingFaker_exact_member_witness :
  defaultMapper "Constructor" = Some ObjectConstructor /\
  findMatchingFaker Sample.callbacks "Constructor" (Some 1%nat) None
    (Sample.world0 7 0)
  = (Ret (Some ObjectConstructor), Sample.world0 7 0) /\
  defaultMapper "__proto__" = Some ObjectPrototype /\
  findMatchingFaker Sample.callbacks "__proto__" (Some 1%nat) None
    (Sample.world0 7 0)
  = (Ret (Some ObjectPrototype), Sample.world0 7 0) /\
  Sample.run (ZodString []) (set_keyName "Constructor" no_options) 7 0
  = Ret (VStr "[object Object]") /\
  Sample.run (ZodString []) (set_keyName "__proto__" no_options) 7 0
  = Ret VUndefined.
Proof.
  split; [reflexivity|]. split.
  { apply (findMatchingFaker_exact_member Sample.callbacks "Constructor"
             (Some 1%nat) (Sample.world0 7 0)).
    reflexivity. }
  split; [reflexivity|]. split.
  { apply (findMatchingFaker_exact_member Sample.callbacks "__proto__"
             (Some 1%nat) (Sample.world0 7 0)).
    reflexivity. }
  split; vm_compute; reflexivity.
Defined.

(** [date_open_ranges] at [date().min(0)], and at the latest date there is,
    [date().min(8640000000000000)], for which the result is the Invalid
    Date. *)
Lemma date_open_ranges_witness :
  (exists t,
     fst (generateMock Sample.callbacks 1
            (ZodDate [Check "min" (DateNum 0) None]) no_options
            (Sample.world0 7 0)) = Ret (VDate t) /\
     1000 <= t <= day_ms) /\
  fst (generateMock Sample.callbacks 1
         (ZodDate [Check "min" (DateNum MAX_TIME) None]) no_options
         (Sample.world0 7 0)) = Ret VInvalidDate.
Proof.
  split.
  - destruct (date_open_ranges Sample.callbacks 0 false 0 no_options
                (Sample.world0 7 0)) as ((t & Ht & Hr) & _).
    change (default (now (user (Sample.world0 7 0))) (time_clip 0)) with 0
      in Hr.
    cbn [date_bound] in Ht. exists t. rewrite Ht.
    rewrite time_clip_valid
      by (unfold valid_time, MAX_TIME, day_ms in *; lia).
    split; [reflexivity | lia].
  - destruct (date_open_ranges Sample.callbacks 0 false MAX_TIME no_options
                (Sample.world0 7 0)) as ((t & Ht & Hr) & _).
    change (default (now (user (Sample.world0 7 0))) (time_clip MAX_TIME))
      with MAX_TIME in Hr.
    cbn [date_bound] in Ht. rewrite Ht.
    rewrite time_clip_invalid by (unfold valid_time; lia).
    reflexivity.
Defined.
